(** * three2six / lib3to6: the fixers of [src/three2six/fixers.py]

    A shallow embedding of the version-gated fixers and of the
    [UnpackingGeneralizationsFixer] rewrite engine, followed by the
    properties of the specification that were checked against it.

    Python objects reachable from an [ast.Module] are embedded as the
    type [pyobj]: an [ast.AST] instance is a class name with its fields
    in [_fields] order (what [ast.iter_fields] yields), a Python list
    is a list, and the primitives that occur as field values are kept
    as they are.  The input tree is a tree (the parser shares no
    mutable node); where the fixer itself creates sharing
    ([make_temp_lambda_as_def] keeps the [args] object of the lambda
    it replaces, [apply_body_updates] mutates statements that the body
    list refers to) the embedding tracks the object identity that
    matters, see [make_single_field_update] and [body_pass]. *)

From Stdlib Require Import ZArith String Ascii List Bool Lia Sorted Permutation.
From stdpp Require Import base list strings gmap pretty.

(** ** Python values *)

#[local] Unset Elimination Schemes.

Inductive pyobj : Type :=
| PyNone
| PyBool (b : bool)
| PyNum (n : Z)
| PyStr (s : string)
| PyList (items : list pyobj)
| Node (cls : string) (fields : list (string * pyobj)).

#[local] Set Elimination Schemes.

Inductive exn : Type :=
| TypeError (msg : string)
| AttributeError (msg : string)
| AssertionError (msg : string)
| IndexError (msg : string)
| NameError (msg : string)
| Exception (msg : string).

(** The outcome of a call: a value, a raised exception, or the
    embedding's recursion budget ran out ([OutOfFuel] is no behaviour
    of the program). *)
Inductive result (A : Type) : Type :=
| Ok (a : A)
| Raise (e : exn)
| OutOfFuel.

Arguments Ok {A} a.
Arguments Raise {A} e.
Arguments OutOfFuel {A}.

#[global] Instance result_ret : MRet result := fun A a => Ok a.
#[global] Instance result_bind : MBind result := fun A B f m =>
  match m with
  | Ok a => f a
  | Raise e => Raise e
  | OutOfFuel => OutOfFuel
  end.

Definition str_mem (s : string) (l : list string) : bool :=
  existsb (String.eqb s) l.

Definition is_list (v : pyobj) : bool :=
  match v with PyList _ => true | _ => false end.

Definition is_ast (v : pyobj) : bool :=
  match v with Node _ _ => true | _ => false end.

Definition is_none (v : pyobj) : bool :=
  match v with PyNone => true | _ => false end.

(** [isinstance(v, (C1, ..., Cn))] for [ast] classes (none of the
    classes tested in the source has a subclass). *)
Definition isinstance (v : pyobj) (classes : list string) : bool :=
  match v with
  | Node c _ => str_mem c classes
  | _ => false
  end.

Fixpoint lookup_field (name : string) (fs : list (string * pyobj)) : option pyobj :=
  match fs with
  | [] => None
  | (n, v) :: fs' => if String.eqb n name then Some v else lookup_field name fs'
  end.

Definition getattr (v : pyobj) (name : string) : result pyobj :=
  match v with
  | Node _ fs =>
      match lookup_field name fs with
      | Some x => Ok x
      | None => Raise (AttributeError name)
      end
  | _ => Raise (AttributeError name)
  end.

Fixpoint set_field (name : string) (x : pyobj) (fs : list (string * pyobj))
  : list (string * pyobj) :=
  match fs with
  | [] => []
  | (n, v) :: fs' =>
      if String.eqb n name then (n, x) :: fs' else (n, v) :: set_field name x fs'
  end.

(** [setattr(node, name, x)] as [ast.iter_fields] sees it afterwards:
    a field of the node is replaced; an attribute that is no field of
    the node (the source only does this to the [Name] that replaced a
    lambda) stays invisible to every later traversal. *)
Definition setattr (node : pyobj) (name : string) (x : pyobj) : pyobj :=
  match node with
  | Node c fs => Node c (set_field name x fs)
  | _ => node
  end.

(** [ast.iter_fields(node)]: reading [node._fields] fails on anything
    that is no [ast.AST]. *)
Definition iter_fields (node : pyobj) : result (list (string * pyobj)) :=
  match node with
  | Node _ fs => Ok fs
  | _ => Raise (AttributeError "_fields")
  end.

(** [for x in v] / [len(v)] where the grammar has a list. *)
Definition iter_list (v : pyobj) : result (list pyobj) :=
  match v with
  | PyList l => Ok l
  | _ => Raise (TypeError "object is not a list")
  end.

(** ** The [ast] constructors used by the fixers *)

Module ast.

Definition Load : pyobj := Node "Load" [].
Definition Store : pyobj := Node "Store" [].
Definition Del : pyobj := Node "Del" [].

Definition Name (id : string) (ctx : pyobj) : pyobj :=
  Node "Name" [("id", PyStr id); ("ctx", ctx)].
Definition Str (s : string) : pyobj := Node "Str" [("s", PyStr s)].
Definition Num (n : Z) : pyobj := Node "Num" [("n", PyNum n)].
Definition NameConstant (v : pyobj) : pyobj := Node "NameConstant" [("value", v)].
Definition List (elts : list pyobj) (ctx : pyobj) : pyobj :=
  Node "List" [("elts", PyList elts); ("ctx", ctx)].
Definition Tuple (elts : list pyobj) (ctx : pyobj) : pyobj :=
  Node "Tuple" [("elts", PyList elts); ("ctx", ctx)].
Definition Set_ (elts : list pyobj) : pyobj :=
  Node "Set" [("elts", PyList elts)].
(** [ast.Dict(keys=.., values=.., ctx=..)]: [ctx] is no field of [Dict]. *)
Definition Dict (keys values : list pyobj) : pyobj :=
  Node "Dict" [("keys", PyList keys); ("values", PyList values)].
Definition Starred (value ctx : pyobj) : pyobj :=
  Node "Starred" [("value", value); ("ctx", ctx)].
Definition Attribute (value : pyobj) (attr : string) (ctx : pyobj) : pyobj :=
  Node "Attribute" [("value", value); ("attr", PyStr attr); ("ctx", ctx)].
Definition Subscript (value slice ctx : pyobj) : pyobj :=
  Node "Subscript" [("value", value); ("slice", slice); ("ctx", ctx)].
Definition Index (value : pyobj) : pyobj := Node "Index" [("value", value)].
Definition keyword (arg value : pyobj) : pyobj :=
  Node "keyword" [("arg", arg); ("value", value)].
Definition Call (func : pyobj) (args keywords : pyobj) : pyobj :=
  Node "Call" [("func", func); ("args", args); ("keywords", keywords)].
Definition Lambda (args body : pyobj) : pyobj :=
  Node "Lambda" [("args", args); ("body", body)].
Definition arg (name : string) (annotation : pyobj) : pyobj :=
  Node "arg" [("arg", PyStr name); ("annotation", annotation)].
Definition arguments (args vararg kwonlyargs kw_defaults kwarg defaults : pyobj) : pyobj :=
  Node "arguments" [("args", args); ("vararg", vararg); ("kwonlyargs", kwonlyargs);
                    ("kw_defaults", kw_defaults); ("kwarg", kwarg);
                    ("defaults", defaults)].

Definition Assign (targets : list pyobj) (value : pyobj) : pyobj :=
  Node "Assign" [("targets", PyList targets); ("value", value)].
Definition Expr (value : pyobj) : pyobj := Node "Expr" [("value", value)].
Definition Return (value : pyobj) : pyobj := Node "Return" [("value", value)].
Definition Delete (targets : list pyobj) : pyobj :=
  Node "Delete" [("targets", PyList targets)].
Definition Pass : pyobj := Node "Pass" [].
(** [ast.FunctionDef(name=.., args=.., body=.., decorator_list=..)]:
    [returns] is not given, so [iter_fields] does not yield it. *)
Definition FunctionDef (name : string) (args : pyobj) (body : list pyobj)
    (decorator_list : list pyobj) : pyobj :=
  Node "FunctionDef" [("name", PyStr name); ("args", args); ("body", PyList body);
                      ("decorator_list", PyList decorator_list)].
Definition If (test : pyobj) (body orelse : list pyobj) : pyobj :=
  Node "If" [("test", test); ("body", PyList body); ("orelse", PyList orelse)].
Definition Module_ (body : list pyobj) : pyobj := Node "Module" [("body", PyList body)].
Definition ExceptHandler (type name : pyobj) (body : list pyobj) : pyobj :=
  Node "ExceptHandler" [("type", type); ("name", name); ("body", PyList body)].
Definition Try (body handlers orelse finalbody : list pyobj) : pyobj :=
  Node "Try" [("body", PyList body); ("handlers", PyList handlers);
              ("orelse", PyList orelse); ("finalbody", PyList finalbody)].
Definition ClassDef (name : string) (bases keywords body decorator_list : list pyobj)
  : pyobj :=
  Node "ClassDef" [("name", PyStr name); ("bases", PyList bases);
                   ("keywords", PyList keywords); ("body", PyList body);
                   ("decorator_list", PyList decorator_list)].
Definition AnnAssign (target annotation value : pyobj) (simple : Z) : pyobj :=
  Node "AnnAssign" [("target", target); ("annotation", annotation); ("value", value);
                    ("simple", PyNum simple)].
Definition JoinedStr (values : list pyobj) : pyobj :=
  Node "JoinedStr" [("values", PyList values)].
Definition FormattedValue (value : pyobj) (conversion : Z) (format_spec : pyobj) : pyobj :=
  Node "FormattedValue" [("value", value); ("conversion", PyNum conversion);
                         ("format_spec", format_spec)].

End ast.

(** ** Field order of the traversal *)

Definition STMTLIST_FIELD_NAMES : list string := ["body"; "orelse"; "finalbody"].

Definition node_field_sort_key (elem : string * pyobj) : bool * string :=
  let '(field_name, field) := elem in
  (negb (str_mem field_name STMTLIST_FIELD_NAMES), field_name).

(** [a < b] on the key tuples: Python compares the first components
    that differ, [False < True], and [str] by code point. *)
Definition key_lt (a b : bool * string) : bool :=
  match a.1, b.1 with
  | false, true => true
  | true, false => false
  | _, _ => String.ltb a.2 b.2
  end.

Fixpoint insert_sorted {A : Type} (lt : A -> A -> bool) (x : A) (l : list A) : list A :=
  match l with
  | [] => [x]
  | y :: l' => if lt y x then y :: insert_sorted lt x l' else x :: y :: l'
  end.

(** [sorted(l, key=key)]: a stable sort that only uses [<] on keys. *)
Definition sorted {A K : Type} (key : A -> K) (lt : K -> K -> bool) (l : list A) : list A :=
  foldr (insert_sorted (fun a b => lt (key a) (key b))) [] l.

Definition sorted_fields (fs : list (string * pyobj)) : list (string * pyobj) :=
  sorted node_field_sort_key key_lt fs.

Definition is_block_field (field_name : string) (field : pyobj) : bool :=
  str_mem field_name STMTLIST_FIELD_NAMES && is_list field.

Definition ArgUnpackNodes : list string := ["Call"; "List"; "Tuple"; "Set"].
Definition KwArgUnpackNodes : list string := ["Call"; "Dict"].

(** [ValNodeUpdate]: hoisted statements, the replacement expression
    and the deletions of the temporaries. *)
Definition ValNodeUpdate : Type := list pyobj * pyobj * list pyobj.

Definition make_temp_lambda_as_def (lambda_node : pyobj) (body : list pyobj)
    (name : string) : result pyobj :=
  lambda_body ← getattr lambda_node "body";
  let body := body ++ [ast.Return lambda_body] in
  lambda_args ← getattr lambda_node "args";
  Ok (ast.FunctionDef name lambda_args body []).

(** ** UnpackingGeneralizationsFixer *)

(** The fixer instance's [_tmp_var_index]. *)
Definition tmp_var_index : Type := nat.

Fixpoint starred_scan (has_starred_arg : bool) (elts : list pyobj) : bool :=
  match elts with
  | [] => false
  | arg :: rest =>
      if has_starred_arg then true
      else starred_scan (isinstance arg ["Starred"]) rest
  end.

Definition has_args_unpacking (val_node : pyobj) : result bool :=
  elts ← (if isinstance val_node ["Call"] then getattr val_node "args"
          else if isinstance val_node ["List"; "Tuple"; "Set"]
               then getattr val_node "elts"
               else Raise (TypeError "Unexpected val_node"));
  elts ← iter_list elts;
  Ok (starred_scan false elts).

Fixpoint kwstarred_scan (key_of : pyobj -> result pyobj) (has_kwstarred_arg : bool)
    (items : list pyobj) : result bool :=
  match items with
  | [] => Ok false
  | kw :: rest =>
      if has_kwstarred_arg then Ok true
      else key ← key_of kw; kwstarred_scan key_of (is_none key) rest
  end.

Definition has_kwargs_unpacking (val_node : pyobj) : result bool :=
  if isinstance val_node ["Call"] then
    keywords ← getattr val_node "keywords";
    keywords ← iter_list keywords;
    kwstarred_scan (fun kw => getattr kw "arg") false keywords
  else if isinstance val_node ["Dict"] then
    keys ← getattr val_node "keys";
    keys ← iter_list keys;
    kwstarred_scan Ok false keys
  else Raise (TypeError "Unexpected val_node").

Definition upg_args_name (i : tmp_var_index) : string := "upg_args_" +:+ pretty i.
Definition upg_kwargs_name (i : tmp_var_index) : string := "upg_kwargs_" +:+ pretty i.

(** The statement [<tmp>.<func_name>(<args>)]. *)
Definition method_call_stmt (tmp func_name : string) (args : list pyobj) : pyobj :=
  ast.Expr (ast.Call (ast.Attribute (ast.Name tmp ast.Load) func_name ast.Load)
                     (PyList args) (PyList [])).

(** The loop [for arg in elts] of [expand_args_unpacking]: one hoisted
    statement per element. *)
Fixpoint args_prefix_nodes (tmp : string) (elts : list pyobj) : result (list pyobj) :=
  match elts with
  | [] => Ok []
  | arg :: rest =>
      stmt ← (if isinstance arg ["Starred"]
              then value ← getattr arg "value";
                   Ok (method_call_stmt tmp "extend" [value])
              else Ok (method_call_stmt tmp "append" [arg]));
      stmts ← args_prefix_nodes tmp rest;
      Ok (stmt :: stmts)
  end.

Definition expand_args_unpacking (idx : tmp_var_index) (val_node : pyobj)
  : result (tmp_var_index * ValNodeUpdate) :=
  let upg_args_name := upg_args_name idx in
  let idx := S idx in
  let init := ast.Assign [ast.Name upg_args_name ast.Store] (ast.List [] ast.Load) in
  '(new_val_func, new_val_keywords, elts) ←
     (if isinstance val_node ["Call"] then
        func ← getattr val_node "func";
        keywords ← getattr val_node "keywords";
        args ← getattr val_node "args";
        Ok (func, keywords, args)
      else if isinstance val_node ["List"] then
        elts ← getattr val_node "elts"; Ok (ast.Name "list" ast.Load, PyList [], elts)
      else if isinstance val_node ["Tuple"] then
        elts ← getattr val_node "elts"; Ok (ast.Name "tuple" ast.Load, PyList [], elts)
      else if isinstance val_node ["Set"] then
        elts ← getattr val_node "elts"; Ok (ast.Name "set" ast.Load, PyList [], elts)
      else Raise (TypeError "Unexpected val_node"));
  elts ← iter_list elts;
  stmts ← args_prefix_nodes upg_args_name elts;
  let new_val_node :=
    ast.Call new_val_func
             (PyList [ast.Starred (ast.Name upg_args_name ast.Load) ast.Load])
             new_val_keywords in
  let del_node := ast.Delete [ast.Name upg_args_name ast.Del] in
  Ok (idx, (init :: stmts, new_val_node, [del_node])).

(** [add_items] of [expand_kwargs_unpacking]; [read] is the generator
    that produces the next (key, value) pair on demand. *)
Fixpoint add_items {X : Type} (read : X -> result (pyobj * pyobj)) (tmp : string)
    (val_node_items : list X) : result (list pyobj) :=
  match val_node_items with
  | [] => Ok []
  | item :: rest =>
      '(key, val) ← read item;
      stmt ← (if is_none key then Ok (method_call_stmt tmp "update" [val])
              else
                key_val ← (if isinstance key ["Str"] then Ok key
                           else match key with
                                | PyStr s => Ok (ast.Str s)
                                | _ => Raise (TypeError "Invalid dict key")
                                end);
                Ok (ast.Assign
                      [ast.Subscript (ast.Name tmp ast.Load) (ast.Index key_val) ast.Store]
                      val));
      stmts ← add_items read tmp rest;
      Ok (stmt :: stmts)
  end.

Definition expand_kwargs_unpacking (idx : tmp_var_index) (val_node : pyobj)
  : result (tmp_var_index * ValNodeUpdate) :=
  let upg_kwargs_name := upg_kwargs_name idx in
  let idx := S idx in
  let init := ast.Assign [ast.Name upg_kwargs_name ast.Store] (ast.Dict [] []) in
  '(stmts, args, replacement_func) ←
     (if isinstance val_node ["Call"] then
        keywords ← getattr val_node "keywords";
        keywords ← iter_list keywords;
        stmts ← add_items (fun kw => a ← getattr kw "arg";
                                     v ← getattr kw "value"; Ok (a, v))
                          upg_kwargs_name keywords;
        args ← getattr val_node "args";
        func ← getattr val_node "func";
        Ok (stmts, args, func)
      else if isinstance val_node ["Dict"] then
        keys ← getattr val_node "keys";
        values ← getattr val_node "values";
        keys ← iter_list keys;
        values ← iter_list values;
        stmts ← add_items Ok upg_kwargs_name (zip keys values);
        Ok (stmts, PyList [], ast.Name "dict" ast.Load)
      else Raise (TypeError "Unexpected val_node"));
  let new_val_node :=
    ast.Call replacement_func args
             (PyList [ast.keyword PyNone (ast.Name upg_kwargs_name ast.Load)]) in
  let del_node := ast.Delete [ast.Name upg_kwargs_name ast.Del] in
  Ok (idx, (init :: stmts, new_val_node, [del_node])).

Definition nonempty {A : Type} (l : list A) : bool :=
  negb (Nat.eqb (length l) 0).

Definition make_val_node_update (idx : tmp_var_index) (val_node : pyobj)
  : result (tmp_var_index * option ValNodeUpdate) :=
  '(idx, val_node, all_prefix_nodes, all_del_nodes) ←
     (if isinstance val_node ArgUnpackNodes then
        unpacking ← has_args_unpacking val_node;
        if (unpacking : bool) then
          '(idx, (prefix_nodes, new_val_node, del_nodes)) ←
             expand_args_unpacking idx val_node;
          still ← has_args_unpacking new_val_node;
          if (still : bool) then Raise (AssertionError "has_args_unpacking")
          else Ok (idx, new_val_node, prefix_nodes, del_nodes)
        else Ok (idx, val_node, [], [])
      else Ok (idx, val_node, [], []));
  '(idx, val_node, all_prefix_nodes, all_del_nodes) ←
     (if isinstance val_node KwArgUnpackNodes then
        unpacking ← has_kwargs_unpacking val_node;
        if (unpacking : bool) then
          '(idx, (prefix_nodes, new_val_node, del_nodes)) ←
             expand_kwargs_unpacking idx val_node;
          still ← has_kwargs_unpacking new_val_node;
          if (still : bool) then Raise (AssertionError "has_kwargs_unpacking")
          else Ok (idx, new_val_node, all_prefix_nodes ++ prefix_nodes,
                   all_del_nodes ++ del_nodes)
        else Ok (idx, val_node, all_prefix_nodes, all_del_nodes)
      else Ok (idx, val_node, all_prefix_nodes, all_del_nodes));
  if nonempty all_prefix_nodes then
    if nonempty all_del_nodes
    then Ok (idx, Some (all_prefix_nodes, val_node, all_del_nodes))
    else Raise (AssertionError "all_del_nodes")
  else Ok (idx, None).

(** *** Updates of expression fields

    An update carries, besides what the source returns, the state in
    which the call leaves the object it was given ([old]): the source
    mutates nodes in place, and one object that is replaced in the tree
    stays referenced, the [args] of a lambda turned into a definition. *)
Record FieldUpdate : Type := mkFieldUpdate {
  prefix_nodes : list pyobj;
  new_field : pyobj;
  del_nodes : list pyobj;
  old : pyobj
}.

Section field_updates.

(** The recursive call [self.make_single_field_update]. *)
Variable single : tmp_var_index -> pyobj -> result (tmp_var_index * option FieldUpdate).

(** The loop [for field_node in field_nodes] of
    [make_list_field_update]. *)
Fixpoint list_field_loop (idx : tmp_var_index) (field_nodes : list pyobj)
  : result (tmp_var_index * (list pyobj * list pyobj * list pyobj * list pyobj)) :=
  match field_nodes with
  | [] => Ok (idx, ([], [], [], []))
  | field_node :: rest =>
      '(idx, body_update) ← single idx field_node;
      '(idx, (all_prefix_nodes, new_field_nodes, all_del_nodes, olds)) ←
         list_field_loop idx rest;
      match body_update with
      | None =>
          Ok (idx, (all_prefix_nodes, field_node :: new_field_nodes, all_del_nodes,
                    field_node :: olds))
      | Some u =>
          Ok (idx, (prefix_nodes u ++ all_prefix_nodes,
                    new_field u :: new_field_nodes,
                    del_nodes u ++ all_del_nodes,
                    old u :: olds))
      end
  end.

Definition make_list_field_update (idx : tmp_var_index) (field_nodes : list pyobj)
  : result (tmp_var_index * option FieldUpdate) :=
  if Nat.eqb (length field_nodes) 0 then Ok (idx, None)
  else
    '(idx, (all_prefix_nodes, new_field_nodes, all_del_nodes, olds)) ←
       list_field_loop idx field_nodes;
    if nonempty all_prefix_nodes then
      if nonempty all_del_nodes && nonempty new_field_nodes
         && Nat.eqb (length new_field_nodes) (length field_nodes)
      then Ok (idx, Some (mkFieldUpdate all_prefix_nodes (PyList new_field_nodes)
                                        all_del_nodes (PyList olds)))
      else Raise (AssertionError "make_list_field_update")
    else Ok (idx, None).

(** [make_field_update(parent_node, field_name, field)]: the result
    holds [parent_node] after the [setattr], and in [new_field] the
    value it was given. *)
Definition make_field_update (idx : tmp_var_index) (parent_node : pyobj)
    (field_name : string) (field : pyobj)
  : result (tmp_var_index * option (pyobj * FieldUpdate)) :=
  '(idx, maybe_body_update) ←
     (match field with
      | PyList l => make_list_field_update idx l
      | _ => single idx field
      end);
  match maybe_body_update with
  | None => Ok (idx, None)
  | Some u => Ok (idx, Some (setattr parent_node field_name (new_field u), u))
  end.

Definition TEMP_LAMBDA_NAME : string := "temp_lambda_as_def".

(** The state of the loop over [sub_fields] in
    [make_single_field_update]. [lambda_obj] is the lambda object once
    it has been turned into a definition; from then on [field_node] is
    the [Name] that replaces it and the definition, the first of
    [all_prefix_nodes], shares the lambda's [args] object. *)
Record sub_state : Type := mkSubState {
  ss_idx : tmp_var_index;
  ss_field_node : pyobj;
  ss_all_prefix_nodes : list pyobj;
  ss_all_del_nodes : list pyobj;
  ss_lambda_obj : option pyobj
}.

(** What the definition made from a lambda sees when the [args] object
    it shares is updated after the conversion. *)
Definition sync_shared_args (s : sub_state) (sub_field_name : string) (u : FieldUpdate)
  : list pyobj :=
  match ss_lambda_obj s, ss_all_prefix_nodes s with
  | Some _, temp_func_def :: rest =>
      if String.eqb sub_field_name "args"
      then setattr temp_func_def "args" (old u) :: rest
      else ss_all_prefix_nodes s
  | _, _ => ss_all_prefix_nodes s
  end.

Definition sub_field_step (s : sub_state) (sub_field_name : string) (sub_field : pyobj)
  : result sub_state :=
  if is_block_field sub_field_name sub_field
  then Raise (AssertionError "Unexpected block field")
  else if negb (is_list sub_field || is_ast sub_field) then Ok s
  else
    '(idx, maybe_body_update) ←
       make_field_update (ss_idx s) (ss_field_node s) sub_field_name sub_field;
    match maybe_body_update with
    | None => Ok (mkSubState idx (ss_field_node s) (ss_all_prefix_nodes s)
                             (ss_all_del_nodes s) (ss_lambda_obj s))
    | Some (field_node, u) =>
        let all_prefix_nodes := sync_shared_args s sub_field_name u in
        if isinstance field_node ["Lambda"] then
          temp_func_def ← make_temp_lambda_as_def field_node (prefix_nodes u)
                                                  TEMP_LAMBDA_NAME;
          Ok (mkSubState idx
                (ast.Name TEMP_LAMBDA_NAME ast.Load)
                (all_prefix_nodes ++ [temp_func_def])
                (ss_all_del_nodes s
                   ++ [ast.Delete [ast.Name TEMP_LAMBDA_NAME ast.Del]])
                (Some field_node))
        else
          Ok (mkSubState idx field_node
                (all_prefix_nodes ++ prefix_nodes u)
                (ss_all_del_nodes s ++ del_nodes u)
                (ss_lambda_obj s))
    end.

Fixpoint sub_fields_loop (s : sub_state) (sub_fields : list (string * pyobj))
  : result sub_state :=
  match sub_fields with
  | [] => Ok s
  | (sub_field_name, sub_field) :: rest =>
      s ← sub_field_step s sub_field_name sub_field;
      sub_fields_loop s rest
  end.

Definition single_field_body (idx : tmp_var_index) (field_node : pyobj)
  : result (tmp_var_index * option FieldUpdate) :=
  '(idx, val_node_update) ←
     (if isinstance field_node (ArgUnpackNodes ++ KwArgUnpackNodes)
      then make_val_node_update idx field_node
      else Ok (idx, None));
  match val_node_update with
  | Some (prefix_nodes, new_val_node, del_nodes) =>
      Ok (idx, Some (mkFieldUpdate prefix_nodes new_val_node del_nodes field_node))
  | None =>
      fields ← iter_fields field_node;
      let sub_fields := sorted_fields fields in
      s ← sub_fields_loop (mkSubState idx field_node [] [] None) sub_fields;
      if nonempty (ss_all_prefix_nodes s) then
        if nonempty (ss_all_del_nodes s)
        then Ok (ss_idx s,
                 Some (mkFieldUpdate (ss_all_prefix_nodes s) (ss_field_node s)
                         (ss_all_del_nodes s)
                         (match ss_lambda_obj s with
                          | Some lambda_node => lambda_node
                          | None => ss_field_node s
                          end)))
        else Raise (AssertionError "all_del_nodes")
      else Ok (ss_idx s, None)
  end.

End field_updates.

(** [make_single_field_update]; [fuel] bounds the depth of the
    expression. *)
Fixpoint make_single_field_update (fuel : nat) (idx : tmp_var_index) (field_node : pyobj)
  : result (tmp_var_index * option FieldUpdate) :=
  match fuel with
  | O => OutOfFuel
  | S fuel => single_field_body (make_single_field_update fuel) idx field_node
  end.

(** *** Updates of statement blocks

    During one pass over [body_copy] the list [body] holds the
    statement objects of [body_copy], which the pass mutates in place,
    and the statements it splices in.  An entry of [body] is therefore
    a reference to the [k]-th object of [body_copy] or a new
    statement; the references are resolved when the pass is over. *)
Inductive slot : Type :=
| SOld (k : nat)
| SNew (v : pyobj).

Record pass_state : Type := mkPassState {
  ps_idx : tmp_var_index;
  ps_body : list slot;
  ps_o : nat;
  ps_node : pyobj
}.

(** [l[k:k] = xs] *)
Definition insert_at {A : Type} (k : nat) (xs l : list A) : list A :=
  take k l ++ xs ++ drop k l.

(** [isinstance(body[k], ast.Return)] on an entry of [body]; the class
    of an object does not change when it is mutated. *)
Definition slot_is_return (body_copy : list pyobj) (s : slot) : bool :=
  match s with
  | SOld k => match body_copy !! k with
              | Some v => isinstance v ["Return"]
              | None => false
              end
  | SNew v => isinstance v ["Return"]
  end.

Section body_updates.

(** The recursive call [self.apply_body_updates] on a nested block. *)
Variable nested : tmp_var_index -> list pyobj -> result (tmp_var_index * list pyobj).
Variable fuel : nat.

(** One round of the loop [for field_name, field in fields]; [i] is
    the index of the statement in [body_copy]. *)
Definition stmt_field_step (body_copy : list pyobj) (i : nat) (s : pass_state)
    (field_name : string) (field : pyobj) : result pass_state :=
  if negb (is_list field || is_ast field) then Ok s
  else if is_block_field field_name field then
    node_body ← iter_list field;
    '(idx, node_body) ← nested (ps_idx s) node_body;
    Ok (mkPassState idx (ps_body s) (ps_o s)
                    (setattr (ps_node s) field_name (PyList node_body)))
  else
    '(idx, maybe_body_update) ←
       make_field_update (make_single_field_update fuel)
                         (ps_idx s) (ps_node s) field_name field;
    match maybe_body_update with
    | None => Ok (mkPassState idx (ps_body s) (ps_o s) (ps_node s))
    | Some (node, u) =>
        let o := ps_o s in
        let body := insert_at (i + o) (map SNew (prefix_nodes u)) (ps_body s) in
        let o := (o + length (prefix_nodes u))%nat in
        match body !! (i + o)%nat with
        | None => Raise (IndexError "list index out of range")
        | Some stmt =>
            if slot_is_return body_copy stmt
            then Ok (mkPassState idx body o node)
            else
              let o := (o + 1)%nat in
              let body := insert_at (i + o) (map SNew (del_nodes u)) body in
              Ok (mkPassState idx body o node)
        end
    end.

Fixpoint stmt_fields_loop (body_copy : list pyobj) (i : nat) (s : pass_state)
    (fields : list (string * pyobj)) : result pass_state :=
  match fields with
  | [] => Ok s
  | (field_name, field) :: rest =>
      s ← stmt_field_step body_copy i s field_name field;
      stmt_fields_loop body_copy i s rest
  end.

(** The loop [for i, node in enumerate(body_copy)], from index [i] on;
    [nodes] are the objects of [body_copy] in their current state. *)
Fixpoint stmts_loop (body_copy : list pyobj) (i : nat) (todo : list pyobj)
    (idx : tmp_var_index) (body : list slot) (o : nat) (nodes : list pyobj)
  : result (tmp_var_index * list slot * list pyobj) :=
  match todo with
  | [] => Ok (idx, body, nodes)
  | node :: rest =>
      fields ← iter_fields node;
      let fields := sorted_fields fields in
      s ← stmt_fields_loop body_copy i (mkPassState idx body o node) fields;
      stmts_loop body_copy (S i) rest (ps_idx s) (ps_body s) (ps_o s)
                 (<[i := ps_node s]> nodes)
  end.

Definition resolve_slot (nodes : list pyobj) (s : slot) : pyobj :=
  match s with
  | SOld k => default PyNone (nodes !! k)
  | SNew v => v
  end.

(** One execution of the body of the [while] loop after
    [prev_len_body = len(body)]. *)
Definition body_pass (idx : tmp_var_index) (body : list pyobj)
  : result (tmp_var_index * list pyobj) :=
  let body_copy := body in
  '(idx, slots, nodes) ←
     stmts_loop body_copy 0 body_copy idx (map SOld (seq 0 (length body))) 0 body_copy;
  Ok (idx, map (resolve_slot nodes) slots).

End body_updates.

Definition EXPANSION_OVERFLOW : exn := Exception "Expansion overflow".

(** The [while prev_len_body != len(body)] loop; [rounds] bounds the
    number of passes. *)
Fixpoint body_loop (pass : tmp_var_index -> list pyobj -> result (tmp_var_index * list pyobj))
    (rounds : nat) (initial_len_body : nat) (prev_len_body : Z)
    (idx : tmp_var_index) (body : list pyobj)
  : result (tmp_var_index * list pyobj) :=
  if Z.eqb prev_len_body (Z.of_nat (length body)) then Ok (idx, body)
  else if Nat.ltb (initial_len_body * 100) (length body)
  then Raise EXPANSION_OVERFLOW
  else
    match rounds with
    | O => OutOfFuel
    | S rounds =>
        let prev_len_body := Z.of_nat (length body) in
        '(idx, body) ← pass idx body;
        body_loop pass rounds initial_len_body prev_len_body idx body
    end.

(** [apply_body_updates(body)]: the result is the state of the list
    [body] when the call returns. [fuel] bounds the nesting of blocks
    and the depth of expressions; fuel above the height of the block
    is enough, and more fuel changes no outcome (see
    [apply_body_updates_returns] and [apply_body_updates_extends]).
    The loop is given the number of rounds it can need at most: every
    pass but the last makes the block longer, and beyond 100 times
    the initial length the loop raises (see [body_loop_run]). *)
Fixpoint apply_body_updates (fuel : nat) (idx : tmp_var_index) (body : list pyobj)
  : result (tmp_var_index * list pyobj) :=
  match fuel with
  | O => OutOfFuel
  | S fuel =>
      let initial_len_body := length body in
      body_loop (body_pass (apply_body_updates fuel) fuel)
                (initial_len_body * 100 + 1) initial_len_body (-1) idx body
  end.

(** [UnpackingGeneralizationsFixer.__call__(cfg, tree)] *)
Definition UnpackingGeneralizationsFixer_call (fuel : nat) (idx : tmp_var_index)
    (tree : pyobj) : result (tmp_var_index * pyobj) :=
  body ← getattr tree "body";
  body ← iter_list body;
  '(idx, body) ← apply_body_updates fuel idx body;
  Ok (idx, setattr tree "body" (PyList body)).

(** *** Running examples *)

Definition name_ (id : string) : pyobj := ast.Name id ast.Load.
Definition star_ (id : string) : pyobj := ast.Starred (name_ id) ast.Load.

(** The call [f] of [*a, 1, *b]. *)
Definition call_f_a_1_b : pyobj :=
  ast.Call (name_ "f") (PyList [star_ "a"; ast.Num 1; star_ "b"]) (PyList []).

(** The statement [return f] of [*a, 1, *b] followed by [pass]. *)
Definition return_then_pass : list pyobj := [ast.Return call_f_a_1_b; ast.Pass].

(** ** Version windows and the selection of fixers *)

Record VersionInfo : Type := mkVersionInfo {
  apply_since : string;
  apply_until : string;
  works_since : string;
  works_until : option string
}.

(** [VersionInfo.__init__] *)
Definition VersionInfo_init (apply_since apply_until : string)
    (works_since works_until : option string) : VersionInfo :=
  mkVersionInfo apply_since apply_until
    (match works_since with
     | None => apply_since
     | Some w => w
     end)
    works_until.

(** An import the output needs: [(module_name, member_name or None)]. *)
Definition ImportDecl : Type := string * option string.

(** What [common.BuildConfig] holds ([packaging.eval_build_config]). *)
Record BuildConfig : Type := mkBuildConfig {
  target_version : string;
  force_transpile : string;
  fixers : string;
  checkers : string
}.

(** An instance of [FixerBase]: the class attribute [version_info] and
    the set created by [__init__]. *)
Record FixerBase : Type := mkFixerBase {
  version_info : VersionInfo;
  required_imports : gset ImportDecl
}.

Definition FixerBase_init (nfo : VersionInfo) : FixerBase := mkFixerBase nfo ∅.

(** [nfo.apply_since <= version <= nfo.apply_until] on [str]. *)
Definition is_required_for (self : FixerBase) (version : string) : bool :=
  let nfo := version_info self in
  String.leb (apply_since nfo) version && String.leb version (apply_until nfo).

Definition is_compatible_with (self : FixerBase) (version : string) : bool :=
  let nfo := version_info self in
  String.leb (works_since nfo) version
  && match works_until nfo with
     | None => true
     | Some until => String.leb version until
     end.

(** *** Future imports *)

Record FutureImportFixerBase : Type := mkFutureImportFixer {
  fif_base : FixerBase;
  future_name : string
}.

(** [FutureImportFixerBase.__call__(cfg, tree)]: the instance after
    the call and the returned tree. *)
Definition FutureImportFixerBase_call (self : FutureImportFixerBase) (cfg : BuildConfig)
    (tree : pyobj) : FutureImportFixerBase * pyobj :=
  let self :=
    mkFutureImportFixer
      (mkFixerBase (version_info (fif_base self))
                   (required_imports (fif_base self)
                      ∪ {[ ("__future__", Some (future_name self)) ]}))
      (future_name self) in
  (self, tree).

Definition new_future_fixer (since until name : string) : FutureImportFixerBase :=
  mkFutureImportFixer (FixerBase_init (VersionInfo_init since until None None)) name.

Definition GeneratorStopFutureFixer := new_future_fixer "3.5" "3.6" "generator_stop".
Definition UnicodeLiteralsFutureFixer := new_future_fixer "2.6" "2.7" "unicode_literals".
Definition PrintFunctionFutureFixer := new_future_fixer "2.6" "2.7" "print_function".
Definition WithStatementFutureFixer := new_future_fixer "2.5" "2.5" "with_statement".
Definition AbsoluteImportFutureFixer := new_future_fixer "2.5" "2.7" "absolute_import".
Definition DivisionFutureFixer := new_future_fixer "2.2" "2.7" "division".
Definition GeneratorsFutureFixer := new_future_fixer "2.2" "2.2" "generators".
Definition NestedScopesFutureFixer := new_future_fixer "2.1" "2.1" "nested_scopes".

(** *** Numeric order of dotted versions, as the specification words it *)

Definition digit_of_ascii (c : ascii) : option nat :=
  let n := nat_of_ascii c in
  if (48 <=? n)%nat && (n <=? 57)%nat then Some (n - 48)%nat else None.

Fixpoint parse_decimal (acc : nat) (s : string) : option nat :=
  match s with
  | EmptyString => Some acc
  | String c rest =>
      match digit_of_ascii c with
      | Some d => parse_decimal (10 * acc + d)%nat rest
      | None => None
      end
  end.

Fixpoint split_at_dot (s : string) : string * option string :=
  match s with
  | EmptyString => (EmptyString, None)
  | String c rest =>
      if Ascii.eqb c "." then (EmptyString, Some rest)
      else let '(a, b) := split_at_dot rest in (String c a, b)
  end.

(** ["<major>.<minor>"] as a pair of numbers. *)
Definition parse_version (s : string) : option (nat * nat) :=
  match split_at_dot s with
  | (major, Some minor) =>
      match major, minor with
      | EmptyString, _ | _, EmptyString => None
      | _, _ =>
          match parse_decimal 0 major, parse_decimal 0 minor with
          | Some a, Some b => Some (a, b)
          | _, _ => None
          end
      end
  | _ => None
  end.

Definition version_num_le (a b : nat * nat) : bool :=
  (a.1 <? b.1)%nat || ((a.1 =? b.1)%nat && (a.2 <=? b.2)%nat).

(** [since <= v <= until] in the numeric order of the versions. *)
Definition in_window_numeric (since until v : string) : option bool :=
  match parse_version since, parse_version until, parse_version v with
  | Some s, Some u, Some x => Some (version_num_le s x && version_num_le x u)
  | _, _, _ => None
  end.

(** The version string of a major and a minor number. *)
Definition dotted (major minor : nat) : string :=
  pretty major +:+ "." +:+ pretty minor.

(** ** InlineKWOnlyArgsFixer *)

(** Truth value of an object in [if x] / [not x]. *)
Definition truthy (v : pyobj) : bool :=
  match v with
  | PyNone => false
  | PyBool b => b
  | PyNum n => negb (Z.eqb n 0)
  | PyStr s => negb (String.eqb s "")
  | PyList l => nonempty l
  | Node _ _ => true
  end.

Definition name_node (id ctx : pyobj) : pyobj := Node "Name" [("id", id); ("ctx", ctx)].
Definition str_node (s : pyobj) : pyobj := Node "Str" [("s", s)].

(** [<arg_name> = <kw_name>["<arg_name>"]] *)
Definition kwonly_subscript_assign (kw_name arg_name : pyobj) : pyobj :=
  ast.Assign [name_node arg_name ast.Store]
    (ast.Subscript (name_node kw_name ast.Load) (ast.Index (str_node arg_name)) ast.Load).

(** [<arg_name> = <kw_name>.get("<arg_name>", <default>)] *)
Definition kwonly_get_assign (kw_name arg_name default : pyobj) : pyobj :=
  ast.Assign [name_node arg_name ast.Store]
    (ast.Call (ast.Attribute (name_node kw_name ast.Load) "get" ast.Load)
              (PyList [str_node arg_name; default]) (PyList [])).

Definition KWONLY_ERROR : exn := Exception "Keyword only arguments must be immutable.".

(** The global name [IMMUTABLE_EXPR_TYPES]: [visit_FunctionDef] reads
    it, and neither the module nor what it imports binds it, so that
    reading it raises. *)
Definition UNBOUND_NAME : exn := NameError "name 'IMMUTABLE_EXPR_TYPES' is not defined".

Definition IMMUTABLE_EXPR_TYPES : result (list string) := Raise UNBOUND_NAME.

(** The statement built for one keyword-only parameter. *)
Definition kwonly_new_node (kw_name arg default : pyobj) : result pyobj :=
  arg_name ← getattr arg "arg";
  if is_none default then Ok (kwonly_subscript_assign kw_name arg_name)
  else
    immutable ← IMMUTABLE_EXPR_TYPES;
    if negb (isinstance default immutable) then Raise KWONLY_ERROR
    else Ok (kwonly_get_assign kw_name arg_name default).

(** The loop [for arg, default in zip(kwonlyargs, kw_defaults)]. *)
Fixpoint kwonly_loop (kw_name : pyobj) (items : list (pyobj * pyobj)) (node : pyobj)
  : result pyobj :=
  match items with
  | [] => Ok node
  | (arg, default) :: rest =>
      new_node ← kwonly_new_node kw_name arg default;
      body ← getattr node "body";
      body ← match body with
             | PyList l => Ok l
             | _ => Raise (AttributeError "insert")
             end;
      kwonly_loop kw_name rest (setattr node "body" (PyList (new_node :: body)))
  end.

Definition visit_FunctionDef (node : pyobj) : result pyobj :=
  args ← getattr node "args";
  kwonlyargs ← getattr args "kwonlyargs";
  if negb (truthy kwonlyargs) then Ok node
  else
    kwarg ← getattr args "kwarg";
    '(kw_name, args) ←
       (if truthy kwarg then kw_name ← getattr kwarg "arg"; Ok (kw_name, args)
        else Ok (PyStr "kwargs",
                 setattr args "kwarg" (ast.arg "kwargs" PyNone)));
    let node := setattr node "args" args in
    kwonlyargs ← iter_list kwonlyargs;
    kw_defaults ← getattr args "kw_defaults";
    kw_defaults ← iter_list kw_defaults;
    node ← kwonly_loop kw_name (zip (rev kwonlyargs) (rev kw_defaults)) node;
    args ← getattr node "args";
    Ok (setattr node "args" (setattr args "kwonlyargs" (PyList []))).

(** A function definition as the parser builds it. *)
Definition parsed_FunctionDef (name : string) (args : pyobj) (body decorator_list : list pyobj)
    (returns : pyobj) : pyobj :=
  Node "FunctionDef" [("name", PyStr name); ("args", args); ("body", PyList body);
                      ("decorator_list", PyList decorator_list); ("returns", returns)].

(** [[*a, *[*b, *c]]]: a list with a nested list, both with
    unpacking. *)
Definition nested_list : pyobj :=
  ast.List [star_ "a";
            ast.Starred (ast.List [star_ "b"; star_ "c"] ast.Load) ast.Load]
           ast.Load.

(** [lambda: f] of [*a, 1, *b]. *)
Definition lambda_call : pyobj :=
  ast.Lambda (ast.arguments (PyList []) PyNone (PyList []) (PyList []) PyNone (PyList []))
             call_f_a_1_b.

(** A module with the running examples:
    [x = [*a, *[*b, *c]]], [if c: g = lambda: f(...) else: f(...)]. *)
Definition example_module : pyobj :=
  ast.Module_
    [ast.Assign [ast.Name "x" ast.Store] nested_list;
     ast.If (name_ "c")
            [ast.Assign [ast.Name "g" ast.Store] lambda_call]
            [ast.Expr call_f_a_1_b]].

(** [return lambda: f(...)] followed by [pass]: a lambda whose body
    needs hoisting, in a return statement that is not the last of
    its block. *)
Definition return_lambda_then_pass : list pyobj := [ast.Return lambda_call; ast.Pass].

(** [f( *a, 1, **k, z=2)] followed by [g( *b, 2)]: the first statement
    has two temporaries. *)
Definition two_temporaries_then_call : list pyobj :=
  [ast.Expr (ast.Call (name_ "f") (PyList [star_ "a"; ast.Num 1])
                      (PyList [ast.keyword PyNone (name_ "k");
                               ast.keyword (PyStr "z") (ast.Num 2)]));
   ast.Expr (ast.Call (name_ "g") (PyList [star_ "b"; ast.Num 2]) (PyList []))].

(** [pass], [f(...)], [f(...)] and [pass]: two statements with one
    temporary each. *)
Definition two_calls_block : list pyobj :=
  [ast.Pass; ast.Expr call_f_a_1_b; ast.Expr call_f_a_1_b; ast.Pass].

(** [f(...)], [g = h(lambda: f(...))] and [pass]. *)
Definition call_then_lambda_block : list pyobj :=
  [ast.Expr call_f_a_1_b;
   ast.Assign [ast.Name "g" ast.Store]
              (ast.Call (name_ "h") (PyList [lambda_call]) (PyList []));
   ast.Pass].

(** [[*a, 0, ..., 0]] with a hundred zeros, as an expression
    statement: one pass makes 104 statements of it. *)
Definition long_list_stmt : pyobj :=
  ast.Expr (ast.List (star_ "a" :: repeat (ast.Num 0) 100) ast.Load).

(** [x[f(...)] = g(...)]: an assignment whose two fields, [targets]
    and [value], both hold a call with unpacking. *)
Definition two_fields_stmt : pyobj :=
  ast.Assign
    [ast.Subscript (name_ "x")
       (ast.Index (ast.Call (name_ "f") (PyList [star_ "a"; ast.Num 1]) (PyList [])))
       ast.Store]
    (ast.Call (name_ "g") (PyList [star_ "b"; ast.Num 2]) (PyList [])).

(** ** Orders on fields, for the statements about the traversal *)

Definition in_stmtlist (f : string * pyobj) : bool :=
  str_mem f.1 STMTLIST_FIELD_NAMES.

(** The order the specification describes: fields outside the
    statement-list set first, each group by name. *)
Definition spec_field_order (x y : string * pyobj) : Prop :=
  (in_stmtlist x = false ∧ in_stmtlist y = true)
  ∨ (in_stmtlist x = in_stmtlist y ∧ String.leb x.1 y.1 = true).

(** The order of the sort key: fields of the statement-list set first,
    each group by name. *)
Definition block_fields_first (x y : string * pyobj) : Prop :=
  (in_stmtlist x = true ∧ in_stmtlist y = false)
  ∨ (in_stmtlist x = in_stmtlist y ∧ String.leb x.1 y.1 = true).

(** The fields of an [If] statement, in [_fields] order. *)
Definition if_fields : list (string * pyobj) :=
  [("test", name_ "c"); ("body", PyList [ast.Pass]); ("orelse", PyList [])].

(** ** Elements of a call or literal, for the statements about
    [expand_args_unpacking] *)

Inductive element : Type :=
| Spread (value ctx : pyobj)
| Plain (e : pyobj).

Definition element_node (e : element) : pyobj :=
  match e with
  | Spread value ctx => ast.Starred value ctx
  | Plain x => x
  end.

(** A plain element is any expression but a [Starred] one. *)
Definition element_ok (e : element) : Prop :=
  match e with
  | Spread _ _ => True
  | Plain x => isinstance x ["Starred"] = false
  end.

(** The statement hoisted for an element: [tmp.extend(value)] for a
    spread, [tmp.append(x)] for a plain element. *)
Definition element_stmt (tmp : string) (e : element) : pyobj :=
  match e with
  | Spread value _ => method_call_stmt tmp "extend" [value]
  | Plain x => method_call_stmt tmp "append" [x]
  end.

(** ** Keyword-only parameters, for the statements about
    [InlineKWOnlyArgsFixer] *)

Record kwonly_param : Type := mkKwonlyParam {
  kp_name : string;
  kp_annotation : pyobj;
  kp_default : pyobj
}.

(** The [**kwargs] parameter of a definition, if it has one. *)
Definition kwarg_node (kwarg : option (string * pyobj)) : pyobj :=
  match kwarg with
  | None => PyNone
  | Some (name, annotation) => ast.arg name annotation
  end.

Definition kwonly_arguments (args vararg : pyobj) (params : list kwonly_param)
    (kwarg defaults : pyobj) : pyobj :=
  ast.arguments args vararg
    (PyList (map (fun p => ast.arg (kp_name p) (kp_annotation p)) params))
    (PyList (map kp_default params))
    kwarg defaults.

(** The name of the mapping the lookups go to. *)
Definition kw_name_of (kwarg : option (string * pyobj)) : string :=
  match kwarg with
  | None => "kwargs"
  | Some (name, _) => name
  end.

(** The lookup that replaces a keyword-only parameter without
    default. *)
Definition kwonly_lookup (kw_name : string) (p : kwonly_param) : pyobj :=
  kwonly_subscript_assign (PyStr kw_name) (PyStr (kp_name p)).

Definition has_no_default (p : kwonly_param) : bool := is_none (kp_default p).

(** [def f( *, x, y=2): pass], the example of the specification. *)
Definition kwonly_x_y_2 : pyobj :=
  parsed_FunctionDef "f"
    (kwonly_arguments (PyList []) PyNone
       [mkKwonlyParam "x" PyNone PyNone; mkKwonlyParam "y" PyNone (ast.Num 2)]
       PyNone (PyList []))
    [ast.Pass] [] PyNone.

(** ** Trees without unpacking *)

Definition returns_false (r : result bool) : bool :=
  match r with
  | Ok false => true
  | _ => false
  end.

(** On a [Call], [List], [Tuple] or [Set] node [has_args_unpacking]
    returns [False], and on a [Call] or [Dict] node
    [has_kwargs_unpacking] does. *)
Definition unpacking_free (v : pyobj) : bool :=
  (if isinstance v ArgUnpackNodes then returns_false (has_args_unpacking v) else true)
  && (if isinstance v KwArgUnpackNodes then returns_false (has_kwargs_unpacking v)
      else true).

(** [P] holds of every node of the tree. *)
Fixpoint all_nodes (P : pyobj -> bool) (v : pyobj) : bool :=
  match v with
  | PyList l => forallb (all_nodes P) l
  | Node c fs => P v && forallb (fun f => all_nodes P (snd f)) fs
  | _ => true
  end.

Definition no_unpacking (v : pyobj) : bool := all_nodes unpacking_free v.

(** ** Statement blocks as the grammar has them

    A statement is a node whose class is none of the expression
    classes the fixer rewrites and whose fields have distinct names;
    the same holds in the blocks it contains. *)
Fixpoint distinct (names : list string) : bool :=
  match names with
  | [] => true
  | n :: rest => negb (str_mem n rest) && distinct rest
  end.

Fixpoint stmt_ok (v : pyobj) : bool :=
  match v with
  | Node c fs =>
      negb (str_mem c (ArgUnpackNodes ++ KwArgUnpackNodes))
      && distinct (map fst fs)
      && forallb (fun f => if str_mem (fst f) STMTLIST_FIELD_NAMES
                           then match snd f with
                                | PyList l => forallb stmt_ok l
                                | _ => true
                                end
                           else true) fs
  | _ => false
  end.

Definition block_ok (body : list pyobj) : bool := forallb stmt_ok body.

(** What the proofs need of [make_single_field_update] at one depth:
    a call that returns no update leaves the counter alone, was given
    a tree without unpacking and returns no update from any counter;
    an update has hoisted statements, replaces the node by a node, and
    its statements are statements. *)
Definition single_spec
    (single : tmp_var_index -> pyobj -> result (tmp_var_index * option FieldUpdate))
  : Prop :=
  (forall idx v idx', single idx v = Ok (idx', None) ->
     idx' = idx /\ no_unpacking v = true
     /\ forall idx2, single idx2 v = Ok (idx2, None))
  /\ (forall idx v idx' u, single idx v = Ok (idx', Some u) ->
        nonempty (prefix_nodes u) = true /\ is_ast (new_field u) = true
        /\ forallb stmt_ok (prefix_nodes u) = true
        /\ forallb stmt_ok (del_nodes u) = true).

(** What the proofs need of [apply_body_updates] on the nested blocks:
    a block of statements stays one, the result has no unpacking left,
    and it is a fixed point from any counter. *)
Definition nested_spec
    (nested : tmp_var_index -> list pyobj -> result (tmp_var_index * list pyobj)) : Prop :=
  forall idx l idx' l',
    nested idx l = Ok (idx', l') -> block_ok l = true ->
    block_ok l' = true /\ forallb no_unpacking l' = true
    /\ forall idx2, nested idx2 l' = Ok (idx2, l').

(** An entry of [body] during a pass over [n] statements. *)
Definition slot_ok (n : nat) (s : slot) : bool :=
  match s with
  | SOld k => (k <? n)%nat
  | SNew v => stmt_ok v
  end.

(** The blocks of a field are blocks of statements. *)
Definition field_block_ok (f : string * pyobj) : bool :=
  if str_mem (fst f) STMTLIST_FIELD_NAMES
  then match snd f with
       | PyList l => forallb stmt_ok l
       | _ => true
       end
  else true.

(** A field on which a pass has nothing to do: a primitive, a block
    that is a fixed point, or an expression without update. *)
Definition field_settled
    (nested : tmp_var_index -> list pyobj -> result (tmp_var_index * list pyobj))
    (fuel : nat) (f : string * pyobj) : Prop :=
  if negb (is_list (snd f) || is_ast (snd f)) then True
  else if is_block_field (fst f) (snd f)
       then exists l, snd f = PyList l /\ forall idx, nested idx l = Ok (idx, l)
       else forall idx parent,
              make_field_update (make_single_field_update fuel) idx parent (fst f) (snd f)
              = Ok (idx, None).

Definition stmt_settled
    (nested : tmp_var_index -> list pyobj -> result (tmp_var_index * list pyobj))
    (fuel : nat) (node : pyobj) : Prop :=
  exists c fs, node = Node c fs /\ Forall (field_settled nested fuel) fs.

Definition is_delete (d : pyobj) : bool := isinstance d ["Delete"].

(** The deletions of an update are [Delete] statements, at least one. *)
Definition dels_spec
    (single : tmp_var_index -> pyobj -> result (tmp_var_index * option FieldUpdate))
  : Prop :=
  forall idx v idx' u, single idx v = Ok (idx', Some u) ->
    nonempty (del_nodes u) = true
    /\ forallb is_delete (del_nodes u) = true.

(** A field on which [make_field_update] returns no update, whatever
    the counter. *)
Definition needs_no_update (fuel : nat) (field_name : string) (field : pyobj) : Prop :=
  is_list field || is_ast field = true ->
  forall idx parent,
    make_field_update (make_single_field_update fuel) idx parent field_name field
    = Ok (idx, None).

(** The definition that replaces a lambda, the reference to it and
    the deletion of its name. *)
Definition temp_def (args : pyobj) (hoisted : list pyobj) (body : pyobj) : pyobj :=
  ast.FunctionDef TEMP_LAMBDA_NAME args (hoisted ++ [ast.Return body]) [].
Definition temp_ref : pyobj := ast.Name TEMP_LAMBDA_NAME ast.Load.
Definition temp_del : pyobj := ast.Delete [ast.Name TEMP_LAMBDA_NAME ast.Del].

(** ** The fixed-point loop, as the specification describes it

    [run_passes pass k] applies [k] passes in a row. *)
Fixpoint run_passes
    (pass : tmp_var_index -> list pyobj -> result (tmp_var_index * list pyobj))
    (k : nat) (idx : tmp_var_index) (body : list pyobj)
  : result (tmp_var_index * list pyobj) :=
  match k with
  | O => Ok (idx, body)
  | S k => '(idx, body) ← pass idx body; run_passes pass k idx body
  end.

(** The runs of the loop on a block that had [initial_len_body]
    statements: it stops when the number of statements is the one
    before the last pass, aborts when the block has more than 100
    times its initial length, and otherwise makes one more pass; an
    exception of a pass ends the run. *)
Inductive loop_run
    (pass : tmp_var_index -> list pyobj -> result (tmp_var_index * list pyobj))
    (initial_len_body : nat)
  : Z -> tmp_var_index -> list pyobj -> result (tmp_var_index * list pyobj) -> Prop :=
| loop_stop prev idx body :
    prev = Z.of_nat (length body) ->
    loop_run pass initial_len_body prev idx body (Ok (idx, body))
| loop_overflow prev idx body :
    prev <> Z.of_nat (length body) ->
    (initial_len_body * 100 < length body)%nat ->
    loop_run pass initial_len_body prev idx body (Raise EXPANSION_OVERFLOW)
| loop_pass prev idx body idx1 body1 r :
    prev <> Z.of_nat (length body) ->
    (length body <= initial_len_body * 100)%nat ->
    pass idx body = Ok (idx1, body1) ->
    loop_run pass initial_len_body (Z.of_nat (length body)) idx1 body1 r ->
    loop_run pass initial_len_body prev idx body r
| loop_pass_raises prev idx body e :
    prev <> Z.of_nat (length body) ->
    (length body <= initial_len_body * 100)%nat ->
    pass idx body = Raise e ->
    loop_run pass initial_len_body prev idx body (Raise e)
| loop_pass_out_of_fuel prev idx body :
    prev <> Z.of_nat (length body) ->
    (length body <= initial_len_body * 100)%nat ->
    pass idx body = OutOfFuel ->
    loop_run pass initial_len_body prev idx body OutOfFuel.

(** On single digits the order of the strings and the numeric order
    agree, and the string is read back as the two numbers. *)
Definition digits_agree (a b c d : nat) : bool :=
  Bool.eqb (String.leb (dotted a b) (dotted c d)) (version_num_le (a, b) (c, d))
  && bool_decide (parse_version (dotted a b) = Some (a, b)).

(** The pair the loop of [visit_FunctionDef] sees for a parameter. *)
Definition kwonly_item (p : kwonly_param) : pyobj * pyobj :=
  (ast.arg (kp_name p) (kp_annotation p), kp_default p).

(** ** The height of a tree

    A measure for the recursion of the fixer: a node counts one more
    than the highest of its fields, and five more for a lambda and
    for each of the fields [args], [elts], [keywords] and [keys] that
    holds a list of two elements or more (only such a list can be
    expanded). A list is as high as its highest element. *)
Definition list_len (v : pyobj) : nat :=
  match v with PyList l => length l | _ => 0%nat end.

Definition long_field (n : string) (fs : list (string * pyobj)) : bool :=
  existsb (fun f => String.eqb (fst f) n && Nat.leb 2 (list_len (snd f))) fs.

Definition EXPANDED_FIELD_NAMES : list string := ["args"; "elts"; "keywords"; "keys"].

Definition extra (c : string) (fs : list (string * pyobj)) : nat :=
  ((if long_field "args" fs then 5 else 0)
   + (if long_field "elts" fs then 5 else 0)
   + (if long_field "keywords" fs then 5 else 0)
   + (if long_field "keys" fs then 5 else 0)
   + (if String.eqb c "Lambda" then 5 else 0))%nat.

Fixpoint height (v : pyobj) : nat :=
  match v with
  | PyList l => fold_right (fun x acc => Nat.max (height x) acc) 0%nat l
  | Node c fs =>
      S (extra c fs + fold_right (fun f acc => Nat.max (height (snd f)) acc) 0%nat fs)
  | _ => 0%nat
  end.

Definition fields_height (fs : list (string * pyobj)) : nat :=
  fold_right (fun f acc => Nat.max (height (snd f)) acc) 0%nat fs.

(** What [make_single_field_update] promises about the height of an
    update: nothing it returns is higher than the expression it was
    given, and a list stays a list of the same length. *)
Definition update_bounded (v : pyobj) (u : FieldUpdate) : Prop :=
  (height (PyList (prefix_nodes u)) <= height v)%nat
  /\ (height (new_field u) <= height v)%nat
  /\ (height (PyList (del_nodes u)) <= height v)%nat
  /\ (height (old u) <= height v)%nat
  /\ list_len (new_field u) = list_len v
  /\ list_len (old u) = list_len v.

Definition height_spec
    (single : tmp_var_index -> pyobj -> result (tmp_var_index * option FieldUpdate))
  : Prop :=
  forall idx v idx' u, single idx v = Ok (idx', Some u) -> update_bounded v u.

Definition nested_height_spec
    (nested : tmp_var_index -> list pyobj -> result (tmp_var_index * list pyobj))
  : Prop :=
  forall idx body idx' body',
    nested idx body = Ok (idx', body') ->
    (height (PyList body') <= height (PyList body))%nat.

(** A call comes back: with a value or with an exception. *)
Definition returns {A : Type} (r : result A) : Prop := r <> OutOfFuel.

(** The fields that count for [extra] are no longer than before. *)
Definition long_le (fs' fs : list (string * pyobj)) : Prop :=
  forall m, m ∈ EXPANDED_FIELD_NAMES -> long_field m fs' = true -> long_field m fs = true.

(** What the loop over the sub-fields of the node [Node c fs] keeps:
    the node in its current state, and what has been hoisted, are no
    higher than the node was. *)
Definition def_inv (c : string) (fs : list (string * pyobj)) (def : pyobj) : Prop :=
  forall a', (height a' <= fields_height fs)%nat ->
             ((2 <= list_len a')%nat -> long_field "args" fs = true) ->
             (height (setattr def "args" a') <= height (Node c fs))%nat.

Definition sub_inv (c : string) (fs : list (string * pyobj)) (s : sub_state) : Prop :=
  (height (PyList (ss_all_prefix_nodes s)) <= height (Node c fs))%nat
  /\ (height (PyList (ss_all_del_nodes s)) <= height (Node c fs))%nat
  /\ match ss_lambda_obj s with
     | None =>
         (exists fs', ss_field_node s = Node c fs'
                      /\ (fields_height fs' <= fields_height fs)%nat
                      /\ long_le fs' fs)
         /\ (c = "Lambda" -> ss_all_prefix_nodes s = [])
     | Some lambda_node =>
         c = "Lambda"
         /\ (height lambda_node <= height (Node c fs))%nat
         /\ list_len lambda_node = 0%nat
         /\ (exists a b, ss_field_node s = Node "Name" [("id", a); ("ctx", b)]
                         /\ (height a <= Nat.max 1 (fields_height fs))%nat
                         /\ (height b <= Nat.max 1 (fields_height fs))%nat)
         /\ (exists def rest, ss_all_prefix_nodes s = def :: rest /\ def_inv c fs def)
     end.

(** The statements a pass has spliced in are no higher than [H]. *)
Definition slot_low (H : nat) (s : slot) : Prop :=
  match s with
  | SNew v => (height v <= H)%nat
  | SOld _ => True
  end.

(** A statement in the state a pass has brought it to. *)
Definition node_inv (c : string) (fs : list (string * pyobj)) (node : pyobj) : Prop :=
  exists fs', node = Node c fs'
              /\ (fields_height fs' <= fields_height fs)%nat /\ long_le fs' fs.

(** [r'] is the outcome [r], unless [r] ran out of fuel. *)
Definition extends {A : Type} (r r' : result A) : Prop := r = OutOfFuel \/ r = r'.

(** ** Passes whose offsets are right

    The fields of a statement into which a pass splices nothing:
    primitives, blocks, which are handed to [nested] and may come
    back rewritten, and expressions without update.
    [quiet_fields nested fuel idx node fields idx' node']: the loop
    over [fields] takes the counter from [idx] to [idx'] and the
    statement from [node] to [node']. *)
Inductive quiet_fields
    (nested : tmp_var_index -> list pyobj -> result (tmp_var_index * list pyobj))
    (fuel : nat)
  : tmp_var_index -> pyobj -> list (string * pyobj) -> tmp_var_index -> pyobj -> Prop :=
| quiet_nil idx node : quiet_fields nested fuel idx node [] idx node
| quiet_value idx node n v fields idx' node' :
    is_list v || is_ast v = false ->
    quiet_fields nested fuel idx node fields idx' node' ->
    quiet_fields nested fuel idx node ((n, v) :: fields) idx' node'
| quiet_block idx node n l idx1 l' fields idx' node' :
    is_block_field n (PyList l) = true ->
    nested idx l = Ok (idx1, l') ->
    quiet_fields nested fuel idx1 (setattr node n (PyList l')) fields idx' node' ->
    quiet_fields nested fuel idx node ((n, PyList l) :: fields) idx' node'
| quiet_expr idx node n v idx1 fields idx' node' :
    is_list v || is_ast v = true -> is_block_field n v = false ->
    make_field_update (make_single_field_update fuel) idx node n v = Ok (idx1, None) ->
    quiet_fields nested fuel idx1 node fields idx' node' ->
    quiet_fields nested fuel idx node ((n, v) :: fields) idx' node'.

(** A statement of which a pass expands one field, with the update
    [u], and no other: [expands nested fuel idx stmt idx' u stmt']. *)
Inductive expands
    (nested : tmp_var_index -> list pyobj -> result (tmp_var_index * list pyobj))
    (fuel : nat)
  : tmp_var_index -> pyobj -> tmp_var_index -> FieldUpdate -> pyobj -> Prop :=
| expands_field idx c fs fs1 n v fs2 idx1 node1 idx2 node2 u idx3 node3 :
    sorted_fields fs = fs1 ++ (n, v) :: fs2 ->
    quiet_fields nested fuel idx (Node c fs) fs1 idx1 node1 ->
    is_list v || is_ast v = true -> is_block_field n v = false ->
    make_field_update (make_single_field_update fuel) idx1 node1 n v
    = Ok (idx2, Some (node2, u)) ->
    quiet_fields nested fuel idx2 node2 fs2 idx3 node3 ->
    expands nested fuel idx (Node c fs) idx3 u node3.

(** The deletions of an update go behind the statement unless it is
    a return statement. *)
Definition deletions_for (stmt : pyobj) (u : FieldUpdate) : list pyobj :=
  if isinstance stmt ["Return"] then [] else del_nodes u.

(** After a statement that is a return statement or has one deletion
    the offset of the pass is the number of statements spliced in. *)
Definition keeps_offset (stmt : pyobj) (u : FieldUpdate) : bool :=
  isinstance stmt ["Return"] || Nat.eqb (length (del_nodes u)) 1.

(** [regular_pass nested fuel expanding idx body idx' out]: a pass
    over [body] in which every statement has at most one field
    expanded, none when [expanding] is [false], and every expanded
    statement is a return statement or has one deletion; [out] is
    [body] with the hoisted statements of every expanded statement
    before it and its deletions behind it. *)
Inductive regular_pass
    (nested : tmp_var_index -> list pyobj -> result (tmp_var_index * list pyobj))
    (fuel : nat) (expanding : bool)
  : tmp_var_index -> list pyobj -> tmp_var_index -> list pyobj -> Prop :=
| regular_nil idx : regular_pass nested fuel expanding idx [] idx []
| regular_quiet idx c fs idx1 node' rest idx' out :
    quiet_fields nested fuel idx (Node c fs) (sorted_fields fs) idx1 node' ->
    regular_pass nested fuel expanding idx1 rest idx' out ->
    regular_pass nested fuel expanding idx (Node c fs :: rest) idx' (node' :: out)
| regular_expanded idx stmt idx1 u stmt' rest idx' out :
    expanding = true ->
    expands nested fuel idx stmt idx1 u stmt' ->
    keeps_offset stmt u = true ->
    regular_pass nested fuel expanding idx1 rest idx' out ->
    regular_pass nested fuel expanding idx (stmt :: rest) idx'
      (prefix_nodes u ++ stmt' :: deletions_for stmt u ++ out).

(** ** A value inside an expression

    An expression node of which one field, [(n, v)], may be expanded
    and nothing else: it is no lambda and has no unpacking of its
    own, none of its fields is a block, and its other fields need
    no update. *)
Definition plain_parent (fuel : nat) (c : string) (fs fs1 : list (string * pyobj))
    (n : string) (v : pyobj) (fs2 : list (string * pyobj)) : Prop :=
  isinstance (Node c fs) ["Lambda"] = false
  /\ (forall idx,
        (if isinstance (Node c fs) (ArgUnpackNodes ++ KwArgUnpackNodes)
         then make_val_node_update idx (Node c fs)
         else Ok (idx, None)) = Ok (idx, None))
  /\ sorted_fields fs = fs1 ++ (n, v) :: fs2
  /\ is_block_field n v = false
  /\ Forall (fun f => is_block_field (fst f) (snd f) = false
                      /\ needs_no_update fuel (fst f) (snd f)) (fs1 ++ fs2).

(** The items of a list that need no update. *)
Definition items_need_no_update (fuel : nat) (l : list pyobj) : Prop :=
  Forall (fun z => forall idx, make_single_field_update fuel idx z = Ok (idx, None)) l.

(** [within f0 x x' fuel v v']: the expression [v] holds the value
    [x], as a field or as an item of a list field of [v] or of a
    node in [v], no lambda is around [x] and nothing else in [v] is
    expanded; [v'] is [v] with [x'] in the place of [x]. The update
    of [x] is made with the fuel [f0] and the one of [v] with
    [fuel], one more for each node around [x]. *)
Inductive within (f0 : nat) (x x' : pyobj) : nat -> pyobj -> pyobj -> Prop :=
| within_here : within f0 x x' f0 x x'
| within_field fuel c fs fs1 n v v' fs2 :
    is_ast v = true -> within f0 x x' fuel v v' ->
    plain_parent fuel c fs fs1 n v fs2 ->
    within f0 x x' (S fuel) (Node c fs) (Node c (set_field n v' fs))
| within_item fuel c fs fs1 n l1 y y' l2 fs2 :
    within f0 x x' fuel y y' ->
    items_need_no_update fuel (l1 ++ l2) ->
    plain_parent fuel c fs fs1 n (PyList (l1 ++ y :: l2)) fs2 ->
    within f0 x x' (S fuel) (Node c fs)
      (Node c (set_field n (PyList (l1 ++ y' :: l2)) fs)).

(** The same for the field of a statement, which is an expression or
    a list of expressions. *)
Inductive field_within (f0 : nat) (x x' : pyobj) (fuel : nat) : pyobj -> pyobj -> Prop :=
| field_within_node v v' :
    is_ast v = true -> within f0 x x' fuel v v' -> field_within f0 x x' fuel v v'
| field_within_item l1 y y' l2 :
    within f0 x x' fuel y y' -> items_need_no_update fuel (l1 ++ l2) ->
    field_within f0 x x' fuel (PyList (l1 ++ y :: l2)) (PyList (l1 ++ y' :: l2)).

(** * More of [fixers.py] and of [packaging.py] *)

(** ** Keywords of a call and items of a dict, for the statements
    about [expand_kwargs_unpacking]

    An item is a name with a value, or [None] with a value for an
    unpacked mapping. *)
Definition kw_item : Type := option string * pyobj.

(** The [keyword] node of a call for an item. *)
Definition call_keyword (item : kw_item) : pyobj :=
  ast.keyword (match item.1 with None => PyNone | Some s => PyStr s end) item.2.

(** The key of a dict literal for an item: a string literal, or
    [None] where the literal unpacks a mapping. *)
Definition dict_key (item : kw_item) : pyobj :=
  match item.1 with None => PyNone | Some s => ast.Str s end.

(** The statement hoisted for an item: [tmp.update(value)] for an
    unpacked mapping, [tmp["name"] = value] for a named value. *)
Definition kw_item_stmt (tmp : string) (item : kw_item) : pyobj :=
  match item.1 with
  | None => method_call_stmt tmp "update" [item.2]
  | Some s =>
      ast.Assign [ast.Subscript (ast.Name tmp ast.Load) (ast.Index (ast.Str s)) ast.Store]
                 item.2
  end.

(** A dict key that [expand_kwargs_unpacking] cannot hoist: neither
    [None], nor a string literal, nor a string. *)
Definition invalid_dict_key (key : pyobj) : bool :=
  negb (is_none key) && negb (isinstance key ["Str"])
  && match key with PyStr _ => false | _ => true end.

(** [{1: x, **a, **b}] *)
Definition dict_with_num_key : pyobj :=
  ast.Dict [ast.Num 1; PyNone; PyNone] [name_ "x"; name_ "a"; name_ "b"].

(** ** The exceptions of the unpacking fixer

    An exception that [UnpackingGeneralizationsFixer] can raise: not
    an [IndexError], and of its assertions only the one about block
    fields. *)
Definition expected_exn (e : exn) : Prop :=
  match e with
  | IndexError _ => False
  | AssertionError msg => msg = "Unexpected block field"
  | _ => True
  end.

Definition raises_expected {A : Type} (r : result A) : Prop :=
  forall e, r = Raise e -> expected_exn e.

(** What the proofs about the exceptions need of
    [make_single_field_update] at one depth. *)
Definition update_nonempty
    (single : tmp_var_index -> pyobj -> result (tmp_var_index * option FieldUpdate))
  : Prop :=
  forall idx v idx' u, single idx v = Ok (idx', Some u) ->
    nonempty (prefix_nodes u) = true /\ nonempty (del_nodes u) = true.

(** During a pass over [n] statements the offset [o] never points
    past the statements that were inserted. *)
Definition offset_ok (n : nat) (s : pass_state) : Prop :=
  (ps_o s + n <= length (ps_body s))%nat.

(** ** What stops the unpacking fixer

    An expression on which [make_single_field_update] does not
    return: a node that is not expanded and one of whose fields is a
    block (the body of an [except] clause), a list with an element
    that is no node (the [None] key of [{**m}], the [None] default of
    a keyword-only parameter, a name of a [global] statement) or with
    an element of this kind, or a node of this kind. *)
Fixpoint breaks (v : pyobj) : bool :=
  match v with
  | Node c fs =>
      unpacking_free v
      && existsb (fun f => is_block_field (fst f) (snd f)
                           || match snd f with
                              | PyList l =>
                                  existsb (fun x => negb (is_ast x) || breaks x) l
                              | Node _ _ => breaks (snd f)
                              | _ => false
                              end) fs
  | _ => false
  end.

Definition unhandled (x : pyobj) : bool := negb (is_ast x) || breaks x.

(** A field of a statement at which a pass stops, and a statement
    with such a field: a block with such a statement, or an
    expression field as above. *)
Fixpoint stmt_breaks (v : pyobj) : bool :=
  match v with
  | Node c fs =>
      existsb (fun f => match snd f with
                        | PyList l =>
                            if str_mem (fst f) STMTLIST_FIELD_NAMES
                            then existsb stmt_breaks l
                            else existsb (fun x => negb (is_ast x) || breaks x) l
                        | Node _ _ => breaks (snd f)
                        | _ => false
                        end) fs
  | _ => true
  end.

Definition stops_pass (f : string * pyobj) : bool :=
  match snd f with
  | PyList l =>
      if str_mem (fst f) STMTLIST_FIELD_NAMES
      then existsb stmt_breaks l
      else existsb unhandled l
  | Node _ _ => breaks (snd f)
  | _ => false
  end.

Definition stops_update (f : string * pyobj) : bool :=
  is_block_field (fst f) (snd f)
  || match snd f with
     | PyList l => existsb unhandled l
     | Node _ _ => breaks (snd f)
     | _ => false
     end.

(** A call that does not return a value. *)
Definition fails {A : Type} (r : result A) : Prop := forall a, r <> Ok a.

(** [try: pass] / [except: pass], and the same in the body of an
    [if]. *)
Definition try_except : pyobj :=
  ast.Try [ast.Pass] [ast.ExceptHandler PyNone PyNone [ast.Pass]] [] [].

Definition try_except_module : pyobj :=
  ast.Module_ [ast.If (name_ "c") [try_except] []].

(** [global x] *)
Definition global_x : pyobj := Node "Global" [("names", PyList [PyStr "x"])].

(** [d = {**m}] *)
Definition dict_of_mapping : pyobj :=
  ast.Assign [ast.Name "d" ast.Store] (ast.Dict [PyNone] [name_ "m"]).

(** a definition with a keyword-only parameter [x] without default *)
Definition def_with_kwonly : pyobj :=
  parsed_FunctionDef "f"
    (ast.arguments (PyList []) PyNone (PyList [ast.arg "x" PyNone]) (PyList [PyNone])
                   PyNone (PyList []))
    [ast.Pass] [] PyNone.

(** ** Trees without unpacking

    What the proofs need of [make_single_field_update] at one depth
    and of [apply_body_updates] on the nested blocks: on a tree
    without unpacking a call that returns has changed nothing. *)
Definition single_quiet
    (single : tmp_var_index -> pyobj -> result (tmp_var_index * option FieldUpdate))
  : Prop :=
  forall idx v idx' r,
    no_unpacking v = true -> single idx v = Ok (idx', r) -> idx' = idx /\ r = None.

Definition nested_quiet
    (nested : tmp_var_index -> list pyobj -> result (tmp_var_index * list pyobj)) : Prop :=
  forall idx l idx' l',
    block_ok l = true -> forallb no_unpacking l = true ->
    nested idx l = Ok (idx', l') -> idx' = idx /\ l' = l.

(** [x = f(a, *b)] / [if c: y = [*l]]: spreads in last position
    only. *)
Definition trailing_spread_stmts : list pyobj :=
  [ast.Assign [ast.Name "x" ast.Store]
     (ast.Call (name_ "f") (PyList [name_ "a"; star_ "b"]) (PyList []));
   ast.If (name_ "c")
     [ast.Assign [ast.Name "y" ast.Store] (ast.List [star_ "l"] ast.Load)]
     []].

(** ** [ast.NodeTransformer]

    The fixers that derive from [TransformerFixerBase] are run by
    [self.visit(tree)] of the standard library:

    - [visit(node)] calls the method [visit_<class name>] of the
      fixer when it has one, and [generic_visit(node)] otherwise;
    - [generic_visit(node)] goes through the fields of the node in
      [_fields] order; in a list it visits the items that are nodes,
      drops an item whose visit returns [None], splices in what a
      visit returns that is no node, and keeps every other item; it
      visits a field that is a node and deletes the field when the
      visit returns [None]; then it returns the node.

    A visitor method is a function of the fixer instance and the
    node, which returns the instance after the call and its result. *)
Definition visitor_method : Type := FixerBase -> pyobj -> result (FixerBase * pyobj).

(** [new_values.extend(value)] for a value that is no node. *)
Definition extend_with (value : pyobj) : result (list pyobj) :=
  match value with
  | PyList l => Ok l
  | PyStr s => Ok (map (fun c => PyStr (String c EmptyString)) (list_ascii_of_string s))
  | _ => Raise (TypeError "object is not iterable")
  end.

(** What one visited item of a list leaves in [new_values]. *)
Definition visited_item (value : pyobj) : result (list pyobj) :=
  match value with
  | PyNone => Ok []
  | Node _ _ => Ok [value]
  | _ => extend_with value
  end.

Section generic_visit.

(** [self.visit] *)
Variable visit : FixerBase -> pyobj -> result (FixerBase * pyobj).

(** The loop [for value in old_value] over a list field. *)
Fixpoint visit_items (self : FixerBase) (old_value : list pyobj)
  : result (FixerBase * list pyobj) :=
  match old_value with
  | [] => Ok (self, [])
  | value :: rest =>
      match value with
      | Node _ _ =>
          '(self, value) ← visit self value;
          new ← visited_item value;
          '(self, new_values) ← visit_items self rest;
          Ok (self, new ++ new_values)
      | _ =>
          '(self, new_values) ← visit_items self rest;
          Ok (self, value :: new_values)
      end
  end.

(** One round of the loop over the fields: the field as the node has
    it afterwards, if it still has it. *)
Definition visit_field (self : FixerBase) (field : string) (old_value : pyobj)
  : result (FixerBase * option (string * pyobj)) :=
  match old_value with
  | PyList old_values =>
      '(self, new_values) ← visit_items self old_values;
      Ok (self, Some (field, PyList new_values))
  | Node _ _ =>
      '(self, new_node) ← visit self old_value;
      Ok (self, if is_none new_node then None else Some (field, new_node))
  | _ => Ok (self, Some (field, old_value))
  end.

Fixpoint visit_fields (self : FixerBase) (fs : list (string * pyobj))
  : result (FixerBase * list (string * pyobj)) :=
  match fs with
  | [] => Ok (self, [])
  | (field, old_value) :: rest =>
      '(self, new) ← visit_field self field old_value;
      '(self, rest) ← visit_fields self rest;
      Ok (self, match new with
                | Some f => f :: rest
                | None => rest
                end)
  end.

(** [NodeTransformer.generic_visit(node)] *)
Definition generic_visit (self : FixerBase) (node : pyobj)
  : result (FixerBase * pyobj) :=
  match node with
  | Node c fs =>
      '(self, fs) ← visit_fields self fs;
      Ok (self, Node c fs)
  | _ => Raise (AttributeError "_fields")
  end.

End generic_visit.

Section NodeTransformer.

(** The methods [visit_<class name>] of the fixer. *)
Variable visitor : string -> option visitor_method.

(** [NodeVisitor.visit(node)] *)
Fixpoint visit (self : FixerBase) (node : pyobj) {struct node}
  : result (FixerBase * pyobj) :=
  match node with
  | Node c _ =>
      match visitor c with
      | Some visit_c => visit_c self node
      | None => generic_visit visit self node
      end
  | _ => generic_visit visit self node
  end.

(** [TransformerFixerBase.__call__(cfg, tree)] *)
Definition TransformerFixerBase_call (self : FixerBase) (cfg : BuildConfig) (tree : pyobj)
  : result (FixerBase * pyobj) :=
  visit self tree.

End NodeTransformer.

(** [len(x)] *)
Definition py_len (v : pyobj) : result nat :=
  match v with
  | PyList l => Ok (length l)
  | PyStr s => Ok (String.length s)
  | _ => Raise (TypeError "object has no len()")
  end.

(** [P] holds of every node that [ast.walk] yields: the node itself,
    the fields that are nodes and the items of its list fields that
    are nodes, and so on from them. *)
Fixpoint all_walked (P : pyobj -> bool) (v : pyobj) : bool :=
  match v with
  | Node c fs =>
      P v
      && forallb (fun f => match snd f with
                           | Node _ _ => all_walked P (snd f)
                           | PyList l =>
                               forallb (fun x => match x with
                                                 | Node _ _ => all_walked P x
                                                 | _ => true
                                                 end) l
                           | _ => true
                           end) fs
  | _ => true
  end.

(** *** NewStyleClassesFixer *)
Module NewStyleClassesFixer.

(** An instance of the class, with its [version_info]. *)
Definition init : FixerBase := FixerBase_init (VersionInfo_init "2.0" "2.7" None None).

Definition visit_ClassDef : visitor_method := fun self node =>
  bases ← getattr node "bases";
  n ← py_len bases;
  if Nat.eqb n 0 then
    match bases with
    | PyList l =>
        Ok (self, setattr node "bases" (PyList (l ++ [ast.Name "object" ast.Load])))
    | _ => Raise (AttributeError "append")
    end
  else Ok (self, node).

Definition visitor (c : string) : option visitor_method :=
  if String.eqb c "ClassDef" then Some visit_ClassDef else None.

Definition call (self : FixerBase) (cfg : BuildConfig) (tree : pyobj)
  : result (FixerBase * pyobj) :=
  TransformerFixerBase_call visitor self cfg tree.

End NewStyleClassesFixer.

(** *** ItertoolsBuiltinsFixer *)
Module ItertoolsBuiltinsFixer.

(** An instance of the class, with its [version_info]. *)
Definition init : FixerBase := FixerBase_init (VersionInfo_init "2.0" "2.7" None None).

Definition BUILTIN_NAMES : list string := ["map"; "zip"; "filter"].

Definition visit_Name : visitor_method := fun self node =>
  id ← getattr node "id";
  match id with
  | PyStr s =>
      if negb (str_mem s BUILTIN_NAMES) then Ok (self, node)
      else
        let self :=
          mkFixerBase (version_info self)
                      (required_imports self ∪ {[ ("itertools", None) ]}) in
        Ok (self, ast.Attribute (ast.Name "itertools" ast.Load) ("i" +:+ s) ast.Load)
  | _ => Ok (self, node)
  end.

Definition visitor (c : string) : option visitor_method :=
  if String.eqb c "Name" then Some visit_Name else None.

Definition call (self : FixerBase) (cfg : BuildConfig) (tree : pyobj)
  : result (FixerBase * pyobj) :=
  visit visitor self tree.

End ItertoolsBuiltinsFixer.

(** *** RemoveAnnAssignFixer *)
Module RemoveAnnAssignFixer.

(** An instance of the class, with its [version_info]. *)
Definition init : FixerBase := FixerBase_init (VersionInfo_init "1.0" "3.5" None None).

(** The exception of [visit_AnnAssign]. Its message goes on with the
    [repr] of the target, which holds the address of the object; the
    constant part of the message stands for it. *)
Definition UNEXPECTED_NODE_TYPE : exn := Exception "Unexpected Node Type".

Definition visit_AnnAssign : visitor_method := fun self node =>
  name_node ← getattr node "target";
  if negb (isinstance name_node ["Name"]) then Raise UNEXPECTED_NODE_TYPE
  else
    node_value ← getattr node "value";
    let value := if is_none node_value then ast.NameConstant PyNone else node_value in
    Ok (self, ast.Assign [name_node] value).

Definition visitor (c : string) : option visitor_method :=
  if String.eqb c "AnnAssign" then Some visit_AnnAssign else None.

Definition call (self : FixerBase) (cfg : BuildConfig) (tree : pyobj)
  : result (FixerBase * pyobj) :=
  TransformerFixerBase_call visitor self cfg tree.

End RemoveAnnAssignFixer.

(** A [Name] node whose [id] is [map], [zip] or [filter]. *)
Definition is_builtin_name (v : pyobj) : bool :=
  isinstance v ["Name"]
  && match getattr v "id" with
     | Ok (PyStr s) => str_mem s ItertoolsBuiltinsFixer.BUILTIN_NAMES
     | _ => false
     end.

Definition no_builtin_name (v : pyobj) : bool := negb (is_builtin_name v).

(** [map(f, xs)] where [map] is assigned to: [map = zip]. *)
Definition assign_map_zip : pyobj :=
  ast.Module_ [ast.Assign [ast.Name "map" ast.Store] (name_ "zip")].

(** *** The results of a transformer whose methods return nodes

    How [generic_visit] changes the items of a list and the fields
    of a node, where [P self v self' v'] is what is known of the
    visits of the nodes among them. *)
Section visited.

Variable P : FixerBase -> pyobj -> FixerBase -> pyobj -> Prop.

Inductive visited_items : FixerBase -> list pyobj -> FixerBase -> list pyobj -> Prop :=
| visited_items_nil self : visited_items self [] self []
| visited_items_node self value self1 value' rest self2 rest' :
    is_ast value = true -> is_ast value' = true ->
    P self value self1 value' ->
    visited_items self1 rest self2 rest' ->
    visited_items self (value :: rest) self2 (value' :: rest')
| visited_items_other self value rest self2 rest' :
    is_ast value = false ->
    visited_items self rest self2 rest' ->
    visited_items self (value :: rest) self2 (value :: rest').

Definition visited_field (self : FixerBase) (old_value : pyobj) (self' : FixerBase)
    (new_value : pyobj) : Prop :=
  match old_value with
  | PyList l => exists l', visited_items self l self' l' /\ new_value = PyList l'
  | Node _ _ => is_ast new_value = true /\ P self old_value self' new_value
  | _ => self' = self /\ new_value = old_value
  end.

Inductive visited_fields
  : FixerBase -> list (string * pyobj) -> FixerBase -> list (string * pyobj) -> Prop :=
| visited_fields_nil self : visited_fields self [] self []
| visited_fields_cons self field old_value self1 new_value rest self2 rest' :
    visited_field self old_value self1 new_value ->
    visited_fields self1 rest self2 rest' ->
    visited_fields self ((field, old_value) :: rest) self2 ((field, new_value) :: rest').

End visited.

(** Every method of the transformer returns a node. *)
Definition methods_return_nodes (visitor : string -> option visitor_method) : Prop :=
  forall c visit_c self node self' node',
    visitor c = Some visit_c -> visit_c self node = Ok (self', node') ->
    is_ast node' = true.

(** [P] holds of the nodes that [ast.walk] yields from a field
    value, and from the fields of a node. *)
Definition value_walked (P : pyobj -> bool) (x : pyobj) : bool :=
  match x with
  | Node _ _ => all_walked P x
  | PyList l => forallb (fun y => match y with
                                  | Node _ _ => all_walked P y
                                  | _ => true
                                  end) l
  | _ => true
  end.

Definition children_walked (P : pyobj -> bool) (v : pyobj) : bool :=
  match v with
  | Node _ fs => forallb (fun f => value_walked P (snd f)) fs
  | _ => true
  end.

(** A name has no name below it, as in the grammar, where the
    fields of a [Name] are a string and a context. *)
Definition name_is_leaf (v : pyobj) : bool :=
  negb (isinstance v ["Name"]) || children_walked no_builtin_name v.

(** What a visit that returns does not change and revisits to the
    same result. *)
Definition revisit_fixed (visitor : string -> option visitor_method)
    (self : FixerBase) (v : pyobj) (self' : FixerBase) (v' : pyobj) : Prop :=
  self' = self /\ forall self2, visit visitor self2 v' = Ok (self2, v').

(** The imports of the fixer after a visit of [v], and the tree it
    returns. *)
Definition itertools_visited (self : FixerBase) (v : pyobj) (self' : FixerBase)
    (v' : pyobj) : Prop :=
  all_walked name_is_leaf v = true ->
  all_walked no_builtin_name v' = true
  /\ version_info self' = version_info self
  /\ required_imports self'
     = required_imports self
       ∪ (if all_walked no_builtin_name v then ∅ else {[ ("itertools", None) ]})
  /\ (all_walked no_builtin_name v = true -> v' = v).

Definition not_annassign (v : pyobj) : bool := negb (isinstance v ["AnnAssign"]).

(** An annotated assignment has no annotated assignment below it, as
    in the grammar, where its fields are expressions. *)
Definition plain_annassign (v : pyobj) : bool :=
  not_annassign v || children_walked not_annassign v.

Definition annassign_visited (self : FixerBase) (v : pyobj) (self' : FixerBase)
    (v' : pyobj) : Prop :=
  self' = self
  /\ (all_walked plain_annassign v = true -> all_walked not_annassign v' = true).

(** An annotated assignment whose target is no name:
    [self.x: int = 0]. *)
Definition annotated_target (v : pyobj) : bool :=
  isinstance v ["AnnAssign"]
  && match getattr v "target" with
     | Ok target => negb (isinstance target ["Name"])
     | _ => true
     end.

(** Some node that the transformer visits with a method satisfies
    [P]: the walk stops at the nodes of the classes [stop]. *)
Fixpoint some_visited (stop : list string) (P : pyobj -> bool) (v : pyobj) : bool :=
  match v with
  | Node c fs =>
      if str_mem c stop then P v
      else existsb (fun f => match snd f with
                             | Node _ _ => some_visited stop P (snd f)
                             | PyList l =>
                                 existsb (fun x => match x with
                                                   | Node _ _ => some_visited stop P x
                                                   | _ => false
                                                   end) l
                             | _ => false
                             end) fs
  | _ => false
  end.

(** [class A:] with [self.x: int = 0] in a method. *)
Definition annotated_attribute_module : pyobj :=
  ast.Module_
    [ast.ClassDef "A" [] []
       [parsed_FunctionDef "__init__"
          (ast.arguments (PyList [ast.arg "self" PyNone]) PyNone (PyList []) (PyList [])
                         PyNone (PyList []))
          [ast.AnnAssign (ast.Attribute (name_ "self") "x" ast.Store) (name_ "int")
                         (ast.Num 0) 0]
          [] PyNone]
       []].

(** [x: int] and [y: int = 1] in a function. *)
Definition annotated_names_module : pyobj :=
  ast.Module_
    [parsed_FunctionDef "f"
       (ast.arguments (PyList []) PyNone (PyList []) (PyList []) PyNone (PyList []))
       [ast.AnnAssign (ast.Name "x" ast.Store) (name_ "int") PyNone 1;
        ast.AnnAssign (ast.Name "y" ast.Store) (name_ "int") (ast.Num 1) 1]
       [] PyNone].

(** [class A:] with a class [B] in it, neither with a base. *)
Definition nested_classes_module : pyobj :=
  ast.Module_ [ast.ClassDef "A" [] [] [ast.ClassDef "B" [] [] [ast.Pass] []] []].

Definition default_cfg : BuildConfig := mkBuildConfig "2.7" "1" "" "".

(** *** FStringToStrFormatFixer *)
Module FStringToStrFormatFixer.

(** An instance of the class, with its [version_info]. *)
Definition init : FixerBase := FixerBase_init (VersionInfo_init "2.6" "3.5" None None).

(** The exception of the two methods. Its message goes on with the
    [repr] of the node, which holds the address of the object; the
    constant part of the message stands for it. *)
Definition UNEXPECTED_NODE_TYPE : exn := Exception "Unexpected Node Type".

(** [for val in values]: a list gives its items and a string its
    characters. *)
Definition iter_values (values : pyobj) : result (list pyobj) :=
  match values with
  | PyList l => Ok l
  | PyStr s => Ok (map (fun c => PyStr (String c "")) (list_ascii_of_string s))
  | _ => Raise (TypeError "object is not iterable")
  end.

(** The list [arg_nodes], which both methods append to, is passed
    on with the string they return. *)
Section formatted_value.

Variable joined_str_str : pyobj -> list pyobj -> result (string * list pyobj).

Definition formatted_value_str (fmt_val_node : pyobj) (arg_nodes : list pyobj)
  : result (string * list pyobj) :=
  let arg_index := length arg_nodes in
  value ← getattr fmt_val_node "value";
  let arg_nodes := arg_nodes ++ [value] in
  format_spec_node ← getattr fmt_val_node "format_spec";
  '(format_spec, arg_nodes) ←
     (if is_none format_spec_node then Ok ("", arg_nodes)
      else if negb (isinstance format_spec_node ["JoinedStr"])
           then Raise UNEXPECTED_NODE_TYPE
      else
        '(s, arg_nodes) ← joined_str_str format_spec_node arg_nodes;
        Ok (":" +:+ s, arg_nodes));
  Ok ("{" +:+ pretty arg_index +:+ format_spec +:+ "}", arg_nodes).

(** The loop [for val in joined_str_node.values]. *)
Fixpoint values_loop (values : list pyobj) (fmt_str : string) (arg_nodes : list pyobj)
  : result (string * list pyobj) :=
  match values with
  | [] => Ok (fmt_str, arg_nodes)
  | val :: rest =>
      if isinstance val ["Str"] then
        s ← getattr val "s";
        match s with
        | PyStr s => values_loop rest (fmt_str +:+ s) arg_nodes
        | _ => Raise (TypeError "can only concatenate str to str")
        end
      else if isinstance val ["FormattedValue"] then
        '(s, arg_nodes) ← formatted_value_str val arg_nodes;
        values_loop rest (fmt_str +:+ s) arg_nodes
      else Raise UNEXPECTED_NODE_TYPE
  end.

End formatted_value.

(** [fuel] bounds the nesting of format specifications. *)
Fixpoint joined_str_str (fuel : nat) (joined_str_node : pyobj) (arg_nodes : list pyobj)
  : result (string * list pyobj) :=
  match fuel with
  | O => OutOfFuel
  | S fuel =>
      values ← getattr joined_str_node "values";
      values ← iter_values values;
      values_loop (joined_str_str fuel) values "" arg_nodes
  end.

Definition visit_JoinedStr (fuel : nat) : visitor_method := fun self node =>
  '(fmt_str, arg_nodes) ← joined_str_str fuel node [];
  let format_attr_node := ast.Attribute (ast.Str fmt_str) "format" ast.Load in
  Ok (self, ast.Call format_attr_node (PyList arg_nodes) (PyList [])).

Definition visitor (fuel : nat) (c : string) : option visitor_method :=
  if String.eqb c "JoinedStr" then Some (visit_JoinedStr fuel) else None.

Definition call (fuel : nat) (self : FixerBase) (cfg : BuildConfig) (tree : pyobj)
  : result (FixerBase * pyobj) :=
  TransformerFixerBase_call (visitor fuel) self cfg tree.

End FStringToStrFormatFixer.

(** The values of an f-string as the parser builds them: a text, or
    an expression with its conversion ([-1] for none, or the code of
    [s], [r] or [a]) and its format specification, which is an
    f-string again. *)
#[local] Unset Elimination Schemes.

Inductive fstring_part : Type :=
| Text (s : string)
| Field (value : pyobj) (conversion : Z) (format_spec : option (list fstring_part)).

#[local] Set Elimination Schemes.

Fixpoint part_node (p : fstring_part) : pyobj :=
  match p with
  | Text s => ast.Str s
  | Field value conversion format_spec =>
      ast.FormattedValue value conversion
        match format_spec with
        | None => PyNone
        | Some parts => ast.JoinedStr (map part_node parts)
        end
  end.

Definition fstring (parts : list fstring_part) : pyobj :=
  ast.JoinedStr (map part_node parts).

(** The expressions of a part, in the order of the source text. *)
Fixpoint part_values (p : fstring_part) : list pyobj :=
  match p with
  | Text _ => []
  | Field value _ format_spec =>
      value :: match format_spec with
               | None => []
               | Some parts => flat_map part_values parts
               end
  end.

(** The nesting of format specifications in a part. *)
Fixpoint part_depth (p : fstring_part) : nat :=
  match p with
  | Text _ => 0
  | Field _ _ format_spec =>
      match format_spec with
      | None => 0
      | Some parts => S (list_max (map part_depth parts))
      end
  end.

Definition parts_depth (parts : list fstring_part) : nat :=
  list_max (map part_depth parts).

Section numbered.

Variable str : nat -> fstring_part -> string.

(** The strings of the parts, the first expression of each part
    having the number [index] plus that of the expressions before
    it. *)
Fixpoint numbered (index : nat) (parts : list fstring_part) : string :=
  match parts with
  | [] => ""
  | p :: parts => str index p +:+ numbered (index + length (part_values p)) parts
  end.

End numbered.

(** The text of a part in a format string for [str.format]: a text
    as it is, an expression as its number in braces, followed by a
    colon and the text of its format specification when it has
    one. *)
Fixpoint part_str (index : nat) (p : fstring_part) : string :=
  match p with
  | Text s => s
  | Field _ _ format_spec =>
      "{" +:+ pretty index
          +:+ match format_spec with
              | None => ""
              | Some parts => ":" +:+ numbered part_str (S index) parts
              end
          +:+ "}"
  end.

Definition format_string (parts : list fstring_part) : string :=
  numbered part_str 0 parts.

(** ["a{x!r}b{y:>{w}}"] as an f-string. *)
Definition fstring_x_y_w : list fstring_part :=
  [Text "a"; Field (name_ "x") 114 None; Text "b";
   Field (name_ "y") (-1) (Some [Text ">"; Field (name_ "w") (-1) None])].

(** ** [packaging.py] *)

(** [s.endswith(suffix)] *)
Definition endswith (s suffix : string) : bool :=
  let n := String.length s in
  let m := String.length suffix in
  Nat.leb m n && String.eqb (substring (n - m) m s) suffix.

(** The function passed to [shutil.copytree] as [ignore]: the names
    of a directory [src] that are not copied. *)
Definition _ingore_tmp_files (src : string) (names : list string) : list string :=
  if endswith src "build" then names
  else if endswith src "dist" then names
  else if endswith src "__pycache__" then names
  else List.filter (fun name => endswith name ".pyc") names.

(** *** InlineKWOnlyArgsFixer as a transformer *)
Module InlineKWOnlyArgsFixer.

(** An instance of the class, with its [version_info]. *)
Definition init : FixerBase := FixerBase_init (VersionInfo_init "1.0" "3.5" None None).

(** The method on an instance: it does not use [self]. *)
Definition visit_FunctionDef_method : visitor_method := fun self node =>
  node ← visit_FunctionDef node;
  Ok (self, node).

Definition visitor (c : string) : option visitor_method :=
  if String.eqb c "FunctionDef" then Some visit_FunctionDef_method else None.

Definition call (self : FixerBase) (cfg : BuildConfig) (tree : pyobj)
  : result (FixerBase * pyobj) :=
  TransformerFixerBase_call visitor self cfg tree.

End InlineKWOnlyArgsFixer.

(** [def f(a, b=1, *, x, y=2): def g( *, z): pass] in a module: a
    function with keyword-only parameters in another. *)
Definition nested_kwonly_module : pyobj :=
  ast.Module_
    [parsed_FunctionDef "f"
       (ast.arguments (PyList [ast.arg "a" PyNone]) PyNone
                      (PyList [ast.arg "x" PyNone])
                      (PyList [PyNone]) PyNone (PyList []))
       [parsed_FunctionDef "g"
          (ast.arguments (PyList []) PyNone (PyList [ast.arg "z" PyNone])
                         (PyList [PyNone]) PyNone (PyList []))
          [ast.Pass] [] PyNone]
       [] PyNone].

(** ** [ast.walk]

    [ast.walk] yields the nodes of a tree breadth first, from a queue
    of nodes, and the loops over it change the node they are given.
    A node of the queue is given here by the path that leads to it
    from the root of the tree: the position of a field, and the
    position in the list when the field is a list. *)
Definition step : Type := nat * option nat.
Definition path : Type := list step.

Definition field_child (field : pyobj) (j : option nat) : option pyobj :=
  match j, field with
  | None, Node _ _ => Some field
  | Some j, PyList l =>
      match l !! j with
      | Some x => if is_ast x then Some x else None
      | None => None
      end
  | _, _ => None
  end.

Definition set_field_child (field : pyobj) (j : option nat) (x : pyobj) : pyobj :=
  match j, field with
  | Some j, PyList l => PyList (<[j := x]> l)
  | _, _ => x
  end.

(** The child node that a step leads to. *)
Definition child (node : pyobj) (s : step) : option pyobj :=
  match node with
  | Node _ fs =>
      match fs !! fst s with
      | Some (_, field) => field_child field (snd s)
      | None => None
      end
  | _ => None
  end.

Definition set_child (node : pyobj) (s : step) (x : pyobj) : pyobj :=
  match node with
  | Node c fs =>
      match fs !! fst s with
      | Some (n, field) => Node c (<[fst s := (n, set_field_child field (snd s) x)]> fs)
      | None => node
      end
  | _ => node
  end.

Fixpoint get_at (p : path) (tree : pyobj) : option pyobj :=
  match p with
  | [] => Some tree
  | s :: p =>
      match child tree s with
      | Some c => get_at p c
      | None => None
      end
  end.

(** The tree after the node at [p] has become [f] of it. *)
Fixpoint update_at (p : path) (f : pyobj -> pyobj) (tree : pyobj) : pyobj :=
  match p with
  | [] => f tree
  | s :: p =>
      match child tree s with
      | Some c => set_child tree s (update_at p f c)
      | None => tree
      end
  end.

Definition set_at (p : path) (x : pyobj) (tree : pyobj) : pyobj :=
  update_at p (fun _ => x) tree.

(** The items of a list that are nodes, from position [j] on. *)
Fixpoint item_steps (j : nat) (l : list pyobj) : list (option nat) :=
  match l with
  | [] => []
  | x :: l => (if is_ast x then [Some j] else []) ++ item_steps (S j) l
  end.

Definition field_steps (field : pyobj) : list (option nat) :=
  match field with
  | Node _ _ => [None]
  | PyList l => item_steps 0 l
  | _ => []
  end.

Fixpoint fields_steps (i : nat) (fs : list (string * pyobj)) : list step :=
  match fs with
  | [] => []
  | f :: fs => map (pair i) (field_steps (snd f)) ++ fields_steps (S i) fs
  end.

(** [ast.iter_child_nodes(node)]: the fields that are nodes and the
    items of the fields that are lists, in the order of the
    fields. *)
Definition iter_child_nodes (node : pyobj) : result (list step) :=
  fs ← iter_fields node;
  Ok (fields_steps 0 fs).

(** The queue of [ast.walk] holds nodes. A node is given by the tree
    it is in and its path there: tree 0 is the tree that is
    walked, the others are nodes that a body of the loop has taken
    out of their tree while the queue held them. *)
Definition ref : Type := nat * path.

Section walk.

(** The body of the loop, as what it makes of the node it is given:
    the bodies of the loops of the fixers change the node and
    the nodes below it in place, or clear a field. *)
Variable body : pyobj -> result pyobj.

(** The children of [node], which [ast.walk] has added to the queue
    before the body of the loop made [node'] of [node]: a child that
    is still in its place is given by its path, and a child whose
    field has been cleared is a tree of its own from now on. *)
Fixpoint enqueue (r : nat) (p : path) (node node' : pyobj) (children : list step)
    (trees : list pyobj) : list ref * list pyobj :=
  match children with
  | [] => ([], trees)
  | s :: children =>
      match child node' s, child node s with
      | None, Some c =>
          let '(refs, trees') := enqueue r p node node' children (trees ++ [c]) in
          ((length trees, []) :: refs, trees')
      | _, _ =>
          let '(refs, trees') := enqueue r p node node' children trees in
          ((r, p ++ [s]) :: refs, trees')
      end
  end.

(** [for node in ast.walk(tree)]: the node is taken from the left of
    the queue and its children are added on the right before the
    body of the loop sees the node. Each round takes a unit of fuel;
    a reference of the queue that leads to no node is no behaviour
    of the program either. *)
Fixpoint walk_loop (fuel : nat) (todo : list ref) (trees : list pyobj)
  : result (list pyobj) :=
  match todo with
  | [] => Ok trees
  | (r, p) :: todo =>
      match fuel, trees !! r with
      | S fuel, Some tree =>
          match get_at p tree with
          | Some node =>
              children ← iter_child_nodes node;
              node' ← body node;
              let '(refs, trees) :=
                enqueue r p node node' children (<[r := set_at p node' tree]> trees) in
              walk_loop fuel (todo ++ refs) trees
          | None => OutOfFuel
          end
      | _, _ => OutOfFuel
      end
  end.

(** The tree after the loop. *)
Definition walk (fuel : nat) (tree : pyobj) : result pyobj :=
  trees ← walk_loop fuel [(0, [])] [tree];
  match trees with
  | tree :: _ => Ok tree
  | [] => OutOfFuel
  end.

End walk.


Definition keeps_nodes (g : pyobj -> pyobj) : Prop :=
  forall v, is_ast v = true -> is_ast (g v) = true.

(** Two paths neither of which leads through the node of the
    other. *)
Fixpoint indep (p q : path) : bool :=
  match p, q with
  | s :: p, s' :: q => if decide (s = s') then indep p q else true
  | _, _ => false
  end.

(** [g] at the node of every path of a list, from the left. *)
Definition apply_all (g : pyobj -> pyobj) (ps : list path) (t : pyobj) : pyobj :=
  foldl (fun t p => update_at p g t) t ps.

(** [g] at every child of a node. *)
Definition map_children (g : pyobj -> pyobj) (v : pyobj) : pyobj :=
  match v with
  | Node c fs =>
      Node c (map (fun nx => (fst nx,
                              match snd nx with
                              | Node _ _ => g (snd nx)
                              | PyList l =>
                                  PyList (map (fun y => match y with
                                                        | Node _ _ => g y
                                                        | _ => y
                                                        end) l)
                              | x => x
                              end)) fs)
  | _ => v
  end.

(** [g] at the nodes that a field holds. *)
Definition map_value (g : pyobj -> pyobj) (x : pyobj) : pyobj :=
  match x with
  | Node _ _ => g x
  | PyList l => PyList (map (fun y => match y with
                                      | Node _ _ => g y
                                      | _ => y
                                      end) l)
  | x => x
  end.

(** The children of a node, in the order of [iter_child_nodes]. *)
Definition field_kids (field : pyobj) : list pyobj :=
  match field with
  | Node _ _ => [field]
  | PyList l => List.filter is_ast l
  | _ => []
  end.

Definition kids (v : pyobj) : list pyobj :=
  match v with
  | Node _ fs => flat_map (fun f => field_kids (snd f)) fs
  | _ => []
  end.

Definition steps (v : pyobj) : list step :=
  match v with
  | Node _ fs => fields_steps 0 fs
  | _ => []
  end.

(** No path of the list leads through the node of another. *)
Fixpoint all_indep (ps : list path) : Prop :=
  match ps with
  | [] => True
  | p :: ps => Forall (fun q => indep p q = true) ps /\ all_indep ps
  end.

(** Two references neither of which leads through the node of the
    other. *)
Definition ref_indep (a b : ref) : bool :=
  if decide (fst a = fst b) then indep (snd a) (snd b) else true.

Fixpoint all_indep_refs (refs : list ref) : Prop :=
  match refs with
  | [] => True
  | a :: refs => Forall (fun b => ref_indep a b = true) refs /\ all_indep_refs refs
  end.

(** The paths of the references into tree [r]. *)
Definition paths_in (r : nat) (refs : list ref) : list path :=
  map snd (List.filter (fun a => Nat.eqb (fst a) r) refs).

(** The node of a reference. *)
Definition node_at (trees : list pyobj) (a : ref) : option pyobj :=
  match trees !! fst a with
  | Some tree => get_at (snd a) tree
  | None => None
  end.

(** The node that the queue holds for the child of [node] at a step,
    after the body of the loop has made [node'] of [node]. *)
Definition queued_child (node node' : pyobj) (s : step) : option pyobj :=
  match child node' s with
  | Some c => Some c
  | None => child node s
  end.

(** The number of nodes that [ast.walk] yields. *)
Fixpoint walk_size (v : pyobj) : nat :=
  match v with
  | Node _ fs =>
      S (list_sum
           (map (fun f => match snd f with
                          | Node _ _ => walk_size (snd f)
                          | PyList l =>
                              list_sum (map (fun x => match x with
                                                      | Node _ _ => walk_size x
                                                      | _ => 0
                                                      end) l)
                          | _ => 0
                          end) fs))
  | _ => 0
  end.

(** [f] on every node that [ast.walk] yields, the nodes below a node
    first. *)
Fixpoint map_walked (f : pyobj -> pyobj) (v : pyobj) : pyobj :=
  match v with
  | Node c fs =>
      f (Node c (map (fun nx => (fst nx,
                                 match snd nx with
                                 | Node _ _ => map_walked f (snd nx)
                                 | PyList l =>
                                     PyList (map (fun y => match y with
                                                           | Node _ _ => map_walked f y
                                                           | _ => y
                                                           end) l)
                                 | x => x
                                 end)) fs))
  | _ => v
  end.

(** The number of nodes that the walk yields from a field. *)
Definition field_size (x : pyobj) : nat :=
  match x with
  | Node _ _ => walk_size x
  | PyList l => list_sum (map (fun y => match y with
                                        | Node _ _ => walk_size y
                                        | _ => 0
                                        end) l)
  | _ => 0
  end.

(** The number of nodes that the walk yields from the node of a
    path. *)
Definition size_at (t : pyobj) (p : path) : nat :=
  match get_at p t with
  | Some v => walk_size v
  | None => 0
  end.

(** [g] gives a node of the same class. *)
Definition keeps_class (g : pyobj -> pyobj) : Prop :=
  forall c fs, exists fs', g (Node c fs) = Node c fs'.

(** *** RangeToXrangeFixer *)
Module RangeToXrangeFixer.

(** An instance of the class, with its [version_info]. *)
Definition init : FixerBase := FixerBase_init (VersionInfo_init "1.0" "2.7" None None).

(** [value == "range"] *)
Definition is_range (value : pyobj) : bool :=
  match value with
  | PyStr s => String.eqb s "range"
  | _ => false
  end.

(** The body of the loop over the nodes. *)
Definition loop_body (node : pyobj) : result pyobj :=
  if negb (isinstance node ["Name"]) then Ok node
  else
    id ← getattr node "id";
    if is_range id then
      ctx ← getattr node "ctx";
      if isinstance ctx ["Load"] then Ok (setattr node "id" (PyStr "xrange"))
      else Ok node
    else Ok node.

Definition call (fuel : nat) (self : FixerBase) (cfg : BuildConfig) (tree : pyobj)
  : result (FixerBase * pyobj) :=
  tree ← walk loop_body fuel tree;
  Ok (self, tree).

End RangeToXrangeFixer.

(** [range] where it is read. *)
Definition is_range_load (v : pyobj) : bool :=
  isinstance v ["Name"]
  && match getattr v "id", getattr v "ctx" with
     | Ok id, Ok ctx => RangeToXrangeFixer.is_range id && isinstance ctx ["Load"]
     | _, _ => false
     end.

(** What the loop of [RangeToXrangeFixer] makes of a node. *)
Definition range_to_xrange (v : pyobj) : pyobj :=
  if is_range_load v then setattr v "id" (PyStr "xrange") else v.

(** A name as the parser builds it has an [id] and a [ctx]. *)
Definition name_fields (v : pyobj) : bool :=
  negb (isinstance v ["Name"])
  || match getattr v "id", getattr v "ctx" with
     | Ok _, Ok _ => true
     | _, _ => false
     end.

(** [for i in range(n): range = xrange(i)] as a module, where the
    target of the assignment is a name [range] that is stored to. *)
Definition range_module : pyobj :=
  ast.Module_
    [Node "For" [("target", ast.Name "i" ast.Store);
                 ("iter", ast.Call (name_ "range") (PyList [name_ "n"]) (PyList []));
                 ("body", PyList [ast.Assign [ast.Name "range" ast.Store]
                                    (ast.Call (name_ "xrange") (PyList [name_ "i"])
                                              (PyList []))]);
                 ("orelse", PyList [])]].

(** [node.name = x]: the field of the node is replaced, or added
    behind the others when the node has none of this name; what is
    no node takes no attribute. *)
Definition has_field (name : string) (fs : list (string * pyobj)) : bool :=
  match lookup_field name fs with
  | Some _ => true
  | None => false
  end.

Definition assign (node : pyobj) (name : string) (x : pyobj) : result pyobj :=
  match node with
  | Node c fs =>
      Ok (Node c (if has_field name fs then set_field name x fs else fs ++ [(name, x)]))
  | _ => Raise (AttributeError name)
  end.

(** *** RemoveFunctionDefAnnotationsFixer *)
Module RemoveFunctionDefAnnotationsFixer.

(** An instance of the class, with its [version_info]. *)
Definition init : FixerBase := FixerBase_init (VersionInfo_init "1.0" "2.7" None None).

Fixpoint clear_each (args : list pyobj) : result (list pyobj) :=
  match args with
  | [] => Ok []
  | arg :: args =>
      arg ← assign arg "annotation" PyNone;
      args ← clear_each args;
      Ok (arg :: args)
  end.

(** [for arg in args: arg.annotation = None], where a string has its
    characters as items. *)
Definition clear_all (args : pyobj) : result pyobj :=
  match args with
  | PyList l => l ← clear_each l; Ok (PyList l)
  | PyStr s => if String.eqb s "" then Ok args else Raise (AttributeError "annotation")
  | _ => Raise (TypeError "object is not iterable")
  end.

(** [if arg: arg.annotation = None] *)
Definition clear_optional (arg : pyobj) : result pyobj :=
  if truthy arg then assign arg "annotation" PyNone else Ok arg.

(** The body of the loop over the nodes. *)
Definition loop_body (node : pyobj) : result pyobj :=
  if negb (isinstance node ["FunctionDef"]) then Ok node
  else
    node ← assign node "returns" PyNone;
    args ← getattr node "args";
    positional ← getattr args "args";
    positional ← clear_all positional;
    let args := setattr args "args" positional in
    kwonlyargs ← getattr args "kwonlyargs";
    kwonlyargs ← clear_all kwonlyargs;
    let args := setattr args "kwonlyargs" kwonlyargs in
    vararg ← getattr args "vararg";
    vararg ← clear_optional vararg;
    let args := setattr args "vararg" vararg in
    kwarg ← getattr args "kwarg";
    kwarg ← clear_optional kwarg;
    let args := setattr args "kwarg" kwarg in
    Ok (setattr node "args" args).

Definition call (fuel : nat) (self : FixerBase) (cfg : BuildConfig) (tree : pyobj)
  : result (FixerBase * pyobj) :=
  tree ← walk loop_body fuel tree;
  Ok (self, tree).

End RemoveFunctionDefAnnotationsFixer.

(** The position of the field of a name. *)
Fixpoint index_of (name : string) (fs : list (string * pyobj)) : option nat :=
  match fs with
  | [] => None
  | (n, _) :: fs => if String.eqb n name then Some 0 else S <$> index_of name fs
  end.

(** What the loop of [RemoveFunctionDefAnnotationsFixer] makes of a
    node, where its body returns. *)
Definition strip_def (v : pyobj) : pyobj :=
  match RemoveFunctionDefAnnotationsFixer.loop_body v with
  | Ok v' => v'
  | _ => v
  end.

(** A parameter without its annotation. *)
Definition clear_arg (x : pyobj) : pyobj :=
  match x with
  | Node c fs =>
      Node c (if has_field "annotation" fs then set_field "annotation" PyNone fs
              else fs ++ [("annotation", PyNone)])
  | _ => x
  end.

Definition clear_opt (x : pyobj) : pyobj := if truthy x then clear_arg x else x.

(** The [arguments] of a definition without the annotations. *)
Definition strip_arguments (args : pyobj) : pyobj :=
  match args with
  | Node c afs =>
      match lookup_field "args" afs, lookup_field "kwonlyargs" afs,
            lookup_field "vararg" afs, lookup_field "kwarg" afs with
      | Some (PyList a), Some (PyList k), Some va, Some kw =>
          Node c (set_field "kwarg" (clear_opt kw)
                    (set_field "vararg" (clear_opt va)
                       (set_field "kwonlyargs" (PyList (map clear_arg k))
                          (set_field "args" (PyList (map clear_arg a)) afs))))
      | _, _, _, _ => args
      end
  | _ => args
  end.

(** A parameter, and a parameter or [None]. *)
Definition is_arg (x : pyobj) : bool := isinstance x ["arg"].
Definition opt_arg (x : pyobj) : bool := is_none x || is_arg x.

(** A function definition as the parser builds it has the field
    [returns], and its [args] are an [arguments] node with the
    lists [args] and [kwonlyargs] of parameters and with [vararg]
    and [kwarg], a parameter or [None] each. *)
Definition def_fields (v : pyobj) : bool :=
  negb (isinstance v ["FunctionDef"])
  || match v with
     | Node _ fs =>
         has_field "returns" fs
         && match lookup_field "args" fs with
            | Some (Node c afs) =>
                String.eqb c "arguments"
                && match lookup_field "args" afs, lookup_field "kwonlyargs" afs,
                         lookup_field "vararg" afs, lookup_field "kwarg" afs with
                   | Some (PyList a), Some (PyList k), Some va, Some kw =>
                       forallb is_arg a && forallb is_arg k && opt_arg va && opt_arg kw
                   | _, _, _, _ => false
                   end
            | _ => false
            end
     | _ => false
     end.

(** No annotation of a parameter is left, where [x] is [None] or a
    parameter. *)
Definition bare_arg (x : pyobj) : bool :=
  match x with
  | Node _ fs =>
      match lookup_field "annotation" fs with
      | Some PyNone => true
      | _ => false
      end
  | _ => true
  end.

(** A function definition without annotations. *)
Definition unannotated (v : pyobj) : bool :=
  negb (isinstance v ["FunctionDef"])
  || match v with
     | Node _ fs =>
         match lookup_field "returns" fs, lookup_field "args" fs with
         | Some PyNone, Some (Node _ afs) =>
             match lookup_field "args" afs, lookup_field "kwonlyargs" afs,
                   lookup_field "vararg" afs, lookup_field "kwarg" afs with
             | Some (PyList a), Some (PyList k), Some va, Some kw =>
                 forallb bare_arg a && forallb bare_arg k && bare_arg va && bare_arg kw
             | _, _, _, _ => false
             end
         | _, _ => false
         end
     | _ => false
     end.

(** [def f(a: int, *b: str, c: int = 0, **d) -> int: pass] with an
    annotated assignment [x: int = 1] beside it. *)
Definition annotated_def_module : pyobj :=
  ast.Module_
    [parsed_FunctionDef "f"
       (ast.arguments (PyList [ast.arg "a" (name_ "int")]) (ast.arg "b" (name_ "str"))
                      (PyList [ast.arg "c" (name_ "int")]) (PyList [ast.Num 0])
                      (ast.arg "d" PyNone) (PyList []))
       [ast.Pass] [] (name_ "int");
     ast.AnnAssign (ast.Name "x" ast.Store) (name_ "int") (ast.Num 1) 1].

(** *** ShortToLongFormSuperFixer *)
Module ShortToLongFormSuperFixer.

(** An instance of the class, with its [version_info]. *)
Definition init : FixerBase := FixerBase_init (VersionInfo_init "2.2" "2.7" None None).

(** [value == "super"] *)
Definition is_super (value : pyobj) : bool :=
  match value with
  | PyStr s => String.eqb s "super"
  | _ => false
  end.

(** [seq[0]] *)
Definition first_item (seq : pyobj) : result pyobj :=
  match seq with
  | PyList (x :: _) => Ok x
  | PyList [] => Raise (IndexError "list index out of range")
  | PyStr (String c _) => Ok (PyStr (String c ""))
  | PyStr "" => Raise (IndexError "string index out of range")
  | _ => Raise (TypeError "object is not subscriptable")
  end.

(** The body of the loop over the nodes of a method, in the class
    [node] and with the first parameter [self_arg] of the method. *)
Definition call_body (node self_arg maybe_super_call : pyobj) : result pyobj :=
  if negb (isinstance maybe_super_call ["Call"]) then Ok maybe_super_call
  else
    func_node ← getattr maybe_super_call "func";
    is_super_name ←
      (if isinstance func_node ["Name"]
       then id ← getattr func_node "id"; Ok (is_super id)
       else Ok false);
    if negb is_super_name then Ok maybe_super_call
    else
      args ← getattr maybe_super_call "args";
      n ← py_len args;
      if Nat.ltb 0 n then Ok maybe_super_call
      else
        name ← getattr node "name";
        arg ← getattr self_arg "arg";
        Ok (setattr maybe_super_call "args"
              (PyList [name_node name ast.Load; name_node arg ast.Load])).

(** The body of the loop over the nodes of the class [node]. *)
Definition method_body (fuel : nat) (node maybe_method : pyobj) : result pyobj :=
  if negb (isinstance maybe_method ["FunctionDef"]) then Ok maybe_method
  else
    method_args ← getattr maybe_method "args";
    args ← getattr method_args "args";
    n ← py_len args;
    if Nat.eqb n 0 then Ok maybe_method
    else
      self_arg ← first_item args;
      walk (call_body node self_arg) fuel maybe_method.

Definition visit_ClassDef (fuel : nat) : visitor_method := fun self node =>
  node ← walk (method_body fuel node) fuel node;
  Ok (self, node).

Definition visitor (fuel : nat) (c : string) : option visitor_method :=
  if String.eqb c "ClassDef" then Some (visit_ClassDef fuel) else None.

Definition call (fuel : nat) (self : FixerBase) (cfg : BuildConfig) (tree : pyobj)
  : result (FixerBase * pyobj) :=
  TransformerFixerBase_call (visitor fuel) self cfg tree.

End ShortToLongFormSuperFixer.

(** A call [super()], without arguments. *)
Definition is_bare_super (v : pyobj) : bool :=
  isinstance v ["Call"]
  && match getattr v "func", getattr v "args" with
     | Ok func, Ok (PyList []) =>
         isinstance func ["Name"]
         && match getattr func "id" with
            | Ok id => ShortToLongFormSuperFixer.is_super id
            | _ => false
            end
     | _, _ => false
     end.

(** [super()] with the arguments [name] and [arg]. *)
Definition fill_super (name arg : pyobj) (v : pyobj) : pyobj :=
  if is_bare_super v
  then setattr v "args" (PyList [name_node name ast.Load; name_node arg ast.Load])
  else v.

(** The name of the first parameter of a function definition that
    has parameters. *)
Definition first_param (v : pyobj) : option pyobj :=
  if isinstance v ["FunctionDef"] then
    match getattr v "args" with
    | Ok method_args =>
        match getattr method_args "args" with
        | Ok (PyList (self_arg :: _)) =>
            match getattr self_arg "arg" with
            | Ok arg => Some arg
            | _ => None
            end
        | _ => None
        end
    | _ => None
    end
  else None.

(** The calls [super()] of a tree with the arguments [name] and the
    first parameter of the outermost function definition with
    parameters that they are in, which is [outer] if it is given;
    the calls in no such definition are left as they are. *)
Fixpoint fix_super (name : pyobj) (outer : option pyobj) (v : pyobj) : pyobj :=
  match v with
  | Node c fs =>
      let inner := match outer with
                   | Some _ => outer
                   | None => first_param v
                   end in
      let v' :=
        Node c (map (fun nx => (fst nx,
                                match snd nx with
                                | Node _ _ => fix_super name inner (snd nx)
                                | PyList l =>
                                    PyList (map (fun y => match y with
                                                          | Node _ _ =>
                                                              fix_super name inner y
                                                          | _ => y
                                                          end) l)
                                | x => x
                                end)) fs) in
      match inner with
      | Some arg => fill_super name arg v'
      | None => v'
      end
  | _ => v
  end.

(** A function definition and a call as the parser builds them: the
    parameters of a definition are a list in an [arguments] node, and
    the first one is an [arg] with a name; a call has a function,
    which has an [id] when it is a name, and a list of arguments. *)
Definition super_fields (v : pyobj) : bool :=
  (negb (isinstance v ["FunctionDef"])
   || match getattr v "args" with
      | Ok method_args =>
          match getattr method_args "args" with
          | Ok (PyList []) => isinstance method_args ["arguments"]
          | Ok (PyList (self_arg :: _)) =>
              isinstance method_args ["arguments"]
              && isinstance self_arg ["arg"]
              && match getattr self_arg "arg" with
                 | Ok (PyStr _) => true
                 | _ => false
                 end
          | _ => false
          end
      | _ => false
      end)
  && (negb (isinstance v ["Call"])
      || match getattr v "func", getattr v "args" with
         | Ok func, Ok (PyList _) =>
             negb (isinstance func ["Name"])
             || match getattr func "id" with
                | Ok _ => true
                | _ => false
                end
         | _, _ => false
         end).

(** The number of nodes of a tree once every call [super()] has got
    its two arguments. *)
Fixpoint filled_size (v : pyobj) : nat :=
  match v with
  | Node _ fs =>
      S (list_sum
           (map (fun f => match snd f with
                          | Node _ _ => filled_size (snd f)
                          | PyList l =>
                              list_sum (map (fun x => match x with
                                                      | Node _ _ => filled_size x
                                                      | _ => 0
                                                      end) l)
                          | _ => 0
                          end) fs))
      + (if is_bare_super v then 4 else 0)
  | _ => 0
  end.

(** [super().__init__()] as a statement. *)
Definition super_init_stmt (args : list pyobj) : pyobj :=
  ast.Expr (ast.Call (ast.Attribute (ast.Call (name_ "super") (PyList args) (PyList []))
                                    "__init__" ast.Load)
                     (PyList []) (PyList [])).

Definition method_def (name : string) (params : list pyobj) (body : list pyobj) : pyobj :=
  parsed_FunctionDef name
    (ast.arguments (PyList params) PyNone (PyList []) (PyList []) PyNone (PyList []))
    body [] PyNone.

(** A class [A] with a method [__init__(self)] that calls
    [super().__init__()] and holds a function [g(x)] that does so
    too, with a static method without parameters, and with a class
    [B] whose method [m(this)] does so as well. *)
Definition super_class : pyobj :=
  ast.ClassDef "A" [name_ "Base"] []
    [method_def "__init__" [ast.arg "self" PyNone]
       [super_init_stmt [];
        method_def "g" [ast.arg "x" PyNone] [super_init_stmt []]];
     method_def "s" [] [super_init_stmt []];
     ast.ClassDef "B" [] []
       [method_def "m" [ast.arg "this" PyNone] [super_init_stmt []]] []]
    [].

(** What the body of the outer loop makes of a node: the calls
    [super()] of a function definition with parameters get their
    arguments. *)
Definition fix_method (name : pyobj) (v : pyobj) : pyobj :=
  match first_param v with
  | Some arg => fix_super name (Some arg) v
  | None => v
  end.

Definition not_bare_super (v : pyobj) : bool := negb (is_bare_super v).

(** * Properties *)

(** ** Order of strings *)

Lemma ascii_compare_refl (a : ascii) : Ascii.compare a a = Eq.
Proof. unfold Ascii.compare. apply N.compare_refl. Qed.

Lemma ascii_compare_lt_trans (a b c : ascii) :
  Ascii.compare a b = Lt -> Ascii.compare b c = Lt -> Ascii.compare a c = Lt.
Proof.
  unfold Ascii.compare. rewrite !N.compare_lt_iff. lia.
Qed.

Lemma string_compare_refl (s : string) : String.compare s s = Eq.
Proof.
  induction s as [|a s IH]; simpl; [reflexivity|].
  by rewrite ascii_compare_refl.
Qed.

Lemma string_compare_lt_trans (s1 s2 s3 : string) :
  String.compare s1 s2 = Lt -> String.compare s2 s3 = Lt -> String.compare s1 s3 = Lt.
Proof.
  revert s2 s3. induction s1 as [|a s1 IH]; intros [|b s2] [|c s3]; simpl;
    try discriminate; try reflexivity.
  destruct (Ascii.compare a b) eqn:Hab; try discriminate;
    destruct (Ascii.compare b c) eqn:Hbc; try discriminate; intros H1 H2.
  - apply Ascii.compare_eq_iff in Hab, Hbc. subst.
    rewrite ascii_compare_refl. eauto.
  - apply Ascii.compare_eq_iff in Hab. subst. by rewrite Hbc.
  - apply Ascii.compare_eq_iff in Hbc. subst. by rewrite Hab.
  - by rewrite (ascii_compare_lt_trans a b c).
Qed.

Lemma string_leb_refl (s : string) : String.leb s s = true.
Proof. unfold String.leb. by rewrite string_compare_refl. Qed.

Lemma string_ltb_leb (s t : string) : String.ltb s t = negb (String.leb t s).
Proof.
  unfold String.ltb, String.leb. rewrite (String.compare_antisym s t).
  by destruct (String.compare t s).
Qed.

Lemma string_leb_trans (s1 s2 s3 : string) :
  String.leb s1 s2 = true -> String.leb s2 s3 = true -> String.leb s1 s3 = true.
Proof.
  unfold String.leb.
  destruct (String.compare s1 s2) eqn:H12; try discriminate;
    destruct (String.compare s2 s3) eqn:H23; try discriminate; intros _ _.
  - apply String.compare_eq_iff in H12, H23. subst. by rewrite string_compare_refl.
  - apply String.compare_eq_iff in H12. subst. by rewrite H23.
  - apply String.compare_eq_iff in H23. subst. by rewrite H12.
  - by rewrite (string_compare_lt_trans s1 s2 s3).
Qed.

(** ** The sort of the fields *)

Section insertion.

Context {A : Type} (lt : A -> A -> bool).

Hypothesis lt_asym : forall x y, lt x y = true -> lt y x = false.
Hypothesis le_trans :
  forall x y z, lt y x = false -> lt z y = false -> lt z x = false.

Lemma insert_sorted_perm (x : A) (l : list A) : insert_sorted lt x l ≡ₚ x :: l.
Proof.
  induction l as [|y l IH]; simpl; [done|].
  destruct (lt y x); [|done].
  rewrite IH. apply Permutation_swap.
Qed.

Lemma insert_sorted_sorted (x : A) (l : list A) :
  StronglySorted (fun a b => lt b a = false) l ->
  StronglySorted (fun a b => lt b a = false) (insert_sorted lt x l).
Proof.
  induction 1 as [|y l Hl IH Hy]; simpl.
  - repeat constructor.
  - destruct (lt y x) eqn:Hyx.
    + constructor; [done|].
      rewrite insert_sorted_perm. constructor; [|done].
      by apply lt_asym.
    + constructor; [by constructor|].
      constructor; [done|].
      eapply Forall_impl; [exact Hy|]. intros z Hz. by apply (le_trans x y z).
Qed.

End insertion.

Lemma sorted_perm {A K : Type} (key : A -> K) (lt : K -> K -> bool) (l : list A) :
  sorted key lt l ≡ₚ l.
Proof.
  unfold sorted. induction l as [|x l IH]; simpl; [done|].
  by rewrite insert_sorted_perm, IH.
Qed.

Lemma key_lt_asym (a b : bool * string) : key_lt a b = true -> key_lt b a = false.
Proof.
  unfold key_lt. destruct a as [[] s], b as [[] t]; simpl; try done.
  all: rewrite !string_ltb_leb; intros H; apply negb_true_iff in H;
    destruct (String.leb_total s t) as [->|Hts]; [done|congruence].
Qed.

Lemma key_le_trans (a b c : bool * string) :
  key_lt b a = false -> key_lt c b = false -> key_lt c a = false.
Proof.
  unfold key_lt. destruct a as [[] s], b as [[] t], c as [[] u]; simpl; try done.
  all: rewrite !string_ltb_leb, !negb_false_iff; apply string_leb_trans.
Qed.

Lemma key_le_block_fields_first (x y : string * pyobj) :
  key_lt (node_field_sort_key y) (node_field_sort_key x) = false <->
  block_fields_first x y.
Proof.
  unfold block_fields_first, in_stmtlist, key_lt, node_field_sort_key.
  destruct x as [n v], y as [m w]; cbn [fst snd].
  destruct (str_mem n STMTLIST_FIELD_NAMES), (str_mem m STMTLIST_FIELD_NAMES);
    cbn [negb]; rewrite ?string_ltb_leb, ?negb_false_iff; intuition congruence.
Qed.

Lemma sorted_fields_sorted (fs : list (string * pyobj)) :
  StronglySorted block_fields_first (sorted_fields fs).
Proof.
  assert (StronglySorted
            (fun x y => key_lt (node_field_sort_key y) (node_field_sort_key x) = false)
            (sorted_fields fs)) as Hs.
  { unfold sorted_fields, sorted. induction fs as [|x fs IH]; simpl; [constructor|].
    apply (insert_sorted_sorted
             (fun a b => key_lt (node_field_sort_key a) (node_field_sort_key b))); [| |done].
    - intros a b. apply key_lt_asym.
    - intros a b c. apply key_le_trans. }
  induction Hs as [|x l Hl IH Hx]; constructor; [done|].
  eapply Forall_impl; [exact Hx|]. intros y. apply key_le_block_fields_first.
Qed.

(** C3, the example against it: the fields of an [If] statement are
    visited as [body], [orelse], [test]; the block fields come before
    [test], so the visit is not sorted by the order in which fields
    outside the statement-list set come first. *)
Lemma if_fields_block_first :
  sorted_fields if_fields
  = [("body", PyList [ast.Pass]); ("orelse", PyList []); ("test", name_ "c")]
  /\ ~ StronglySorted spec_field_order (sorted_fields if_fields).
Proof.
  split; [reflexivity|].
  intros H. vm_compute in H.
  apply StronglySorted_inv in H as [_ H].
  apply Forall_inv_tail, Forall_inv in H.
  destruct H as [[H _]|[H _]]; discriminate H.
Qed.

(** C3, as the code has it: the fields of a node are visited in the
    order of the sort key, a rearrangement of the node's fields in
    which the fields named in the statement-list set (body, orelse,
    finalbody) come before all others and each of the two groups is
    ordered by field name. *)
Theorem sorted_fields_block_fields_first (fs : list (string * pyobj)) :
  sorted_fields fs ≡ₚ fs /\ StronglySorted block_fields_first (sorted_fields fs).
Proof.
  split; [apply sorted_perm|apply sorted_fields_sorted].
Qed.

(** ** Future imports *)

(** C10: a future-import fixer returns the tree it was given; of the
    instance only [required_imports] changes, by the one pair
    [("__future__", future_name)]; a second call adds nothing, and
    after any number of calls on a new instance the set holds exactly
    that pair. *)
Theorem future_import_fixer_frame (self : FutureImportFixerBase) (cfg : BuildConfig)
    (tree : pyobj) (since until name : string) :
  let decl : ImportDecl := ("__future__", Some (future_name self)) in
  let self' := (FutureImportFixerBase_call self cfg tree).1 in
  let fresh := new_future_fixer since until name in
  let once := (FutureImportFixerBase_call fresh cfg tree).1 in
  let twice := (FutureImportFixerBase_call once cfg tree).1 in
  (FutureImportFixerBase_call self cfg tree).2 = tree
  /\ future_name self' = future_name self
  /\ version_info (fif_base self') = version_info (fif_base self)
  /\ required_imports (fif_base self') = required_imports (fif_base self) ∪ {[ decl ]}
  /\ FutureImportFixerBase_call self' cfg tree = (self', tree)
  /\ required_imports (fif_base once) = {[ ("__future__", Some name) ]}
  /\ required_imports (fif_base twice) = {[ ("__future__", Some name) ]}
  /\ size (required_imports (fif_base twice)) = 1%nat.
Proof.
  cbn -[union singleton]. repeat split.
  - unfold FutureImportFixerBase_call. cbn -[union singleton].
    do 2 f_equal. f_equal. by rewrite <- (assoc_L (∪)), (idemp_L (∪)).
  - by rewrite (left_id_L ∅ (∪)).
  - by rewrite (left_id_L ∅ (∪)), (idemp_L (∪)).
  - rewrite (left_id_L ∅ (∪)), (idemp_L (∪)). apply size_singleton.
Qed.

(** The eight future-import fixers of the registry, with the names
    they add. *)
Example future_fixers_names :
  map (fun f => elements (required_imports
                            (fif_base (FutureImportFixerBase_call f
                               (mkBuildConfig "2.7" "1" "" "") (ast.Module_ [])).1)))
      [GeneratorStopFutureFixer; UnicodeLiteralsFutureFixer; PrintFunctionFutureFixer;
       WithStatementFutureFixer; AbsoluteImportFutureFixer; DivisionFutureFixer;
       GeneratorsFutureFixer; NestedScopesFutureFixer]
  = [[("__future__", Some "generator_stop")]; [("__future__", Some "unicode_literals")];
     [("__future__", Some "print_function")]; [("__future__", Some "with_statement")];
     [("__future__", Some "absolute_import")]; [("__future__", Some "division")];
     [("__future__", Some "generators")]; [("__future__", Some "nested_scopes")]].
Proof. vm_compute. reflexivity. Qed.

(** ** Selection by version *)

(** C4, the example against it: with the window 3.5 to 3.10 the
    version 3.6 lies inside the window in the numeric order, and
    [is_required_for] answers no, because ["3.6" <= "3.10"] is false
    on strings. *)
Lemma is_required_for_two_digit_minor :
  let self := FixerBase_init (VersionInfo_init "3.5" "3.10" None None) in
  ~ (is_required_for self "3.6" = true
     <-> in_window_numeric "3.5" "3.10" "3.6" = Some true).
Proof.
  intros self [_ H]. specialize (H eq_refl). vm_compute in H. discriminate H.
Qed.

Lemma digits_agree_all :
  forallb (fun a => forallb (fun b => forallb (fun c => forallb (fun d =>
    digits_agree a b c d) (seq 0 10)) (seq 0 10)) (seq 0 10)) (seq 0 10) = true.
Proof. vm_compute. reflexivity. Qed.

Lemma single_digit_order (a b c d : nat) :
  (a < 10)%nat -> (b < 10)%nat -> (c < 10)%nat -> (d < 10)%nat ->
  String.leb (dotted a b) (dotted c d) = version_num_le (a, b) (c, d)
  /\ parse_version (dotted a b) = Some (a, b).
Proof.
  intros Ha Hb Hc Hd.
  pose proof digits_agree_all as H.
  rewrite forallb_forall in H. specialize (H a). rewrite in_seq in H.
  specialize (H ltac:(lia)).
  rewrite forallb_forall in H. specialize (H b). rewrite in_seq in H.
  specialize (H ltac:(lia)).
  rewrite forallb_forall in H. specialize (H c). rewrite in_seq in H.
  specialize (H ltac:(lia)).
  rewrite forallb_forall in H. specialize (H d). rewrite in_seq in H.
  specialize (H ltac:(lia)).
  unfold digits_agree in H. apply andb_true_iff in H as [H1 H2].
  apply Bool.eqb_prop in H1. apply bool_decide_eq_true in H2. done.
Qed.

(** C4, as the code has it: [is_required_for] compares the version
    strings, and for versions whose major and minor numbers are single
    digits (every window of the registry) that is the numeric order:
    the answer is yes exactly when the version lies in the window. *)
Theorem is_required_for_single_digit (a b c d e f : nat)
    (works_since works_until : option string) (imports : gset ImportDecl) :
  (a < 10)%nat -> (b < 10)%nat -> (c < 10)%nat ->
  (d < 10)%nat -> (e < 10)%nat -> (f < 10)%nat ->
  let self := mkFixerBase
                (VersionInfo_init (dotted a b) (dotted c d) works_since works_until)
                imports in
  is_required_for self (dotted e f)
  = (String.leb (dotted a b) (dotted e f) && String.leb (dotted e f) (dotted c d))
  /\ (is_required_for self (dotted e f) = true
      <-> in_window_numeric (dotted a b) (dotted c d) (dotted e f) = Some true).
Proof.
  intros Ha Hb Hc Hd He Hf self. split; [reflexivity|].
  unfold is_required_for, in_window_numeric. cbn [self version_info VersionInfo_init
    apply_since apply_until].
  destruct (single_digit_order a b e f) as [-> ->]; [done..|].
  destruct (single_digit_order e f c d) as [-> ->]; [done..|].
  destruct (single_digit_order c d a b) as [_ ->]; [done..|].
  split; [by intros ->|by intros [= ->]].
Qed.

Lemma is_required_for_single_digit_witness :
  is_required_for (mkFixerBase (VersionInfo_init (dotted 2 0) (dotted 3 4) None None) ∅)
                  (dotted 2 7) = true
  <-> in_window_numeric (dotted 2 0) (dotted 3 4) (dotted 2 7) = Some true.
Proof.
  apply (is_required_for_single_digit 2 0 3 4 2 7 None None ∅); lia.
Defined.

(** ** Expansion of positional unpacking *)

Lemma args_prefix_nodes_elements (tmp : string) (elems : list element) :
  Forall element_ok elems ->
  args_prefix_nodes tmp (map element_node elems) = Ok (map (element_stmt tmp) elems).
Proof.
  induction 1 as [|e elems He _ IH]; [reflexivity|].
  cbn [map args_prefix_nodes]. rewrite IH.
  destruct e as [value ctx|x]; cbn in He |- *; [reflexivity|].
  by rewrite He.
Qed.

(** C2: [expand_args_unpacking] on a call or a list, tuple or set
    literal hoists the initializer [tmp = []] of a new temporary, then
    one statement per element in the order of the elements, an
    [extend] for a spread and an [append] for a plain element, and
    replaces the node by a call whose only argument is the spread of
    the temporary; the counter of temporaries goes up by one. *)
Theorem expand_args_unpacking_order (idx : tmp_var_index) (func keywords ctx : pyobj)
    (elems : list element) :
  Forall element_ok elems ->
  let tmp := upg_args_name idx in
  let stmts := ast.Assign [ast.Name tmp ast.Store] (ast.List [] ast.Load)
               :: map (element_stmt tmp) elems in
  let spread := PyList [ast.Starred (ast.Name tmp ast.Load) ast.Load] in
  let dels := [ast.Delete [ast.Name tmp ast.Del]] in
  let elts := map element_node elems in
  expand_args_unpacking idx (ast.Call func (PyList elts) keywords)
  = Ok (S idx, (stmts, ast.Call func spread keywords, dels))
  /\ expand_args_unpacking idx (ast.List elts ctx)
     = Ok (S idx, (stmts, ast.Call (ast.Name "list" ast.Load) spread (PyList []), dels))
  /\ expand_args_unpacking idx (ast.Tuple elts ctx)
     = Ok (S idx, (stmts, ast.Call (ast.Name "tuple" ast.Load) spread (PyList []), dels))
  /\ expand_args_unpacking idx (ast.Set_ elts)
     = Ok (S idx, (stmts, ast.Call (ast.Name "set" ast.Load) spread (PyList []), dels))
  /\ has_args_unpacking (ast.Call func spread keywords) = Ok false.
Proof.
  intros Hok tmp stmts spread dels elts.
  pose proof (args_prefix_nodes_elements tmp elems Hok) as Hp.
  repeat split; unfold expand_args_unpacking; cbn -[args_prefix_nodes upg_args_name];
    fold tmp; unfold elts; try rewrite Hp; reflexivity.
Qed.

(** The call [f] of [*a, 1, *b]: extend, append, extend. *)
Lemma expand_args_unpacking_order_witness :
  expand_args_unpacking 0 call_f_a_1_b
  = Ok (1%nat,
        ([ast.Assign [ast.Name "upg_args_0" ast.Store] (ast.List [] ast.Load);
          method_call_stmt "upg_args_0" "extend" [name_ "a"];
          method_call_stmt "upg_args_0" "append" [ast.Num 1];
          method_call_stmt "upg_args_0" "extend" [name_ "b"]],
         ast.Call (name_ "f") (PyList [star_ "upg_args_0"]) (PyList []),
         [ast.Delete [ast.Name "upg_args_0" ast.Del]])).
Proof.
  refine (proj1 (expand_args_unpacking_order 0 (name_ "f") (PyList []) ast.Load
                   [Spread (name_ "a") ast.Load; Plain (ast.Num 1);
                    Spread (name_ "b") ast.Load] _)).
  repeat constructor.
Defined.

(** The temporaries of two expansions differ. *)
Lemma upg_args_name_inj (i j : tmp_var_index) :
  upg_args_name i = upg_args_name j -> i = j.
Proof.
  unfold upg_args_name. intros H. apply (inj pretty).
  by apply (inj (String.append "upg_args_")) in H.
Qed.

(** ** Keyword-only parameters *)

Lemma kwonly_new_node_lookup (kw_name : string) (p : kwonly_param) :
  has_no_default p = true ->
  kwonly_new_node (PyStr kw_name) (kwonly_item p).1 (kwonly_item p).2
  = Ok (kwonly_lookup kw_name p).
Proof. unfold has_no_default, kwonly_new_node, kwonly_lookup. cbn. by intros ->. Qed.

(** A default makes the loop read the unbound name. *)
Lemma kwonly_new_node_default (kw_name : string) (p : kwonly_param) :
  has_no_default p = false ->
  kwonly_new_node (PyStr kw_name) (kwonly_item p).1 (kwonly_item p).2
  = Raise UNBOUND_NAME.
Proof. unfold has_no_default, kwonly_new_node. cbn. by intros ->. Qed.

(** The loop, on a definition whose [body] is a list: the statements
    are pushed to the front one by one. *)
Lemma kwonly_loop_lookups (kw_name name : string) (args returns : pyobj)
    (decorator_list : list pyobj) (ps : list kwonly_param) (body : list pyobj) :
  Forall (fun p => has_no_default p = true) ps ->
  kwonly_loop (PyStr kw_name) (map kwonly_item ps)
    (parsed_FunctionDef name args body decorator_list returns)
  = Ok (parsed_FunctionDef name args
          (rev (map (kwonly_lookup kw_name) ps) ++ body) decorator_list returns).
Proof.
  intros H. revert body. induction H as [|p ps Hp _ IH]; intros body; [reflexivity|].
  cbn [map kwonly_loop]. change (kwonly_item p) with ((kwonly_item p).1, (kwonly_item p).2).
  cbn beta iota. rewrite kwonly_new_node_lookup by done.
  cbn -[kwonly_loop]. change (Node "FunctionDef" _)
    with (parsed_FunctionDef name args (kwonly_lookup kw_name p :: body)
                             decorator_list returns).
  rewrite IH. cbn [map rev]. by rewrite <- app_assoc.
Qed.

Lemma kwonly_loop_default (kw_name name : string) (args returns : pyobj)
    (decorator_list : list pyobj) (ps : list kwonly_param) (body : list pyobj) :
  Exists (fun p => has_no_default p = false) ps ->
  kwonly_loop (PyStr kw_name) (map kwonly_item ps)
    (parsed_FunctionDef name args body decorator_list returns)
  = Raise UNBOUND_NAME.
Proof.
  revert body. induction ps as [|p ps IH]; intros body H; [by inversion H|].
  cbn [map kwonly_loop]. change (kwonly_item p) with ((kwonly_item p).1, (kwonly_item p).2).
  cbn beta iota.
  destruct (has_no_default p) eqn:Hp.
  - rewrite kwonly_new_node_lookup by done.
    cbn -[kwonly_loop]. change (Node "FunctionDef" _)
      with (parsed_FunctionDef name args (kwonly_lookup kw_name p :: body)
                               decorator_list returns).
    apply IH. inversion H; subst; [congruence|done].
  - by rewrite kwonly_new_node_default.
Qed.

Lemma visit_FunctionDef_cases (name : string) (args vararg defaults returns : pyobj)
    (kwarg : option (string * pyobj)) (p : kwonly_param) (ps : list kwonly_param)
    (body decorator_list : list pyobj) :
  let params := p :: ps in
  let kw := kw_name_of kwarg in
  let node := parsed_FunctionDef name
                (kwonly_arguments args vararg params (kwarg_node kwarg) defaults)
                body decorator_list returns in
  (Forall (fun q => has_no_default q = true) params ->
   visit_FunctionDef node
   = Ok (parsed_FunctionDef name
           (ast.arguments args vararg (PyList []) (PyList (map kp_default params))
                          (ast.arg kw (match kwarg with
                                       | Some (_, annotation) => annotation
                                       | None => PyNone
                                       end))
                          defaults)
           (map (kwonly_lookup kw) params ++ body) decorator_list returns))
  /\ (Exists (fun q => has_no_default q = false) params ->
      visit_FunctionDef node = Raise UNBOUND_NAME).
Proof.
  intros params kw node.
  assert (zip (rev (map (fun q => ast.arg (kp_name q) (kp_annotation q)) params))
              (rev (map kp_default params))
          = map kwonly_item (rev params)) as Hzip.
  { rewrite <- !map_rev.
    generalize (rev params). intros l. induction l as [|q l IH]; [done|].
    cbn. by rewrite <- IH. }
  split; intros H.
  - unfold visit_FunctionDef, node, kwonly_arguments.
    destruct kwarg as [[kwn ann]|]; cbn -[kwonly_loop zip rev map];
      rewrite Hzip;
      match goal with
      | |- context [nonempty ?l] => change (nonempty l) with true
      end; cbn [negb];
      match goal with
      | |- context [kwonly_loop _ _ (Node "FunctionDef" [_; ("args", ?a); _; _; _])] =>
          change (Node "FunctionDef" [("name", PyStr name); ("args", a);
                    ("body", PyList body); ("decorator_list", PyList decorator_list);
                    ("returns", returns)])
            with (parsed_FunctionDef name a body decorator_list returns)
      end;
      (rewrite kwonly_loop_lookups by (apply Forall_rev; exact H));
      rewrite map_rev, rev_involutive; reflexivity.
  - unfold visit_FunctionDef, node, kwonly_arguments.
    destruct kwarg as [[kwn ann]|]; cbn -[kwonly_loop zip rev map];
      rewrite Hzip;
      match goal with
      | |- context [nonempty ?l] => change (nonempty l) with true
      end; cbn [negb];
      match goal with
      | |- context [kwonly_loop _ _ (Node "FunctionDef" [_; ("args", ?a); _; _; _])] =>
          change (Node "FunctionDef" [("name", PyStr name); ("args", a);
                    ("body", PyList body); ("decorator_list", PyList decorator_list);
                    ("returns", returns)])
            with (parsed_FunctionDef name a body decorator_list returns)
      end;
      (rewrite kwonly_loop_default by (apply Exists_rev; exact H));
      reflexivity.
Qed.

(** What [visit_FunctionDef] does on a definition with keyword-only
    parameters. When none of them has a default, the body of the
    result starts with one lookup [kw["name"]] per parameter in the
    order of declaration, [kw] being the definition's [**] parameter
    (named [kwargs] when the definition had none), and the list of
    keyword-only parameters of the result is empty. When one of them
    has a default, whatever it is, the call raises [NameError]: it
    reads [IMMUTABLE_EXPR_TYPES], which is bound nowhere, before it
    can test the default or build [kw.get("name", default)]. *)
Lemma visit_FunctionDef_outcome (name : string) (args vararg defaults returns : pyobj)
    (kwarg : option (string * pyobj)) (p : kwonly_param) (ps : list kwonly_param)
    (body decorator_list : list pyobj) :
  let params := p :: ps in
  let kw := kw_name_of kwarg in
  visit_FunctionDef
    (parsed_FunctionDef name
       (kwonly_arguments args vararg params (kwarg_node kwarg) defaults)
       body decorator_list returns)
  = if forallb has_no_default params
    then Ok (parsed_FunctionDef name
               (ast.arguments args vararg (PyList []) (PyList (map kp_default params))
                  (ast.arg kw (match kwarg with
                               | Some (_, annotation) => annotation
                               | None => PyNone
                               end))
                  defaults)
               (map (kwonly_lookup kw) params ++ body) decorator_list returns)
    else Raise UNBOUND_NAME.
Proof.
  intros params kw.
  destruct (visit_FunctionDef_cases name args vararg defaults returns kwarg p ps
              body decorator_list) as [Hok Hbad].
  fold params in Hok, Hbad.
  destruct (forallb has_no_default params) eqn:Hall.
  - apply Hok. apply Forall_forall. intros q Hq.
    rewrite forallb_forall in Hall. by apply Hall, list_elem_of_In.
  - apply Hbad. clear -Hall. induction params as [|q l IH]; [discriminate|].
    cbn in Hall. apply andb_false_iff in Hall as [Hq|Hl].
    + by constructor 1.
    + constructor 2. by apply IH.
Qed.

(** C9, where the code fails: on [def f( *, x, y=2): pass], the
    example of the specification, [visit_FunctionDef] raises
    [NameError] for the name [IMMUTABLE_EXPR_TYPES], and so does the
    fixer on a module that holds the definition. It neither returns
    the definition with [y = kwargs.get("y", 2)] nor raises the error
    about immutable defaults. *)
Theorem kwonly_default_raises_NameError :
  visit_FunctionDef kwonly_x_y_2
  = Raise (NameError "name 'IMMUTABLE_EXPR_TYPES' is not defined")
  /\ InlineKWOnlyArgsFixer.call InlineKWOnlyArgsFixer.init default_cfg
       (ast.Module_ [kwonly_x_y_2])
     = Raise (NameError "name 'IMMUTABLE_EXPR_TYPES' is not defined").
Proof. split; reflexivity. Qed.

(** [def f( *, x, y): pass]: [x = kwargs["x"]] comes first, then
    [y = kwargs["y"]]. *)
Example visit_FunctionDef_x_y :
  visit_FunctionDef
    (parsed_FunctionDef "f"
       (kwonly_arguments (PyList []) PyNone
          [mkKwonlyParam "x" PyNone PyNone; mkKwonlyParam "y" PyNone PyNone]
          PyNone (PyList []))
       [ast.Pass] [] PyNone)
  = Ok (parsed_FunctionDef "f"
          (ast.arguments (PyList []) PyNone (PyList []) (PyList [PyNone; PyNone])
                         (ast.arg "kwargs" PyNone) (PyList []))
          [ast.Assign [ast.Name "x" ast.Store]
             (ast.Subscript (name_ "kwargs") (ast.Index (ast.Str "x")) ast.Load);
           ast.Assign [ast.Name "y" ast.Store]
             (ast.Subscript (name_ "kwargs") (ast.Index (ast.Str "y")) ast.Load);
           ast.Pass]
          [] PyNone).
Proof. reflexivity. Qed.

(** [def f( *, x=g()): pass]: the error about immutable defaults is
    never reached. *)
Example visit_FunctionDef_call_default :
  visit_FunctionDef
    (parsed_FunctionDef "f"
       (kwonly_arguments (PyList []) PyNone
          [mkKwonlyParam "x" PyNone (ast.Call (name_ "g") (PyList []) (PyList []))]
          PyNone (PyList []))
       [ast.Pass] [] PyNone)
  = Raise UNBOUND_NAME.
Proof. reflexivity. Qed.

(** ** Reasoning about calls *)

Lemma bind_Ok {A B : Type} (m : result A) (f : A -> result B) (b : B) :
  m ≫= f = Ok b -> exists a, m = Ok a /\ f a = Ok b.
Proof. destruct m as [a| |]; cbn; [eauto|discriminate..]. Qed.

Lemma bind_Ok_l {A B : Type} (m : result A) (f : A -> result B) (a : A) :
  m = Ok a -> m ≫= f = f a.
Proof. by intros ->. Qed.

(** Invert one hypothesis [x ← m; k = Ok r]. *)
Ltac inv_bind H :=
  let a := fresh "a" in
  let Ha := fresh "Hcall" in
  apply bind_Ok in H as (a & Ha & H).

Tactic Notation "bind_inv" hyp(H) "as" simple_intropattern(a) ident(Ha) :=
  apply bind_Ok in H as (a & Ha & H); cbn beta iota zeta in H.

Ltac inv_binds H :=
  repeat (first [ progress (cbn beta iota zeta in H)
                | inv_bind H ]).

Lemma nonempty_cons {A : Type} (x : A) (l : list A) : nonempty (x :: l) = true.
Proof. reflexivity. Qed.

Lemma nonempty_app_l {A : Type} (l k : list A) :
  nonempty l = true -> nonempty (l ++ k) = true.
Proof. by destruct l. Qed.

Lemma nonempty_app_r {A : Type} (l k : list A) :
  nonempty k = true -> nonempty (l ++ k) = true.
Proof. destruct l; [done|reflexivity]. Qed.

Lemma nonempty_false {A : Type} (l : list A) : nonempty l = false -> l = [].
Proof. by destruct l. Qed.

(** ** Updates of expression nodes *)

Lemma expand_args_unpacking_prefix (idx idx' : tmp_var_index) (v : pyobj) (u : ValNodeUpdate) :
  expand_args_unpacking idx v = Ok (idx', u) -> nonempty u.1.1 = true.
Proof.
  unfold expand_args_unpacking. intros H.
  inv_bind H. destruct a as [[func kws] elts]. inv_binds H.
  by injection H as <- <-.
Qed.

Lemma expand_kwargs_unpacking_prefix (idx idx' : tmp_var_index) (v : pyobj)
    (u : ValNodeUpdate) :
  expand_kwargs_unpacking idx v = Ok (idx', u) -> nonempty u.1.1 = true.
Proof.
  unfold expand_kwargs_unpacking. intros H.
  inv_bind H. destruct a as [[stmts args] func]. inv_binds H.
  by injection H as <- <-.
Qed.

(** The two stages of [make_val_node_update]. *)
Lemma make_val_node_update_Some (idx idx' : tmp_var_index) (v : pyobj) (u : ValNodeUpdate) :
  make_val_node_update idx v = Ok (idx', Some u) -> nonempty u.1.1 = true.
Proof.
  unfold make_val_node_update. intros H.
  bind_inv H as [[[i1 v1] p1] d1] H1.
  bind_inv H as [[[i2 v2] p2] d2] H2.
  destruct (nonempty p2) eqn:Hp; [|discriminate].
  destruct (nonempty d2); [|discriminate].
  by injection H as <- <-.
Qed.

Lemma make_val_node_update_None (idx idx' : tmp_var_index) (v : pyobj) :
  make_val_node_update idx v = Ok (idx', None) ->
  idx' = idx
  /\ unpacking_free v = true
  /\ forall idx2, make_val_node_update idx2 v = Ok (idx2, None).
Proof.
  unfold make_val_node_update, unpacking_free. intros H.
  bind_inv H as [[[i1 v1] p1] d1] H1.
  bind_inv H as [[[i2 v2] p2] d2] H2.
  destruct (nonempty p2) eqn:Hp2.
  { destruct (nonempty d2); discriminate. }
  injection H as <-.
  assert (p1 = [] /\ i2 = i1 /\ v2 = v1 /\
          (if isinstance v1 KwArgUnpackNodes
           then has_kwargs_unpacking v1 = Ok false else True)) as (-> & -> & -> & Hkw).
  { destruct (isinstance v1 KwArgUnpackNodes).
    - bind_inv H2 as [|] Hb.
      + bind_inv H2 as [i3 [[p3 n3] d3]] He. bind_inv H2 as still Hs.
        destruct still; [discriminate|]. simplify_eq.
        apply expand_kwargs_unpacking_prefix in He. cbn in He.
        by rewrite (nonempty_app_r p1 p3) in Hp2.
      + simplify_eq. by apply nonempty_false in Hp2.
    - simplify_eq. by apply nonempty_false in Hp2. }
  assert (i1 = idx /\ v1 = v /\
          (if isinstance v ArgUnpackNodes
           then has_args_unpacking v = Ok false else True)) as (-> & -> & Harg).
  { destruct (isinstance v ArgUnpackNodes).
    - bind_inv H1 as [|] Hb.
      + bind_inv H1 as [i3 [[p3 n3] d3]] He. bind_inv H1 as still Hs.
        destruct still; [discriminate|]. simplify_eq.
        by apply expand_args_unpacking_prefix in He.
      + by simplify_eq.
    - by simplify_eq. }
  clear H1 H2.
  split; [done|]. split; [|intros idx2].
  all: destruct (isinstance v ArgUnpackNodes) eqn:EA,
                (isinstance v KwArgUnpackNodes) eqn:EK;
    cbn in Harg, Hkw;
    repeat first [ rewrite EA | rewrite EK | rewrite Harg | rewrite Hkw
                 | progress cbn [mbind result_bind] ];
    reflexivity.
Qed.

(** *** Hoisted statements are statements *)

Lemma set_field_names (n : string) (x : pyobj) (fs : list (string * pyobj)) :
  map fst (set_field n x fs) = map fst fs.
Proof.
  induction fs as [|[m v] fs IH]; [done|]. cbn.
  destruct (String.eqb m n); cbn; congruence.
Qed.

Lemma set_field_forallb (P : string * pyobj -> bool) (n : string) (x : pyobj)
    (fs : list (string * pyobj)) :
  forallb P fs = true -> P (n, x) = true -> forallb P (set_field n x fs) = true.
Proof.
  intros Hfs Hx. induction fs as [|[m v] fs IH]; [done|]. cbn in Hfs |- *.
  apply andb_true_iff in Hfs as [Hm Hfs].
  destruct (String.eqb m n) eqn:E; cbn.
  - apply String.eqb_eq in E. subst. by rewrite Hx, Hfs.
  - by rewrite Hm, IH.
Qed.

Lemma stmt_ok_setattr (v : pyobj) (n : string) (x : pyobj) :
  stmt_ok v = true ->
  (if str_mem n STMTLIST_FIELD_NAMES
   then match x with PyList l => forallb stmt_ok l | _ => true end
   else true) = true ->
  stmt_ok (setattr v n x) = true.
Proof.
  destruct v as [| | | |l|c fs]; try done. cbn [setattr stmt_ok].
  rewrite !andb_true_iff. intros [[Hc Hd] Hf] Hx.
  rewrite set_field_names. split_and!; try done.
  by apply set_field_forallb.
Qed.

Lemma is_ast_setattr (v : pyobj) (n : string) (x : pyobj) :
  is_ast (setattr v n x) = is_ast v.
Proof. by destruct v. Qed.

Lemma args_prefix_nodes_ok (tmp : string) (elts stmts : list pyobj) :
  args_prefix_nodes tmp elts = Ok stmts -> forallb stmt_ok stmts = true.
Proof.
  revert stmts. induction elts as [|a elts IH]; intros stmts H; cbn in H.
  { by simplify_eq. }
  bind_inv H as stmt Hs. bind_inv H as rest Hr. simplify_eq.
  cbn [forallb]. rewrite (IH _ Hr), andb_true_r.
  destruct (isinstance a ["Starred"]); [bind_inv Hs as value Hv|]; by simplify_eq.
Qed.

Lemma add_items_ok {X : Type} (read : X -> result (pyobj * pyobj)) (tmp : string)
    (items : list X) (stmts : list pyobj) :
  add_items read tmp items = Ok stmts -> forallb stmt_ok stmts = true.
Proof.
  revert stmts. induction items as [|a items IH]; intros stmts H; cbn in H.
  { by simplify_eq. }
  bind_inv H as [key val] Hk. bind_inv H as stmt Hs. bind_inv H as rest Hr.
  simplify_eq. cbn [forallb]. rewrite (IH _ Hr), andb_true_r.
  destruct (is_none key); [by simplify_eq|].
  bind_inv Hs as key_val Hkv. by simplify_eq.
Qed.

Lemma expand_args_unpacking_ok (idx idx' : tmp_var_index) (v : pyobj)
    (p : list pyobj) (n : pyobj) (d : list pyobj) :
  expand_args_unpacking idx v = Ok (idx', (p, n, d)) ->
  forallb stmt_ok p = true /\ forallb stmt_ok d = true /\ is_ast n = true.
Proof.
  unfold expand_args_unpacking. intros H.
  bind_inv H as [[func kws] elts] Hf. bind_inv H as l Hl. bind_inv H as stmts Hs.
  simplify_eq. apply args_prefix_nodes_ok in Hs. cbn [forallb]. by rewrite Hs.
Qed.

Lemma expand_kwargs_unpacking_ok (idx idx' : tmp_var_index) (v : pyobj)
    (p : list pyobj) (n : pyobj) (d : list pyobj) :
  expand_kwargs_unpacking idx v = Ok (idx', (p, n, d)) ->
  forallb stmt_ok p = true /\ forallb stmt_ok d = true /\ is_ast n = true.
Proof.
  unfold expand_kwargs_unpacking. intros H.
  bind_inv H as [[stmts args] func] Hf. simplify_eq.
  assert (forallb stmt_ok stmts = true) as Hs; [|by cbn [forallb]; rewrite Hs].
  destruct (isinstance v ["Call"]).
  - bind_inv Hf as kws Hk. bind_inv Hf as l Hl. bind_inv Hf as st Hst.
    bind_inv Hf as a Ha. bind_inv Hf as f Hfn. simplify_eq.
    by apply add_items_ok in Hst.
  - destruct (isinstance v ["Dict"]); [|done].
    bind_inv Hf as ks Hk. bind_inv Hf as vs Hv. bind_inv Hf as kl Hkl.
    bind_inv Hf as vl Hvl. bind_inv Hf as st Hst. simplify_eq.
    by apply add_items_ok in Hst.
Qed.

Lemma make_val_node_update_ok (idx idx' : tmp_var_index) (v : pyobj)
    (p : list pyobj) (n : pyobj) (d : list pyobj) :
  make_val_node_update idx v = Ok (idx', Some (p, n, d)) ->
  forallb stmt_ok p = true /\ forallb stmt_ok d = true /\ is_ast n = true.
Proof.
  unfold make_val_node_update. intros H.
  bind_inv H as [[[i1 v1] p1] d1] H1.
  bind_inv H as [[[i2 v2] p2] d2] H2.
  destruct (nonempty p2) eqn:Hp; [|discriminate].
  destruct (nonempty d2); [|discriminate]. simplify_eq.
  assert (forallb stmt_ok p1 = true /\ forallb stmt_ok d1 = true
          /\ (nonempty p1 = true -> is_ast v1 = true)) as (Hp1 & Hd1 & Hv1).
  { destruct (isinstance v ArgUnpackNodes); [|by simplify_eq].
    bind_inv H1 as [|] Hb; [|by simplify_eq].
    bind_inv H1 as [i3 [[p3 n3] d3]] He. bind_inv H1 as still Hs.
    destruct still; [discriminate|]. simplify_eq.
    apply expand_args_unpacking_ok in He as (? & ? & ?). done. }
  destruct (isinstance v1 KwArgUnpackNodes); [|by simplify_eq; eauto].
  bind_inv H2 as [|] Hb; [|by simplify_eq; eauto].
  bind_inv H2 as [i3 [[p3 n3] d3]] He. bind_inv H2 as still Hs.
  destruct still; [discriminate|]. simplify_eq.
  apply expand_kwargs_unpacking_ok in He as (? & ? & ?).
  rewrite !forallb_app. split_and!; try done; by apply andb_true_iff.
Qed.

Lemma make_temp_lambda_as_def_ok (lambda_node : pyobj) (body : list pyobj)
    (name : string) (def : pyobj) :
  make_temp_lambda_as_def lambda_node body name = Ok def ->
  forallb stmt_ok body = true -> stmt_ok def = true.
Proof.
  unfold make_temp_lambda_as_def. intros H Hb.
  bind_inv H as b Hbody. bind_inv H as a Hargs. simplify_eq.
  cbn. rewrite forallb_app, Hb. reflexivity.
Qed.

Section single_properties.

Variable single : tmp_var_index -> pyobj -> result (tmp_var_index * option FieldUpdate).
Hypothesis single_ok : single_spec single.

Lemma list_field_loop_spec (l : list pyobj) (idx idx' : tmp_var_index)
    (p nf d o : list pyobj) :
  list_field_loop single idx l = Ok (idx', (p, nf, d, o)) ->
  forallb stmt_ok p = true /\ forallb stmt_ok d = true
  /\ length nf = length l
  /\ (nonempty p = false ->
      idx' = idx /\ forallb no_unpacking l = true
      /\ forall idx2, list_field_loop single idx2 l = Ok (idx2, ([], l, [], l))).
Proof.
  destruct single_ok as [Hnone Hsome].
  revert idx idx' p nf d o. induction l as [|x l IH]; intros idx idx' p nf d o H.
  { cbn in H. simplify_eq. split_and!; done. }
  cbn [list_field_loop] in H.
  bind_inv H as [idx1 r] Hx.
  bind_inv H as [idx2 [[[p2 nf2] d2] o2]] Hl.
  apply IH in Hl as (Hp2 & Hd2 & Hlen & Hq).
  destruct r as [u|]; simplify_eq.
  - apply Hsome in Hx as (Hne & _ & Hpu & Hdu).
    rewrite !forallb_app, Hpu, Hdu, Hp2, Hd2. cbn. split_and!; try done.
    + by rewrite Hlen.
    + intros Hemp. by rewrite (nonempty_app_l _ p2) in Hemp.
  - apply Hnone in Hx as (-> & Hclean & Hindep).
    split_and!; try done.
    + by cbn; rewrite Hlen.
    + intros Hemp. destruct (Hq Hemp) as (-> & Hcl & Hall).
      split_and!; try done.
      * by cbn; rewrite Hclean, Hcl.
      * intros idx2. cbn [list_field_loop]. rewrite Hindep. cbn. by rewrite Hall.
Qed.

Lemma make_list_field_update_spec (l : list pyobj) (idx idx' : tmp_var_index)
    (r : option FieldUpdate) :
  make_list_field_update single idx l = Ok (idx', r) ->
  match r with
  | None =>
      idx' = idx /\ forallb no_unpacking l = true
      /\ forall idx2, make_list_field_update single idx2 l = Ok (idx2, None)
  | Some u =>
      nonempty (prefix_nodes u) = true /\ is_list (new_field u) = true
      /\ forallb stmt_ok (prefix_nodes u) = true
      /\ forallb stmt_ok (del_nodes u) = true
  end.
Proof.
  unfold make_list_field_update. intros H.
  destruct (Nat.eqb (length l) 0) eqn:Hlen.
  { simplify_eq. apply Nat.eqb_eq in Hlen. destruct l; [|done]. done. }
  bind_inv H as [idx1 [[[p nf] d] o]] Hl.
  apply list_field_loop_spec in Hl as (Hp & Hd & _ & Hq).
  destruct (nonempty p) eqn:Hne.
  - destruct (_ && _); simplify_eq. done.
  - simplify_eq. destruct (Hq eq_refl) as (-> & Hcl & Hall).
    split_and!; try done. intros idx2. by rewrite Hall.
Qed.

Lemma make_field_update_spec (idx idx' : tmp_var_index) (parent : pyobj)
    (n : string) (v : pyobj) (r : option (pyobj * FieldUpdate)) :
  make_field_update single idx parent n v = Ok (idx', r) ->
  match r with
  | None =>
      idx' = idx /\ no_unpacking v = true
      /\ forall idx2 parent2, make_field_update single idx2 parent2 n v = Ok (idx2, None)
  | Some (node, u) =>
      node = setattr parent n (new_field u)
      /\ nonempty (prefix_nodes u) = true
      /\ is_list (new_field u) = is_list v
      /\ (is_list v = false -> is_ast (new_field u) = true)
      /\ forallb stmt_ok (prefix_nodes u) = true
      /\ forallb stmt_ok (del_nodes u) = true
  end.
Proof.
  destruct single_ok as [Hnone Hsome].
  unfold make_field_update. intros H.
  bind_inv H as [idx1 r1] Hr.
  destruct r1 as [u|]; simplify_eq.
  - destruct v as [| | | |l|c fs].
    5: { apply make_list_field_update_spec in Hr. destruct Hr as (? & ? & ? & ?).
         done. }
    all: apply Hsome in Hr as (? & Hast & ? & ?); split_and!; try done;
      by destruct (new_field u).
  - destruct v as [| | | |l|c fs].
    5: { apply make_list_field_update_spec in Hr. destruct Hr as (E & ? & Hall).
         split_and!; try done. intros idx2 parent2. by rewrite Hall. }
    all: apply Hnone in Hr as (E & ? & Hall); split_and!; try done;
      intros idx2 parent2; by rewrite Hall.
Qed.

Lemma sync_shared_args_ok (s : sub_state) (n : string) (u : FieldUpdate) :
  forallb stmt_ok (ss_all_prefix_nodes s) = true ->
  forallb stmt_ok (sync_shared_args s n u) = true
  /\ nonempty (sync_shared_args s n u) = nonempty (ss_all_prefix_nodes s).
Proof.
  unfold sync_shared_args. intros H.
  destruct (ss_lambda_obj s); [|done].
  destruct (ss_all_prefix_nodes s) as [|def rest]; [done|].
  destruct (String.eqb n "args"); [|done].
  cbn in H |- *. apply andb_true_iff in H as [Hd Hr].
  by rewrite stmt_ok_setattr, Hr.
Qed.

(** One round of the loop over the sub-fields: the hoisted statements
    stay statements, and a round that hoists nothing changes nothing. *)
Lemma sub_field_step_spec (s s' : sub_state) (n : string) (v : pyobj) :
  sub_field_step single s n v = Ok s' ->
  (forallb stmt_ok (ss_all_prefix_nodes s) = true ->
   forallb stmt_ok (ss_all_del_nodes s) = true ->
   is_ast (ss_field_node s) = true ->
   forallb stmt_ok (ss_all_prefix_nodes s') = true
   /\ forallb stmt_ok (ss_all_del_nodes s') = true
   /\ is_ast (ss_field_node s') = true)
  /\ (nonempty (ss_all_prefix_nodes s) = true ->
      nonempty (ss_all_prefix_nodes s') = true)
  /\ (nonempty (ss_all_prefix_nodes s') = false ->
      s' = s /\ is_block_field n v = false /\ no_unpacking v = true
      /\ forall s2, sub_field_step single s2 n v = Ok s2).
Proof.
  unfold sub_field_step. intros H.
  destruct (is_block_field n v) eqn:Hblock; [discriminate|].
  destruct (negb (is_list v || is_ast v)) eqn:Hprim.
  { simplify_eq. split_and!; try done. intros _. split_and!; try done.
    by destruct v. }
  bind_inv H as [idx1 r] Hr.
  apply make_field_update_spec in Hr.
  destruct r as [[node u]|].
  - destruct Hr as (-> & Hne & _ & _ & Hp & Hd).
    destruct (isinstance (setattr (ss_field_node s) n (new_field u)) ["Lambda"]).
    + bind_inv H as def Hdef. simplify_eq. cbn.
      split_and!.
      * intros Hps Hds _.
        destruct (sync_shared_args_ok s n u Hps) as [Hsync _].
        rewrite !forallb_app, Hsync, Hds. cbn.
        by rewrite (make_temp_lambda_as_def_ok _ _ _ _ Hdef Hp).
      * intros _. by apply nonempty_app_r.
      * intros Hemp. by rewrite nonempty_app_r in Hemp.
    + simplify_eq. cbn. split_and!.
      * intros Hps Hds Hast.
        destruct (sync_shared_args_ok s n u Hps) as [Hsync _].
        by rewrite !forallb_app, Hsync, Hds, Hp, Hd, is_ast_setattr.
      * intros _. by apply nonempty_app_r.
      * intros Hemp. by rewrite nonempty_app_r in Hemp.
  - destruct Hr as (-> & Hclean & Hall). simplify_eq. cbn.
    split_and!; try done. intros _. split_and!; try done.
    + by destruct s.
    + intros s2. rewrite Hall. by destruct s2.
Qed.

Lemma sub_fields_loop_spec (fields : list (string * pyobj)) (s s' : sub_state) :
  sub_fields_loop single s fields = Ok s' ->
  (forallb stmt_ok (ss_all_prefix_nodes s) = true ->
   forallb stmt_ok (ss_all_del_nodes s) = true ->
   is_ast (ss_field_node s) = true ->
   forallb stmt_ok (ss_all_prefix_nodes s') = true
   /\ forallb stmt_ok (ss_all_del_nodes s') = true
   /\ is_ast (ss_field_node s') = true)
  /\ (nonempty (ss_all_prefix_nodes s) = true ->
      nonempty (ss_all_prefix_nodes s') = true)
  /\ (nonempty (ss_all_prefix_nodes s') = false ->
      s' = s /\ forallb (fun f => no_unpacking (snd f)) fields = true
      /\ forall s2, sub_fields_loop single s2 fields = Ok s2).
Proof.
  revert s. induction fields as [|[n v] fields IH]; intros s H; cbn in H.
  { simplify_eq. split_and!; try done. }
  bind_inv H as s1 Hstep.
  apply sub_field_step_spec in Hstep as (Hwf1 & Hmono1 & Hq1).
  apply IH in H as (Hwf & Hmono & Hq).
  split_and!.
  - intros Hp Hd Ha. destruct (Hwf1 Hp Hd Ha) as (? & ? & ?). by apply Hwf.
  - intros Hne. by apply Hmono, Hmono1.
  - intros Hemp. destruct (Hq Hemp) as (-> & Hcl & Hall).
    destruct (Hq1 Hemp) as (-> & _ & Hv & Hstep).
    split_and!; try done.
    + cbn [forallb snd]. by rewrite Hv, Hcl.
    + intros s2. cbn [sub_fields_loop]. rewrite Hstep. cbn. apply Hall.
Qed.

Lemma isinstance_app_false (v : pyobj) (a b : list string) :
  isinstance v (a ++ b) = false -> isinstance v a = false /\ isinstance v b = false.
Proof.
  destruct v; try done. cbn. unfold str_mem. rewrite existsb_app.
  by intros [? ?]%orb_false_iff.
Qed.

Lemma forallb_perm {A : Type} (P : A -> bool) (l k : list A) :
  l ≡ₚ k -> forallb P l = forallb P k.
Proof.
  induction 1; cbn; try congruence.
  by destruct (P x), (P y).
Qed.

(** The body of [make_single_field_update] keeps the properties of the
    calls it makes one level down. *)
Lemma single_field_body_spec : single_spec (single_field_body single).
Proof.
  split.
  - intros idx v idx' H. unfold single_field_body in H.
    bind_inv H as [idx1 r] Hval.
    assert (r = None /\ idx1 = idx /\ unpacking_free v = true
            /\ forall idx2,
                 (if isinstance v (ArgUnpackNodes ++ KwArgUnpackNodes)
                  then make_val_node_update idx2 v else Ok (idx2, None))
                 = Ok (idx2, None)) as (-> & -> & Hfree & Hval2).
    { destruct r as [[[p n] d]|]; [discriminate|].
      destruct (isinstance v (ArgUnpackNodes ++ KwArgUnpackNodes)) eqn:Hi.
      - apply make_val_node_update_None in Hval as (? & ? & ?). done.
      - simplify_eq. apply isinstance_app_false in Hi as [Ha Hk].
        unfold unpacking_free. by rewrite Ha, Hk. }
    bind_inv H as fields Hf. bind_inv H as s Hloop.
    apply sub_fields_loop_spec in Hloop as (_ & _ & Hq).
    destruct (nonempty (ss_all_prefix_nodes s)) eqn:Hne.
    { destruct (nonempty (ss_all_del_nodes s)); discriminate. }
    destruct (Hq eq_refl) as (-> & Hcl & Hall). simplify_eq. cbn.
    split_and!; try done.
    + destruct v as [| | | |l|c fs]; try done. cbn in Hf. simplify_eq.
      unfold no_unpacking. cbn [all_nodes]. fold (unpacking_free).
      rewrite Hfree. cbn.
      rewrite <- Hcl. symmetry. apply forallb_perm, sorted_perm.
    + intros idx2. unfold single_field_body. rewrite Hval2. cbn.
      rewrite Hf. cbn. by rewrite Hall.
  - intros idx v idx' u H. unfold single_field_body in H.
    bind_inv H as [idx1 r] Hval.
    destruct r as [[[p n] d]|].
    + simplify_eq. cbn.
      destruct (isinstance v (ArgUnpackNodes ++ KwArgUnpackNodes)); [|discriminate].
      pose proof (make_val_node_update_Some _ _ _ _ Hval) as Hne.
      apply make_val_node_update_ok in Hval as (? & ? & ?). done.
    + bind_inv H as fields Hf. bind_inv H as s Hloop.
      apply sub_fields_loop_spec in Hloop as (Hwf & _ & _).
      destruct (nonempty (ss_all_prefix_nodes s)) eqn:Hne; [|discriminate].
      destruct (nonempty (ss_all_del_nodes s)); [|discriminate].
      simplify_eq. cbn in Hwf |- *.
      destruct Hwf as (? & ? & ?); [done|done|by destruct v|]. done.
Qed.

End single_properties.

(** [make_single_field_update] at every depth. *)
Lemma make_single_field_update_spec (fuel : nat) :
  single_spec (make_single_field_update fuel).
Proof.
  induction fuel as [|fuel IH]; [by split|].
  by apply single_field_body_spec.
Qed.

(** *** The deletions of an update *)

Lemma make_val_node_update_dels (idx idx' : tmp_var_index) (v : pyobj)
    (p : list pyobj) (n : pyobj) (d : list pyobj) :
  make_val_node_update idx v = Ok (idx', Some (p, n, d)) ->
  nonempty d = true /\ forallb is_delete d = true.
Proof.
  unfold make_val_node_update. intros H.
  bind_inv H as [[[i1 v1] p1] d1] H1.
  bind_inv H as [[[i2 v2] p2] d2] H2.
  destruct (nonempty p2) eqn:Hp; [|discriminate].
  destruct (nonempty d2) eqn:Hd; [|discriminate]. simplify_eq.
  split; [done|].
  assert (forallb is_delete d1 = true) as Hd1.
  { destruct (isinstance v ArgUnpackNodes); [|by simplify_eq].
    bind_inv H1 as [|] Hb; [|by simplify_eq].
    bind_inv H1 as [i3 [[p3 n3] d3]] He. bind_inv H1 as still Hs.
    destruct still; [discriminate|]. simplify_eq.
    unfold expand_args_unpacking in He.
    bind_inv He as [[func kws] elts] Hf. bind_inv He as l Hl. bind_inv He as st Hst.
    by simplify_eq. }
  destruct (isinstance v1 KwArgUnpackNodes); [|by simplify_eq].
  bind_inv H2 as [|] Hb; [|by simplify_eq].
  bind_inv H2 as [i3 [[p3 n3] d3]] He. bind_inv H2 as still Hs.
  destruct still; [discriminate|]. simplify_eq.
  unfold expand_kwargs_unpacking in He.
  bind_inv He as [[stmts args] func] Hf. simplify_eq.
  by rewrite forallb_app, Hd1.
Qed.

Section deletions.

Variable single : tmp_var_index -> pyobj -> result (tmp_var_index * option FieldUpdate).
Hypothesis single_dels : dels_spec single.

Lemma list_field_loop_dels (l : list pyobj) (idx idx' : tmp_var_index)
    (p nf d o : list pyobj) :
  list_field_loop single idx l = Ok (idx', (p, nf, d, o)) ->
  forallb is_delete d = true.
Proof.
  revert idx idx' p nf d o. induction l as [|x l IH]; intros idx idx' p nf d o H.
  { cbn in H. by simplify_eq. }
  cbn [list_field_loop] in H.
  bind_inv H as [idx1 r] Hx.
  bind_inv H as [idx2 [[[p2 nf2] d2] o2]] Hl.
  apply IH in Hl. destruct r as [u|]; simplify_eq; [|done].
  apply single_dels in Hx as [_ Hu]. by rewrite forallb_app, Hu, Hl.
Qed.

Lemma make_field_update_dels (idx idx' : tmp_var_index) (parent : pyobj)
    (n : string) (v : pyobj) (node : pyobj) (u : FieldUpdate) :
  make_field_update single idx parent n v = Ok (idx', Some (node, u)) ->
  nonempty (del_nodes u) = true /\ forallb is_delete (del_nodes u) = true.
Proof.
  unfold make_field_update. intros H. bind_inv H as [idx1 r] Hr.
  destruct r as [u'|]; simplify_eq.
  destruct v as [| | | |l|c fs]; try by apply single_dels in Hr.
  unfold make_list_field_update in Hr.
  destruct (Nat.eqb (length l) 0); [discriminate|].
  bind_inv Hr as [idx2 [[[p nf] d] o]] Hl.
  apply list_field_loop_dels in Hl.
  destruct (nonempty p); [|discriminate].
  destruct (nonempty d) eqn:Hd; [|discriminate].
  destruct (_ && _); by simplify_eq.
Qed.

Lemma sub_fields_loop_dels (fields : list (string * pyobj)) (s s' : sub_state) :
  sub_fields_loop single s fields = Ok s' ->
  forallb is_delete (ss_all_del_nodes s) = true ->
  forallb is_delete (ss_all_del_nodes s') = true.
Proof.
  revert s. induction fields as [|[n v] fields IH]; intros s H Hs; cbn in H.
  { by simplify_eq. }
  bind_inv H as s1 Hstep. apply (IH _ H). clear IH H.
  unfold sub_field_step in Hstep.
  destruct (is_block_field n v); [discriminate|].
  destruct (negb _); [by simplify_eq|].
  bind_inv Hstep as [idx1 r] Hr.
  destruct r as [[node u]|]; [|by simplify_eq].
  apply make_field_update_dels in Hr as [_ Hu].
  destruct (isinstance node ["Lambda"]).
  - bind_inv Hstep as def Hdef. simplify_eq. cbn. by rewrite forallb_app, Hs.
  - simplify_eq. cbn. by rewrite forallb_app, Hs, Hu.
Qed.

Lemma single_field_body_dels : dels_spec (single_field_body single).
Proof.
  intros idx v idx' u H. unfold single_field_body in H.
  bind_inv H as [idx1 r] Hval.
  destruct r as [[[p n] d]|].
  - simplify_eq. cbn.
    destruct (isinstance v (ArgUnpackNodes ++ KwArgUnpackNodes)); [|discriminate].
    by apply make_val_node_update_dels in Hval.
  - bind_inv H as fields Hf. bind_inv H as s Hloop.
    apply sub_fields_loop_dels in Hloop; [|done].
    destruct (nonempty (ss_all_prefix_nodes s)); [|discriminate].
    destruct (nonempty (ss_all_del_nodes s)) eqn:Hd; [|discriminate].
    by simplify_eq.
Qed.

End deletions.

Lemma make_single_field_update_dels (fuel : nat) :
  dels_spec (make_single_field_update fuel).
Proof.
  induction fuel as [|fuel IH]; [by intros ? ? ? ? ?|].
  by apply single_field_body_dels.
Qed.

(** ** Passes over a block *)

Lemma distinct_NoDup (names : list string) : distinct names = true -> NoDup names.
Proof.
  induction names as [|n names IH]; cbn; [constructor|].
  intros [Hn Hd]%andb_true_iff. constructor; [|by apply IH].
  intros Hin. apply negb_true_iff in Hn. unfold str_mem in Hn.
  assert (existsb (String.eqb n) names = true) as E; [|congruence].
  apply existsb_exists. exists n. split; [by apply list_elem_of_In|].
  apply String.eqb_refl.
Qed.

Lemma stmt_ok_fields (c : string) (fs : list (string * pyobj)) :
  stmt_ok (Node c fs) = true ->
  str_mem c (ArgUnpackNodes ++ KwArgUnpackNodes) = false
  /\ NoDup (map fst fs) /\ Forall (fun f => field_block_ok f = true) fs.
Proof.
  cbn [stmt_ok]. rewrite !andb_true_iff. intros [[Hc Hd] Hf].
  split_and!.
  - by apply negb_true_iff.
  - by apply distinct_NoDup.
  - apply Forall_forall. intros f Hin. rewrite forallb_forall in Hf.
    apply Hf. by apply list_elem_of_In.
Qed.

Lemma set_field_in_other (n : string) (x : pyobj) (fs : list (string * pyobj))
    (e : string * pyobj) :
  e.1 <> n -> (e ∈ set_field n x fs <-> e ∈ fs).
Proof.
  intros Hne. induction fs as [|[m v] fs IH]; [done|]. cbn.
  destruct (String.eqb m n) eqn:E.
  - apply String.eqb_eq in E. subst m. rewrite !elem_of_cons.
    split; (intros [->|?]; [done|by right]).
  - rewrite !elem_of_cons, IH. done.
Qed.

Lemma set_field_in_same (n : string) (x : pyobj) (fs : list (string * pyobj))
    (e : string * pyobj) :
  NoDup (map fst fs) -> e ∈ set_field n x fs -> e.1 = n -> e = (n, x).
Proof.
  intros Hnd Hin He. induction fs as [|[m v] fs IH]; [by inversion Hin|].
  cbn in Hin, Hnd. apply NoDup_cons in Hnd as [Hm Hnd].
  destruct (String.eqb m n) eqn:E.
  - apply String.eqb_eq in E. subst m.
    apply elem_of_cons in Hin as [->|Hin]; [done|].
    exfalso. apply Hm. apply list_elem_of_fmap. by exists e.
  - apply String.eqb_neq in E.
    apply elem_of_cons in Hin as [->|Hin]; [done|]. by apply IH.
Qed.

Lemma field_in_unique (fs : list (string * pyobj)) (e1 e2 : string * pyobj) :
  NoDup (map fst fs) -> e1 ∈ fs -> e2 ∈ fs -> e1.1 = e2.1 -> e1 = e2.
Proof.
  intros Hnd H1 H2 He. induction fs as [|[m v] fs IH]; [by inversion H1|].
  cbn in Hnd. apply NoDup_cons in Hnd as [Hm Hnd].
  apply elem_of_cons in H1 as [->|H1]; apply elem_of_cons in H2 as [->|H2].
  - done.
  - exfalso. apply Hm. cbn in He. rewrite He. apply list_elem_of_fmap. by exists e2.
  - exfalso. apply Hm. cbn in He. rewrite <- He. apply list_elem_of_fmap. by exists e1.
  - by apply IH.
Qed.

Lemma set_field_same (n : string) (x : pyobj) (fs : list (string * pyobj)) :
  NoDup (map fst fs) -> (n, x) ∈ fs -> set_field n x fs = fs.
Proof.
  intros Hnd Hin. induction fs as [|[m v] fs IH]; [done|].
  cbn in Hnd |- *. apply NoDup_cons in Hnd as [Hm Hnd].
  destruct (String.eqb m n) eqn:E.
  - apply String.eqb_eq in E. subst m.
    apply elem_of_cons in Hin as [Heq|Hin]; [by simplify_eq|].
    exfalso. apply Hm. apply list_elem_of_fmap. by exists (n, x).
  - apply String.eqb_neq in E.
    apply elem_of_cons in Hin as [Heq|Hin]; [by simplify_eq|].
    by rewrite IH.
Qed.

Lemma length_insert_at {A : Type} (k : nat) (xs l : list A) :
  length (insert_at k xs l) = (length xs + length l)%nat.
Proof.
  unfold insert_at. rewrite !length_app.
  rewrite <- (take_drop k l) at 3. rewrite length_app. lia.
Qed.

Lemma forallb_insert_at {A : Type} (P : A -> bool) (k : nat) (xs l : list A) :
  forallb P xs = true -> forallb P l = true -> forallb P (insert_at k xs l) = true.
Proof.
  intros Hxs Hl. unfold insert_at. rewrite !forallb_app, Hxs.
  rewrite <- (take_drop k l), forallb_app in Hl.
  apply andb_true_iff in Hl as [-> ->]. done.
Qed.

Lemma forallb_slot_new (n : nat) (l : list pyobj) :
  forallb stmt_ok l = true -> forallb (slot_ok n) (map SNew l) = true.
Proof. induction l as [|x l IH]; [done|]. cbn. by intros [-> ?]%andb_true_iff; rewrite IH. Qed.

Section block_properties.

Variable nested : tmp_var_index -> list pyobj -> result (tmp_var_index * list pyobj).
Variable fuel : nat.
Hypothesis nested_ok : nested_spec nested.

(** One field of a statement: the body never shrinks, statements stay
    statements, and when the body keeps its length the field is
    settled afterwards. *)
Lemma stmt_field_step_spec (body_copy : list pyobj) (N i : nat) (s s' : pass_state)
    (n : string) (v : pyobj) :
  stmt_field_step nested fuel body_copy i s n v = Ok s' ->
  (length (ps_body s) <= length (ps_body s'))%nat
  /\ (field_block_ok (n, v) = true ->
      forallb (slot_ok N) (ps_body s) = true -> stmt_ok (ps_node s) = true ->
      forallb (slot_ok N) (ps_body s') = true /\ stmt_ok (ps_node s') = true)
  /\ (length (ps_body s') = length (ps_body s) -> field_block_ok (n, v) = true ->
      ps_body s' = ps_body s /\ ps_o s' = ps_o s
      /\ ((ps_node s' = ps_node s /\ field_settled nested fuel (n, v))
          \/ (exists l', is_block_field n v = true
                /\ ps_node s' = setattr (ps_node s) n (PyList l')
                /\ field_settled nested fuel (n, PyList l')))).
Proof.
  unfold stmt_field_step. intros H.
  destruct (negb (is_list v || is_ast v)) eqn:Hprim.
  { simplify_eq. split_and!; try done. intros _ _. split_and!; try done.
    left. split; [done|]. unfold field_settled. cbn [fst snd]. by rewrite Hprim. }
  destruct (is_block_field n v) eqn:Hblock.
  - bind_inv H as l Hl. bind_inv H as [idx1 l'] Hn. simplify_eq.
    cbn [ps_body ps_o ps_node ps_idx].
    destruct v as [| | | |l0|]; try done. cbn in Hl. simplify_eq.
    unfold is_block_field in Hblock. apply andb_true_iff in Hblock as [Hmem _].
    assert (field_block_ok (n, PyList l) = true ->
            block_ok l' = true /\ field_settled nested fuel (n, PyList l'))
      as Hres.
    { unfold field_block_ok. cbn [fst snd]. rewrite Hmem. intros Hok.
      destruct (nested_ok _ _ _ _ Hn Hok) as (Hok' & _ & Hstable).
      split; [done|]. unfold field_settled, is_block_field. cbn [fst snd].
      rewrite Hmem. cbn. eauto. }
    split_and!; try done.
    + intros Hf Hs Hnode. split; [done|]. apply stmt_ok_setattr; [done|].
      rewrite Hmem. by apply Hres.
    + intros _ Hf. split; [done|]. split; [done|]. right. exists l'.
      split; [done|]. split; [done|]. by apply Hres.
  - bind_inv H as [idx1 r] Hr.
    apply (make_field_update_spec _ (make_single_field_update_spec fuel)) in Hr.
    destruct r as [[node u]|].
    + destruct Hr as (-> & Hne & Hlist & _ & Hp & Hd).
      assert (1 <= length (prefix_nodes u))%nat as Hlen.
      { destruct (prefix_nodes u); [done|cbn; lia]. }
      assert (stmt_ok (ps_node s) = true ->
              stmt_ok (setattr (ps_node s) n (new_field u)) = true) as Hnode.
      { intros Hs. apply stmt_ok_setattr; [done|].
        destruct (str_mem n STMTLIST_FIELD_NAMES) eqn:Hmem; [|done].
        unfold is_block_field in Hblock. rewrite Hmem in Hblock. cbn in Hblock.
        rewrite Hblock in Hlist. by destruct (new_field u). }
      destruct (insert_at _ _ _ !! _) as [stmt|] eqn:Hstmt; [|discriminate].
      destruct (slot_is_return body_copy stmt); simplify_eq; cbn.
      * rewrite length_insert_at, length_map. split_and!; try lia.
        intros _ Hs Hn. split; [|by apply Hnode].
        apply forallb_insert_at; [by apply forallb_slot_new|done].
      * rewrite !length_insert_at, !length_map. split_and!; try lia.
        intros _ Hs Hn. split; [|by apply Hnode].
        apply forallb_insert_at; [by apply forallb_slot_new|].
        apply forallb_insert_at; [by apply forallb_slot_new|done].
    + destruct Hr as (-> & Hclean & Hall). simplify_eq. cbn.
      split_and!; try done. intros _ _. split_and!; try done. left.
      split; [done|]. unfold field_settled. cbn [fst snd].
      by rewrite Hprim, Hblock.
Qed.

(** The loop over the fields of one statement. When the body keeps
    its length, every field the loop went through is settled in the
    statement it leaves, and the fields still to come are untouched. *)
Lemma stmt_fields_loop_spec (body_copy : list pyobj) (N i : nat)
    (todo : list (string * pyobj)) (s s' : pass_state) :
  stmt_fields_loop nested fuel body_copy i s todo = Ok s' ->
  (length (ps_body s) <= length (ps_body s'))%nat
  /\ (Forall (fun f => field_block_ok f = true) todo ->
      forallb (slot_ok N) (ps_body s) = true -> stmt_ok (ps_node s) = true ->
      forallb (slot_ok N) (ps_body s') = true /\ stmt_ok (ps_node s') = true)
  /\ (length (ps_body s') = length (ps_body s) ->
      Forall (fun f => field_block_ok f = true) todo ->
      ps_body s' = ps_body s /\ ps_o s' = ps_o s
      /\ forall c fs,
           ps_node s = Node c fs -> NoDup (map fst fs) -> NoDup (map fst todo) ->
           (forall e, e ∈ todo -> e ∈ fs) ->
           exists fs',
             ps_node s' = Node c fs' /\ map fst fs' = map fst fs
             /\ forall e', e' ∈ fs' ->
                  field_settled nested fuel e' \/ (e' ∈ fs /\ e'.1 ∉ map fst todo)).
Proof.
  revert s. induction todo as [|[n v] todo IH]; intros s H; cbn in H.
  { simplify_eq. split_and!; try done. intros _ _. split_and!; try done.
    intros c fs Hnode _ _ _. exists fs. split_and!; try done.
    intros e' He'. right. split; [done|]. by intros ?%elem_of_nil. }
  bind_inv H as s1 Hstep.
  apply (stmt_field_step_spec body_copy N) in Hstep as (Hm1 & Hwf1 & Hq1).
  apply IH in H as (Hm & Hwf & Hq).
  split_and!.
  - lia.
  - intros Hall Hs Hn. apply Forall_cons in Hall as [Hv Hall].
    destruct (Hwf1 Hv Hs Hn) as [? ?]. by apply Hwf.
  - intros Hlen Hall. apply Forall_cons in Hall as [Hv Hall].
    destruct (Hq1 ltac:(lia) Hv) as (Hb1 & Ho1 & Hout).
    destruct (Hq ltac:(lia) Hall) as (Hb & Ho & Hfs).
    split_and!; [congruence|congruence|].
    intros c fs Hnode Hnd Hndt Hin. cbn in Hndt.
    apply NoDup_cons in Hndt as [Hn Hndt].
    assert ((n, v) ∈ fs) as Hnv by (apply Hin; left).
    destruct Hout as [[Hsame Hset]|(l' & Hblock & Hnew & Hset)].
    + destruct (Hfs c fs) as (fs' & Hn' & Hnames & Hall');
        [congruence|done|done|by intros e He; apply Hin; right|].
      exists fs'. split_and!; try done.
      intros e' He'. destruct (Hall' e' He') as [?|[Hefs Hen]]; [by left|].
      destruct (decide (e'.1 = n)) as [Heq|Hne].
      * left. by rewrite (field_in_unique fs e' (n, v)).
      * right. split; [done|]. cbn. by intros [?|?]%elem_of_cons.
    + rewrite Hnode in Hnew. cbn in Hnew.
      destruct (Hfs c (set_field n (PyList l') fs)) as (fs' & Hn' & Hnames & Hall');
        [done|by rewrite set_field_names|done| |].
      { intros e He. apply set_field_in_other; [|by apply Hin; right].
        intros Heq. apply Hn. rewrite <- Heq. apply list_elem_of_fmap. by exists e. }
      exists fs'. split_and!; [done|by rewrite Hnames, set_field_names|].
      intros e' He'. destruct (Hall' e' He') as [?|[Hefs Hen]]; [by left|].
      destruct (decide (e'.1 = n)) as [Heq|Hne].
      * left. by rewrite (set_field_in_same n (PyList l') fs e').
      * right. split; [by apply (set_field_in_other n (PyList l'))|].
        cbn. by intros [?|?]%elem_of_cons.
Qed.

(** On a statement all of whose fields are settled the loop over the
    fields changes nothing. *)
Lemma stmt_fields_loop_settled (body_copy : list pyobj) (i : nat)
    (todo : list (string * pyobj)) (s : pass_state) (c : string)
    (fs : list (string * pyobj)) :
  ps_node s = Node c fs -> NoDup (map fst fs) ->
  (forall e, e ∈ todo -> e ∈ fs /\ field_settled nested fuel e) ->
  stmt_fields_loop nested fuel body_copy i s todo = Ok s.
Proof.
  intros Hnode Hnd. induction todo as [|[n v] todo IH]; intros Hall; [done|].
  cbn [stmt_fields_loop].
  assert (stmt_field_step nested fuel body_copy i s n v = Ok s) as ->.
  { destruct (Hall (n, v)) as [Hin Hset]; [left|].
    unfold stmt_field_step. unfold field_settled in Hset. cbn [fst snd] in Hset.
    destruct (negb (is_list v || is_ast v)); [done|].
    destruct (is_block_field n v).
    - destruct Hset as (l & -> & Hstable). cbn. rewrite Hstable. cbn.
      destruct s as [idx body o node]. cbn in *. subst node. cbn.
      by rewrite set_field_same.
    - rewrite Hset. cbn. by destruct s. }
  cbn. apply IH. intros e He. apply Hall. by right.
Qed.

Lemma forallb_list_insert {A : Type} (P : A -> bool) (l : list A) (i : nat) (x : A) :
  forallb P l = true -> P x = true -> forallb P (<[i:=x]> l) = true.
Proof.
  revert i. induction l as [|y l IH]; intros i Hl Hx; [done|].
  cbn in Hl. apply andb_true_iff in Hl as [Hy Hl].
  destruct i; cbn; [by rewrite Hx, Hl|by rewrite Hy, IH].
Qed.

Lemma forallb_lookup {A : Type} (P : A -> bool) (l : list A) (i : nat) (x : A) :
  forallb P l = true -> l !! i = Some x -> P x = true.
Proof.
  intros Hl Hi. rewrite forallb_forall in Hl. apply Hl.
  apply list_elem_of_In. by eapply list_elem_of_lookup_2.
Qed.

(** The loop over the statements of a block. *)
Lemma stmts_loop_spec (body_copy : list pyobj) (todo : list pyobj) (i : nat)
    (idx : tmp_var_index) (body : list slot) (o : nat) (nodes : list pyobj)
    (idx' : tmp_var_index) (body' : list slot) (nodes' : list pyobj) :
  stmts_loop nested fuel body_copy i todo idx body o nodes = Ok (idx', body', nodes') ->
  (length body <= length body')%nat
  /\ length nodes' = length nodes
  /\ (forallb stmt_ok todo = true -> forallb (slot_ok (length nodes)) body = true ->
      forallb stmt_ok nodes = true ->
      forallb (slot_ok (length nodes)) body' = true /\ forallb stmt_ok nodes' = true)
  /\ (length body' = length body -> forallb stmt_ok todo = true ->
      body' = body
      /\ (forall k, (k < i)%nat -> nodes' !! k = nodes !! k)
      /\ (forall j node, todo !! j = Some node -> (i + j < length nodes)%nat ->
            exists node', nodes' !! (i + j)%nat = Some node'
                          /\ stmt_settled nested fuel node')).
Proof.
  revert i idx body o nodes.
  induction todo as [|node todo IH]; intros i idx body o nodes H; cbn in H.
  { simplify_eq. split_and!; try done; intros _ _; split_and!; done. }
  bind_inv H as fs Hfs. bind_inv H as s Hloop.
  destruct node as [| | | |?|c fs0]; try done. cbn in Hfs. simplify_eq.
  apply (stmt_fields_loop_spec body_copy (length nodes)) in Hloop as (Hm1 & Hwf1 & Hq1).
  cbn [ps_body ps_node ps_o ps_idx] in *.
  apply IH in H as (Hm & Hlen & Hwf & Hq). rewrite length_insert in Hlen, Hwf, Hq.
  assert (stmt_ok (Node c fs) = true ->
          Forall (fun f => field_block_ok f = true) (sorted_fields fs)
          /\ NoDup (map fst (sorted_fields fs)) /\ NoDup (map fst fs)) as Hnode.
  { intros (_ & Hnd & Hfb)%stmt_ok_fields. split_and!; try done.
    - by rewrite (sorted_perm node_field_sort_key key_lt fs : sorted_fields fs ≡ₚ fs).
    - by rewrite (sorted_perm node_field_sort_key key_lt fs : sorted_fields fs ≡ₚ fs). }
  split_and!; try done.
  - lia.
  - intros Htodo Hb Hn. cbn in Htodo. apply andb_true_iff in Htodo as [Hnd Htodo].
    destruct (Hnode Hnd) as (Hfb & _ & _).
    destruct (Hwf1 Hfb Hb Hnd) as [Hb1 Hn1].
    apply Hwf; [done|done|]. by apply forallb_list_insert.
  - intros Hl Htodo. cbn in Htodo. apply andb_true_iff in Htodo as [Hnd Htodo].
    destruct (Hnode Hnd) as (Hfb & Hnds & Hndf).
    destruct (Hq1 ltac:(lia) Hfb) as (Hb1 & Ho1 & Hfs').
    destruct (Hq ltac:(lia) Htodo) as (Hb & Hlow & Hrest).
    destruct (Hfs' c fs eq_refl Hndf Hnds) as (fs' & Hs' & Hnames & Hall).
    { intros e He.
      by rewrite <- (sorted_perm node_field_sort_key key_lt fs : sorted_fields fs ≡ₚ fs). }
    split_and!; [congruence| |].
    + intros k Hk. rewrite Hlow by lia. apply list_lookup_insert_ne. lia.
    + intros [|j] node Hj Hij.
      * cbn in Hj. simplify_eq. rewrite Nat.add_0_r in *.
        rewrite Hlow by lia. rewrite list_lookup_insert_eq by done.
        eexists. split; [done|]. exists c, fs'. split; [done|].
        apply Forall_forall. intros e' He'.
        destruct (Hall e' He') as [?|[Hin Hnot]]; [done|].
        exfalso. apply Hnot.
        rewrite (sorted_perm node_field_sort_key key_lt fs : sorted_fields fs ≡ₚ fs).
        apply list_elem_of_fmap. by exists e'.
      * cbn in Hj. replace (i + S j)%nat with (S i + j)%nat by lia.
        apply (Hrest j node Hj). lia.
Qed.

Lemma stmts_loop_settled (body_copy : list pyobj) (todo : list pyobj) (i : nat)
    (idx : tmp_var_index) (body : list slot) (o : nat) (nodes : list pyobj) :
  Forall (stmt_settled nested fuel) todo -> forallb stmt_ok todo = true ->
  (forall j node, todo !! j = Some node -> nodes !! (i + j)%nat = Some node) ->
  stmts_loop nested fuel body_copy i todo idx body o nodes = Ok (idx, body, nodes).
Proof.
  revert i. induction todo as [|node todo IH]; intros i Hset Hok Hnodes; [done|].
  apply Forall_cons in Hset as [(c & fs & -> & Hfs) Hset].
  cbn in Hok. apply andb_true_iff in Hok as [Hnode Hok].
  apply stmt_ok_fields in Hnode as (_ & Hnd & _).
  cbn [stmts_loop iter_fields]. cbn [mbind result_bind].
  rewrite (stmt_fields_loop_settled body_copy i _ _ c fs); [|done|done|].
  - cbn [mbind result_bind ps_idx ps_body ps_o ps_node].
    rewrite list_insert_id.
    + apply IH; [done|done|]. intros j node Hj.
      replace (S i + j)%nat with (i + S j)%nat by lia. by apply Hnodes.
    + specialize (Hnodes 0%nat (Node c fs) eq_refl). by rewrite Nat.add_0_r in Hnodes.
  - intros e He.
    rewrite (sorted_perm node_field_sort_key key_lt fs : sorted_fields fs ≡ₚ fs) in He.
    split; [done|]. rewrite Forall_forall in Hfs. by apply Hfs.
Qed.

Lemma resolve_identity (nodes : list pyobj) :
  map (resolve_slot nodes) (map SOld (seq 0 (length nodes))) = nodes.
Proof.
  apply list_eq. intros k. rewrite !list_lookup_fmap.
  destruct (decide (k < length nodes)%nat) as [Hk|Hk].
  - rewrite lookup_seq_lt by done. cbn.
    destruct (lookup_lt_is_Some_2 nodes k Hk) as [x Hx]. by rewrite Hx.
  - rewrite lookup_seq_ge by lia. cbn. symmetry. apply lookup_ge_None. lia.
Qed.

Lemma slots_initial_ok (n : nat) : forallb (slot_ok n) (map SOld (seq 0 n)) = true.
Proof.
  apply forallb_forall. intros s Hin. apply in_map_iff in Hin as (k & <- & Hk).
  apply in_seq in Hk. cbn. apply Nat.ltb_lt. lia.
Qed.

Lemma resolve_ok (nodes : list pyobj) (slots : list slot) :
  forallb stmt_ok nodes = true -> forallb (slot_ok (length nodes)) slots = true ->
  forallb stmt_ok (map (resolve_slot nodes) slots) = true.
Proof.
  intros Hn Hs. apply forallb_forall. intros v Hin.
  apply in_map_iff in Hin as (s & <- & Hin).
  rewrite forallb_forall in Hs. specialize (Hs s Hin).
  destruct s as [k|w]; cbn in Hs |- *; [|done].
  apply Nat.ltb_lt in Hs. destruct (lookup_lt_is_Some_2 nodes k Hs) as [x Hx].
  rewrite Hx. cbn. by eapply forallb_lookup.
Qed.

(** One pass: the block does not shrink and stays a block of
    statements; a pass that keeps the length leaves every statement
    settled. *)
Lemma body_pass_spec (idx idx' : tmp_var_index) (body body' : list pyobj) :
  body_pass nested fuel idx body = Ok (idx', body') ->
  (length body <= length body')%nat
  /\ (block_ok body = true -> block_ok body' = true)
  /\ (length body' = length body -> block_ok body = true ->
      Forall (stmt_settled nested fuel) body').
Proof.
  unfold body_pass. intros H. bind_inv H as [[idx1 slots] nodes] Hloop.
  simplify_eq. apply stmts_loop_spec in Hloop as (Hm & Hlen & Hwf & Hq).
  rewrite length_map, length_seq in Hm, Hq. rewrite length_map.
  split_and!; try done.
  - intros Hok. destruct (Hwf Hok (slots_initial_ok _) Hok) as [Hs Hn].
    unfold block_ok. apply resolve_ok; [done|]. by rewrite Hlen.
  - intros Hl Hok. destruct (Hq Hl Hok) as (-> & _ & Hset).
    rewrite <- Hlen, resolve_identity.
    apply Forall_lookup. intros j node' Hj.
    assert (j < length body)%nat as Hjl.
    { rewrite <- Hlen. by eapply lookup_lt_Some. }
    destruct (lookup_lt_is_Some_2 body j Hjl) as [node Hnode].
    destruct (Hset j node Hnode Hjl) as (node2 & Hn2 & Hs2).
    cbn in Hn2. by simplify_eq.
Qed.

Lemma body_pass_settled (idx : tmp_var_index) (body : list pyobj) :
  Forall (stmt_settled nested fuel) body -> block_ok body = true ->
  body_pass nested fuel idx body = Ok (idx, body).
Proof.
  intros Hset Hok. unfold body_pass.
  rewrite (stmts_loop_settled body body 0); [|done|done|done].
  cbn. by rewrite resolve_identity.
Qed.

(** The [while] loop around the passes. *)
Lemma body_loop_spec (n initial : nat) (prev : Z) (idx idx' : tmp_var_index)
    (body body' : list pyobj) :
  body_loop (body_pass nested fuel) n initial prev idx body = Ok (idx', body') ->
  block_ok body = true ->
  (prev = Z.of_nat (length body) -> Forall (stmt_settled nested fuel) body) ->
  block_ok body' = true /\ Forall (stmt_settled nested fuel) body'.
Proof.
  revert prev idx body. induction n as [|n IH]; intros prev idx body H Hok Hprev;
    cbn [body_loop] in H.
  - destruct (Z.eqb_spec prev (Z.of_nat (length body))) as [Heq|Hne].
    + simplify_eq. auto.
    + destruct (Nat.ltb _ _); discriminate.
  - destruct (Z.eqb_spec prev (Z.of_nat (length body))) as [Heq|Hne].
    + simplify_eq. auto.
    + destruct (Nat.ltb _ _); [discriminate|].
      bind_inv H as [idx1 body1] Hpass.
      apply body_pass_spec in Hpass as (_ & Hwf & Hq).
      apply IH in H; [done|by apply Hwf|].
      intros Hl. apply Hq; [lia|done].
Qed.

Lemma body_loop_settled (n : nat) (idx : tmp_var_index) (body : list pyobj) :
  Forall (stmt_settled nested fuel) body -> block_ok body = true ->
  body_loop (body_pass nested fuel) (S n) (length body) (-1) idx body = Ok (idx, body).
Proof.
  intros Hset Hok. cbn [body_loop].
  destruct (Z.eqb_spec (-1) (Z.of_nat (length body))) as [Heq|_]; [lia|].
  destruct (Nat.ltb_spec (length body * 100) (length body)) as [Hlt|_]; [lia|].
  rewrite body_pass_settled by done. cbn [mbind result_bind].
  destruct n; cbn [body_loop]; by rewrite Z.eqb_refl.
Qed.

(** A settled block of statements has no unpacking left. *)
Lemma settled_no_unpacking (body : list pyobj) :
  Forall (stmt_settled nested fuel) body -> block_ok body = true ->
  forallb no_unpacking body = true.
Proof.
  intros Hset Hok. apply forallb_forall. intros node Hin.
  apply list_elem_of_In in Hin.
  rewrite Forall_forall in Hset. destruct (Hset node Hin) as (c & fs & -> & Hfs).
  unfold block_ok in Hok. rewrite forallb_forall in Hok.
  specialize (Hok (Node c fs) ltac:(by apply list_elem_of_In)).
  apply stmt_ok_fields in Hok as (Hc & _ & Hfb).
  unfold no_unpacking. cbn [all_nodes]. apply andb_true_iff. split.
  - unfold unpacking_free, isinstance.
    unfold str_mem in Hc |- *. rewrite existsb_app in Hc.
    apply orb_false_iff in Hc as [-> ->]. done.
  - apply forallb_forall. intros [n v] Hnv. apply list_elem_of_In in Hnv.
    rewrite Forall_forall in Hfs, Hfb.
    specialize (Hfs _ Hnv). specialize (Hfb _ Hnv).
    unfold field_settled in Hfs. cbn [fst snd] in Hfs |- *.
    destruct (negb (is_list v || is_ast v)) eqn:Hprim.
    { by destruct v. }
    destruct (is_block_field n v) eqn:Hblock.
    + destruct Hfs as (l & -> & Hstable).
      unfold field_block_ok, is_block_field in Hfb, Hblock. cbn [fst snd] in Hfb.
      apply andb_true_iff in Hblock as [Hmem _]. rewrite Hmem in Hfb.
      destruct (nested_ok _ _ _ _ (Hstable 0%nat) Hfb) as (_ & Hclean & _).
      exact Hclean.
    + specialize (Hfs 0%nat PyNone).
      apply (make_field_update_spec _ (make_single_field_update_spec fuel)) in Hfs.
      by destruct Hfs as (_ & ? & _).
Qed.

End block_properties.

(** [apply_body_updates], at every fuel: when it returns, the block is
    a block of statements without unpacking on which another call does
    nothing. *)
Lemma apply_body_updates_spec (fuel : nat) : nested_spec (apply_body_updates fuel).
Proof.
  induction fuel as [|fuel IH]; [by intros ? ? ? ? ?|].
  intros idx l idx' l' H Hok. cbn [apply_body_updates] in H.
  apply (body_loop_spec _ fuel IH) in H as [Hok' Hset]; [|done|lia].
  split_and!; [done|by apply (settled_no_unpacking _ fuel IH)|].
  intros idx2. cbn [apply_body_updates]. rewrite Nat.add_1_r.
  by apply body_loop_settled.
Qed.

(** ** The fixer on a module *)

Lemma fixer_call_inv (fuel : nat) (idx idx' : tmp_var_index) (body : list pyobj)
    (tree' : pyobj) :
  UnpackingGeneralizationsFixer_call fuel idx (ast.Module_ body) = Ok (idx', tree') ->
  exists body', apply_body_updates fuel idx body = Ok (idx', body')
                /\ tree' = ast.Module_ body'.
Proof.
  unfold UnpackingGeneralizationsFixer_call. cbn. intros H.
  bind_inv H as [idx1 body'] Hb. simplify_eq. by exists body'.
Qed.

(** C1: when the fixer returns on a module whose blocks hold
    statements, no node of the returned tree has unpacking:
    [has_args_unpacking] is false on every call, list, tuple and set
    of the tree and [has_kwargs_unpacking] on every call and dict. *)
Theorem fixer_eliminates_unpacking (fuel : nat) (idx idx' : tmp_var_index)
    (body : list pyobj) (tree' : pyobj) :
  block_ok body = true ->
  UnpackingGeneralizationsFixer_call fuel idx (ast.Module_ body) = Ok (idx', tree') ->
  no_unpacking tree' = true.
Proof.
  intros Hok (body' & Hb & ->)%fixer_call_inv.
  destruct (apply_body_updates_spec fuel _ _ _ _ Hb Hok) as (_ & Hclean & _).
  unfold no_unpacking, ast.Module_. cbn [all_nodes forallb snd].
  change (forallb (all_nodes unpacking_free) body') with (forallb no_unpacking body').
  by rewrite Hclean.
Qed.

Lemma fixer_eliminates_unpacking_witness :
  exists idx' tree',
    UnpackingGeneralizationsFixer_call 12 0 example_module = Ok (idx', tree')
    /\ no_unpacking example_module = false
    /\ no_unpacking tree' = true.
Proof.
  destruct (UnpackingGeneralizationsFixer_call 12 0 example_module)
    as [[idx' tree']| |] eqn:H; [|by vm_compute in H..].
  exists idx', tree'. split; [reflexivity|]. split; [reflexivity|].
  eapply (fixer_eliminates_unpacking 12 0 idx'); [|exact H]. reflexivity.
Defined.

(** C6: a second run of the fixer on its own output, from any value of
    the counter of temporaries, returns that output unchanged and
    creates no temporary. *)
Theorem fixer_idempotent (fuel : nat) (idx idx' : tmp_var_index)
    (body : list pyobj) (tree' : pyobj) :
  block_ok body = true ->
  UnpackingGeneralizationsFixer_call fuel idx (ast.Module_ body) = Ok (idx', tree') ->
  forall idx2, UnpackingGeneralizationsFixer_call fuel idx2 tree' = Ok (idx2, tree').
Proof.
  intros Hok (body' & Hb & ->)%fixer_call_inv idx2.
  destruct (apply_body_updates_spec fuel _ _ _ _ Hb Hok) as (_ & _ & Hstable).
  unfold UnpackingGeneralizationsFixer_call. cbn. by rewrite Hstable.
Qed.

Lemma fixer_idempotent_witness :
  exists idx' tree',
    UnpackingGeneralizationsFixer_call 12 0 example_module = Ok (idx', tree')
    /\ tree' <> example_module
    /\ UnpackingGeneralizationsFixer_call 12 idx' tree' = Ok (idx', tree').
Proof.
  destruct (UnpackingGeneralizationsFixer_call 12 0 example_module)
    as [[idx' tree']| |] eqn:H; [|by vm_compute in H..].
  exists idx', tree'. split; [reflexivity|]. split.
  - vm_compute in H. by simplify_eq.
  - eapply (fixer_idempotent 12 0 idx'); [|exact H]. reflexivity.
Defined.

(** ** Passes whose offsets are right *)

Section regular.

Variable nested : tmp_var_index -> list pyobj -> result (tmp_var_index * list pyobj).
Variable fuel : nat.

Lemma stmt_fields_loop_app (body_copy : list pyobj) (i : nat)
    (l1 l2 : list (string * pyobj)) (s : pass_state) :
  stmt_fields_loop nested fuel body_copy i s (l1 ++ l2)
  = stmt_fields_loop nested fuel body_copy i s l1
      ≫= fun s1 => stmt_fields_loop nested fuel body_copy i s1 l2.
Proof.
  revert s. induction l1 as [|[n v] l1 IH]; intros s; [done|].
  cbn [app stmt_fields_loop].
  destruct (stmt_field_step nested fuel body_copy i s n v) as [s1| |]; [|done..].
  cbn. apply IH.
Qed.

Lemma resolve_new (nodes l : list pyobj) : map (resolve_slot nodes) (map SNew l) = l.
Proof. induction l as [|x l IH]; [done|]. cbn. by rewrite IH. Qed.

Lemma slots_split (i p : nat) :
  map SOld (seq 0 (i + S p))
  = map SOld (seq 0 i) ++ SOld i :: map SOld (seq (S i) p).
Proof. by rewrite seq_app, map_app. Qed.

Lemma insert_at_length {A : Type} (k : nat) (l1 xs l2 : list A) :
  length l1 = k -> insert_at k xs (l1 ++ l2) = l1 ++ xs ++ l2.
Proof.
  intros <-. unfold insert_at. by rewrite take_app_length, drop_app_length.
Qed.

Lemma quiet_fields_loop (idx : tmp_var_index) (node : pyobj)
    (fields : list (string * pyobj)) (idx' : tmp_var_index) (node' : pyobj) :
  quiet_fields nested fuel idx node fields idx' node' ->
  forall body_copy i slots o,
    stmt_fields_loop nested fuel body_copy i (mkPassState idx slots o node) fields
    = Ok (mkPassState idx' slots o node').
Proof.
  induction 1 as [idx node|idx node n v fields idx' node' Hv _ IH
                  |idx node n l idx1 l' fields idx' node' Hb Hn _ IH
                  |idx node n v idx1 fields idx' node' Hv Hb Hu _ IH];
    intros body_copy i slots o; cbn [stmt_fields_loop]; [done|..].
  - unfold stmt_field_step. rewrite Hv. cbn [negb mbind result_bind]. apply IH.
  - unfold stmt_field_step. rewrite Hb. cbn [is_list orb negb iter_list mbind result_bind].
    cbn [ps_idx ps_body ps_o ps_node]. rewrite Hn. cbn [mbind result_bind]. apply IH.
  - unfold stmt_field_step. rewrite Hv, Hb. cbn [negb ps_idx ps_node].
    rewrite Hu. cbn [mbind result_bind ps_body ps_o ps_node]. apply IH.
Qed.

(** A statement without expansion: the pass splices nothing. *)
Lemma quiet_stmt_loop (body_copy : list pyobj) (i : nat) (c : string)
    (fs : list (string * pyobj)) (rest : list pyobj) (idx idx1 : tmp_var_index)
    (node' : pyobj) (slots : list slot) (o : nat) (nodes : list pyobj) :
  quiet_fields nested fuel idx (Node c fs) (sorted_fields fs) idx1 node' ->
  stmts_loop nested fuel body_copy i (Node c fs :: rest) idx slots o nodes
  = stmts_loop nested fuel body_copy (S i) rest idx1 slots o (<[i := node']> nodes).
Proof.
  intros Hq. cbn [stmts_loop iter_fields mbind result_bind].
  by rewrite (quiet_fields_loop _ _ _ _ _ Hq).
Qed.

(** A statement with one expanded field: the hoisted statements go
    before its entry and the deletions behind it. *)
Lemma stmts_loop_expands (body_copy : list pyobj) (i : nat) (stmt : pyobj)
    (rest : list pyobj) (idx idx1 : tmp_var_index) (u : FieldUpdate) (stmt' : pyobj)
    (done later : list slot) (o : nat) (nodes : list pyobj) :
  expands nested fuel idx stmt idx1 u stmt' ->
  body_copy !! i = Some stmt -> (i + o)%nat = length done ->
  stmts_loop nested fuel body_copy i (stmt :: rest) idx (done ++ SOld i :: later) o nodes
  = stmts_loop nested fuel body_copy (S i) rest idx1
      (done ++ map SNew (prefix_nodes u) ++ SOld i
            :: map SNew (deletions_for stmt u) ++ later)
      (o + length (prefix_nodes u) + (if isinstance stmt ["Return"] then 0 else 1))
      (<[i := stmt']> nodes).
Proof.
  intros Hexp Hi Ho.
  destruct Hexp as [idx c fs fs1 n v fs2 idx1 node1 idx2 node2 u idx3 node3
                      Hsorted Hq1 Hv Hb Hu Hq2].
  set (X := map SNew (prefix_nodes u)).
  assert (length X = length (prefix_nodes u)) as HX by (unfold X; by rewrite length_map).
  cbn [stmts_loop iter_fields mbind result_bind]. rewrite Hsorted.
  rewrite stmt_fields_loop_app, (quiet_fields_loop _ _ _ _ _ Hq1).
  cbn [mbind result_bind stmt_fields_loop].
  unfold stmt_field_step at 1. cbn [ps_idx ps_body ps_o ps_node].
  rewrite Hv, Hb. cbn [negb]. rewrite Hu. cbn [mbind result_bind]. fold X.
  rewrite Ho, (insert_at_length (length done) done X (SOld i :: later) eq_refl).
  assert ((done ++ X ++ SOld i :: later) !! (i + (o + length (prefix_nodes u)))%nat
          = Some (SOld i)) as ->.
  { rewrite lookup_app_r by lia. rewrite lookup_app_r by lia.
    by replace (_ - _ - _)%nat with 0%nat by lia. }
  cbn [slot_is_return]. rewrite Hi. unfold deletions_for.
  destruct (isinstance (Node c fs) ["Return"]).
  - cbn [mbind result_bind]. rewrite (quiet_fields_loop _ _ _ _ _ Hq2).
    cbn [mbind result_bind ps_idx ps_body ps_o ps_node map app].
    by rewrite Nat.add_0_r.
  - replace (insert_at (i + (o + length (prefix_nodes u) + 1))
               (map SNew (del_nodes u)) (done ++ X ++ SOld i :: later))
      with (done ++ X ++ SOld i :: map SNew (del_nodes u) ++ later).
    2: { replace (done ++ X ++ SOld i :: later) with ((done ++ X ++ [SOld i]) ++ later)
           by (by rewrite <- !app_assoc).
         rewrite insert_at_length; [by rewrite <- !app_assoc|].
         rewrite !length_app. cbn. lia. }
    cbn [mbind result_bind]. rewrite (quiet_fields_loop _ _ _ _ _ Hq2).
    by cbn [mbind result_bind ps_idx ps_body ps_o ps_node].
Qed.

Lemma stmts_loop_regular (expanding : bool) (idx : tmp_var_index) (todo : list pyobj)
    (idx' : tmp_var_index) (out : list pyobj) :
  regular_pass nested fuel expanding idx todo idx' out ->
  forall rest body_copy i done later o nodes,
    (expanding = true -> (i + o)%nat = length done) ->
    (forall j s, todo !! j = Some s -> body_copy !! (i + j)%nat = Some s) ->
    (i + length todo <= length nodes)%nat ->
    exists S_out nodes' o',
      stmts_loop nested fuel body_copy i (todo ++ rest) idx
                 (done ++ map SOld (seq i (length todo)) ++ later) o nodes
      = stmts_loop nested fuel body_copy (i + length todo) rest idx'
                   (done ++ S_out ++ later) o' nodes'
      /\ (expanding = true -> (i + length todo + o')%nat = length (done ++ S_out))
      /\ length nodes' = length nodes
      /\ (forall k, (k < i \/ i + length todo <= k)%nat -> nodes' !! k = nodes !! k)
      /\ (forall N, (forall k, (i <= k < i + length todo)%nat -> N !! k = nodes' !! k) ->
                    map (resolve_slot N) S_out = out).
Proof.
  induction 1 as [idx|idx c fs idx1 node' todo idx' out Hq _ IH
                  |idx stmt idx1 u stmt' todo idx' out Hexp Hx Hkeep _ IH];
    intros rest body_copy i done later o nodes Ho Hcopy Hlen.
  - exists [], nodes, o. cbn [length app map seq]. rewrite Nat.add_0_r, app_nil_r.
    split_and!; [done|done|done|done|done].
  - cbn [length] in Hlen.
    destruct (IH rest body_copy (S i) (done ++ [SOld i]) later o (<[i := node']> nodes))
      as (S_out & nodes' & o' & Hrun & Ho' & Hlen' & Hframe & Hres).
    { intros He. rewrite length_app. cbn. specialize (Ho He). lia. }
    { intros j s Hj. replace (S i + j)%nat with (i + S j)%nat by lia. by apply Hcopy. }
    { rewrite length_insert. lia. }
    exists (SOld i :: S_out), nodes', o'.
    rewrite length_insert in Hlen'.
    split_and!.
    + cbn [app length seq map]. rewrite (quiet_stmt_loop body_copy i c fs _ idx idx1 node' _ _ _ Hq).
      rewrite <- !app_assoc in Hrun. cbn [app] in Hrun. rewrite Hrun.
      f_equal. lia.
    + intros He. specialize (Ho' He). rewrite !length_app in *. cbn [length] in *. lia.
    + done.
    + intros k Hk. cbn [length] in Hk. rewrite Hframe by lia.
      apply list_lookup_insert_ne. lia.
    + intros N HN. cbn [map resolve_slot]. f_equal.
      * rewrite HN by (cbn [length]; lia). rewrite Hframe by lia.
        by rewrite list_lookup_insert_eq by lia.
      * apply Hres. intros k Hk. apply HN. cbn [length]. lia.
  - cbn [length] in Hlen. specialize (Ho Hexp).
    set (X := map SNew (prefix_nodes u)).
    set (D := map SNew (deletions_for stmt u)).
    set (o1 := (o + length (prefix_nodes u)
                + (if isinstance stmt ["Return"] then 0 else 1))%nat).
    destruct (IH rest body_copy (S i) (done ++ X ++ SOld i :: D) later o1
                (<[i := stmt']> nodes))
      as (S_out & nodes' & o' & Hrun & Ho' & Hlen' & Hframe & Hres).
    { intros _. unfold o1, X, D, deletions_for. rewrite !length_app. cbn [length].
      rewrite !length_map. unfold keeps_offset in Hkeep.
      destruct (isinstance stmt ["Return"]); cbn [length].
      - lia.
      - cbn [orb] in Hkeep. apply Nat.eqb_eq in Hkeep. lia. }
    { intros j s Hj. replace (S i + j)%nat with (i + S j)%nat by lia. by apply Hcopy. }
    { rewrite length_insert. lia. }
    exists (X ++ SOld i :: D ++ S_out), nodes', o'.
    rewrite length_insert in Hlen'.
    split_and!.
    + cbn [app length seq map].
      rewrite (stmts_loop_expands body_copy i stmt (todo ++ rest) idx idx1 u stmt'
                 done (map SOld (seq (S i) (length todo)) ++ later) o nodes Hx);
        [|by rewrite <- (Hcopy 0%nat stmt eq_refl), Nat.add_0_r|done].
      fold X D o1.
      replace (done ++ X ++ SOld i :: D ++ map SOld (seq (S i) (length todo)) ++ later)
        with ((done ++ X ++ SOld i :: D) ++ map SOld (seq (S i) (length todo)) ++ later)
        by (by rewrite <- !app_assoc).
      rewrite Hrun. f_equal; [lia|].
      by rewrite <- !app_assoc, <- !app_comm_cons, <- !app_assoc.
    + intros He. specialize (Ho' He). rewrite !length_app in *. cbn [length] in *.
      rewrite !length_app in *. cbn [length] in *. lia.
    + done.
    + intros k Hk. cbn [length] in Hk. rewrite Hframe by lia.
      apply list_lookup_insert_ne. lia.
    + intros N HN. rewrite !map_app. cbn [map resolve_slot]. rewrite map_app.
      unfold X, D. rewrite !resolve_new. f_equal. f_equal.
      * rewrite HN by (cbn [length]; lia). rewrite Hframe by lia.
        by rewrite list_lookup_insert_eq by lia.
      * f_equal. apply Hres. intros k Hk. apply HN. cbn [length]. lia.
Qed.

(** A pass over a block: the statements before the one in focus keep
    the offset right, the one in focus has one field expanded, and
    the statements behind it expand nothing unless it keeps the
    offset right too. *)
Lemma body_pass_focus (pre post : list pyobj) (stmt : pyobj)
    (idx0 idx idx1 idx' : tmp_var_index) (u : FieldUpdate) (stmt' : pyobj)
    (out_pre out_post : list pyobj) :
  regular_pass nested fuel true idx0 pre idx out_pre ->
  expands nested fuel idx stmt idx1 u stmt' ->
  regular_pass nested fuel (keeps_offset stmt u) idx1 post idx' out_post ->
  body_pass nested fuel idx0 (pre ++ stmt :: post)
  = Ok (idx', out_pre ++ prefix_nodes u ++ stmt' :: deletions_for stmt u ++ out_post).
Proof.
  intros Hpre Hexp Hpost. unfold body_pass.
  set (body := pre ++ stmt :: post). set (i := length pre).
  assert (length body = (i + S (length post))%nat) as Hlen.
  { unfold body, i. rewrite length_app. cbn. lia. }
  assert (body !! i = Some stmt) as Hi by (unfold body, i; by rewrite list_lookup_middle).
  rewrite Hlen, slots_split.
  destruct (stmts_loop_regular true idx0 pre idx out_pre Hpre (stmt :: post) body 0 []
              (SOld i :: map SOld (seq (S i) (length post))) 0 body)
    as (S_pre & nodes1 & o1 & Hrun1 & Ho1 & Hlen1 & Hframe1 & Hres1).
  { done. }
  { intros j s Hj. cbn. unfold body. by apply lookup_app_l_Some. }
  { fold i. lia. }
  cbn [app Nat.add] in Hrun1. fold i in Hrun1. fold body in Hrun1. rewrite Hrun1.
  specialize (Ho1 eq_refl). cbn [app Nat.add] in Ho1. fold i in Ho1.
  rewrite (stmts_loop_expands body i stmt post idx idx1 u stmt' S_pre
             (map SOld (seq (S i) (length post))) o1 nodes1 Hexp Hi Ho1).
  set (X := map SNew (prefix_nodes u)).
  set (D := map SNew (deletions_for stmt u)).
  set (o2 := (o1 + length (prefix_nodes u)
              + (if isinstance stmt ["Return"] then 0 else 1))%nat).
  destruct (stmts_loop_regular (keeps_offset stmt u) idx1 post idx' out_post Hpost []
              body (S i) (S_pre ++ X ++ SOld i :: D) [] o2 (<[i := stmt']> nodes1))
    as (S_post & nodes3 & o3 & Hrun3 & _ & Hlen3 & Hframe3 & Hres3).
  { intros Hkeep. unfold o2, X, D, deletions_for. rewrite !length_app. cbn [length].
    rewrite !length_map. unfold keeps_offset in Hkeep.
    destruct (isinstance stmt ["Return"]); cbn [length].
    - lia.
    - cbn [orb] in Hkeep. apply Nat.eqb_eq in Hkeep. lia. }
  { intros j s Hj. unfold body, i. rewrite lookup_app_r by lia.
    by replace (S (length pre) + j - length pre)%nat with (S j) by lia. }
  { rewrite length_insert. lia. }
  rewrite !app_nil_r in Hrun3.
  replace (S_pre ++ X ++ SOld i :: D ++ map SOld (seq (S i) (length post)))
    with ((S_pre ++ X ++ SOld i :: D) ++ map SOld (seq (S i) (length post)))
    by (by rewrite <- ?app_assoc, <- ?app_comm_cons, <- ?app_assoc).
  rewrite Hrun3. cbn [stmts_loop mbind result_bind]. do 2 f_equal.
  rewrite length_insert in Hlen3.
  rewrite !map_app. cbn [map resolve_slot]. unfold X, D. rewrite !resolve_new.
  rewrite <- ?app_assoc, <- ?app_comm_cons, <- ?app_assoc.
  f_equal; [|f_equal; f_equal; [|f_equal]].
  - apply Hres1. intros k Hk. cbn in Hk. rewrite Hframe3 by lia.
    apply list_lookup_insert_ne. lia.
  - rewrite Hframe3 by lia. by rewrite list_lookup_insert_eq by lia.
  - by apply Hres3.
Qed.


(** A regular pass returns the block with every expansion around its
    statement. *)
Lemma body_pass_regular (expanding : bool) (idx idx' : tmp_var_index)
    (body out : list pyobj) :
  regular_pass nested fuel expanding idx body idx' out ->
  body_pass nested fuel idx body = Ok (idx', out).
Proof.
  intros Hrun. unfold body_pass.
  destruct (stmts_loop_regular expanding idx body idx' out Hrun [] body 0 [] [] 0 body)
    as (S_out & nodes' & o' & Hloop & _ & _ & _ & Hres); [done|done|done|].
  rewrite !app_nil_r in Hloop. cbn [app] in Hloop. rewrite Hloop.
  cbn [stmts_loop mbind result_bind]. do 2 f_equal. by apply Hres.
Qed.

(** The fields of a statement that are settled are quiet, and leave
    the statement as it is. *)
Lemma settled_quiet_fields (c : string) (fs fields : list (string * pyobj))
    (idx : tmp_var_index) :
  NoDup (map fst fs) ->
  Forall (fun f => f ∈ fs /\ field_settled nested fuel f) fields ->
  quiet_fields nested fuel idx (Node c fs) fields idx (Node c fs).
Proof.
  intros Hnd. induction 1 as [|[n v] fields [Hin Hset] _ IH]; [constructor|].
  unfold field_settled in Hset. cbn [fst snd] in Hset.
  destruct (is_list v || is_ast v) eqn:Hv; [|by apply quiet_value].
  cbn [negb] in Hset. destruct (is_block_field n v) eqn:Hb.
  - destruct Hset as (l & -> & Hl). apply (quiet_block _ _ _ _ _ _ idx l); [done|done|].
    cbn [setattr]. by rewrite set_field_same.
  - by apply (quiet_expr _ _ _ _ _ _ idx).
Qed.

Lemma settled_regular (body : list pyobj) (idx : tmp_var_index) :
  Forall (stmt_settled nested fuel) body -> forallb stmt_ok body = true ->
  regular_pass nested fuel false idx body idx body.
Proof.
  induction 1 as [|s body (c & fs & -> & Hfs) _ IH]; intros Hok; [constructor|].
  cbn [forallb] in Hok. apply andb_true_iff in Hok as [Hs Hok].
  apply stmt_ok_fields in Hs as (_ & Hnd & _).
  apply regular_quiet with idx; [|by apply IH].
  apply settled_quiet_fields; [done|].
  apply Forall_forall. intros e He.
  rewrite (sorted_perm node_field_sort_key key_lt fs : sorted_fields fs ≡ₚ fs) in He.
  split; [done|]. rewrite Forall_forall in Hfs. by apply Hfs.
Qed.

(** A pass that expands nothing is also one that may. *)
Lemma regular_pass_quiet (expanding : bool) (idx idx' : tmp_var_index)
    (body out : list pyobj) :
  regular_pass nested fuel false idx body idx' out ->
  regular_pass nested fuel expanding idx body idx' out.
Proof.
  induction 1 as [idx|idx c fs idx1 node' todo idx' out Hq _ IH
                  |idx stmt idx1 u stmt' todo idx' out Hexp Hx Hkeep _ IH];
    [constructor|by econstructor|done].
Qed.

End regular.

(** ** Updates inside an expression *)

Section within_expression.

Variable single : tmp_var_index -> pyobj -> result (tmp_var_index * option FieldUpdate).

Lemma list_field_loop_none (l : list pyobj) (idx : tmp_var_index) :
  Forall (fun z => forall idx, single idx z = Ok (idx, None)) l ->
  list_field_loop single idx l = Ok (idx, ([], l, [], l)).
Proof.
  induction 1 as [|z l Hz _ IH]; [done|]. cbn [list_field_loop].
  rewrite Hz. cbn [mbind result_bind]. by rewrite IH.
Qed.

Lemma list_field_loop_one (l1 l2 : list pyobj) (y : pyobj) (idx idx' : tmp_var_index)
    (u : FieldUpdate) :
  Forall (fun z => forall idx, single idx z = Ok (idx, None)) (l1 ++ l2) ->
  single idx y = Ok (idx', Some u) ->
  list_field_loop single idx (l1 ++ y :: l2)
  = Ok (idx', (prefix_nodes u, l1 ++ new_field u :: l2, del_nodes u, l1 ++ old u :: l2)).
Proof.
  intros [H1 H2]%Forall_app Hy. induction H1 as [|z l1 Hz _ IH].
  - cbn [app list_field_loop]. rewrite Hy. cbn [mbind result_bind].
    rewrite (list_field_loop_none l2 idx' H2). cbn [mbind result_bind].
    by rewrite !app_nil_r.
  - cbn [app list_field_loop]. rewrite Hz. cbn [mbind result_bind].
    by rewrite IH.
Qed.

Lemma make_list_field_update_one (l1 l2 : list pyobj) (y : pyobj)
    (idx idx' : tmp_var_index) (u : FieldUpdate) :
  Forall (fun z => forall idx, single idx z = Ok (idx, None)) (l1 ++ l2) ->
  single idx y = Ok (idx', Some u) ->
  nonempty (prefix_nodes u) = true -> nonempty (del_nodes u) = true ->
  make_list_field_update single idx (l1 ++ y :: l2)
  = Ok (idx', Some (mkFieldUpdate (prefix_nodes u) (PyList (l1 ++ new_field u :: l2))
                                  (del_nodes u) (PyList (l1 ++ old u :: l2)))).
Proof.
  intros Hnone Hy Hp Hd. unfold make_list_field_update.
  rewrite (list_field_loop_one l1 l2 y idx idx' u Hnone Hy).
  assert ((length (l1 ++ y :: l2) =? 0) = false) as ->.
  { apply Nat.eqb_neq. rewrite length_app. cbn. lia. }
  cbn [mbind result_bind]. rewrite Hp, Hd.
  assert (nonempty (l1 ++ new_field u :: l2) = true) as -> by by destruct l1.
  assert ((length (l1 ++ new_field u :: l2) =? length (l1 ++ y :: l2)) = true) as ->.
  { apply Nat.eqb_eq. by rewrite !length_app. }
  reflexivity.
Qed.

End within_expression.

Lemma sub_fields_loop_none (fuel : nat) (fields : list (string * pyobj)) (s : sub_state) :
  Forall (fun f => is_block_field (fst f) (snd f) = false
                   /\ needs_no_update fuel (fst f) (snd f)) fields ->
  sub_fields_loop (make_single_field_update fuel) s fields = Ok s.
Proof.
  induction 1 as [|[n v] fields [Hb Hnone] _ IH]; [done|].
  cbn [sub_fields_loop fst snd] in *.
  assert (sub_field_step (make_single_field_update fuel) s n v = Ok s) as ->.
  { unfold sub_field_step. rewrite Hb.
    destruct (is_list v || is_ast v) eqn:Hv; [|done]. cbn [negb].
    rewrite (Hnone Hv). by destruct s. }
  exact IH.
Qed.

Lemma sub_fields_loop_app (fuel : nat) (l1 l2 : list (string * pyobj)) (s : sub_state) :
  sub_fields_loop (make_single_field_update fuel) s (l1 ++ l2)
  = sub_fields_loop (make_single_field_update fuel) s l1
      ≫= fun s1 => sub_fields_loop (make_single_field_update fuel) s1 l2.
Proof.
  revert s. induction l1 as [|[n v] l1 IH]; intros s; [done|].
  cbn [app sub_fields_loop].
  destruct (sub_field_step (make_single_field_update fuel) s n v) as [s1| |]; [|done..].
  cbn. apply IH.
Qed.

(** The update of one field of a plain expression node is the
    update of the node. *)
Lemma plain_parent_update (fuel : nat) (c : string) (fs fs1 fs2 : list (string * pyobj))
    (n : string) (v : pyobj) (idx idx' : tmp_var_index) (node' : pyobj) (u : FieldUpdate) :
  plain_parent fuel c fs fs1 n v fs2 ->
  is_list v || is_ast v = true ->
  make_field_update (make_single_field_update fuel) idx (Node c fs) n v
  = Ok (idx', Some (node', u)) ->
  make_single_field_update (S fuel) idx (Node c fs)
  = Ok (idx', Some (mkFieldUpdate (prefix_nodes u) node' (del_nodes u) node')).
Proof.
  intros (Hlam & Hval & Hsorted & Hb & Hothers) Hv Hupd.
  apply Forall_app in Hothers as [H1 H2].
  pose proof (make_field_update_spec _ (make_single_field_update_spec fuel)
                _ _ _ _ _ _ Hupd) as Hspec.
  pose proof (make_field_update_dels _ (make_single_field_update_dels fuel)
                _ _ _ _ _ _ _ Hupd) as [Hd _].
  cbn [make_single_field_update]. unfold single_field_body.
  rewrite Hval. cbn [mbind result_bind iter_fields]. rewrite Hsorted.
  rewrite sub_fields_loop_app, (sub_fields_loop_none fuel fs1 _ H1).
  cbn [mbind result_bind sub_fields_loop].
  unfold sub_field_step at 1. cbn [ss_idx ss_field_node]. rewrite Hb, Hv. cbn [negb].
  rewrite Hupd. cbn [mbind result_bind].
  assert (isinstance node' ["Lambda"] = false) as ->.
  { unfold make_field_update in Hupd. bind_inv Hupd as [i1 r] Hr.
    destruct r; by simplify_eq. }
  unfold sync_shared_args. cbn [ss_lambda_obj ss_all_prefix_nodes ss_all_del_nodes app].
  cbn [mbind result_bind]. rewrite (sub_fields_loop_none fuel fs2 _ H2).
  cbn [mbind result_bind ss_all_prefix_nodes ss_all_del_nodes ss_idx ss_field_node
       ss_lambda_obj].
  destruct Hspec as (_ & Hp & _). by rewrite Hp, Hd.
Qed.

Lemma single_update_nonempty (fuel : nat) (idx idx' : tmp_var_index) (v : pyobj)
    (u : FieldUpdate) :
  make_single_field_update fuel idx v = Ok (idx', Some u) ->
  nonempty (prefix_nodes u) = true /\ nonempty (del_nodes u) = true.
Proof.
  intros H. split.
  - destruct (make_single_field_update_spec fuel) as [_ Hsome].
    by apply Hsome in H as (? & _).
  - by apply (make_single_field_update_dels fuel) in H as [? _].
Qed.

(** The update of a value is the update of the expression around
    it, with the value replaced. *)
Lemma within_update (f0 : nat) (x x' : pyobj) (fuel : nat) (v v' : pyobj) :
  within f0 x x' fuel v v' ->
  forall idx idx' ux,
    make_single_field_update f0 idx x = Ok (idx', Some ux) -> new_field ux = x' ->
    exists o,
      make_single_field_update fuel idx v
      = Ok (idx', Some (mkFieldUpdate (prefix_nodes ux) v' (del_nodes ux) o)).
Proof.
  induction 1 as [|fuel c fs fs1 n v v' fs2 Hv _ IH Hplain
                  |fuel c fs fs1 n l1 y y' l2 fs2 _ IH Hnone Hplain];
    intros idx idx' ux Hx Hnew.
  - exists (old ux). rewrite Hx. destruct ux. cbn in *. by subst.
  - destruct (IH idx idx' ux Hx Hnew) as [o Hu].
    eexists.
    apply (plain_parent_update fuel c fs fs1 fs2 n v idx idx'
             (Node c (set_field n v' fs))
             (mkFieldUpdate (prefix_nodes ux) v' (del_nodes ux) o) Hplain).
    + by rewrite Hv, orb_true_r.
    + unfold make_field_update. destruct v; try done. by rewrite Hu.
  - destruct (IH idx idx' ux Hx Hnew) as [o Hu].
    destruct (single_update_nonempty _ _ _ _ _ Hu) as [Hp Hd].
    eexists.
    apply (plain_parent_update fuel c fs fs1 fs2 n (PyList (l1 ++ y :: l2)) idx idx'
             (Node c (set_field n (PyList (l1 ++ y' :: l2)) fs))
             (mkFieldUpdate (prefix_nodes ux) (PyList (l1 ++ y' :: l2)) (del_nodes ux)
                            (PyList (l1 ++ o :: l2))) Hplain); [done|].
    unfold make_field_update.
    by rewrite (make_list_field_update_one _ l1 l2 y idx idx' _ Hnone Hu Hp Hd).
Qed.

Lemma field_within_update (f0 : nat) (x x' : pyobj) (fuel : nat) (v v' : pyobj)
    (idx idx' : tmp_var_index) (ux : FieldUpdate) (parent : pyobj) (n : string) :
  field_within f0 x x' fuel v v' ->
  make_single_field_update f0 idx x = Ok (idx', Some ux) -> new_field ux = x' ->
  is_list v || is_ast v = true
  /\ exists o,
       make_field_update (make_single_field_update fuel) idx parent n v
       = Ok (idx', Some (setattr parent n v',
                         mkFieldUpdate (prefix_nodes ux) v' (del_nodes ux) o)).
Proof.
  intros [v0 v0' Hv Hin|l1 y y' l2 Hin Hnone] Hx Hnew.
  - split; [by rewrite Hv, orb_true_r|].
    destruct (within_update _ _ _ _ _ _ Hin idx idx' ux Hx Hnew) as [o Hu].
    exists o. unfold make_field_update. destruct v0; try done. by rewrite Hu.
  - split; [done|].
    destruct (within_update _ _ _ _ _ _ Hin idx idx' ux Hx Hnew) as [o Hu].
    destruct (single_update_nonempty _ _ _ _ _ Hu) as [Hp Hd].
    exists (PyList (l1 ++ o :: l2)). unfold make_field_update.
    by rewrite (make_list_field_update_one _ l1 l2 y idx idx' _ Hnone Hu Hp Hd).
Qed.

(** ** Deletion of the temporaries *)

(** C8, the example against it: in [return f(...)] followed by [pass]
    the return statement is not the last of its block; the fixer
    hoists the temporary before it and emits no deletion. *)
Lemma return_not_in_tail_no_delete :
  apply_body_updates 12 0 return_then_pass
  = Ok (1%nat,
        [ast.Assign [ast.Name "upg_args_0" ast.Store] (ast.List [] ast.Load);
         method_call_stmt "upg_args_0" "extend" [name_ "a"];
         method_call_stmt "upg_args_0" "append" [ast.Num 1];
         method_call_stmt "upg_args_0" "extend" [name_ "b"];
         ast.Return (ast.Call (name_ "f") (PyList [star_ "upg_args_0"]) (PyList []));
         ast.Pass])
  /\ ~ (exists idx' body' d,
          apply_body_updates 12 0 return_then_pass = Ok (idx', body')
          /\ d ∈ body' /\ isinstance d ["Delete"] = true).
Proof.
  assert (apply_body_updates 12 0 return_then_pass
          = Ok (1%nat,
                [ast.Assign [ast.Name "upg_args_0" ast.Store] (ast.List [] ast.Load);
                 method_call_stmt "upg_args_0" "extend" [name_ "a"];
                 method_call_stmt "upg_args_0" "append" [ast.Num 1];
                 method_call_stmt "upg_args_0" "extend" [name_ "b"];
                 ast.Return (ast.Call (name_ "f") (PyList [star_ "upg_args_0"])
                                      (PyList []));
                 ast.Pass])) as H by (vm_compute; reflexivity).
  split; [exact H|].
  intros (idx' & body' & d & Hrun & Hd & Hdel). rewrite H in Hrun.
  injection Hrun as <- <-.
  repeat (apply elem_of_cons in Hd as [->|Hd]; [by vm_compute in Hdel|]).
  by apply elem_of_nil in Hd.
Qed.

(** C8, as the code has it. A pass expands one field of the statement
    [stmt], with the update [u], and no other. Every statement before
    it has at most one field expanded and, if one, is a return
    statement or has one deletion; the statements behind it are such
    statements again when [stmt] is a return statement or has one
    deletion, and expand nothing otherwise. Then the pass returns the
    block with the hoisted statements immediately before the
    statement and the deletions of its temporaries, which are
    [Delete] statements and at least one, immediately behind it,
    unless the statement is a [Return]: behind a return statement,
    wherever it is in its block, no deletion is put. *)
Theorem deletion_after_use (fuel : nat) (pre post : list pyobj) (stmt : pyobj)
    (idx0 idx idx1 idx' : tmp_var_index) (u : FieldUpdate) (stmt' : pyobj)
    (out_pre out_post : list pyobj) :
  let nested := apply_body_updates fuel in
  regular_pass nested fuel true idx0 pre idx out_pre ->
  expands nested fuel idx stmt idx1 u stmt' ->
  regular_pass nested fuel (keeps_offset stmt u) idx1 post idx' out_post ->
  body_pass nested fuel idx0 (pre ++ stmt :: post)
  = Ok (idx', out_pre ++ prefix_nodes u
              ++ stmt' :: (if isinstance stmt ["Return"] then [] else del_nodes u)
              ++ out_post)
  /\ nonempty (del_nodes u) = true
  /\ forallb is_delete (del_nodes u) = true.
Proof.
  intros nested Hpre Hexp Hpost.
  split; [by apply (body_pass_focus nested fuel pre post stmt idx0 idx idx1)|].
  destruct Hexp as [idx c fs fs1 n v fs2 idx1 node1 idx2 node2 u idx3 node3
                      _ _ _ _ Hupd _].
  by apply (make_field_update_dels _ (make_single_field_update_dels fuel)) in Hupd.
Qed.

(** [pass; f(...); f(...); pass]: each call has its temporary built
    before it and deleted behind it. *)
Lemma deletion_after_use_witness :
  body_pass (apply_body_updates 3) 3 0 two_calls_block
  = Ok (2%nat,
        [ast.Pass;
         ast.Assign [ast.Name "upg_args_0" ast.Store] (ast.List [] ast.Load);
         method_call_stmt "upg_args_0" "extend" [name_ "a"];
         method_call_stmt "upg_args_0" "append" [ast.Num 1];
         method_call_stmt "upg_args_0" "extend" [name_ "b"];
         ast.Expr (ast.Call (name_ "f") (PyList [star_ "upg_args_0"]) (PyList []));
         ast.Delete [ast.Name "upg_args_0" ast.Del];
         ast.Assign [ast.Name "upg_args_1" ast.Store] (ast.List [] ast.Load);
         method_call_stmt "upg_args_1" "extend" [name_ "a"];
         method_call_stmt "upg_args_1" "append" [ast.Num 1];
         method_call_stmt "upg_args_1" "extend" [name_ "b"];
         ast.Expr (ast.Call (name_ "f") (PyList [star_ "upg_args_1"]) (PyList []));
         ast.Delete [ast.Name "upg_args_1" ast.Del];
         ast.Pass]).
Proof.
  pose (u0 := mkFieldUpdate
                [ast.Assign [ast.Name "upg_args_0" ast.Store] (ast.List [] ast.Load);
                 method_call_stmt "upg_args_0" "extend" [name_ "a"];
                 method_call_stmt "upg_args_0" "append" [ast.Num 1];
                 method_call_stmt "upg_args_0" "extend" [name_ "b"]]
                (ast.Call (name_ "f") (PyList [star_ "upg_args_0"]) (PyList []))
                [ast.Delete [ast.Name "upg_args_0" ast.Del]]
                call_f_a_1_b).
  pose (u1 := mkFieldUpdate
                [ast.Assign [ast.Name "upg_args_1" ast.Store] (ast.List [] ast.Load);
                 method_call_stmt "upg_args_1" "extend" [name_ "a"];
                 method_call_stmt "upg_args_1" "append" [ast.Num 1];
                 method_call_stmt "upg_args_1" "extend" [name_ "b"]]
                (ast.Call (name_ "f") (PyList [star_ "upg_args_1"]) (PyList []))
                [ast.Delete [ast.Name "upg_args_1" ast.Del]]
                call_f_a_1_b).
  assert (forall idx u,
            make_field_update (make_single_field_update 3) idx (ast.Expr call_f_a_1_b)
              "value" call_f_a_1_b
            = Ok (S idx, Some (ast.Expr (new_field u), u)) ->
            expands (apply_body_updates 3) 3 idx (ast.Expr call_f_a_1_b) (S idx) u
              (ast.Expr (new_field u))) as Hexp.
  { intros idx u Hu.
    apply (expands_field _ _ idx "Expr" [("value", call_f_a_1_b)] [] "value"
             call_f_a_1_b [] idx (ast.Expr call_f_a_1_b) (S idx)
             (ast.Expr (new_field u)) u (S idx) (ast.Expr (new_field u)));
      [reflexivity|constructor|reflexivity|reflexivity|exact Hu|constructor]. }
  assert (forall expanding idx,
            regular_pass (apply_body_updates 3) 3 expanding idx [ast.Pass] idx [ast.Pass])
    as Hpass.
  { intros expanding idx. apply (regular_quiet _ _ _ idx "Pass" [] idx ast.Pass);
      constructor. }
  refine (proj1 (deletion_after_use 3 [ast.Pass; ast.Expr call_f_a_1_b] [ast.Pass]
                   (ast.Expr call_f_a_1_b) 0 1 2 2 u1 (ast.Expr (new_field u1))
                   (ast.Pass :: prefix_nodes u0
                      ++ ast.Expr (new_field u0) :: del_nodes u0 ++ [])
                   [ast.Pass] _ _ _)).
  - apply (regular_quiet _ _ _ 0 "Pass" [] 0 ast.Pass); [constructor|].
    apply (regular_expanded _ _ _ 0 (ast.Expr call_f_a_1_b) 1 u0
             (ast.Expr (new_field u0)) [] 1 []);
      [reflexivity|apply Hexp; vm_compute; reflexivity|reflexivity|constructor].
  - apply Hexp. vm_compute. reflexivity.
  - apply Hpass.
Defined.

(** When a pass updates two fields of one statement, the offset into
    the body is already past the statement when the second field is
    handled: its hoisted statements land behind the statement. *)
Example second_field_hoisted_behind :
  body_pass (apply_body_updates 5) 5 0 [two_fields_stmt]
  = Ok (2%nat,
        [ast.Assign [ast.Name "upg_args_0" ast.Store] (ast.List [] ast.Load);
         method_call_stmt "upg_args_0" "extend" [name_ "a"];
         method_call_stmt "upg_args_0" "append" [ast.Num 1];
         ast.Assign
           [ast.Subscript (name_ "x")
              (ast.Index (ast.Call (name_ "f") (PyList [star_ "upg_args_0"])
                                   (PyList [])))
              ast.Store]
           (ast.Call (name_ "g") (PyList [star_ "upg_args_1"]) (PyList []));
         ast.Assign [ast.Name "upg_args_1" ast.Store] (ast.List [] ast.Load);
         method_call_stmt "upg_args_1" "extend" [name_ "b"];
         method_call_stmt "upg_args_1" "append" [ast.Num 2];
         ast.Delete [ast.Name "upg_args_0" ast.Del];
         ast.Delete [ast.Name "upg_args_1" ast.Del]]).
Proof. vm_compute. reflexivity. Qed.

(** When a statement has two deletions, the offset counts one of
    them: the hoisted statements of the next statement land between
    the two deletions and its own deletion before it. *)
Example two_deletions_shift_the_offset :
  body_pass (apply_body_updates 5) 5 0 two_temporaries_then_call
  = Ok (3%nat,
        [ast.Assign [ast.Name "upg_args_0" ast.Store] (ast.List [] ast.Load);
         method_call_stmt "upg_args_0" "extend" [name_ "a"];
         method_call_stmt "upg_args_0" "append" [ast.Num 1];
         ast.Assign [ast.Name "upg_kwargs_1" ast.Store] (ast.Dict [] []);
         method_call_stmt "upg_kwargs_1" "update" [name_ "k"];
         ast.Assign [ast.Subscript (name_ "upg_kwargs_1") (ast.Index (ast.Str "z"))
                                   ast.Store]
                    (ast.Num 2);
         ast.Expr (ast.Call (name_ "f") (PyList [star_ "upg_args_0"])
                            (PyList [ast.keyword PyNone (name_ "upg_kwargs_1")]));
         ast.Delete [ast.Name "upg_args_0" ast.Del];
         ast.Assign [ast.Name "upg_args_2" ast.Store] (ast.List [] ast.Load);
         method_call_stmt "upg_args_2" "extend" [name_ "b"];
         method_call_stmt "upg_args_2" "append" [ast.Num 2];
         ast.Delete [ast.Name "upg_kwargs_1" ast.Del];
         ast.Delete [ast.Name "upg_args_2" ast.Del];
         ast.Expr (ast.Call (name_ "g") (PyList [star_ "upg_args_2"]) (PyList []))]).
Proof. vm_compute. reflexivity. Qed.

(** ** Lambdas *)

(** C7, the example against it: [return lambda: f(...)] followed by
    [pass]. The return statement is not the last of its block; the
    lambda becomes a definition spliced before it, the return
    statement refers to the definition, and no deletion of its name
    is spliced into the block. *)
Lemma return_lambda_not_in_tail_no_delete :
  apply_body_updates 12 0 return_lambda_then_pass
  = Ok (1%nat,
        [temp_def (ast.arguments (PyList []) PyNone (PyList []) (PyList []) PyNone
                                 (PyList []))
                  [ast.Assign [ast.Name "upg_args_0" ast.Store] (ast.List [] ast.Load);
                   method_call_stmt "upg_args_0" "extend" [name_ "a"];
                   method_call_stmt "upg_args_0" "append" [ast.Num 1];
                   method_call_stmt "upg_args_0" "extend" [name_ "b"]]
                  (ast.Call (name_ "f") (PyList [star_ "upg_args_0"]) (PyList []));
         ast.Return temp_ref;
         ast.Pass])
  /\ ~ (exists idx' body' d,
          apply_body_updates 12 0 return_lambda_then_pass = Ok (idx', body')
          /\ d ∈ body' /\ isinstance d ["Delete"] = true).
Proof.
  match goal with
  | |- ?eq /\ _ => assert eq as H by (vm_compute; reflexivity)
  end.
  split; [exact H|].
  intros (idx' & body' & d & Hrun & Hd & Hdel). rewrite H in Hrun.
  injection Hrun as <- <-.
  repeat (apply elem_of_cons in Hd as [->|Hd]; [by vm_compute in Hdel|]).
  by apply elem_of_nil in Hd.
Qed.

Lemma lambda_single_field_update (fuel : nat) (args body : pyobj)
    (idx idx1 : tmp_var_index) (ub : FieldUpdate) :
  is_ast body = true ->
  make_single_field_update fuel idx body = Ok (idx1, Some ub) ->
  needs_no_update fuel "args" args ->
  make_single_field_update (S fuel) idx (ast.Lambda args body)
  = Ok (idx1,
        Some (mkFieldUpdate [temp_def args (prefix_nodes ub) (new_field ub)]
                            temp_ref [temp_del] (ast.Lambda args (new_field ub)))).
Proof.
  intros Hast Hbody Hargs.
  cbn [make_single_field_update]. unfold single_field_body.
  change (isinstance (ast.Lambda args body) (ArgUnpackNodes ++ KwArgUnpackNodes))
    with false.
  cbn [mbind result_bind iter_fields ast.Lambda].
  change (sorted_fields [("args", args); ("body", body)])
    with [("body", body); ("args", args)].
  cbn [sub_fields_loop].
  assert (sub_field_step (make_single_field_update fuel)
            (mkSubState idx (ast.Lambda args body) [] [] None) "body" body
          = Ok (mkSubState idx1 temp_ref
                  [temp_def args (prefix_nodes ub) (new_field ub)] [temp_del]
                  (Some (ast.Lambda args (new_field ub))))) as ->.
  { unfold sub_field_step, is_block_field. cbn [ss_idx ss_field_node].
    destruct body as [| | | |l|cb fsb]; try done.
    cbn [is_list is_ast andb orb negb str_mem existsb].
    rewrite andb_false_r.
    unfold make_field_update. rewrite Hbody. reflexivity. }
  cbn [mbind result_bind].
  assert (forall s, sub_field_step (make_single_field_update fuel) s "args" args = Ok s)
    as ->.
  { intros s. unfold sub_field_step, is_block_field.
    change (str_mem "args" STMTLIST_FIELD_NAMES) with false. cbn [andb].
    destruct (is_list args || is_ast args) eqn:Hv; [|reflexivity].
    cbn [negb]. rewrite (Hargs Hv). by destruct s. }
  reflexivity.
Qed.

(** C7, as the code has it. A lambda whose body needs hoisted
    statements (and whose parameters need none) is replaced by a
    reference to a definition named [temp_lambda_as_def] with the
    lambda's parameters, whose body is the hoisted statements
    followed by the return of the rewritten body of the lambda, and
    has one deletion, of that name. The lambda stands in the field
    [(n, v)] of a statement, as the field itself or inside its
    expression, with no lambda around it and nothing else to expand
    in [v]; the pass expands no other field of the statement, and
    every other statement of the block has at most one field
    expanded and, if one, is a return statement or has one deletion.
    Then the pass puts the reference in the place of the lambda and
    splices the definition immediately before the statement and the
    deletion of its name immediately behind it, unless the statement
    is a [Return], which gets no deletion. *)
Theorem lambda_as_def (fuel0 fuel : nat) (pre post : list pyobj) (c n : string)
    (fs fs1 fs2 : list (string * pyobj)) (args body v v' : pyobj)
    (idx0 idx idx1 idx2 idx3 idx' : tmp_var_index) (node1 node3 : pyobj)
    (ub : FieldUpdate) (out_pre out_post : list pyobj) :
  let nested := apply_body_updates fuel in
  let def := temp_def args (prefix_nodes ub) (new_field ub) in
  is_ast body = true ->
  make_single_field_update fuel0 idx1 body = Ok (idx2, Some ub) ->
  needs_no_update fuel0 "args" args ->
  field_within (S fuel0) (ast.Lambda args body) temp_ref fuel v v' ->
  regular_pass nested fuel true idx0 pre idx out_pre ->
  sorted_fields fs = fs1 ++ (n, v) :: fs2 ->
  is_block_field n v = false ->
  quiet_fields nested fuel idx (Node c fs) fs1 idx1 node1 ->
  quiet_fields nested fuel idx2 (setattr node1 n v') fs2 idx3 node3 ->
  regular_pass nested fuel true idx3 post idx' out_post ->
  make_single_field_update (S fuel0) idx1 (ast.Lambda args body)
  = Ok (idx2, Some (mkFieldUpdate [def] temp_ref [temp_del]
                                  (ast.Lambda args (new_field ub))))
  /\ body_pass nested fuel idx0 (pre ++ Node c fs :: post)
     = Ok (idx', out_pre ++ def :: node3
                 :: (if isinstance (Node c fs) ["Return"] then [] else [temp_del])
                 ++ out_post).
Proof.
  intros nested def Hast Hbody Hargs Hin Hpre Hsorted Hblock Hq1 Hq2 Hpost.
  pose proof (lambda_single_field_update fuel0 args body idx1 idx2 ub Hast Hbody Hargs)
    as Hlam.
  split; [exact Hlam|].
  destruct (field_within_update _ _ _ _ _ _ idx1 idx2 _ node1 n Hin Hlam eq_refl)
    as (Hv & o & Hupd).
  cbn [prefix_nodes del_nodes] in Hupd. fold def in Hupd.
  set (u := mkFieldUpdate [def] v' [temp_del] o) in Hupd.
  assert (expands nested fuel idx (Node c fs) idx3 u node3) as Hexp.
  { by apply (expands_field _ _ idx c fs fs1 n v fs2 idx1 node1 idx2
                (setattr node1 n v') u idx3 node3). }
  assert (keeps_offset (Node c fs) u = true) as Hkeep.
  { unfold keeps_offset. cbn [u del_nodes length Nat.eqb]. apply orb_true_r. }
  pose proof (body_pass_focus nested fuel pre post (Node c fs) idx0 idx idx3 idx' u
                node3 out_pre out_post Hpre Hexp) as Hpass.
  rewrite Hkeep in Hpass. specialize (Hpass Hpost).
  exact Hpass.
Qed.

(** [g = lambda: f(...)]: the definition before the assignment, the
    deletion after it. *)
Example lambda_in_assignment :
  body_pass (apply_body_updates 5) 5 0 [ast.Assign [ast.Name "g" ast.Store] lambda_call]
  = Ok (1%nat,
        [temp_def (ast.arguments (PyList []) PyNone (PyList []) (PyList []) PyNone
                                 (PyList []))
                  [ast.Assign [ast.Name "upg_args_0" ast.Store] (ast.List [] ast.Load);
                   method_call_stmt "upg_args_0" "extend" [name_ "a"];
                   method_call_stmt "upg_args_0" "append" [ast.Num 1];
                   method_call_stmt "upg_args_0" "extend" [name_ "b"]]
                  (ast.Call (name_ "f") (PyList [star_ "upg_args_0"]) (PyList []));
         ast.Assign [ast.Name "g" ast.Store] temp_ref;
         temp_del]).
Proof. vm_compute. reflexivity. Qed.

(** [f(...); g = h(lambda: f(...)); pass]: the call has its
    temporary around it, the assignment the definition before it and
    the deletion of its name behind it. *)
Lemma lambda_as_def_witness :
  body_pass (apply_body_updates 5) 5 0 call_then_lambda_block
  = Ok (2%nat,
        [ast.Assign [ast.Name "upg_args_0" ast.Store] (ast.List [] ast.Load);
         method_call_stmt "upg_args_0" "extend" [name_ "a"];
         method_call_stmt "upg_args_0" "append" [ast.Num 1];
         method_call_stmt "upg_args_0" "extend" [name_ "b"];
         ast.Expr (ast.Call (name_ "f") (PyList [star_ "upg_args_0"]) (PyList []));
         ast.Delete [ast.Name "upg_args_0" ast.Del];
         temp_def (ast.arguments (PyList []) PyNone (PyList []) (PyList []) PyNone
                                 (PyList []))
                  [ast.Assign [ast.Name "upg_args_1" ast.Store] (ast.List [] ast.Load);
                   method_call_stmt "upg_args_1" "extend" [name_ "a"];
                   method_call_stmt "upg_args_1" "append" [ast.Num 1];
                   method_call_stmt "upg_args_1" "extend" [name_ "b"]]
                  (ast.Call (name_ "f") (PyList [star_ "upg_args_1"]) (PyList []));
         ast.Assign [ast.Name "g" ast.Store]
                    (ast.Call (name_ "h") (PyList [temp_ref]) (PyList []));
         temp_del;
         ast.Pass]).
Proof.
  pose (u0 := mkFieldUpdate
                [ast.Assign [ast.Name "upg_args_0" ast.Store] (ast.List [] ast.Load);
                 method_call_stmt "upg_args_0" "extend" [name_ "a"];
                 method_call_stmt "upg_args_0" "append" [ast.Num 1];
                 method_call_stmt "upg_args_0" "extend" [name_ "b"]]
                (ast.Call (name_ "f") (PyList [star_ "upg_args_0"]) (PyList []))
                [ast.Delete [ast.Name "upg_args_0" ast.Del]]
                call_f_a_1_b).
  pose (ub := mkFieldUpdate
                [ast.Assign [ast.Name "upg_args_1" ast.Store] (ast.List [] ast.Load);
                 method_call_stmt "upg_args_1" "extend" [name_ "a"];
                 method_call_stmt "upg_args_1" "append" [ast.Num 1];
                 method_call_stmt "upg_args_1" "extend" [name_ "b"]]
                (ast.Call (name_ "f") (PyList [star_ "upg_args_1"]) (PyList []))
                [ast.Delete [ast.Name "upg_args_1" ast.Del]]
                call_f_a_1_b).
  pose (targets := PyList [ast.Name "g" ast.Store]).
  pose (h_fields := [("func", name_ "h"); ("args", PyList [lambda_call]);
                     ("keywords", PyList [])]).
  refine (proj2 (lambda_as_def 3 5 [ast.Expr call_f_a_1_b] [ast.Pass] "Assign" "value"
                   [("targets", targets); ("value", Node "Call" h_fields)]
                   [("targets", targets)] []
                   (ast.arguments (PyList []) PyNone (PyList []) (PyList []) PyNone
                                  (PyList []))
                   call_f_a_1_b
                   (Node "Call" h_fields)
                   (Node "Call" (set_field "args" (PyList [temp_ref]) h_fields))
                   0 1 1 2 2 2
                   (Node "Assign" [("targets", targets); ("value", Node "Call" h_fields)])
                   (ast.Assign [ast.Name "g" ast.Store]
                      (ast.Call (name_ "h") (PyList [temp_ref]) (PyList [])))
                   ub
                   (prefix_nodes u0 ++ ast.Expr (new_field u0) :: del_nodes u0 ++ [])
                   [ast.Pass] _ _ _ _ _ _ _ _ _ _)).
  - reflexivity.
  - vm_compute. reflexivity.
  - intros _ idx parent. vm_compute. reflexivity.
  - apply field_within_node; [reflexivity|].
    apply (within_item _ _ _ 4 "Call" h_fields [] "args" [] lambda_call temp_ref []
             [("func", name_ "h"); ("keywords", PyList [])]).
    + apply within_here.
    + constructor.
    + split_and!; [reflexivity|intros idx; reflexivity|reflexivity|reflexivity|].
      repeat constructor; intros _ idx parent; vm_compute; reflexivity.
  - apply (regular_expanded _ _ _ 0 (ast.Expr call_f_a_1_b) 1 u0
             (ast.Expr (new_field u0)) [] 1 []);
      [reflexivity| |reflexivity|constructor].
    apply (expands_field _ _ 0 "Expr" [("value", call_f_a_1_b)] [] "value"
             call_f_a_1_b [] 0 (ast.Expr call_f_a_1_b) 1
             (ast.Expr (new_field u0)) u0 1 (ast.Expr (new_field u0)));
      [reflexivity|constructor|reflexivity|reflexivity|vm_compute; reflexivity
      |constructor].
  - reflexivity.
  - reflexivity.
  - apply (quiet_expr _ _ _ _ _ _ 1); [reflexivity|reflexivity| |constructor].
    vm_compute. reflexivity.
  - constructor.
  - apply (regular_quiet _ _ _ 2 "Pass" [] 2 ast.Pass); constructor.
Defined.

(** ** The fixed-point loop *)

Section loop_properties.

Variable pass : tmp_var_index -> list pyobj -> result (tmp_var_index * list pyobj).
Hypothesis pass_grows :
  forall idx body idx' body',
    pass idx body = Ok (idx', body') -> (length body <= length body')%nat.

(** With one unit of fuel per statement the block may still gain, and
    one more, the loop does not run out of fuel by itself. *)
Lemma body_loop_run (n initial : nat) (prev : Z) (idx : tmp_var_index)
    (body : list pyobj) :
  prev = Z.of_nat (length body) \/ (initial * 100 + 1 <= n + length body)%nat ->
  loop_run pass initial prev idx body (body_loop pass n initial prev idx body).
Proof.
  revert prev idx body. induction n as [|n IH]; intros prev idx body Hfuel;
    cbn [body_loop].
  - destruct (Z.eqb_spec prev (Z.of_nat (length body))) as [Heq|Hne];
      [by constructor|].
    destruct (Nat.ltb_spec (initial * 100) (length body)) as [Hlt|Hge];
      [by constructor|].
    destruct Hfuel as [?|?]; [done|lia].
  - destruct (Z.eqb_spec prev (Z.of_nat (length body))) as [Heq|Hne];
      [by constructor|].
    destruct (Nat.ltb_spec (initial * 100) (length body)) as [Hlt|Hge];
      [by constructor|].
    destruct (pass idx body) as [[idx1 body1]|e|] eqn:Hpass; cbn [mbind result_bind].
    + apply (loop_pass _ _ _ _ _ idx1 body1); [done..|].
      apply IH. apply pass_grows in Hpass.
      destruct (decide (length body1 = length body)) as [->|Hneq]; [by left|].
      right. destruct Hfuel as [?|?]; [done|lia].
    + by apply loop_pass_raises.
    + by apply loop_pass_out_of_fuel.
Qed.

Lemma loop_run_ok (initial : nat) (prev : Z) (idx idx' : tmp_var_index)
    (body body' : list pyobj) :
  loop_run pass initial prev idx body (Ok (idx', body')) ->
  prev <> Z.of_nat (length body) ->
  exists idx0 body0,
    pass idx0 body0 = Ok (idx', body') /\ length body' = length body0
    /\ (length body0 <= initial * 100)%nat.
Proof.
  intros Hrun. remember (Ok (idx', body')) as r eqn:Hr.
  induction Hrun as [prev idx body Heq|prev idx body Hne Hlt
                     |prev idx body idx1 body1 r Hne Hle Hpass Hrun IH
                     |prev idx body e Hne Hle Hpass|prev idx body Hne Hle Hpass];
    intros Hprev; try done.
  destruct (decide (Z.of_nat (length body) = Z.of_nat (length body1))) as [Heq|Hneq].
  - inversion Hrun; subst; try done. simplify_eq.
    exists idx, body. split_and!; [done|lia|done].
  - by apply IH.
Qed.

Lemma loop_run_raise (initial : nat) (prev : Z) (idx : tmp_var_index)
    (body : list pyobj) (e : exn) :
  loop_run pass initial prev idx body (Raise e) ->
  exists k idx_k body_k,
    run_passes pass k idx body = Ok (idx_k, body_k)
    /\ ((e = EXPANSION_OVERFLOW /\ initial * 100 < length body_k)%nat
        \/ pass idx_k body_k = Raise e).
Proof.
  intros Hrun. remember (Raise e) as r eqn:Hr.
  induction Hrun as [prev idx body Heq|prev idx body Hne Hlt
                     |prev idx body idx1 body1 r Hne Hle Hpass Hrun IH
                     |prev idx body e' Hne Hle Hpass|prev idx body Hne Hle Hpass];
    try done.
  - injection Hr as <-. exists 0%nat, idx, body. split; [done|by left].
  - destruct (IH Hr) as (k & idx_k & body_k & Hk & Hout).
    exists (S k), idx_k, body_k. split; [|done]. cbn. by rewrite Hpass.
  - injection Hr as ->. exists 0%nat, idx, body. split; [done|by right].
Qed.

(** A run that ends without fuel does so in a pass; the passes before
    it made the block longer each time. *)
Lemma loop_run_out_of_fuel (initial : nat) (prev : Z) (idx : tmp_var_index)
    (body : list pyobj) :
  loop_run pass initial prev idx body OutOfFuel ->
  (prev < Z.of_nat (length body))%Z ->
  exists k idx_k body_k,
    (k + length body <= length body_k)%nat
    /\ run_passes pass k idx body = Ok (idx_k, body_k)
    /\ pass idx_k body_k = OutOfFuel
    /\ (length body_k <= initial * 100)%nat.
Proof.
  intros Hrun. remember OutOfFuel as r eqn:Hr.
  induction Hrun as [prev idx body Heq|prev idx body Hne Hlt
                     |prev idx body idx1 body1 r Hne Hle Hpass Hrun IH
                     |prev idx body e Hne Hle Hpass|prev idx body Hne Hle Hpass];
    intros Hprev; try done.
  - pose proof (pass_grows _ _ _ _ Hpass) as Hg.
    destruct (decide (length body1 = length body)) as [Heq|Hneq].
    { inversion Hrun; subst; try done; lia. }
    destruct (IH Hr) as (k & idx_k & body_k & Hk & Hrunk & Hout & Hb); [lia|].
    exists (S k), idx_k, body_k. split_and!; [lia| |done|done].
    cbn. by rewrite Hpass.
  - exists 0%nat, idx, body. split_and!; [lia|done|done|lia].
Qed.

End loop_properties.


(** ** Heights: nothing the fixer builds is higher than what it is made from *)

Lemma height_node (c : string) (fs : list (string * pyobj)) :
  height (Node c fs) = S (extra c fs + fields_height fs).
Proof. reflexivity. Qed.

Lemma height_cons (x : pyobj) (l : list pyobj) :
  height (PyList (x :: l)) = Nat.max (height x) (height (PyList l)).
Proof. reflexivity. Qed.

Lemma height_app (l k : list pyobj) :
  height (PyList (l ++ k)) = Nat.max (height (PyList l)) (height (PyList k)).
Proof.
  induction l as [|x l IH]; [done|].
  cbn [app]. rewrite !height_cons, IH. lia.
Qed.

Lemma height_elem (x : pyobj) (l : list pyobj) :
  x ∈ l -> (height x <= height (PyList l))%nat.
Proof.
  induction 1 as [x l|x y l Hin IH]; rewrite height_cons; lia.
Qed.

Lemma fields_height_cons (n : string) (x : pyobj) (fs : list (string * pyobj)) :
  fields_height ((n, x) :: fs) = Nat.max (height x) (fields_height fs).
Proof. reflexivity. Qed.

Lemma fields_height_elem (n : string) (x : pyobj) (fs : list (string * pyobj)) :
  (n, x) ∈ fs -> (height x <= fields_height fs)%nat.
Proof.
  induction fs as [|[m y] fs IH]; [by intros ?%elem_of_nil|].
  rewrite fields_height_cons. intros [Heq|Hin]%elem_of_cons; [simplify_eq; lia|].
  specialize (IH Hin). lia.
Qed.

Lemma lookup_field_elem (n : string) (x : pyobj) (fs : list (string * pyobj)) :
  lookup_field n fs = Some x -> (n, x) ∈ fs.
Proof.
  induction fs as [|[m y] fs IH]; [done|]. cbn.
  destruct (String.eqb_spec m n) as [->|Hne].
  - intros [= ->]. left.
  - intros H. right. by apply IH.
Qed.

Lemma long_field_elem (n : string) (x : pyobj) (fs : list (string * pyobj)) :
  (n, x) ∈ fs -> (2 <= list_len x)%nat -> long_field n fs = true.
Proof.
  intros Hin Hlen. apply existsb_exists. exists (n, x).
  split; [by apply list_elem_of_In|]. cbn [fst snd].
  rewrite String.eqb_refl. by apply Nat.leb_le.
Qed.

Lemma fields_height_set_field (n : string) (x : pyobj) (fs : list (string * pyobj)) :
  (fields_height (set_field n x fs) <= Nat.max (height x) (fields_height fs))%nat.
Proof.
  induction fs as [|[m y] fs IH]; [cbn; lia|]. cbn [set_field].
  destruct (String.eqb m n); rewrite !fields_height_cons; lia.
Qed.

Lemma long_field_set_field (m n : string) (x : pyobj) (fs : list (string * pyobj)) :
  long_field m (set_field n x fs) = true ->
  long_field m fs = true \/ (m = n /\ (2 <= list_len x)%nat).
Proof.
  induction fs as [|[k y] fs IH]; [done|]. cbn [set_field].
  destruct (String.eqb_spec k n) as [->|Hne].
  - unfold long_field. cbn [existsb fst snd].
    intros [[Hm Hl]%andb_true_iff|H]%orb_true_iff.
    + right. split; [symmetry; by apply String.eqb_eq|by apply Nat.leb_le].
    + left. rewrite H. apply orb_true_r.
  - unfold long_field in *. cbn [existsb fst snd].
    intros [H|H]%orb_true_iff.
    + left. by rewrite H.
    + destruct (IH H) as [->|?]; [left; apply orb_true_r|by right].
Qed.

Lemma extra_mono (c : string) (fs' fs : list (string * pyobj)) :
  long_le fs' fs -> (extra c fs' <= extra c fs)%nat.
Proof.
  intros H. unfold extra.
  assert (forall m, m ∈ EXPANDED_FIELD_NAMES ->
            ((if long_field m fs' then 5 else 0) <= (if long_field m fs then 5 else 0))%nat)
    as Hm.
  { intros m Hin. specialize (H m Hin).
    destruct (long_field m fs'); [by rewrite H|]. destruct (long_field m fs); lia. }
  pose proof (Hm "args" ltac:(set_solver)). pose proof (Hm "elts" ltac:(set_solver)).
  pose proof (Hm "keywords" ltac:(set_solver)). pose proof (Hm "keys" ltac:(set_solver)).
  lia.
Qed.

Lemma height_method_call_stmt (tmp f : string) (x : pyobj) :
  height (method_call_stmt tmp f [x]) = (2 + Nat.max 3 (height x))%nat.
Proof. cbn. lia. Qed.
Lemma starred_scan_long (b : bool) (elts : list pyobj) :
  starred_scan b elts = true -> ((if b then 1 else 2) <= length elts)%nat.
Proof.
  revert b. induction elts as [|x elts IH]; intros b; cbn; [done|].
  destruct b; [lia|]. intros H. specialize (IH _ H).
  destruct (isinstance x ["Starred"]); lia.
Qed.

Lemma kwstarred_scan_long (key_of : pyobj -> result pyobj) (b : bool) (items : list pyobj) :
  kwstarred_scan key_of b items = Ok true -> ((if b then 1 else 2) <= length items)%nat.
Proof.
  revert b. induction items as [|x items IH]; intros b; cbn; [done|].
  destruct b; [lia|]. intros H. bind_inv H as key Hk. specialize (IH _ H).
  destruct (is_none key); lia.
Qed.

Lemma getattr_elem (v : pyobj) (n : string) (x : pyobj) :
  getattr v n = Ok x -> exists c fs, v = Node c fs /\ (n, x) ∈ fs.
Proof.
  destruct v as [| | | |l|c fs]; try done. cbn.
  destruct (lookup_field n fs) as [y|] eqn:E; [|done].
  intros [= ->]. exists c, fs. split; [done|]. by apply lookup_field_elem.
Qed.

Lemma getattr_height (v : pyobj) (n : string) (x : pyobj) :
  getattr v n = Ok x -> (S (height x) <= height v)%nat.
Proof.
  intros (c & fs & -> & Hin)%getattr_elem. rewrite height_node.
  apply fields_height_elem in Hin. lia.
Qed.

Lemma args_prefix_nodes_height (tmp : string) (elts stmts : list pyobj) :
  args_prefix_nodes tmp elts = Ok stmts ->
  (height (PyList stmts) <= Nat.max 5 (2 + height (PyList elts)))%nat.
Proof.
  revert stmts. induction elts as [|a elts IH]; intros stmts H; cbn in H.
  { simplify_eq. cbn. lia. }
  bind_inv H as stmt Hs. bind_inv H as rest Hr. simplify_eq.
  specialize (IH _ Hr). rewrite !height_cons.
  assert (height stmt <= Nat.max 5 (2 + height a))%nat; [|lia].
  destruct (isinstance a ["Starred"]).
  - bind_inv Hs as value Hv. simplify_eq. apply getattr_height in Hv.
    rewrite height_method_call_stmt. lia.
  - simplify_eq. rewrite height_method_call_stmt. lia.
Qed.

Lemma add_items_height {X : Type} (read : X -> result (pyobj * pyobj)) (tmp : string)
    (items : list X) (stmts : list pyobj) (B : nat) :
  (forall item key val, item ∈ items -> read item = Ok (key, val) ->
     (height key <= B)%nat /\ (height val <= B)%nat) ->
  add_items read tmp items = Ok stmts ->
  (height (PyList stmts) <= Nat.max 5 (B + 3))%nat.
Proof.
  revert stmts. induction items as [|a items IH]; intros stmts Hread H; cbn in H.
  { simplify_eq. cbn. lia. }
  bind_inv H as [key val] Hk. bind_inv H as stmt Hs. bind_inv H as rest Hr.
  simplify_eq. rewrite height_cons.
  destruct (Hread a key val ltac:(left) Hk) as [Hkey Hval].
  assert (height (PyList rest) <= Nat.max 5 (B + 3))%nat as Hrest.
  { apply IH; [|done]. intros item k v Hin. apply Hread. by right. }
  assert (height stmt <= Nat.max 5 (B + 3))%nat; [|lia].
  destruct (is_none key).
  { simplify_eq. rewrite height_method_call_stmt. lia. }
  bind_inv Hs as key_val Hkv. simplify_eq.
  assert (height key_val <= Nat.max 1 B)%nat as Hkvh.
  { destruct (isinstance key ["Str"]); [simplify_eq; lia|].
    destruct key; simplify_eq. cbn. lia. }
  cbn. lia.
Qed.
Lemma has_args_unpacking_long (c : string) (fs : list (string * pyobj)) :
  has_args_unpacking (Node c fs) = Ok true ->
  long_field (if String.eqb c "Call" then "args" else "elts") fs = true.
Proof.
  unfold has_args_unpacking. intros H. bind_inv H as elts He. bind_inv H as l Hl.
  injection H as H. apply starred_scan_long in H.
  destruct elts as [| | | |l0|]; try done. cbn in Hl. simplify_eq.
  cbn [isinstance str_mem existsb] in He. rewrite orb_false_r in He.
  destruct (String.eqb c "Call").
  - apply getattr_elem in He as (? & ? & [= <- <-] & Hin).
    by apply (long_field_elem _ (PyList l)).
  - destruct (_ || _); [|done].
    apply getattr_elem in He as (? & ? & [= <- <-] & Hin).
    by apply (long_field_elem _ (PyList l)).
Qed.

Lemma has_kwargs_unpacking_long (c : string) (fs : list (string * pyobj)) :
  has_kwargs_unpacking (Node c fs) = Ok true ->
  long_field (if String.eqb c "Call" then "keywords" else "keys") fs = true.
Proof.
  unfold has_kwargs_unpacking. intros H.
  cbn [isinstance str_mem existsb] in H. rewrite !orb_false_r in H.
  destruct (String.eqb c "Call").
  - bind_inv H as kws Hk. bind_inv H as l Hl. apply kwstarred_scan_long in H.
    destruct kws as [| | | |l0|]; try done. cbn in Hl. simplify_eq.
    apply getattr_elem in Hk as (? & ? & [= <- <-] & Hin).
    by apply (long_field_elem _ (PyList l)).
  - destruct (String.eqb c "Dict"); [|done].
    bind_inv H as kws Hk. bind_inv H as l Hl. apply kwstarred_scan_long in H.
    destruct kws as [| | | |l0|]; try done. cbn in Hl. simplify_eq.
    apply getattr_elem in Hk as (? & ? & [= <- <-] & Hin).
    by apply (long_field_elem _ (PyList l)).
Qed.

Lemma if_long_le (n : string) (x : pyobj) (fs : list (string * pyobj)) :
  (n, x) ∈ fs ->
  ((if Nat.leb 2 (list_len x) then 5 else 0) <= (if long_field n fs then 5 else 0))%nat.
Proof.
  intros Hin. destruct (Nat.leb_spec 2 (list_len x)) as [Hl|Hl].
  - by rewrite (long_field_elem n x fs).
  - destruct (long_field n fs); lia.
Qed.

Ltac hsimp :=
  cbn - [Nat.max Nat.leb] in *; rewrite ?orb_false_r in *;
  change (Nat.leb 2 1) with false in *; change (Nat.leb 2 0) with false in *;
  cbn match in *.

(** The statements, the replacement and the deletion that
    [expand_args_unpacking] builds are no higher than the expression
    it expands. *)
Lemma expand_args_unpacking_height (idx idx' : tmp_var_index) (v : pyobj)
    (p : list pyobj) (n : pyobj) (d : list pyobj) :
  expand_args_unpacking idx v = Ok (idx', (p, n, d)) ->
  has_args_unpacking v = Ok true ->
  (height (PyList p) <= height v)%nat /\ (height n <= height v)%nat
  /\ (height (PyList d) <= height v)%nat /\ list_len n = 0%nat.
Proof.
  unfold expand_args_unpacking. intros H Hhas.
  bind_inv H as [[func kws] elts] Hf. bind_inv H as l Hl. bind_inv H as stmts Hs.
  injection H as <- <- <- <-.
  destruct elts as [| | | |l0|]; try done. cbn in Hl. simplify_eq.
  apply args_prefix_nodes_height in Hs.
  destruct v as [| | | |?|c fs]; try done.
  apply has_args_unpacking_long in Hhas.
  cbn [isinstance str_mem existsb] in Hf. rewrite !orb_false_r in Hf.
  rewrite height_node.
  destruct (String.eqb c "Call") eqn:Ec.
  - bind_inv Hf as f Hfn. bind_inv Hf as k Hk. bind_inv Hf as a Ha. simplify_eq.
    apply getattr_elem in Hfn as (? & ? & [= <- <-] & Hfn).
    apply getattr_elem in Hk as (? & ? & [= <- <-] & Hk).
    apply getattr_elem in Ha as (? & ? & [= <- <-] & Ha).
    pose proof (fields_height_elem _ _ _ Hfn). pose proof (fields_height_elem _ _ _ Hk).
    pose proof (fields_height_elem _ _ _ Ha).
    pose proof (if_long_le _ _ _ Hk) as Hkl.
    unfold extra. rewrite Hhas.
    hsimp. split_and!; lia.
  - assert (exists nm, (func, kws) = (ast.Name nm ast.Load, PyList [])
                       /\ ("elts", PyList l) ∈ fs) as (nm & [= -> ->] & Ha).
    { destruct (String.eqb c "List"); [|destruct (String.eqb c "Tuple");
        [|destruct (String.eqb c "Set"); [|done]]];
        bind_inv Hf as e He; simplify_eq;
        apply getattr_elem in He as (? & ? & [= <- <-] & He); eauto. }
    pose proof (fields_height_elem _ _ _ Ha).
    unfold extra. rewrite Hhas.
    hsimp. split_and!; lia.
Qed.
Lemma expand_kwargs_unpacking_height (idx idx' : tmp_var_index) (v : pyobj)
    (p : list pyobj) (n : pyobj) (d : list pyobj) :
  expand_kwargs_unpacking idx v = Ok (idx', (p, n, d)) ->
  has_kwargs_unpacking v = Ok true ->
  (height (PyList p) <= height v)%nat /\ (height n <= height v)%nat
  /\ (height (PyList d) <= height v)%nat /\ list_len n = 0%nat.
Proof.
  unfold expand_kwargs_unpacking. intros H Hhas.
  bind_inv H as [[stmts args] func] Hf. injection H as <- <- <- <-.
  destruct v as [| | | |?|c fs]; try done.
  apply has_kwargs_unpacking_long in Hhas.
  cbn [isinstance str_mem existsb] in Hf. rewrite !orb_false_r in Hf.
  rewrite height_node.
  destruct (String.eqb c "Call") eqn:Ec.
  - bind_inv Hf as kws Hk. bind_inv Hf as l Hl. bind_inv Hf as st Hst.
    bind_inv Hf as a Ha. bind_inv Hf as f Hfn. simplify_eq.
    destruct kws as [| | | |l0|]; try done. cbn in Hl. simplify_eq.
    apply getattr_elem in Hfn as (? & ? & [= <- <-] & Hfn).
    apply getattr_elem in Hk as (? & ? & [= <- <-] & Hk).
    apply getattr_elem in Ha as (? & ? & [= <- <-] & Ha).
    pose proof (fields_height_elem _ _ _ Hfn). pose proof (fields_height_elem _ _ _ Hk).
    pose proof (fields_height_elem _ _ _ Ha).
    pose proof (if_long_le _ _ _ Ha) as Hal.
    apply (add_items_height _ _ _ _ (height (PyList l))) in Hst.
    2: { intros kw key val Hin Hr. bind_inv Hr as a0 Ha0. bind_inv Hr as v0 Hv0.
         simplify_eq. apply getattr_height in Ha0, Hv0.
         apply height_elem in Hin. lia. }
    unfold extra. rewrite Hhas. hsimp. split_and!; lia.
  - destruct (String.eqb c "Dict"); [|done].
    bind_inv Hf as ks Hk. bind_inv Hf as vs Hv. bind_inv Hf as kl Hkl.
    bind_inv Hf as vl Hvl. bind_inv Hf as st Hst. simplify_eq.
    destruct ks as [| | | |l0|]; try done. cbn in Hkl. simplify_eq.
    destruct vs as [| | | |l0|]; try done. cbn in Hvl. simplify_eq.
    apply getattr_elem in Hk as (? & ? & [= <- <-] & Hk).
    apply getattr_elem in Hv as (? & ? & [= <- <-] & Hv).
    pose proof (fields_height_elem _ _ _ Hk). pose proof (fields_height_elem _ _ _ Hv).
    apply (add_items_height _ _ _ _ (fields_height fs)) in Hst.
    2: { intros [k0 v0] key val Hin [= <- <-].
         pose proof (elem_of_zip_l _ _ _ _ Hin) as Hkin.
         pose proof (elem_of_zip_r _ _ _ _ Hin) as Hvin.
         apply height_elem in Hkin, Hvin. lia. }
    unfold extra. rewrite Hhas. hsimp. split_and!; lia.
Qed.

(** [make_val_node_update]: the same for the two expansions together. *)
Lemma make_val_node_update_height (idx idx' : tmp_var_index) (v : pyobj)
    (p : list pyobj) (n : pyobj) (d : list pyobj) :
  make_val_node_update idx v = Ok (idx', Some (p, n, d)) ->
  (height (PyList p) <= height v)%nat /\ (height n <= height v)%nat
  /\ (height (PyList d) <= height v)%nat /\ list_len n = list_len v
  /\ list_len v = 0%nat.
Proof.
  unfold make_val_node_update. intros H.
  bind_inv H as [[[i1 v1] p1] d1] H1.
  bind_inv H as [[[i2 v2] p2] d2] H2.
  destruct (nonempty p2) eqn:Hp; [|discriminate].
  destruct (nonempty d2); [|discriminate]. simplify_eq.
  assert ((height (PyList p1) <= height v)%nat /\ (height v1 <= height v)%nat
          /\ (height (PyList d1) <= height v)%nat
          /\ list_len v1 = list_len v) as (Hp1 & Hv1 & Hd1 & Hl1).
  { destruct (isinstance v ArgUnpackNodes); [|simplify_eq; cbn; lia].
    bind_inv H1 as [|] Hb; [|simplify_eq; cbn; lia].
    bind_inv H1 as [i3 [[p3 n3] d3]] He. bind_inv H1 as still Hs.
    destruct still; [discriminate|]. simplify_eq.
    apply expand_args_unpacking_height in He as (? & ? & ? & ?); [|done].
    split_and!; try done. destruct v; try done. }
  assert (list_len v = 0%nat) as Hlv.
  { destruct v; try done. destruct (isinstance _ ArgUnpackNodes) eqn:E1 in H1;
      [done|]. simplify_eq. cbn in H2. by simplify_eq. }
  destruct (isinstance v1 KwArgUnpackNodes); [|simplify_eq; split_and!; done].
  bind_inv H2 as [|] Hb; [|simplify_eq; split_and!; done].
  bind_inv H2 as [i3 [[p3 n3] d3]] He. bind_inv H2 as still Hs.
  destruct still; [discriminate|]. simplify_eq.
  apply expand_kwargs_unpacking_height in He as (? & ? & ? & ?); [|done].
  rewrite !height_app. split_and!; try lia.
Qed.
Lemma set_field_set_field (n : string) (x y : pyobj) (fs : list (string * pyobj)) :
  set_field n y (set_field n x fs) = set_field n y fs.
Proof.
  induction fs as [|[m v] fs IH]; [done|]. cbn [set_field].
  destruct (String.eqb m n) eqn:E; cbn [set_field]; rewrite E; [done|].
  by rewrite IH.
Qed.

Lemma setattr_setattr (v : pyobj) (n : string) (x y : pyobj) :
  setattr (setattr v n x) n y = setattr v n y.
Proof. destruct v; try done. cbn. by rewrite set_field_set_field. Qed.

Lemma long_le_set_field (n : string) (x new : pyobj) (fs' fs : list (string * pyobj)) :
  long_le fs' fs -> (n, x) ∈ fs -> list_len new = list_len x ->
  long_le (set_field n new fs') fs.
Proof.
  intros Hle Hin Hlen m Hm [H|[-> H]]%long_field_set_field.
  - by apply Hle.
  - apply (long_field_elem _ x); [done|]. by rewrite <- Hlen.
Qed.

Lemma height_setattr_le (c : string) (fs' fs : list (string * pyobj)) :
  (fields_height fs' <= fields_height fs)%nat -> long_le fs' fs ->
  (height (Node c fs') <= height (Node c fs))%nat.
Proof.
  intros Hh Hl. rewrite !height_node. pose proof (extra_mono c _ _ Hl). lia.
Qed.

Lemma isinstance_setattr (v : pyobj) (n : string) (x : pyobj) (classes : list string) :
  isinstance (setattr v n x) classes = isinstance v classes.
Proof. by destruct v. Qed.

Lemma name_setattr (a b : pyobj) (n : string) (y : pyobj) :
  exists a' b',
    setattr (Node "Name" [("id", a); ("ctx", b)]) n y = Node "Name" [("id", a'); ("ctx", b')]
    /\ (height a' <= Nat.max (height a) (height y))%nat
    /\ (height b' <= Nat.max (height b) (height y))%nat.
Proof.
  cbn [setattr set_field].
  destruct (String.eqb "id" n); [eexists _, _; split; [done|]; split; lia|].
  destruct (String.eqb "ctx" n); eexists _, _; (split; [done|]; split; lia).
Qed.

Section single_height.

Variable single : tmp_var_index -> pyobj -> result (tmp_var_index * option FieldUpdate).
Hypothesis single_height : height_spec single.

Lemma list_field_loop_height (l : list pyobj) (idx idx' : tmp_var_index)
    (p nf d o : list pyobj) :
  list_field_loop single idx l = Ok (idx', (p, nf, d, o)) ->
  (height (PyList p) <= height (PyList l))%nat
  /\ (height (PyList nf) <= height (PyList l))%nat
  /\ (height (PyList d) <= height (PyList l))%nat
  /\ (height (PyList o) <= height (PyList l))%nat
  /\ length nf = length l /\ length o = length l.
Proof.
  revert idx idx' p nf d o. induction l as [|x l IH]; intros idx idx' p nf d o H.
  { cbn in H. simplify_eq. split_and!; done. }
  cbn [list_field_loop] in H.
  bind_inv H as [idx1 r] Hx.
  bind_inv H as [idx2 [[[p2 nf2] d2] o2]] Hl.
  apply IH in Hl as (Hp2 & Hn2 & Hd2 & Ho2 & Hlen & Hlen').
  destruct r as [u|]; simplify_eq.
  - apply single_height in Hx as (? & ? & ? & ? & _).
    rewrite !height_app, !height_cons. cbn [length]. split_and!; lia.
  - rewrite !height_cons. cbn [length]. split_and!; lia.
Qed.

Lemma make_list_field_update_height (l : list pyobj) (idx idx' : tmp_var_index)
    (u : FieldUpdate) :
  make_list_field_update single idx l = Ok (idx', Some u) ->
  update_bounded (PyList l) u.
Proof.
  unfold make_list_field_update. intros H.
  destruct (Nat.eqb (length l) 0); [discriminate|].
  bind_inv H as [idx1 [[[p nf] d] o]] Hl.
  apply list_field_loop_height in Hl as (? & ? & ? & ? & ? & ?).
  destruct (nonempty p); [|discriminate].
  destruct (_ && _); simplify_eq. by split_and!.
Qed.

Lemma make_field_update_height (idx idx' : tmp_var_index) (parent : pyobj)
    (n : string) (v node : pyobj) (u : FieldUpdate) :
  make_field_update single idx parent n v = Ok (idx', Some (node, u)) ->
  node = setattr parent n (new_field u) /\ update_bounded v u.
Proof.
  unfold make_field_update. intros H.
  bind_inv H as [idx1 r1] Hr.
  destruct r1 as [u1|]; simplify_eq. split; [done|].
  destruct v as [| | | |l|c fs];
    first [by apply make_list_field_update_height in Hr
          |by apply single_height in Hr].
Qed.

Lemma sub_field_step_height (c : string) (fs : list (string * pyobj))
    (s s' : sub_state) (n : string) (x : pyobj) :
  sub_field_step single s n x = Ok s' -> (n, x) ∈ fs ->
  sub_inv c fs s -> sub_inv c fs s'.
Proof.
  unfold sub_field_step. intros H Hin (Hp & Hd & Hnode).
  destruct (is_block_field n x); [discriminate|].
  destruct (negb (is_list x || is_ast x)); [by simplify_eq|].
  bind_inv H as [idx1 r] Hr.
  destruct r as [[node u]|]; [|by simplify_eq].
  apply make_field_update_height in Hr as (-> & Hup & Hnew & Hdel & Hold & Hlen & Hlen').
  pose proof (fields_height_elem _ _ _ Hin) as Hx.
  pose proof (height_node c fs) as HH.
  unfold sync_shared_args in H.
  destruct (ss_lambda_obj s) as [lam|] eqn:Hlam.
  - destruct Hnode as (-> & Hlamh & Hlaml & (a & b & Hname & Ha & Hb)
                       & def & rest & Hpre & Hdef).
    rewrite Hname, Hpre, isinstance_setattr in H.
    change (isinstance _ ["Lambda"]) with false in H. cbn match in H.
    destruct (name_setattr a b n (new_field u)) as (a' & b' & Hn' & Ha' & Hb').
    rewrite Hn' in H. injection H as <-. unfold sub_inv. cbn [ss_all_prefix_nodes ss_all_del_nodes
      ss_lambda_obj ss_field_node]. rewrite Hpre, height_cons in Hp.
    split_and!.
    + rewrite height_app. destruct (String.eqb_spec n "args") as [->|Hne].
      * rewrite height_cons.
        assert (height (setattr def "args" (old u)) <= height (Node "Lambda" fs))%nat.
        { apply Hdef; [lia|]. intros Hl. apply (long_field_elem _ x); [done|lia]. }
        lia.
      * rewrite height_cons. lia.
    + rewrite height_app. lia.
    + done.
    + done.
    + done.
    + exists a', b'. split; [done|]. split; lia.
    + destruct (String.eqb_spec n "args") as [->|Hne]; [|by eauto].
      eexists _, _. split; [done|]. intros a2 Ha2 Hl2. rewrite setattr_setattr.
      by apply Hdef.
  - destruct Hnode as ((fs' & Hfn & Hfh & Hle) & Hempty).
    rewrite Hfn, isinstance_setattr in H. cbn [setattr isinstance str_mem existsb] in H.
    rewrite orb_false_r in H.
    pose proof (fields_height_set_field n (new_field u) fs') as Hset.
    assert (long_le (set_field n (new_field u) fs') fs) as Hle'.
    { by apply (long_le_set_field _ x). }
    destruct (String.eqb_spec c "Lambda") as [->|Hc].
    + bind_inv H as def Hdef. injection H as <-.
      unfold make_temp_lambda_as_def in Hdef.
      bind_inv Hdef as lbody Hb. bind_inv Hdef as largs Ha. injection Hdef as <-.
      apply getattr_elem in Hb as (? & ? & [= <- <-] & Hb).
      apply getattr_elem in Ha as (? & ? & [= <- <-] & Ha).
      pose proof (fields_height_elem _ _ _ Hb). pose proof (fields_height_elem _ _ _ Ha).
      assert (5 <= extra "Lambda" fs)%nat as Hex by (unfold extra; cbn; lia).
      assert (forall a', (height a' <= fields_height fs)%nat ->
                ((2 <= list_len a')%nat -> long_field "args" fs = true) ->
                (height (ast.FunctionDef TEMP_LAMBDA_NAME a'
                           (prefix_nodes u ++ [ast.Return lbody]) [])
                 <= height (Node "Lambda" fs))%nat) as Hdefh.
      { intros a' Ha' Hl'.
        assert ((if Nat.leb 2 (list_len a') then 5 else 0) + 5 <= extra "Lambda" fs)%nat.
        { unfold extra. destruct (Nat.leb_spec 2 (list_len a')) as [Hl|Hl];
            [rewrite (Hl' Hl)|]; cbn; lia. }
        pose proof (height_app (prefix_nodes u) [ast.Return lbody]) as Happ.
        hsimp. lia. }
      rewrite (Hempty eq_refl). cbn [app]. unfold sub_inv.
      cbn [ss_all_prefix_nodes ss_all_del_nodes ss_lambda_obj ss_field_node].
      split_and!.
      * rewrite height_cons. specialize (Hdefh largs).
        assert (height (PyList []) = 0%nat) as -> by done.
        rewrite Nat.max_0_r. apply Hdefh; [lia|].
        intros Hl. apply Hle'; [set_solver|]. by apply (long_field_elem _ largs).
      * rewrite height_app. hsimp. lia.
      * done.
      * apply height_setattr_le; [lia|done].
      * done.
      * eexists _, _. split; [done|]. cbn. lia.
      * eexists _, _. split; [done|]. intros a' Ha' Hl'. by apply Hdefh.
    + injection H as <-.
      unfold sub_inv.
      cbn [ss_all_prefix_nodes ss_all_del_nodes ss_lambda_obj ss_field_node].
      rewrite !height_app. split_and!; try lia.
      * exists (set_field n (new_field u) fs'). split_and!; [done|lia|done].
      * done.
Qed.

Lemma sub_fields_loop_height (c : string) (fs : list (string * pyobj))
    (fields : list (string * pyobj)) (s s' : sub_state) :
  sub_fields_loop single s fields = Ok s' -> (forall e, e ∈ fields -> e ∈ fs) ->
  sub_inv c fs s -> sub_inv c fs s'.
Proof.
  revert s. induction fields as [|[n x] fields IH]; intros s H Hin Hinv; cbn in H.
  { by simplify_eq. }
  bind_inv H as s1 Hstep.
  apply (sub_field_step_height c fs) in Hstep; [|by apply Hin; left|done].
  apply (IH s1); [done| |done]. intros e He. apply Hin. by right.
Qed.

(** The body of [make_single_field_update] keeps the bounds of the
    calls it makes one level down. *)
Lemma single_field_body_height : height_spec (single_field_body single).
Proof.
  intros idx v idx' u H. unfold single_field_body in H.
  bind_inv H as [idx1 r] Hval.
  destruct r as [[[p n] d]|].
  - injection H as <- <-.
    destruct (isinstance v (ArgUnpackNodes ++ KwArgUnpackNodes)); [|discriminate].
    apply make_val_node_update_height in Hval as (? & ? & ? & ? & ?).
    unfold update_bounded. cbn. split_and!; done.
  - bind_inv H as fields Hf. bind_inv H as s Hloop.
    destruct v as [| | | |l|c fs]; try done. cbn in Hf. injection Hf as <-.
    apply (sub_fields_loop_height c fs) in Hloop.
    2: { intros e He.
         by rewrite <- (sorted_perm node_field_sort_key key_lt fs : sorted_fields fs ≡ₚ fs). }
    2: { unfold sub_inv. cbn. split_and!; try lia; [|done].
         exists fs. split_and!; [done|lia|by intros m _]. }
    destruct (nonempty (ss_all_prefix_nodes s)); [|discriminate].
    destruct (nonempty (ss_all_del_nodes s)); [|discriminate].
    injection H as <- <-. destruct Hloop as (Hp & Hd & Hnode).
    unfold update_bounded. cbn [prefix_nodes new_field del_nodes old].
    destruct (ss_lambda_obj s) as [lam|].
    + destruct Hnode as (-> & Hlam & Hlaml & (a & b & -> & Ha & Hb) & _).
      assert (5 <= extra "Lambda" fs)%nat as Hex by (unfold extra; cbn; lia).
      rewrite height_node in *. split_and!; try done.
      hsimp. lia.
    + destruct Hnode as ((fs' & -> & Hfh & Hle) & _).
      pose proof (height_setattr_le c _ _ Hfh Hle). split_and!; done.
Qed.

End single_height.

(** [make_single_field_update] at every depth. *)
Lemma make_single_field_update_height (fuel : nat) :
  height_spec (make_single_field_update fuel).
Proof.
  induction fuel as [|fuel IH]; [by intros ? ? ? ? ?|].
  by apply single_field_body_height.
Qed.
(** *** Passes *)

Lemma Forall_insert_at {A : Type} (P : A -> Prop) (k : nat) (xs l : list A) :
  Forall P xs -> Forall P l -> Forall P (insert_at k xs l).
Proof.
  intros Hxs Hl. unfold insert_at. rewrite !Forall_app. split_and!; [|done|].
  - by apply Forall_take.
  - by apply Forall_drop.
Qed.

Lemma slot_low_new (H : nat) (l : list pyobj) :
  (height (PyList l) <= H)%nat -> Forall (slot_low H) (map SNew l).
Proof.
  induction l as [|x l IH]; [constructor|]. rewrite height_cons. intros Hh.
  cbn. constructor; [cbn; lia|]. apply IH. lia.
Qed.

Lemma height_list_insert (l : list pyobj) (i : nat) (x : pyobj) :
  (height (PyList (<[i:=x]> l)) <= Nat.max (height x) (height (PyList l)))%nat.
Proof.
  revert i. induction l as [|y l IH]; intros i; [destruct i; cbn; lia|].
  destruct i as [|i].
  - change (<[0%nat:=x]> (y :: l)) with (x :: l). rewrite !height_cons. lia.
  - change (<[S i:=x]> (y :: l)) with (y :: <[i:=x]> l). rewrite !height_cons.
    specialize (IH i). lia.
Qed.

Lemma height_resolve (H : nat) (nodes : list pyobj) (slots : list slot) :
  Forall (slot_low H) slots -> (height (PyList nodes) <= H)%nat ->
  (height (PyList (map (resolve_slot nodes) slots)) <= H)%nat.
Proof.
  intros Hs Hn. induction Hs as [|s slots Hs _ IH]; [cbn; lia|].
  cbn [map]. rewrite height_cons.
  assert (height (resolve_slot nodes s) <= H)%nat; [|lia].
  destruct s as [k|v]; [|done]. cbn.
  destruct (nodes !! k) as [y|] eqn:E; [|cbn; lia]. cbn.
  apply list_elem_of_lookup_2, height_elem in E. lia.
Qed.

Lemma node_inv_height (c : string) (fs : list (string * pyobj)) (node : pyobj) :
  node_inv c fs node -> (height node <= height (Node c fs))%nat.
Proof. intros (fs' & -> & ? & ?). by apply height_setattr_le. Qed.

Lemma block_field_not_expanded (n m : string) (x : pyobj) :
  is_block_field n x = true -> m ∈ EXPANDED_FIELD_NAMES -> m <> n.
Proof.
  unfold is_block_field. intros [Hn _]%andb_true_iff Hm ->.
  unfold EXPANDED_FIELD_NAMES in Hm.
  repeat (apply elem_of_cons in Hm as [->|Hm]; [done|]). by apply elem_of_nil in Hm.
Qed.

Section block_height.

Variable nested : tmp_var_index -> list pyobj -> result (tmp_var_index * list pyobj).
Variable fuel : nat.
Hypothesis nested_height : nested_height_spec nested.

Lemma stmt_field_step_height (body_copy : list pyobj) (H i : nat) (s s' : pass_state)
    (c : string) (fs : list (string * pyobj)) (n : string) (x : pyobj) :
  stmt_field_step nested fuel body_copy i s n x = Ok s' ->
  (n, x) ∈ fs -> (height (Node c fs) <= H)%nat ->
  Forall (slot_low H) (ps_body s) -> node_inv c fs (ps_node s) ->
  Forall (slot_low H) (ps_body s') /\ node_inv c fs (ps_node s').
Proof.
  unfold stmt_field_step. intros Hstep Hin HH Hslots (fs' & Hnode & Hfh & Hle).
  pose proof (fields_height_elem _ _ _ Hin) as Hx. rewrite height_node in HH.
  destruct (negb (is_list x || is_ast x)).
  { simplify_eq. split; [done|]. by exists fs'. }
  destruct (is_block_field n x) eqn:Hblock.
  - bind_inv Hstep as l Hl. bind_inv Hstep as [idx1 l'] Hn. injection Hstep as <-.
    destruct x as [| | | |l0|]; try done. cbn in Hl. simplify_eq.
    apply nested_height in Hn. cbn [ps_body ps_node]. split; [done|].
    rewrite Hnode. cbn [setattr]. eexists. split; [done|].
    pose proof (fields_height_set_field n (PyList l') fs'). split; [lia|].
    intros m Hm [Hlong|[-> _]]%long_field_set_field; [by apply Hle|].
    by destruct (block_field_not_expanded _ _ _ Hblock Hm).
  - bind_inv Hstep as [idx1 r] Hr.
    destruct r as [[node u]|]; [|injection Hstep as <-; split; [done|by exists fs']].
    apply (make_field_update_height _ (make_single_field_update_height fuel)) in Hr
      as (-> & Hup & Hnew & Hdel & Hold & Hlen & Hlen').
    assert (node_inv c fs (setattr (ps_node s) n (new_field u))) as Hnode'.
    { rewrite Hnode. cbn [setattr]. eexists. split; [done|].
      pose proof (fields_height_set_field n (new_field u) fs'). split; [lia|].
      by apply (long_le_set_field _ x). }
    destruct (insert_at _ _ _ !! _) as [stmt|] eqn:Hstmt; [|discriminate].
    assert (Forall (slot_low H)
              (insert_at (i + ps_o s) (map SNew (prefix_nodes u)) (ps_body s))) as Hb1.
    { apply Forall_insert_at; [|done]. apply slot_low_new. lia. }
    destruct (slot_is_return body_copy stmt); injection Hstep as <-;
      cbn [ps_body ps_node]; (split; [|done]); [done|].
    apply Forall_insert_at; [|done]. apply slot_low_new. lia.
Qed.

Lemma stmt_fields_loop_height (body_copy : list pyobj) (H i : nat)
    (c : string) (fs : list (string * pyobj))
    (todo : list (string * pyobj)) (s s' : pass_state) :
  stmt_fields_loop nested fuel body_copy i s todo = Ok s' ->
  (forall e, e ∈ todo -> e ∈ fs) -> (height (Node c fs) <= H)%nat ->
  Forall (slot_low H) (ps_body s) -> node_inv c fs (ps_node s) ->
  Forall (slot_low H) (ps_body s') /\ node_inv c fs (ps_node s').
Proof.
  revert s. induction todo as [|[n x] todo IH]; intros s Hl Hin HH Hs Hn; cbn in Hl.
  { by simplify_eq. }
  bind_inv Hl as s1 Hstep.
  apply (stmt_field_step_height body_copy H i _ _ c fs) in Hstep as [Hs1 Hn1];
    [|by apply Hin; left|done..].
  apply (IH s1); [done| |done..]. intros e He. apply Hin. by right.
Qed.

Lemma stmts_loop_height (body_copy : list pyobj) (H : nat) (todo : list pyobj) (i : nat)
    (idx : tmp_var_index) (body : list slot) (o : nat) (nodes : list pyobj)
    (idx' : tmp_var_index) (body' : list slot) (nodes' : list pyobj) :
  stmts_loop nested fuel body_copy i todo idx body o nodes = Ok (idx', body', nodes') ->
  (height (PyList todo) <= H)%nat -> Forall (slot_low H) body ->
  (height (PyList nodes) <= H)%nat ->
  Forall (slot_low H) body' /\ (height (PyList nodes') <= H)%nat.
Proof.
  revert i idx body o nodes.
  induction todo as [|node todo IH]; intros i idx body o nodes Hl Htodo Hb Hn;
    cbn in Hl.
  { by simplify_eq. }
  bind_inv Hl as fs Hfs. bind_inv Hl as s Hloop.
  destruct node as [| | | |?|c fs0]; try done. cbn in Hfs. injection Hfs as <-.
  rewrite height_cons in Htodo.
  apply (stmt_fields_loop_height body_copy H i c fs0) in Hloop as [Hs1 Hn1].
  - apply IH in Hl; [done|lia|done|].
    apply node_inv_height in Hn1.
    pose proof (height_list_insert nodes i (ps_node s)). lia.
  - intros e He.
    by rewrite <- (sorted_perm node_field_sort_key key_lt fs0 : sorted_fields fs0 ≡ₚ fs0).
  - lia.
  - done.
  - exists fs0. split_and!; [done|lia|by intros m _].
Qed.

(** A pass builds no statement higher than the highest it found. *)
Lemma body_pass_height : nested_height_spec (body_pass nested fuel).
Proof.
  intros idx body idx' body' H. unfold body_pass in H.
  bind_inv H as [[idx1 slots] nodes] Hloop. injection H as <- <-.
  apply (stmts_loop_height body (height (PyList body))) in Hloop as [Hs Hn];
    [|done| |done].
  - by apply height_resolve.
  - apply Forall_forall. intros s (k & -> & _)%list_elem_of_fmap. done.
Qed.

Lemma body_loop_height (n initial : nat) (prev : Z) :
  nested_height_spec (body_loop (body_pass nested fuel) n initial prev).
Proof.
  revert prev. induction n as [|n IH]; intros prev idx body idx' body' H;
    cbn [body_loop] in H.
  - destruct (Z.eqb _ _); [by simplify_eq|]. destruct (Nat.ltb _ _); discriminate.
  - destruct (Z.eqb _ _); [by simplify_eq|]. destruct (Nat.ltb _ _); [discriminate|].
    bind_inv H as [idx1 body1] Hpass.
    apply body_pass_height in Hpass. apply IH in H. lia.
Qed.

Lemma run_passes_height (k : nat) :
  nested_height_spec (run_passes (body_pass nested fuel) k).
Proof.
  induction k as [|k IH]; intros idx body idx' body' H; cbn in H.
  { by simplify_eq. }
  bind_inv H as [idx1 body1] Hpass.
  apply body_pass_height in Hpass. apply IH in H. lia.
Qed.

End block_height.

(** [apply_body_updates], at every fuel. *)
Lemma apply_body_updates_height (fuel : nat) :
  nested_height_spec (apply_body_updates fuel).
Proof.
  induction fuel as [|fuel IH]; [by intros ? ? ? ? ?|].
  intros idx l idx' l' H. cbn [apply_body_updates] in H.
  by apply (body_loop_height _ fuel IH) in H.
Qed.
(** ** Termination: with fuel above the height of the tree every call comes back *)

Lemma returns_bind {A B : Type} (m : result A) (k : A -> result B) :
  returns m -> (forall a, m = Ok a -> returns (k a)) -> returns (m ≫= k).
Proof. destruct m as [a|e|]; cbn; [by auto|done|done]. Qed.

Lemma returns_Ok {A : Type} (a : A) : returns (Ok a).
Proof. done. Qed.

Lemma returns_Raise {A : Type} (e : exn) : returns (Raise e : result A).
Proof. done. Qed.

Lemma getattr_returns (v : pyobj) (n : string) : returns (getattr v n).
Proof. destruct v; try done. cbn. by destruct (lookup_field n _). Qed.

Lemma iter_list_returns (v : pyobj) : returns (iter_list v).
Proof. by destruct v. Qed.

Lemma iter_fields_returns (v : pyobj) : returns (iter_fields v).
Proof. by destruct v. Qed.

Create HintDb returns.
#[export] Hint Resolve returns_Ok returns_Raise getattr_returns iter_list_returns
  iter_fields_returns : returns.

(** Take a call apart: each call it makes has to come back. *)
Ltac returns_step :=
  match goal with
  | |- returns (Ok _) => apply returns_Ok
  | |- returns (Raise _) => apply returns_Raise
  | |- returns (mbind _ _) => apply returns_bind; [|intros ? ?]
  | |- returns (if ?b then _ else _) => destruct b
  | |- returns (match ?x with _ => _ end) => destruct x
  | |- returns _ => solve [auto with returns]
  | |- returns _ => progress cbn beta zeta
  end.

Ltac returns_tac := repeat returns_step.

Lemma has_args_unpacking_returns (v : pyobj) : returns (has_args_unpacking v).
Proof. unfold has_args_unpacking. returns_tac. Qed.

Lemma kwstarred_scan_returns (key_of : pyobj -> result pyobj) (b : bool)
    (items : list pyobj) :
  (forall kw, returns (key_of kw)) -> returns (kwstarred_scan key_of b items).
Proof.
  intros Hk. revert b. induction items as [|x items IH]; intros b; cbn; [done|].
  destruct b; [done|]. apply returns_bind; [done|]. intros key _. apply IH.
Qed.

Lemma has_kwargs_unpacking_returns (v : pyobj) : returns (has_kwargs_unpacking v).
Proof.
  unfold has_kwargs_unpacking.
  repeat first [ apply kwstarred_scan_returns; intros | returns_step ];
    auto with returns.
Qed.

Lemma args_prefix_nodes_returns (tmp : string) (elts : list pyobj) :
  returns (args_prefix_nodes tmp elts).
Proof.
  induction elts as [|a elts IH]; cbn; [done|].
  apply returns_bind; [returns_tac|]. intros stmt _.
  apply returns_bind; [done|]. by intros.
Qed.

Lemma add_items_returns {X : Type} (read : X -> result (pyobj * pyobj)) (tmp : string)
    (items : list X) :
  (forall item, returns (read item)) -> returns (add_items read tmp items).
Proof.
  intros Hr. induction items as [|a items IH]; cbn; [done|].
  apply returns_bind; [done|]. intros [key val] _.
  apply returns_bind; [returns_tac|]. intros stmt _.
  apply returns_bind; [done|]. by intros.
Qed.

#[export] Hint Resolve has_args_unpacking_returns has_kwargs_unpacking_returns
  args_prefix_nodes_returns : returns.

Lemma expand_args_unpacking_returns (idx : tmp_var_index) (v : pyobj) :
  returns (expand_args_unpacking idx v).
Proof. unfold expand_args_unpacking. returns_tac. Qed.

Lemma expand_kwargs_unpacking_returns (idx : tmp_var_index) (v : pyobj) :
  returns (expand_kwargs_unpacking idx v).
Proof.
  unfold expand_kwargs_unpacking.
  repeat first [ apply add_items_returns; intros | returns_step ];
    returns_tac.
Qed.

#[export] Hint Resolve expand_args_unpacking_returns expand_kwargs_unpacking_returns
  : returns.

Lemma make_val_node_update_returns (idx : tmp_var_index) (v : pyobj) :
  returns (make_val_node_update idx v).
Proof. unfold make_val_node_update. returns_tac. Qed.

Lemma make_temp_lambda_as_def_returns (lambda_node : pyobj) (body : list pyobj)
    (name : string) :
  returns (make_temp_lambda_as_def lambda_node body name).
Proof. unfold make_temp_lambda_as_def. returns_tac. Qed.

#[export] Hint Resolve make_val_node_update_returns make_temp_lambda_as_def_returns
  : returns.
Section single_returns.

Variable single : tmp_var_index -> pyobj -> result (tmp_var_index * option FieldUpdate).

Lemma list_field_loop_returns (l : list pyobj) (idx : tmp_var_index) :
  (forall i x, x ∈ l -> returns (single i x)) ->
  returns (list_field_loop single idx l).
Proof.
  revert idx. induction l as [|x l IH]; intros idx Hs; cbn; [done|].
  apply returns_bind; [apply Hs; left|]. intros [idx1 r] _.
  apply returns_bind; [apply IH; intros; apply Hs; by right|].
  intros [idx2 [[[p nf] d] o]] _. by destruct r.
Qed.

Lemma make_field_update_returns (idx : tmp_var_index) (parent : pyobj) (n : string)
    (v : pyobj) :
  (forall i x, (height x <= height v)%nat -> returns (single i x)) ->
  returns (make_field_update single idx parent n v).
Proof.
  intros Hs. unfold make_field_update. apply returns_bind.
  - destruct v as [| | | |l|c fs]; try (by apply Hs).
    unfold make_list_field_update. destruct (Nat.eqb _ _); [done|].
    apply returns_bind.
    + apply list_field_loop_returns. intros i x Hx. apply Hs. by apply height_elem.
    + intros [idx1 [[[p nf] d] o]] _. returns_tac.
  - intros [idx1 [u|]] _; done.
Qed.

Lemma sub_field_step_returns (s : sub_state) (n : string) (v : pyobj) :
  (forall i x, (height x <= height v)%nat -> returns (single i x)) ->
  returns (sub_field_step single s n v).
Proof.
  intros Hs. unfold sub_field_step.
  destruct (is_block_field n v); [done|]. destruct (negb _); [done|].
  apply returns_bind; [by apply make_field_update_returns|].
  intros [idx1 [[node u]|]] _; [|done]. returns_tac.
Qed.

Lemma sub_fields_loop_returns (fields : list (string * pyobj)) (s : sub_state)
    (B : nat) :
  (forall i x, (height x <= B)%nat -> returns (single i x)) ->
  (fields_height fields <= B)%nat ->
  returns (sub_fields_loop single s fields).
Proof.
  intros Hs. revert s. induction fields as [|[n v] fields IH]; intros s HB; cbn; [done|].
  rewrite fields_height_cons in HB.
  apply returns_bind.
  - apply sub_field_step_returns. intros i x Hx. apply Hs. lia.
  - intros s1 _. apply IH. lia.
Qed.

Lemma fields_height_perm (fs fs' : list (string * pyobj)) :
  fs ≡ₚ fs' -> fields_height fs = fields_height fs'.
Proof.
  induction 1 as [|[n x] fs fs' _ IH|[n x] [m y] fs|fs fs' fs'' _ IH1 _ IH2];
    rewrite ?fields_height_cons; [done|lia|lia|congruence].
Qed.

Lemma single_field_body_returns (idx : tmp_var_index) (v : pyobj) :
  (forall i x, (height x < height v)%nat -> returns (single i x)) ->
  returns (single_field_body single idx v).
Proof.
  intros Hs. unfold single_field_body.
  apply returns_bind; [returns_tac|]. intros [idx1 [[[p n] d]|]] _; [done|].
  apply returns_bind; [auto with returns|]. intros fields Hf.
  destruct v as [| | | |l|c fs]; try done. cbn in Hf. injection Hf as <-.
  apply returns_bind; [|intros s _; returns_tac].
  apply (sub_fields_loop_returns _ _ (fields_height fs)).
  - intros i x Hx. apply Hs. rewrite height_node. lia.
  - unfold sorted_fields.
    by rewrite (fields_height_perm _ fs (sorted_perm node_field_sort_key key_lt fs)).
Qed.

End single_returns.

(** [make_single_field_update] comes back when its fuel is above the
    height of the expression. *)
Lemma make_single_field_update_returns (fuel : nat) (idx : tmp_var_index) (v : pyobj) :
  (height v < fuel)%nat -> returns (make_single_field_update fuel idx v).
Proof.
  revert idx v. induction fuel as [|fuel IH]; intros idx v Hv; [lia|].
  cbn [make_single_field_update]. apply single_field_body_returns.
  intros i x Hx. apply IH. lia.
Qed.

Section block_returns.

Variable nested : tmp_var_index -> list pyobj -> result (tmp_var_index * list pyobj).
Variable fuel : nat.
Hypothesis nested_returns :
  forall idx l, (height (PyList l) < fuel)%nat -> returns (nested idx l).

Lemma stmt_field_step_returns (body_copy : list pyobj) (i : nat) (s : pass_state)
    (n : string) (x : pyobj) :
  (height x < fuel)%nat -> returns (stmt_field_step nested fuel body_copy i s n x).
Proof.
  intros Hx. unfold stmt_field_step. destruct (negb _); [done|].
  destruct (is_block_field n x).
  - apply returns_bind; [auto with returns|]. intros l Hl.
    destruct x; try done. cbn in Hl. injection Hl as ->.
    apply returns_bind; [by apply nested_returns|]. by intros [idx1 l'] _.
  - apply returns_bind.
    + apply make_field_update_returns. intros j y Hy.
      apply make_single_field_update_returns. lia.
    + intros [idx1 [[node u]|]] _; [|done]. returns_tac.
Qed.

Lemma stmt_fields_loop_returns (body_copy : list pyobj) (i : nat)
    (fields : list (string * pyobj)) (s : pass_state) :
  (fields_height fields < fuel)%nat ->
  returns (stmt_fields_loop nested fuel body_copy i s fields).
Proof.
  revert s. induction fields as [|[n x] fields IH]; intros s HB; cbn; [done|].
  rewrite fields_height_cons in HB.
  apply returns_bind; [apply stmt_field_step_returns; lia|].
  intros s1 _. apply IH. lia.
Qed.

Lemma stmts_loop_returns (body_copy : list pyobj) (todo : list pyobj) (i : nat)
    (idx : tmp_var_index) (body : list slot) (o : nat) (nodes : list pyobj) :
  (height (PyList todo) <= fuel)%nat ->
  returns (stmts_loop nested fuel body_copy i todo idx body o nodes).
Proof.
  revert i idx body o nodes.
  induction todo as [|node todo IH]; intros i idx body o nodes Htodo; cbn; [done|].
  rewrite height_cons in Htodo.
  apply returns_bind; [auto with returns|]. intros fs Hfs.
  destruct node as [| | | |?|c fs0]; try done. cbn in Hfs. injection Hfs as <-.
  rewrite height_node in Htodo.
  apply returns_bind.
  - apply stmt_fields_loop_returns. unfold sorted_fields.
    rewrite (fields_height_perm _ fs0 (sorted_perm node_field_sort_key key_lt fs0)). lia.
  - intros s _. apply IH. lia.
Qed.

(** A pass comes back when no statement of the block is higher than
    the fuel. *)
Lemma body_pass_returns (idx : tmp_var_index) (body : list pyobj) :
  (height (PyList body) <= fuel)%nat -> returns (body_pass nested fuel idx body).
Proof.
  intros Hb. unfold body_pass. apply returns_bind; [by apply stmts_loop_returns|].
  by intros [[idx1 slots] nodes] _.
Qed.

End block_returns.
(** ** More fuel changes no outcome *)

Lemma extends_refl {A : Type} (r : result A) : extends r r.
Proof. by right. Qed.

Lemma extends_bind {A B : Type} (m m' : result A) (k k' : A -> result B) :
  extends m m' -> (forall a, extends (k a) (k' a)) -> extends (m ≫= k) (m' ≫= k').
Proof.
  intros [->| ->] Hk; [by left|]. destruct m' as [a| |]; cbn; [apply Hk|by right..].
Qed.

Lemma extends_returns {A : Type} (r r' : result A) :
  extends r r' -> returns r -> r' = r.
Proof. by intros [->| ->] Hr. Qed.

#[export] Hint Resolve extends_refl : returns.

Ltac extends_step :=
  match goal with
  | |- extends ?r ?r => apply extends_refl
  | |- extends (mbind _ _) (mbind _ _) => apply extends_bind; [|intros ?]
  | |- extends (if ?b then _ else _) (if ?b then _ else _) => destruct b
  | |- extends (match ?x with _ => _ end) (match ?x with _ => _ end) => destruct x
  | |- extends _ _ => solve [auto with returns]
  | |- extends _ _ => progress cbn beta zeta
  end.

Ltac extends_tac := repeat extends_step.

Section single_extends.

Variable single single' :
  tmp_var_index -> pyobj -> result (tmp_var_index * option FieldUpdate).
Hypothesis single_extends : forall idx v, extends (single idx v) (single' idx v).

Lemma list_field_loop_extends (l : list pyobj) (idx : tmp_var_index) :
  extends (list_field_loop single idx l) (list_field_loop single' idx l).
Proof.
  revert idx. induction l as [|x l IH]; intros idx; cbn [list_field_loop];
    extends_tac.
Qed.

Lemma make_field_update_extends (idx : tmp_var_index) (parent : pyobj) (n : string)
    (v : pyobj) :
  extends (make_field_update single idx parent n v)
          (make_field_update single' idx parent n v).
Proof.
  pose proof list_field_loop_extends.
  unfold make_field_update, make_list_field_update. extends_tac.
Qed.

Lemma sub_fields_loop_extends (fields : list (string * pyobj)) (s : sub_state) :
  extends (sub_fields_loop single s fields) (sub_fields_loop single' s fields).
Proof.
  pose proof make_field_update_extends.
  revert s. induction fields as [|[n x] fields IH]; intros s;
    cbn [sub_fields_loop]; unfold sub_field_step; extends_tac.
Qed.

Lemma single_field_body_extends (idx : tmp_var_index) (v : pyobj) :
  extends (single_field_body single idx v) (single_field_body single' idx v).
Proof.
  pose proof sub_fields_loop_extends. unfold single_field_body. extends_tac.
Qed.

End single_extends.

Lemma make_single_field_update_extends (fuel fuel' : nat) (idx : tmp_var_index)
    (v : pyobj) :
  (fuel <= fuel')%nat ->
  extends (make_single_field_update fuel idx v) (make_single_field_update fuel' idx v).
Proof.
  revert fuel' idx v. induction fuel as [|fuel IH]; intros fuel' idx v Hle; [by left|].
  destruct fuel' as [|fuel']; [lia|]. cbn [make_single_field_update].
  apply single_field_body_extends. intros i x. apply IH. lia.
Qed.

Section block_extends.

Variable nested nested' :
  tmp_var_index -> list pyobj -> result (tmp_var_index * list pyobj).
Variable fuel fuel' : nat.
Hypothesis nested_extends : forall idx l, extends (nested idx l) (nested' idx l).
Hypothesis fuel_le : (fuel <= fuel')%nat.

Lemma stmt_fields_loop_extends (body_copy : list pyobj) (i : nat)
    (fields : list (string * pyobj)) (s : pass_state) :
  extends (stmt_fields_loop nested fuel body_copy i s fields)
          (stmt_fields_loop nested' fuel' body_copy i s fields).
Proof.
  assert (forall idx parent n v,
            extends (make_field_update (make_single_field_update fuel) idx parent n v)
                    (make_field_update (make_single_field_update fuel') idx parent n v)).
  { intros. apply make_field_update_extends. intros.
    by apply make_single_field_update_extends. }
  revert s. induction fields as [|[n x] fields IH]; intros s;
    cbn [stmt_fields_loop]; unfold stmt_field_step; extends_tac.
Qed.

Lemma stmts_loop_extends (body_copy : list pyobj) (todo : list pyobj) (i : nat)
    (idx : tmp_var_index) (body : list slot) (o : nat) (nodes : list pyobj) :
  extends (stmts_loop nested fuel body_copy i todo idx body o nodes)
          (stmts_loop nested' fuel' body_copy i todo idx body o nodes).
Proof.
  pose proof stmt_fields_loop_extends.
  revert i idx body o nodes. induction todo as [|node todo IH];
    intros i idx body o nodes; cbn [stmts_loop]; extends_tac.
Qed.

Lemma body_pass_extends (idx : tmp_var_index) (body : list pyobj) :
  extends (body_pass nested fuel idx body) (body_pass nested' fuel' idx body).
Proof. pose proof stmts_loop_extends. unfold body_pass. extends_tac. Qed.

End block_extends.

Lemma body_loop_extends
    (pass pass' : tmp_var_index -> list pyobj -> result (tmp_var_index * list pyobj))
    (n initial : nat) (prev : Z) (idx : tmp_var_index) (body : list pyobj) :
  (forall i b, extends (pass i b) (pass' i b)) ->
  extends (body_loop pass n initial prev idx body)
          (body_loop pass' n initial prev idx body).
Proof.
  intros Hpass. revert prev idx body. induction n as [|n IH]; intros prev idx body;
    cbn [body_loop]; extends_tac.
Qed.

(** The outcome of [apply_body_updates] does not depend on the fuel,
    once there is enough of it. *)
Lemma apply_body_updates_extends (fuel fuel' : nat) (idx : tmp_var_index)
    (body : list pyobj) :
  (fuel <= fuel')%nat ->
  extends (apply_body_updates fuel idx body) (apply_body_updates fuel' idx body).
Proof.
  revert fuel' idx body. induction fuel as [|fuel IH]; intros fuel' idx body Hle;
    [by left|].
  destruct fuel' as [|fuel']; [lia|]. cbn [apply_body_updates].
  apply body_loop_extends. intros i b. apply body_pass_extends; [|lia].
  intros j l. apply IH. lia.
Qed.

(** ** Termination of [apply_body_updates] *)

Lemma body_pass_grows (fuel : nat) (idx : tmp_var_index) (body : list pyobj)
    (idx' : tmp_var_index) (body' : list pyobj) :
  body_pass (apply_body_updates fuel) fuel idx body = Ok (idx', body') ->
  (length body <= length body')%nat.
Proof.
  intros H. by apply (body_pass_spec _ fuel (apply_body_updates_spec fuel)) in H as (? & _).
Qed.

(** With fuel above the height of the block, [apply_body_updates]
    comes back: with a block or with an exception. *)
Lemma apply_body_updates_returns (fuel : nat) (idx : tmp_var_index) (body : list pyobj) :
  (height (PyList body) < fuel)%nat -> returns (apply_body_updates fuel idx body).
Proof.
  revert idx body. induction fuel as [|fuel IH]; intros idx body Hh; [lia|].
  intros Hout.
  pose proof (body_loop_run _ (body_pass_grows fuel) (length body * 100 + 1)
                (length body) (-1) idx body ltac:(right; lia)) as Hrun.
  cbn [apply_body_updates] in Hout. rewrite Hout in Hrun.
  apply (loop_run_out_of_fuel _ (body_pass_grows fuel)) in Hrun
    as (k & idx_k & body_k & _ & Hk & Hpass & _); [|lia].
  apply (run_passes_height _ fuel (apply_body_updates_height fuel)) in Hk.
  revert Hpass. apply body_pass_returns; [|lia].
  intros i l Hl. by apply IH.
Qed.

(** The fixer comes back on every tree when the fuel is not below the
    height of the tree, and more fuel changes no outcome. *)
Lemma fixer_call_returns (fuel : nat) (idx : tmp_var_index) (tree : pyobj) :
  (height tree <= fuel)%nat ->
  returns (UnpackingGeneralizationsFixer_call fuel idx tree).
Proof.
  intros Hh. unfold UnpackingGeneralizationsFixer_call.
  apply returns_bind; [auto with returns|]. intros body Hb.
  apply getattr_height in Hb.
  apply returns_bind; [auto with returns|]. intros l Hl.
  destruct body; try done. cbn in Hl. injection Hl as ->.
  apply returns_bind; [apply apply_body_updates_returns; lia|].
  by intros [idx' body'] _.
Qed.

Lemma fixer_call_extends (fuel fuel' : nat) (idx : tmp_var_index) (tree : pyobj) :
  (fuel <= fuel')%nat ->
  extends (UnpackingGeneralizationsFixer_call fuel idx tree)
          (UnpackingGeneralizationsFixer_call fuel' idx tree).
Proof.
  intros Hle. pose proof (fun i b => apply_body_updates_extends fuel fuel' i b Hle).
  unfold UnpackingGeneralizationsFixer_call. extends_tac.
Qed.

(** C5: the loop of [apply_body_updates] comes back when the fuel is
    not below the height of the block, and it runs as the
    specification describes it. It makes passes until one leaves the
    number of statements unchanged and then returns the block, which
    has at most 100 times its initial length; at the start of a round
    in which the block has more than 100 times its initial length it
    raises the overflow exception; when it raises that exception, the
    block did exceed the bound after some number of passes (or a pass
    raised it for a nested block); and when the block stays within
    the bound and no pass raises, the loop returns a block. *)
Theorem apply_body_updates_loop (fuel : nat) (idx : tmp_var_index) (body : list pyobj) :
  (height (PyList body) <= fuel)%nat ->
  let pass := body_pass (apply_body_updates fuel) fuel in
  let r := apply_body_updates (S fuel) idx body in
  returns r
  /\ loop_run pass (length body) (-1) idx body r
  /\ (forall idx' body', r = Ok (idx', body') ->
        exists idx0 body0,
          pass idx0 body0 = Ok (idx', body') /\ length body' = length body0
          /\ (length body0 <= length body * 100)%nat)
  /\ (r = Raise EXPANSION_OVERFLOW ->
        exists k idx_k body_k,
          run_passes pass k idx body = Ok (idx_k, body_k)
          /\ ((length body * 100 < length body_k)%nat
              \/ pass idx_k body_k = Raise EXPANSION_OVERFLOW))
  /\ ((forall k idx_k body_k,
         run_passes pass k idx body = Ok (idx_k, body_k) ->
         (length body_k <= length body * 100)%nat
         /\ forall e, pass idx_k body_k <> Raise e) ->
      exists idx' body', r = Ok (idx', body')).
Proof.
  intros Hfuel pass r.
  assert (loop_run pass (length body) (-1) idx body r) as Hrun.
  { unfold r. cbn [apply_body_updates].
    apply (body_loop_run _ (body_pass_grows fuel)). right. lia. }
  assert (returns r) as Hret by (apply apply_body_updates_returns; lia).
  split_and!; [done|done| | |].
  - intros idx' body' Hr. rewrite Hr in Hrun.
    apply loop_run_ok in Hrun; [done|lia].
  - intros Hr. rewrite Hr in Hrun.
    apply loop_run_raise in Hrun as (k & idx_k & body_k & Hk & [[_ Hlen]|Hpass]);
      exists k, idx_k, body_k; auto.
  - intros Hbound. destruct r as [[idx' body']|e|] eqn:Hr; [by eauto| |done].
    apply loop_run_raise in Hrun as (k & idx_k & body_k & Hk & Hout).
    destruct (Hbound k idx_k body_k Hk) as [Hlen Hpass].
    destruct Hout as [[_ Hlt]|Hraise]; [lia|by destruct (Hpass e)].
Qed.

Lemma apply_body_updates_loop_witness :
  returns (apply_body_updates 20 0 [ast.Expr call_f_a_1_b]).
Proof.
  refine (proj1 (apply_body_updates_loop 19 0 [ast.Expr call_f_a_1_b] _)).
  vm_compute. lia.
Defined.

(** A list of 101 elements as the only statement of a block: after the
    first pass the block has 104 statements, and the loop raises. *)
Example expansion_overflow :
  apply_body_updates 5 0 [long_list_stmt] = Raise EXPANSION_OVERFLOW
  /\ (exists idx' body',
        body_pass (apply_body_updates 4) 4 0 [long_list_stmt] = Ok (idx', body')
        /\ length body' = 104%nat).
Proof.
  split; [vm_compute; reflexivity|].
  destruct (body_pass (apply_body_updates 4) 4 0 [long_list_stmt])
    as [[idx' body']| |] eqn:H; [|by vm_compute in H..].
  exists idx', body'. split; [done|].
  vm_compute in H. by injection H as <- <-.
Qed.

(** * Further properties of the code *)

(** ** Versions *)

(** X1: a fixer is compatible with every version it is required
    for, when its [VersionInfo] leaves [works_since] out, as every
    fixer of the file does, and [works_until] is left out too or is
    not below [apply_until] in the order of strings, which is the
    order that both methods use. *)
Theorem required_is_compatible (since until : string) (upper : option string)
    (imports : gset ImportDecl) (version : string) :
  let self := mkFixerBase (VersionInfo_init since until None upper) imports in
  match upper with
  | None => True
  | Some w => String.leb until w = true
  end ->
  is_required_for self version = true ->
  is_compatible_with self version = true.
Proof.
  intros self Hw. unfold is_compatible_with, is_required_for.
  cbn [self version_info VersionInfo_init works_since works_until apply_since
       apply_until].
  intros [-> Hu]%andb_true_iff. destruct upper as [w|]; [|done].
  cbn [andb]. by apply (string_leb_trans _ until).
Qed.

Lemma required_is_compatible_witness :
  is_compatible_with
    (mkFixerBase (VersionInfo_init "2.0" "2.7" None (Some "3.4")) ∅) "2.5" = true.
Proof.
  apply (required_is_compatible "2.0" "2.7" (Some "3.4") ∅ "2.5"); reflexivity.
Defined.

(** ** Detection of unpacking *)

Lemma starred_scan_true (elts : list pyobj) :
  starred_scan true elts = negb (Nat.eqb (length elts) 0).
Proof. by destruct elts. Qed.

Lemma starred_scan_iff (elts : list pyobj) :
  starred_scan false elts = true
  <-> exists pre x y post,
        elts = pre ++ x :: y :: post /\ isinstance x ["Starred"] = true.
Proof.
  induction elts as [|a elts IH]; cbn [starred_scan].
  { split; [done|]. intros (pre & x & y & post & H & _). by destruct pre. }
  destruct (isinstance a ["Starred"]) eqn:Ha.
  - rewrite starred_scan_true. destruct elts as [|b elts]; cbn.
    + split; [done|]. intros (pre & x & y & post & H & _).
      destruct pre as [|? [|? ?]]; discriminate.
    + split; [|done]. intros _. by exists [], a, b, elts.
  - rewrite IH. split.
    + intros (pre & x & y & post & -> & Hx). by exists (a :: pre), x, y, post.
    + intros (pre & x & y & post & H & Hx). destruct pre as [|a' pre].
      * cbn in H. injection H as -> _. congruence.
      * cbn in H. injection H as -> ->. by exists pre, x, y, post.
Qed.

(** X2: [has_args_unpacking] answers on a call and on a list, tuple
    or set literal, and raises [TypeError] on everything else. Its
    answer is [True] exactly when some spread element is followed by
    another element: a single spread in last position needs no
    rewrite. *)
Theorem has_args_unpacking_spread_followed (func keywords ctx : pyobj)
    (elts : list pyobj) :
  let b := starred_scan false elts in
  has_args_unpacking (ast.Call func (PyList elts) keywords) = Ok b
  /\ has_args_unpacking (ast.List elts ctx) = Ok b
  /\ has_args_unpacking (ast.Tuple elts ctx) = Ok b
  /\ has_args_unpacking (ast.Set_ elts) = Ok b
  /\ (b = true <-> exists pre x y post,
                     elts = pre ++ x :: y :: post /\ isinstance x ["Starred"] = true)
  /\ (forall v, isinstance v ArgUnpackNodes = false ->
                has_args_unpacking v = Raise (TypeError "Unexpected val_node")).
Proof.
  intros b. split_and!; try reflexivity.
  - apply starred_scan_iff.
  - intros v Hv. unfold has_args_unpacking.
    destruct v as [| | | |l|c fs]; try reflexivity.
    cbn in Hv |- *. rewrite !orb_false_r in *.
    apply orb_false_iff in Hv as [-> Hv]. cbn. by rewrite Hv.
Qed.

Lemma kwstarred_scan_true (key_of : pyobj -> result pyobj) (items : list pyobj) :
  kwstarred_scan key_of true items = Ok (negb (Nat.eqb (length items) 0)).
Proof. by destruct items. Qed.

Lemma kwstarred_scan_iff (key_of : pyobj -> result pyobj) (key : pyobj -> pyobj)
    (items : list pyobj) :
  (forall x, x ∈ items -> key_of x = Ok (key x)) ->
  exists b, kwstarred_scan key_of false items = Ok b
            /\ (b = true <-> exists pre x y post,
                               items = pre ++ x :: y :: post /\ is_none (key x) = true).
Proof.
  induction items as [|a items IH]; intros Hkey; cbn [kwstarred_scan].
  { exists false. split; [done|]. split; [done|].
    intros (pre & x & y & post & H & _). by destruct pre. }
  rewrite (Hkey a) by left. cbn [mbind result_bind].
  destruct (is_none (key a)) eqn:Ha.
  - rewrite kwstarred_scan_true. eexists. split; [done|].
    destruct items as [|b items]; cbn.
    + split; [done|]. intros (pre & x & y & post & H & _).
      destruct pre as [|? [|? ?]]; discriminate.
    + split; [|done]. intros _. by exists [], a, b, items.
  - destruct IH as (b & Hb & Hiff); [by intros x Hx; apply Hkey; right|].
    exists b. split; [done|]. rewrite Hiff. split.
    + intros (pre & x & y & post & -> & Hx). by exists (a :: pre), x, y, post.
    + intros (pre & x & y & post & H & Hx). destruct pre as [|a' pre].
      * cbn in H. injection H as -> _. congruence.
      * cbn in H. injection H as -> ->. by exists pre, x, y, post.
Qed.

(** X3: [has_kwargs_unpacking] answers [True] on a call exactly when
    some [**mapping] keyword is followed by another keyword, on a dict
    literal exactly when some [**mapping] item is followed by another
    item (it looks at the keys only), and raises [TypeError] on every
    other node. *)
Theorem has_kwargs_unpacking_spread_followed (func args : pyobj)
    (items : list kw_item) (keys values : list pyobj) :
  (exists b, has_kwargs_unpacking (ast.Call func args (PyList (map call_keyword items)))
             = Ok b
             /\ (b = true <-> exists pre v y post, items = pre ++ (None, v) :: y :: post))
  /\ (exists b, has_kwargs_unpacking (ast.Dict keys values) = Ok b
                /\ (b = true <-> exists pre y post, keys = pre ++ PyNone :: y :: post))
  /\ (forall v, isinstance v KwArgUnpackNodes = false ->
                has_kwargs_unpacking v = Raise (TypeError "Unexpected val_node")).
Proof.
  split_and!.
  - destruct (kwstarred_scan_iff (fun kw => getattr kw "arg")
                (fun kw => default PyNone
                             (match kw with Node _ fs => lookup_field "arg" fs | _ => None end))
                (map call_keyword items)) as (b & Hb & Hiff).
    { intros x (item & -> & _)%list_elem_of_fmap. reflexivity. }
    exists b. split; [exact Hb|]. rewrite Hiff. split.
    + intros (pre & x & y & post & H & Hx).
      apply map_eq_app in H as (pre' & rest & -> & <- & H).
      destruct rest as [|[k v] [|y' rest]]; try discriminate.
      cbn in H. injection H as <- <- <-.
      exists pre', v, y', rest. destruct k; [discriminate|done].
    + intros (pre & v & y & post & ->).
      exists (map call_keyword pre), (call_keyword (None, v)), (call_keyword y),
             (map call_keyword post).
      by rewrite map_app.
  - destruct (kwstarred_scan_iff Ok id keys) as (b & Hb & Hiff); [done|].
    exists b. split; [exact Hb|]. rewrite Hiff. split.
    + intros (pre & x & y & post & -> & Hx). destruct x; try done. by exists pre, y, post.
    + intros (pre & y & post & ->). by exists pre, PyNone, y, post.
  - intros v Hv. unfold has_kwargs_unpacking.
    destruct v as [| | | |l|c fs]; try reflexivity.
    cbn in Hv |- *. rewrite !orb_false_r in *.
    apply orb_false_iff in Hv as [-> Hv]. by rewrite Hv.
Qed.
(** ** Expansion of keyword unpacking *)

Lemma add_items_call_keywords (tmp : string) (items : list kw_item) :
  add_items (fun kw => a ← getattr kw "arg"; v ← getattr kw "value"; Ok (a, v))
            tmp (map call_keyword items)
  = Ok (map (kw_item_stmt tmp) items).
Proof.
  induction items as [|[[s|] v] items IH]; [reflexivity|..];
    cbn [map add_items]; rewrite IH; reflexivity.
Qed.

Lemma add_items_dict_items (tmp : string) (items : list kw_item) :
  add_items Ok tmp (zip (map dict_key items) (map snd items))
  = Ok (map (kw_item_stmt tmp) items).
Proof.
  induction items as [|[[s|] v] items IH]; [reflexivity|..];
    cbn [map zip zip_with add_items]; cbn [zip] in IH; rewrite IH; reflexivity.
Qed.

(** X4: [expand_kwargs_unpacking] on a call or on a dict literal
    hoists the initializer [tmp = {}] of a new temporary, then one
    statement per keyword or item in their order, [tmp.update(m)] for
    an unpacked mapping [m] and [tmp["name"] = value] for a named
    value, and replaces the node by a call whose only keyword is the
    unpacking of the temporary (the positional arguments of a call
    are kept, a dict literal becomes a call of [dict]); the counter of
    temporaries goes up by one and the replacement needs no further
    expansion. *)
Theorem expand_kwargs_unpacking_order (idx : tmp_var_index) (func args : pyobj)
    (items : list kw_item) :
  let tmp := upg_kwargs_name idx in
  let stmts := ast.Assign [ast.Name tmp ast.Store] (ast.Dict [] [])
               :: map (kw_item_stmt tmp) items in
  let spread := PyList [ast.keyword PyNone (ast.Name tmp ast.Load)] in
  let dels := [ast.Delete [ast.Name tmp ast.Del]] in
  expand_kwargs_unpacking idx (ast.Call func args (PyList (map call_keyword items)))
  = Ok (S idx, (stmts, ast.Call func args spread, dels))
  /\ expand_kwargs_unpacking idx (ast.Dict (map dict_key items) (map snd items))
     = Ok (S idx, (stmts, ast.Call (ast.Name "dict" ast.Load) (PyList []) spread, dels))
  /\ has_kwargs_unpacking (ast.Call func args spread) = Ok false.
Proof.
  intros tmp stmts spread dels.
  pose proof (add_items_call_keywords tmp items) as Hc.
  pose proof (add_items_dict_items tmp items) as Hd.
  split_and!; [| |reflexivity];
    unfold expand_kwargs_unpacking; cbn -[add_items upg_kwargs_name zip];
    fold tmp; first [rewrite Hc|rewrite Hd]; reflexivity.
Qed.

Lemma add_items_invalid_key (tmp : string) (items : list (pyobj * pyobj))
    (key val : pyobj) :
  (key, val) ∈ items -> invalid_dict_key key = true ->
  add_items Ok tmp items = Raise (TypeError "Invalid dict key").
Proof.
  intros Hin Hkey. induction items as [|[k v] items IH]; [by apply elem_of_nil in Hin|].
  cbn [add_items]. cbn [mbind result_bind].
  destruct (is_none k) eqn:Hn.
  { cbn [mbind result_bind]. apply elem_of_cons in Hin as [[= <- <-]|Hin].
    - unfold invalid_dict_key in Hkey. by rewrite Hn in Hkey.
    - by rewrite (IH Hin). }
  destruct (isinstance k ["Str"]) eqn:Hs.
  { cbn [mbind result_bind]. apply elem_of_cons in Hin as [[= <- <-]|Hin].
    - unfold invalid_dict_key in Hkey. by rewrite Hn, Hs in Hkey.
    - by rewrite (IH Hin). }
  destruct k; try reflexivity.
  cbn [mbind result_bind]. apply elem_of_cons in Hin as [[= -> ->]|Hin].
  - unfold invalid_dict_key in Hkey. by rewrite andb_false_r in Hkey.
  - by rewrite (IH Hin).
Qed.

(** X5: a dict literal with unpacking one of whose keys (paired with
    a value) is neither [None] nor a string literal cannot be
    expanded: [expand_kwargs_unpacking] raises
    [TypeError("Invalid dict key ...")], and so does
    [make_val_node_update] when the literal has unpacking. *)
Theorem expand_kwargs_unpacking_invalid_key (idx : tmp_var_index)
    (keys values : list pyobj) (key val : pyobj) :
  (key, val) ∈ zip keys values -> invalid_dict_key key = true ->
  expand_kwargs_unpacking idx (ast.Dict keys values) = Raise (TypeError "Invalid dict key")
  /\ (has_kwargs_unpacking (ast.Dict keys values) = Ok true ->
      make_val_node_update idx (ast.Dict keys values)
      = Raise (TypeError "Invalid dict key")).
Proof.
  intros Hin Hkey. pose proof (add_items_invalid_key (upg_kwargs_name idx) _ _ _ Hin Hkey) as H.
  assert (expand_kwargs_unpacking idx (ast.Dict keys values)
          = Raise (TypeError "Invalid dict key")) as He.
  { unfold expand_kwargs_unpacking. cbn -[add_items upg_kwargs_name zip]. by rewrite H. }
  split; [done|]. intros Hhas. unfold make_val_node_update.
  change (isinstance (ast.Dict keys values) ArgUnpackNodes) with false.
  cbn [mbind result_bind].
  change (isinstance (ast.Dict keys values) KwArgUnpackNodes) with true.
  cbn match. rewrite Hhas. cbn [mbind result_bind]. by rewrite He.
Qed.

(** [{1: x, **a, **b}]: the key [1] is no string literal. *)
Lemma expand_kwargs_unpacking_invalid_key_witness :
  make_val_node_update 0 dict_with_num_key = Raise (TypeError "Invalid dict key").
Proof.
  refine (proj2 (expand_kwargs_unpacking_invalid_key 0 _ _ (ast.Num 1) (name_ "x") _ _) _);
    [left|reflexivity|reflexivity].
Defined.

(** ** The exceptions of the unpacking fixer *)

Lemma raises_expected_bind {A B : Type} (m : result A) (k : A -> result B) :
  raises_expected m -> (forall a, m = Ok a -> raises_expected (k a)) ->
  raises_expected (m ≫= k).
Proof.
  intros Hm Hk. destruct m as [a|e|]; cbn; [by apply Hk| |done].
  intros e' [= <-]. by apply Hm.
Qed.

Lemma raises_expected_Ok {A : Type} (a : A) : raises_expected (Ok a).
Proof. done. Qed.

Lemma raises_expected_OutOfFuel {A : Type} : raises_expected (OutOfFuel : result A).
Proof. done. Qed.

Lemma raises_expected_Raise {A : Type} (e : exn) :
  expected_exn e -> raises_expected (Raise e : result A).
Proof. by intros He e' [= <-]. Qed.

Lemma getattr_raises_expected (v : pyobj) (n : string) : raises_expected (getattr v n).
Proof.
  destruct v; try (by apply raises_expected_Raise). cbn.
  destruct (lookup_field n _); [done|by apply raises_expected_Raise].
Qed.

Lemma iter_list_raises_expected (v : pyobj) : raises_expected (iter_list v).
Proof. destruct v; first [done|by apply raises_expected_Raise]. Qed.

Lemma iter_fields_raises_expected (v : pyobj) : raises_expected (iter_fields v).
Proof. destruct v; first [done|by apply raises_expected_Raise]. Qed.

Create HintDb expected.
#[export] Hint Resolve raises_expected_Ok raises_expected_OutOfFuel
  getattr_raises_expected iter_list_raises_expected iter_fields_raises_expected
  : expected.

Ltac expected_step :=
  match goal with
  | |- raises_expected (Ok _) => apply raises_expected_Ok
  | |- raises_expected (Raise _) => apply raises_expected_Raise; exact I
  | |- raises_expected (mbind _ _) => apply raises_expected_bind; [|intros ? ?]
  | |- raises_expected (if ?b then _ else _) => destruct b
  | |- raises_expected (match ?x with _ => _ end) => destruct x
  | |- raises_expected _ => solve [auto with expected]
  | |- raises_expected _ => progress cbn beta zeta
  end.

Ltac expected_tac := repeat expected_step.

Lemma has_args_unpacking_raises_expected (v : pyobj) :
  raises_expected (has_args_unpacking v).
Proof. unfold has_args_unpacking. expected_tac. Qed.

Lemma kwstarred_scan_raises_expected (key_of : pyobj -> result pyobj) (b : bool)
    (items : list pyobj) :
  (forall kw, raises_expected (key_of kw)) ->
  raises_expected (kwstarred_scan key_of b items).
Proof.
  intros Hk. revert b. induction items as [|x items IH]; intros b; cbn; [done|].
  destruct b; [done|]. apply raises_expected_bind; [done|]. intros key _. apply IH.
Qed.

Lemma has_kwargs_unpacking_raises_expected (v : pyobj) :
  raises_expected (has_kwargs_unpacking v).
Proof.
  unfold has_kwargs_unpacking.
  repeat first [ apply kwstarred_scan_raises_expected; intros | expected_step ];
    auto with expected.
Qed.

Lemma args_prefix_nodes_raises_expected (tmp : string) (elts : list pyobj) :
  raises_expected (args_prefix_nodes tmp elts).
Proof.
  induction elts as [|a elts IH]; cbn; [done|].
  apply raises_expected_bind; [expected_tac|]. intros stmt _.
  apply raises_expected_bind; [done|]. by intros.
Qed.

Lemma add_items_raises_expected {X : Type} (read : X -> result (pyobj * pyobj))
    (tmp : string) (items : list X) :
  (forall item, raises_expected (read item)) ->
  raises_expected (add_items read tmp items).
Proof.
  intros Hr. induction items as [|a items IH]; cbn; [done|].
  apply raises_expected_bind; [done|]. intros [key val] _.
  apply raises_expected_bind; [expected_tac|]. intros stmt _.
  apply raises_expected_bind; [done|]. by intros.
Qed.

#[export] Hint Resolve has_args_unpacking_raises_expected
  has_kwargs_unpacking_raises_expected args_prefix_nodes_raises_expected : expected.

Lemma expand_args_unpacking_raises_expected (idx : tmp_var_index) (v : pyobj) :
  raises_expected (expand_args_unpacking idx v).
Proof. unfold expand_args_unpacking. expected_tac. Qed.

Lemma expand_kwargs_unpacking_raises_expected (idx : tmp_var_index) (v : pyobj) :
  raises_expected (expand_kwargs_unpacking idx v).
Proof.
  unfold expand_kwargs_unpacking.
  repeat first [ apply add_items_raises_expected; intros | expected_step ];
    expected_tac.
Qed.

Lemma make_temp_lambda_as_def_raises_expected (lambda_node : pyobj) (body : list pyobj)
    (name : string) :
  raises_expected (make_temp_lambda_as_def lambda_node body name).
Proof. unfold make_temp_lambda_as_def. expected_tac. Qed.

#[export] Hint Resolve expand_args_unpacking_raises_expected
  expand_kwargs_unpacking_raises_expected make_temp_lambda_as_def_raises_expected
  : expected.

(** The replacement that [expand_args_unpacking] builds has no
    positional unpacking left, and the one of
    [expand_kwargs_unpacking] no keyword unpacking. *)
Lemma expand_args_unpacking_done (idx idx' : tmp_var_index) (v : pyobj)
    (p : list pyobj) (n : pyobj) (d : list pyobj) :
  expand_args_unpacking idx v = Ok (idx', (p, n, d)) ->
  has_args_unpacking n = Ok false /\ nonempty p = true /\ nonempty d = true.
Proof.
  unfold expand_args_unpacking. intros H.
  bind_inv H as [[func kws] elts] Hf. bind_inv H as l Hl. bind_inv H as stmts Hs.
  by injection H as <- <- <- <-.
Qed.

Lemma expand_kwargs_unpacking_done (idx idx' : tmp_var_index) (v : pyobj)
    (p : list pyobj) (n : pyobj) (d : list pyobj) :
  expand_kwargs_unpacking idx v = Ok (idx', (p, n, d)) ->
  has_kwargs_unpacking n = Ok false /\ nonempty p = true /\ nonempty d = true.
Proof.
  unfold expand_kwargs_unpacking. intros H.
  bind_inv H as [[stmts args] func] Hf. by injection H as <- <- <- <-.
Qed.

(** None of the assertions of [make_val_node_update] fails. *)
Lemma make_val_node_update_raises_expected (idx : tmp_var_index) (v : pyobj) :
  raises_expected (make_val_node_update idx v).
Proof.
  unfold make_val_node_update.
  set (stage1 := if isinstance v ArgUnpackNodes then _ else _).
  assert (raises_expected stage1
          /\ forall i1 v1 p1 d1, stage1 = Ok (i1, v1, p1, d1) ->
               nonempty p1 = nonempty d1) as [H1 H1'].
  { unfold stage1. destruct (isinstance v ArgUnpackNodes).
    2: { split; [done|]. by intros ? ? ? ? [= <- <- <- <-]. }
    destruct (has_args_unpacking v) as [[|]|e|] eqn:Hhas; cbn [mbind result_bind].
    - destruct (expand_args_unpacking idx v) as [[i3 [[p3 n3] d3]]|e|] eqn:He;
        cbn [mbind result_bind].
      + apply expand_args_unpacking_done in He as (-> & Hp & Hd). cbn.
        split; [done|]. intros ? ? ? ? [= <- <- <- <-]. congruence.
      + split; [|done]. intros e' [= <-].
        by apply (expand_args_unpacking_raises_expected idx v).
      + done.
    - split; [done|]. by intros ? ? ? ? [= <- <- <- <-].
    - split; [|done]. intros e' [= <-].
      by apply (has_args_unpacking_raises_expected v).
    - done. }
  apply raises_expected_bind; [done|]. intros [[[i1 v1] p1] d1] Hs1.
  specialize (H1' _ _ _ _ Hs1).
  set (stage2 := if isinstance v1 KwArgUnpackNodes then _ else _).
  assert (raises_expected stage2
          /\ forall i2 v2 p2 d2, stage2 = Ok (i2, v2, p2, d2) ->
               nonempty p2 = nonempty d2) as [H2 H2'].
  { unfold stage2. destruct (isinstance v1 KwArgUnpackNodes).
    2: { split; [done|]. by intros ? ? ? ? [= <- <- <- <-]. }
    destruct (has_kwargs_unpacking v1) as [[|]|e|] eqn:Hhas; cbn [mbind result_bind].
    - destruct (expand_kwargs_unpacking i1 v1) as [[i3 [[p3 n3] d3]]|e|] eqn:He;
        cbn [mbind result_bind].
      + apply expand_kwargs_unpacking_done in He as (-> & Hp & Hd). cbn.
        split; [done|]. intros ? ? ? ? [= <- <- <- <-].
        by rewrite (nonempty_app_r p1 p3), (nonempty_app_r d1 d3).
      + split; [|done]. intros e' [= <-].
        by apply (expand_kwargs_unpacking_raises_expected i1 v1).
      + done.
    - split; [done|]. by intros ? ? ? ? [= <- <- <- <-].
    - split; [|done]. intros e' [= <-].
      by apply (has_kwargs_unpacking_raises_expected v1).
    - done. }
  apply raises_expected_bind; [done|]. intros [[[i2 v2] p2] d2] Hs2.
  specialize (H2' _ _ _ _ Hs2). rewrite <- H2'. by destruct (nonempty p2).
Qed.

#[export] Hint Resolve make_val_node_update_raises_expected : expected.
Section single_expected.

Variable single : tmp_var_index -> pyobj -> result (tmp_var_index * option FieldUpdate).
Hypothesis single_expected : forall idx v, raises_expected (single idx v).
Hypothesis single_nonempty : update_nonempty single.

Lemma list_field_loop_nonempty (l : list pyobj) (idx idx' : tmp_var_index)
    (p nf d o : list pyobj) :
  list_field_loop single idx l = Ok (idx', (p, nf, d, o)) ->
  nonempty p = nonempty d /\ length nf = length l.
Proof.
  revert idx idx' p nf d o. induction l as [|x l IH]; intros idx idx' p nf d o H.
  { cbn in H. by injection H as <- <- <- <- <-. }
  cbn [list_field_loop] in H.
  bind_inv H as [idx1 r] Hx.
  bind_inv H as [idx2 [[[p2 nf2] d2] o2]] Hl.
  apply IH in Hl as (Hpd & Hlen).
  destruct r as [u|]; injection H as <- <- <- <- <-; cbn [length]; [|by rewrite Hlen].
  apply single_nonempty in Hx as [Hp Hd].
  by rewrite (nonempty_app_l _ p2), (nonempty_app_l _ d2), Hlen.
Qed.

Lemma list_field_loop_raises_expected (l : list pyobj) (idx : tmp_var_index) :
  raises_expected (list_field_loop single idx l).
Proof.
  revert idx. induction l as [|x l IH]; intros idx; cbn [list_field_loop];
    expected_tac.
Qed.

Lemma make_list_field_update_raises_expected (l : list pyobj) (idx : tmp_var_index) :
  raises_expected (make_list_field_update single idx l).
Proof.
  unfold make_list_field_update. destruct (Nat.eqb_spec (length l) 0) as [|Hlen]; [done|].
  apply raises_expected_bind; [apply list_field_loop_raises_expected|].
  intros [idx1 [[[p nf] d] o]] (Hpd & Hnf)%list_field_loop_nonempty.
  destruct (nonempty p) eqn:Hp; [|done].
  rewrite <- Hpd, Hnf, Nat.eqb_refl. unfold nonempty. rewrite Hnf.
  apply Nat.eqb_neq in Hlen. by rewrite Hlen.
Qed.

Lemma make_field_update_raises_expected (idx : tmp_var_index) (parent : pyobj)
    (n : string) (v : pyobj) :
  raises_expected (make_field_update single idx parent n v).
Proof.
  pose proof make_list_field_update_raises_expected.
  unfold make_field_update. expected_tac.
Qed.

Lemma make_field_update_nonempty (idx idx' : tmp_var_index) (parent : pyobj)
    (n : string) (v node : pyobj) (u : FieldUpdate) :
  make_field_update single idx parent n v = Ok (idx', Some (node, u)) ->
  nonempty (prefix_nodes u) = true /\ nonempty (del_nodes u) = true.
Proof.
  unfold make_field_update. intros H. bind_inv H as [idx1 r] Hr.
  destruct r as [u'|]; [|discriminate]. injection H as <- <- <-.
  destruct v as [| | | |l|c fs]; try by apply single_nonempty in Hr.
  unfold make_list_field_update in Hr.
  destruct (Nat.eqb (length l) 0); [discriminate|].
  bind_inv Hr as [idx2 [[[p nf] d] o]] Hl.
  destruct (nonempty p) eqn:Hp; [|discriminate].
  destruct (nonempty d) eqn:Hd; [|discriminate].
  destruct (_ && _); [|discriminate]. by injection Hr as <- <-.
Qed.

Lemma sub_field_step_raises_expected (s : sub_state) (n : string) (v : pyobj) :
  raises_expected (sub_field_step single s n v).
Proof.
  pose proof make_field_update_raises_expected.
  unfold sub_field_step. destruct (is_block_field n v).
  { by apply raises_expected_Raise. }
  expected_tac.
Qed.

Lemma sub_field_step_nonempty (s s' : sub_state) (n : string) (v : pyobj) :
  sub_field_step single s n v = Ok s' ->
  (nonempty (ss_all_prefix_nodes s) = true -> nonempty (ss_all_del_nodes s) = true) ->
  nonempty (ss_all_prefix_nodes s') = true -> nonempty (ss_all_del_nodes s') = true.
Proof.
  unfold sub_field_step. intros H Hs.
  destruct (is_block_field n v); [discriminate|].
  destruct (negb _); [by injection H as <-|].
  bind_inv H as [idx1 r] Hr.
  destruct r as [[node u]|]; [|by injection H as <-].
  apply make_field_update_nonempty in Hr as [Hp Hd].
  destruct (isinstance node ["Lambda"]).
  - bind_inv H as def Hdef. injection H as <-. cbn. intros _. by apply nonempty_app_r.
  - injection H as <-. cbn. intros _. by apply nonempty_app_r.
Qed.

Lemma sub_fields_loop_raises_expected (fields : list (string * pyobj)) (s : sub_state) :
  raises_expected (sub_fields_loop single s fields).
Proof.
  pose proof sub_field_step_raises_expected.
  revert s. induction fields as [|[n x] fields IH]; intros s;
    cbn [sub_fields_loop]; expected_tac.
Qed.

Lemma sub_fields_loop_nonempty (fields : list (string * pyobj)) (s s' : sub_state) :
  sub_fields_loop single s fields = Ok s' ->
  (nonempty (ss_all_prefix_nodes s) = true -> nonempty (ss_all_del_nodes s) = true) ->
  nonempty (ss_all_prefix_nodes s') = true -> nonempty (ss_all_del_nodes s') = true.
Proof.
  revert s. induction fields as [|[n x] fields IH]; intros s H Hs; cbn in H.
  { by injection H as <-. }
  bind_inv H as s1 Hstep. apply (IH _ H). by apply (sub_field_step_nonempty _ _ _ _ Hstep).
Qed.

Lemma single_field_body_raises_expected (idx : tmp_var_index) (v : pyobj) :
  raises_expected (single_field_body single idx v).
Proof.
  unfold single_field_body.
  apply raises_expected_bind; [expected_tac|]. intros [idx1 [[[p n] d]|]] _; [done|].
  apply raises_expected_bind; [auto with expected|]. intros fields _.
  apply raises_expected_bind; [apply sub_fields_loop_raises_expected|].
  intros s Hloop. pose proof (sub_fields_loop_nonempty _ _ _ Hloop) as Hn.
  destruct (nonempty (ss_all_prefix_nodes s)); [|done]. by rewrite Hn.
Qed.

End single_expected.

Lemma make_single_field_update_nonempty (fuel : nat) :
  update_nonempty (make_single_field_update fuel).
Proof.
  intros idx v idx' u H. split.
  - by apply (make_single_field_update_spec fuel) in H as (? & _).
  - by apply (make_single_field_update_dels fuel) in H as (? & _).
Qed.

(** [make_single_field_update] raises no [IndexError], and of the
    assertions only the one about block fields. *)
Lemma make_single_field_update_raises_expected (fuel : nat) (idx : tmp_var_index)
    (v : pyobj) :
  raises_expected (make_single_field_update fuel idx v).
Proof.
  revert idx v. induction fuel as [|fuel IH]; intros idx v; [done|].
  cbn [make_single_field_update].
  apply single_field_body_raises_expected; [done|].
  apply make_single_field_update_nonempty.
Qed.

Section block_expected.

Variable nested : tmp_var_index -> list pyobj -> result (tmp_var_index * list pyobj).
Variable fuel : nat.
Hypothesis nested_expected : forall idx l, raises_expected (nested idx l).

Lemma stmt_field_step_offset (body_copy : list pyobj) (n i : nat) (s : pass_state)
    (field_name : string) (field : pyobj) :
  (i < n)%nat -> offset_ok n s ->
  raises_expected (stmt_field_step nested fuel body_copy i s field_name field)
  /\ forall s', stmt_field_step nested fuel body_copy i s field_name field = Ok s' ->
                offset_ok n s'.
Proof.
  intros Hi Hs. unfold stmt_field_step. destruct (negb _).
  { split; [done|]. by intros s' [= <-]. }
  destruct (is_block_field field_name field).
  { split; [expected_tac|]. intros s' H.
    bind_inv H as l Hl. bind_inv H as [idx1 l'] Hn. by injection H as <-. }
  destruct (make_field_update _ _ _ _ _) as [[idx1 [[node u]|]]|e|] eqn:Hr;
    cbn [mbind result_bind].
  - apply (make_field_update_nonempty _ (make_single_field_update_nonempty fuel)) in Hr
      as [Hp Hd].
    unfold offset_ok in Hs.
    destruct (insert_at _ _ _ !! _) as [stmt|] eqn:Hstmt.
    + destruct (slot_is_return body_copy stmt).
      * split; [done|]. intros s' [= <-]. unfold offset_ok. cbn.
        rewrite length_insert_at, length_map. lia.
      * split; [done|]. intros s' [= <-]. unfold offset_ok. cbn.
        rewrite !length_insert_at, !length_map.
        destruct (del_nodes u); [done|cbn; lia].
    + exfalso. apply lookup_ge_None in Hstmt.
      rewrite length_insert_at, length_map in Hstmt. lia.
  - split; [done|]. by intros s' [= <-].
  - split; [|done]. intros e' [= <-].
    by apply (make_field_update_raises_expected _
                (make_single_field_update_raises_expected fuel)
                (make_single_field_update_nonempty fuel) (ps_idx s) (ps_node s)
                field_name field).
  - done.
Qed.

Lemma stmt_fields_loop_offset (body_copy : list pyobj) (n i : nat)
    (fields : list (string * pyobj)) (s : pass_state) :
  (i < n)%nat -> offset_ok n s ->
  raises_expected (stmt_fields_loop nested fuel body_copy i s fields)
  /\ forall s', stmt_fields_loop nested fuel body_copy i s fields = Ok s' ->
                offset_ok n s'.
Proof.
  intros Hi. revert s. induction fields as [|[fn f] fields IH]; intros s Hs;
    cbn [stmt_fields_loop].
  { split; [done|]. by intros s' [= <-]. }
  destruct (stmt_field_step_offset body_copy n i s fn f Hi Hs) as [He Ho].
  split.
  - apply raises_expected_bind; [done|]. intros s1 Hs1. by apply IH, Ho.
  - intros s' H. bind_inv H as s1 Hs1. by apply (IH s1 (Ho _ Hs1)).
Qed.

Lemma stmts_loop_raises_expected (body_copy : list pyobj) (n : nat) (todo : list pyobj)
    (i : nat) (idx : tmp_var_index) (body : list slot) (o : nat) (nodes : list pyobj) :
  (i + length todo <= n)%nat -> (o + n <= length body)%nat ->
  raises_expected (stmts_loop nested fuel body_copy i todo idx body o nodes).
Proof.
  revert i idx body o nodes.
  induction todo as [|node todo IH]; intros i idx body o nodes Hi Ho; cbn [stmts_loop];
    [done|].
  cbn [length] in Hi.
  apply raises_expected_bind; [auto with expected|]. intros fs _.
  destruct (stmt_fields_loop_offset body_copy n i (sorted_fields fs)
              (mkPassState idx body o node) ltac:(lia) Ho) as [He Hoff].
  apply raises_expected_bind; [done|]. intros s Hs.
  apply IH; [lia|]. by apply Hoff.
Qed.

Lemma body_pass_raises_expected (idx : tmp_var_index) (body : list pyobj) :
  raises_expected (body_pass nested fuel idx body).
Proof.
  unfold body_pass. apply raises_expected_bind.
  - apply (stmts_loop_raises_expected body (length body)); [lia|].
    rewrite length_map, length_seq. lia.
  - by intros [[idx1 slots] nodes] _.
Qed.

Lemma body_loop_raises_expected (n initial : nat) (prev : Z) (idx : tmp_var_index)
    (body : list pyobj) :
  raises_expected (body_loop (body_pass nested fuel) n initial prev idx body).
Proof.
  pose proof body_pass_raises_expected.
  revert prev idx body. induction n as [|n IH]; intros prev idx body;
    cbn [body_loop]; expected_tac.
Qed.

End block_expected.

Lemma apply_body_updates_raises_expected (fuel : nat) (idx : tmp_var_index)
    (body : list pyobj) :
  raises_expected (apply_body_updates fuel idx body).
Proof.
  revert idx body. induction fuel as [|fuel IH]; intros idx body; [done|].
  cbn [apply_body_updates]. by apply body_loop_raises_expected.
Qed.
(** X6: whatever the tree, [UnpackingGeneralizationsFixer] raises no
    [IndexError] (the statement it looks up after splicing in the
    hoisted statements is always there), and of its assertions only
    the one that rejects a block field inside an expression can fail:
    the assertions about the results of its own expansions always
    hold. *)
Theorem unpacking_fixer_raises_expected (fuel : nat) (idx : tmp_var_index)
    (tree : pyobj) (e : exn) :
  UnpackingGeneralizationsFixer_call fuel idx tree = Raise e ->
  (forall msg, e <> IndexError msg)
  /\ (forall msg, e = AssertionError msg -> msg = "Unexpected block field").
Proof.
  intros H.
  assert (raises_expected (UnpackingGeneralizationsFixer_call fuel idx tree)) as He.
  { pose proof (apply_body_updates_raises_expected fuel).
    unfold UnpackingGeneralizationsFixer_call. expected_tac. }
  specialize (He e H). split.
  - by intros msg ->.
  - by intros msg ->.
Qed.

Lemma unpacking_fixer_raises_expected_witness :
  UnpackingGeneralizationsFixer_call 9 0 try_except_module
  = Raise (AssertionError "Unexpected block field")
  /\ forall msg, AssertionError "Unexpected block field" <> IndexError msg.
Proof.
  split; [reflexivity|].
  refine (proj1 (unpacking_fixer_raises_expected 9 0 try_except_module _ _)).
  reflexivity.
Defined.


(** ** Trees without unpacking are left alone *)

Lemma make_val_node_update_free (idx : tmp_var_index) (v : pyobj) :
  unpacking_free v = true -> make_val_node_update idx v = Ok (idx, None).
Proof.
  unfold unpacking_free, make_val_node_update. intros [Ha Hk]%andb_true_iff.
  destruct (isinstance v ArgUnpackNodes).
  - destruct (has_args_unpacking v) as [[|]| |]; try done. cbn [mbind result_bind].
    destruct (isinstance v KwArgUnpackNodes); [|done].
    by destruct (has_kwargs_unpacking v) as [[|]| |].
  - cbn [mbind result_bind].
    destruct (isinstance v KwArgUnpackNodes); [|done].
    by destruct (has_kwargs_unpacking v) as [[|]| |].
Qed.

Lemma no_unpacking_node (c : string) (fs : list (string * pyobj)) :
  no_unpacking (Node c fs) = true ->
  unpacking_free (Node c fs) = true
  /\ forall n x, (n, x) ∈ fs -> no_unpacking x = true.
Proof.
  unfold no_unpacking. cbn [all_nodes]. intros [Hf Hfs]%andb_true_iff.
  split; [done|]. intros n x Hin. rewrite forallb_forall in Hfs.
  by apply (Hfs (n, x)), list_elem_of_In.
Qed.

Section single_quiet.

Variable single : tmp_var_index -> pyobj -> result (tmp_var_index * option FieldUpdate).
Hypothesis single_is_quiet : single_quiet single.

Lemma list_field_loop_quiet (l : list pyobj) (idx idx' : tmp_var_index)
    (p nf d o : list pyobj) :
  forallb no_unpacking l = true ->
  list_field_loop single idx l = Ok (idx', (p, nf, d, o)) -> idx' = idx /\ p = [].
Proof.
  revert idx idx' p nf d o. induction l as [|x l IH]; intros idx idx' p nf d o Hl H.
  { cbn in H. by injection H as <- <- <- <- <-. }
  cbn [forallb] in Hl. apply andb_true_iff in Hl as [Hx Hl].
  cbn [list_field_loop] in H.
  bind_inv H as [idx1 r] Hr.
  bind_inv H as [idx2 [[[p2 nf2] d2] o2]] Hrest.
  apply (single_is_quiet _ _ _ _ Hx) in Hr as [-> ->].
  apply (IH _ _ _ _ _ _ Hl) in Hrest as [-> ->].
  by injection H as <- <- <- <- <-.
Qed.

Lemma make_field_update_quiet (idx idx' : tmp_var_index) (parent : pyobj) (n : string)
    (v : pyobj) (r : option (pyobj * FieldUpdate)) :
  no_unpacking v = true ->
  make_field_update single idx parent n v = Ok (idx', r) -> idx' = idx /\ r = None.
Proof.
  intros Hv. unfold make_field_update. intros H. bind_inv H as [idx1 r1] Hr.
  assert (idx1 = idx /\ r1 = None) as [-> ->]; [|by injection H as <- <-].
  destruct v as [| | | |l|c fs]; try by apply (single_is_quiet _ _ _ _ Hv) in Hr.
  unfold make_list_field_update in Hr.
  destruct (Nat.eqb (length l) 0); [by injection Hr as <- <-|].
  bind_inv Hr as [idx2 [[[p nf] d] o]] Hl.
  apply list_field_loop_quiet in Hl as [-> ->]; [|done].
  by injection Hr as <- <-.
Qed.

Lemma sub_fields_loop_quiet (fields : list (string * pyobj)) (s s' : sub_state) :
  (forall n x, (n, x) ∈ fields -> no_unpacking x = true) ->
  sub_fields_loop single s fields = Ok s' -> s' = s.
Proof.
  revert s. induction fields as [|[n x] fields IH]; intros s Hf H; cbn in H.
  { by injection H as <-. }
  bind_inv H as s1 Hstep.
  assert (s1 = s) as ->.
  { unfold sub_field_step in Hstep.
    destruct (is_block_field n x); [discriminate|].
    destruct (negb _); [by injection Hstep as <-|].
    bind_inv Hstep as [idx1 r] Hr.
    apply make_field_update_quiet in Hr as [-> ->]; [|apply (Hf n); left].
    injection Hstep as <-. by destruct s. }
  apply IH; [|done]. intros m y Hin. apply (Hf m). by right.
Qed.

Lemma single_field_body_quiet : single_quiet (single_field_body single).
Proof.
  intros idx v idx' r Hv H. unfold single_field_body in H.
  destruct v as [| | | |l|c fs]; try done.
  apply no_unpacking_node in Hv as [Hfree Hfs].
  rewrite (make_val_node_update_free idx _ Hfree) in H.
  destruct (isinstance (Node c fs) (ArgUnpackNodes ++ KwArgUnpackNodes));
    cbn [mbind result_bind iter_fields] in H.
  all: bind_inv H as s Hloop.
  all: apply sub_fields_loop_quiet in Hloop as ->;
    [cbn in H; by injection H as <- <-|].
  all: intros n x Hin; apply (Hfs n).
  all: by rewrite <- (sorted_perm node_field_sort_key key_lt fs : sorted_fields fs ≡ₚ fs).
Qed.

End single_quiet.

Lemma make_single_field_update_quiet (fuel : nat) :
  single_quiet (make_single_field_update fuel).
Proof.
  induction fuel as [|fuel IH]; [by intros ? ? ? ? ? ?|].
  by apply single_field_body_quiet.
Qed.

Lemma no_unpacking_list (l : list pyobj) :
  no_unpacking (PyList l) = forallb no_unpacking l.
Proof. reflexivity. Qed.

Section block_quiet.

Variable nested : tmp_var_index -> list pyobj -> result (tmp_var_index * list pyobj).
Variable fuel : nat.
Hypothesis nested_is_quiet : nested_quiet nested.

Lemma stmt_fields_loop_quiet (body_copy : list pyobj) (i : nat)
    (c : string) (fs : list (string * pyobj))
    (todo : list (string * pyobj)) (s s' : pass_state) :
  ps_node s = Node c fs -> NoDup (map fst fs) ->
  (forall e, e ∈ todo -> e ∈ fs /\ field_block_ok e = true /\ no_unpacking e.2 = true) ->
  stmt_fields_loop nested fuel body_copy i s todo = Ok s' -> s' = s.
Proof.
  intros Hnode Hnd. induction todo as [|[n x] todo IH]; intros Hall H; cbn in H.
  { by injection H as <-. }
  bind_inv H as s1 Hstep.
  assert (s1 = s) as ->.
  { destruct (Hall (n, x)) as (Hin & Hok & Hx); [left|]. cbn [snd] in Hx.
    unfold stmt_field_step in Hstep.
    destruct (negb _); [by injection Hstep as <-|].
    destruct (is_block_field n x) eqn:Hblock.
    - bind_inv Hstep as l Hl. bind_inv Hstep as [idx1 l'] Hn.
      destruct x as [| | | |l0|]; try done. cbn in Hl. injection Hl as ->.
      unfold is_block_field in Hblock. apply andb_true_iff in Hblock as [Hmem _].
      unfold field_block_ok in Hok. cbn [fst snd] in Hok. rewrite Hmem in Hok.
      apply nested_is_quiet in Hn as [-> ->]; [|done|done].
      injection Hstep as <-. destruct s as [idx body o node]. cbn in *. subst node.
      cbn. by rewrite set_field_same.
    - bind_inv Hstep as [idx1 r] Hr.
      apply (make_field_update_quiet _ (make_single_field_update_quiet fuel)) in Hr
        as [-> ->]; [|done].
      injection Hstep as <-. by destruct s. }
  apply IH; [|done]. intros e He. apply Hall. by right.
Qed.

Lemma stmts_loop_quiet (body_copy : list pyobj) (todo : list pyobj) (i : nat)
    (idx : tmp_var_index) (body : list slot) (o : nat) (nodes : list pyobj)
    (idx' : tmp_var_index) (body' : list slot) (nodes' : list pyobj) :
  forallb stmt_ok todo = true -> forallb no_unpacking todo = true ->
  (forall j node, todo !! j = Some node -> nodes !! (i + j)%nat = Some node) ->
  stmts_loop nested fuel body_copy i todo idx body o nodes = Ok (idx', body', nodes') ->
  idx' = idx /\ body' = body /\ nodes' = nodes.
Proof.
  revert i. induction todo as [|node todo IH]; intros i Hok Hclean Hnodes H; cbn in H.
  { by injection H as <- <- <-. }
  cbn in Hok, Hclean. apply andb_true_iff in Hok as [Hnode Hok].
  apply andb_true_iff in Hclean as [Hcn Hclean].
  destruct node as [| | | |?|c fs]; try done. cbn [iter_fields mbind result_bind] in H.
  bind_inv H as s Hloop.
  apply stmt_ok_fields in Hnode as (_ & Hnd & Hfb).
  apply no_unpacking_node in Hcn as [_ Hfs].
  apply (stmt_fields_loop_quiet body_copy i c fs) in Hloop as ->; [|done|done|].
  - cbn [ps_idx ps_body ps_o ps_node] in H.
    rewrite list_insert_id in H.
    + apply IH in H; [done..|]. intros j node Hj.
      replace (S i + j)%nat with (i + S j)%nat by lia. by apply Hnodes.
    + specialize (Hnodes 0%nat (Node c fs) eq_refl). by rewrite Nat.add_0_r in Hnodes.
  - intros [n x] He.
    rewrite (sorted_perm node_field_sort_key key_lt fs : sorted_fields fs ≡ₚ fs) in He.
    split_and!; [done| |by apply (Hfs n)].
    rewrite Forall_forall in Hfb. by apply Hfb.
Qed.

Lemma body_pass_quiet : nested_quiet (body_pass nested fuel).
Proof.
  intros idx body idx' body' Hok Hclean H. unfold body_pass in H.
  bind_inv H as [[idx1 slots] nodes] Hloop.
  apply stmts_loop_quiet in Hloop as (-> & -> & ->); [|done..].
  injection H as <- <-. by rewrite resolve_identity.
Qed.

Lemma body_loop_quiet (n : nat) (idx idx' : tmp_var_index) (body body' : list pyobj) :
  block_ok body = true -> forallb no_unpacking body = true ->
  body_loop (body_pass nested fuel) n (length body) (-1) idx body = Ok (idx', body') ->
  idx' = idx /\ body' = body.
Proof.
  intros Hok Hclean H. destruct n as [|n]; cbn [body_loop] in H.
  { destruct (Z.eqb_spec (-1) (Z.of_nat (length body))) as [Heq|_]; [lia|].
    by destruct (Nat.ltb _ _). }
  destruct (Z.eqb_spec (-1) (Z.of_nat (length body))) as [Heq|_]; [lia|].
  destruct (Nat.ltb _ _); [discriminate|].
  bind_inv H as [idx1 body1] Hpass.
  apply body_pass_quiet in Hpass as [-> ->]; [|done..].
  destruct n; cbn [body_loop] in H; rewrite Z.eqb_refl in H; by injection H as <- <-.
Qed.

End block_quiet.

Lemma apply_body_updates_quiet (fuel : nat) : nested_quiet (apply_body_updates fuel).
Proof.
  induction fuel as [|fuel IH]; [by intros ? ? ? ? ? ? ?|].
  intros idx l idx' l' Hok Hclean H. cbn [apply_body_updates] in H.
  by apply (body_loop_quiet _ fuel IH) in H.
Qed.

(** X9: a module without unpacking is left alone. When no call or
    literal of the tree has a spread that is followed by another
    element, a run of the fixer that returns gives back the tree as
    it was and creates no temporary. *)
Theorem unpacking_fixer_leaves_clean_trees (fuel : nat) (idx idx' : tmp_var_index)
    (body : list pyobj) (tree' : pyobj) :
  block_ok body = true -> forallb no_unpacking body = true ->
  UnpackingGeneralizationsFixer_call fuel idx (ast.Module_ body) = Ok (idx', tree') ->
  idx' = idx /\ tree' = ast.Module_ body.
Proof.
  intros Hok Hclean (body' & Hb & ->)%fixer_call_inv.
  by apply apply_body_updates_quiet in Hb as [-> ->].
Qed.

Lemma unpacking_fixer_leaves_clean_trees_witness :
  UnpackingGeneralizationsFixer_call 9 5 (ast.Module_ trailing_spread_stmts)
  = Ok (5%nat, ast.Module_ trailing_spread_stmts).
Proof.
  destruct (UnpackingGeneralizationsFixer_call 9 5 (ast.Module_ trailing_spread_stmts))
    as [[idx' tree']| |] eqn:H; [|by vm_compute in H..].
  destruct (unpacking_fixer_leaves_clean_trees 9 5 idx' trailing_spread_stmts tree'
              eq_refl eq_refl H) as [-> ->].
  reflexivity.
Defined.

(** ** What stops the unpacking fixer *)

Lemma fails_bind_l {A B : Type} (m : result A) (k : A -> result B) :
  fails m -> fails (m ≫= k).
Proof. intros Hm b. destruct m as [a|e|]; cbn; [by destruct (Hm a)|done..]. Qed.

Lemma fails_bind_r {A B : Type} (m : result A) (k : A -> result B) :
  (forall a, m = Ok a -> fails (k a)) -> fails (m ≫= k).
Proof. intros Hk b. destruct m as [a|e|]; cbn; [by apply Hk|done..]. Qed.

Lemma existsb_perm {A : Type} (P : A -> bool) (l k : list A) :
  l ≡ₚ k -> existsb P l = existsb P k.
Proof.
  induction 1; cbn; try congruence.
  by destruct (P x), (P y).
Qed.

Lemma breaks_node (c : string) (fs : list (string * pyobj)) :
  breaks (Node c fs) = unpacking_free (Node c fs) && existsb stops_update fs.
Proof. reflexivity. Qed.

Lemma stmt_breaks_node (c : string) (fs : list (string * pyobj)) :
  stmt_breaks (Node c fs) = existsb stops_pass fs.
Proof. reflexivity. Qed.

Section single_fails.

Variable single : tmp_var_index -> pyobj -> result (tmp_var_index * option FieldUpdate).
Hypothesis single_fails : forall idx x, unhandled x = true -> fails (single idx x).

Lemma list_field_loop_fails (l : list pyobj) (idx : tmp_var_index) :
  existsb unhandled l = true -> fails (list_field_loop single idx l).
Proof.
  revert idx. induction l as [|x l IH]; intros idx; [done|].
  cbn [existsb list_field_loop]. intros [Hx|Hl]%orb_true_iff.
  - by apply fails_bind_l, single_fails.
  - apply fails_bind_r. intros [idx1 r] _. apply fails_bind_l. by apply IH.
Qed.

Lemma sub_field_step_fails (s : sub_state) (n : string) (x : pyobj) :
  stops_update (n, x) = true -> fails (sub_field_step single s n x).
Proof.
  unfold stops_update, sub_field_step. cbn [fst snd].
  destruct (is_block_field n x); [done|]. cbn [orb]. intros Hx.
  destruct x as [| | | |l|c fs]; try done; cbn [is_list is_ast orb negb].
  - apply fails_bind_l. unfold make_field_update. apply fails_bind_l.
    unfold make_list_field_update. destruct l as [|y l]; [done|]. cbn [length Nat.eqb].
    by apply fails_bind_l, list_field_loop_fails.
  - apply fails_bind_l. unfold make_field_update. apply fails_bind_l.
    apply single_fails. unfold unhandled. by rewrite Hx, orb_true_r.
Qed.

Lemma sub_fields_loop_fails (fields : list (string * pyobj)) (s : sub_state) :
  existsb stops_update fields = true -> fails (sub_fields_loop single s fields).
Proof.
  revert s. induction fields as [|[n x] fields IH]; intros s; [done|].
  cbn [existsb sub_fields_loop]. intros [Hx|Hrest]%orb_true_iff.
  - by apply fails_bind_l, sub_field_step_fails.
  - apply fails_bind_r. intros s1 _. by apply IH.
Qed.

Lemma single_field_body_fails (idx : tmp_var_index) (x : pyobj) :
  unhandled x = true -> fails (single_field_body single idx x).
Proof.
  unfold unhandled, single_field_body. intros Hx.
  destruct x as [| | | |l|c fs]; try done.
  cbn [is_ast negb orb] in Hx. rewrite breaks_node in Hx.
  apply andb_true_iff in Hx as [Hfree Hfs].
  rewrite (make_val_node_update_free idx _ Hfree).
  destruct (isinstance (Node c fs) (ArgUnpackNodes ++ KwArgUnpackNodes));
    cbn [mbind result_bind iter_fields];
    apply fails_bind_l, sub_fields_loop_fails;
    by rewrite (existsb_perm _ _ fs (sorted_perm node_field_sort_key key_lt fs)).
Qed.

End single_fails.

Lemma make_single_field_update_fails (fuel : nat) (idx : tmp_var_index) (x : pyobj) :
  unhandled x = true -> fails (make_single_field_update fuel idx x).
Proof.
  revert idx x. induction fuel as [|fuel IH]; intros idx x Hx; [done|].
  cbn [make_single_field_update]. by apply single_field_body_fails.
Qed.

Section block_fails.

Variable nested : tmp_var_index -> list pyobj -> result (tmp_var_index * list pyobj).
Variable fuel : nat.
Hypothesis nested_fails :
  forall idx l, existsb stmt_breaks l = true -> fails (nested idx l).

Lemma stmt_field_step_fails (body_copy : list pyobj) (i : nat) (s : pass_state)
    (n : string) (x : pyobj) :
  stops_pass (n, x) = true -> fails (stmt_field_step nested fuel body_copy i s n x).
Proof.
  unfold stops_pass, stmt_field_step, is_block_field. cbn [fst snd]. intros Hx.
  destruct x as [| | | |l|c fs]; try done; cbn [is_list is_ast orb negb].
  - destruct (str_mem n STMTLIST_FIELD_NAMES); cbn [andb].
    + cbn [iter_list mbind result_bind]. apply fails_bind_l. by apply nested_fails.
    + apply fails_bind_l. unfold make_field_update. apply fails_bind_l.
      unfold make_list_field_update. destruct l as [|y l]; [done|]. cbn [length Nat.eqb].
      apply fails_bind_l, list_field_loop_fails; [|done].
      intros j y' Hy. by apply make_single_field_update_fails.
  - rewrite andb_false_r. apply fails_bind_l. unfold make_field_update.
    apply fails_bind_l, make_single_field_update_fails.
    unfold unhandled. by rewrite Hx, orb_true_r.
Qed.

Lemma stmt_fields_loop_fails (body_copy : list pyobj) (i : nat)
    (fields : list (string * pyobj)) (s : pass_state) :
  existsb stops_pass fields = true ->
  fails (stmt_fields_loop nested fuel body_copy i s fields).
Proof.
  revert s. induction fields as [|[n x] fields IH]; intros s; [done|].
  cbn [existsb stmt_fields_loop]. intros [Hx|Hrest]%orb_true_iff.
  - by apply fails_bind_l, stmt_field_step_fails.
  - apply fails_bind_r. intros s1 _. by apply IH.
Qed.

Lemma stmts_loop_fails (body_copy : list pyobj) (todo : list pyobj) (i : nat)
    (idx : tmp_var_index) (body : list slot) (o : nat) (nodes : list pyobj) :
  existsb stmt_breaks todo = true ->
  fails (stmts_loop nested fuel body_copy i todo idx body o nodes).
Proof.
  revert i idx body o nodes. induction todo as [|node todo IH];
    intros i idx body o nodes; [done|].
  cbn [existsb stmts_loop]. intros [Hn|Hrest]%orb_true_iff.
  - destruct node as [| | | |?|c fs]; try done. cbn [iter_fields mbind result_bind].
    apply fails_bind_l, stmt_fields_loop_fails.
    rewrite (existsb_perm _ _ fs (sorted_perm node_field_sort_key key_lt fs)).
    exact Hn.
  - apply fails_bind_r. intros fs _. apply fails_bind_r. intros s _. by apply IH.
Qed.

Lemma body_pass_fails (idx : tmp_var_index) (body : list pyobj) :
  existsb stmt_breaks body = true -> fails (body_pass nested fuel idx body).
Proof. intros Hb. unfold body_pass. by apply fails_bind_l, stmts_loop_fails. Qed.

End block_fails.

Lemma apply_body_updates_fails (fuel : nat) (idx : tmp_var_index) (body : list pyobj) :
  existsb stmt_breaks body = true -> fails (apply_body_updates fuel idx body).
Proof.
  revert idx body. induction fuel as [|fuel IH]; intros idx body Hb; [done|].
  cbn [apply_body_updates]. rewrite Nat.add_1_r. cbn [body_loop].
  destruct (Z.eqb_spec (-1) (Z.of_nat (length body))) as [Heq|_]; [lia|].
  destruct (Nat.ltb_spec (length body * 100) (length body)) as [Hlt|_]; [lia|].
  by apply fails_bind_l, body_pass_fails.
Qed.

(** X7: what the fixer cannot process. Every list that is no block
    is treated as a list of expressions, and every expression as a
    node without blocks. So when a statement of a block, at any
    depth of blocks, holds outside the calls and literals that are
    expanded a list element that is no node (the [None] key of
    [{**m}], the [None] default of a keyword-only parameter, a name
    of a [global] statement) or a node with a block (an [except]
    clause), [apply_body_updates] raises an exception; on the
    element or the node itself [make_single_field_update] raises
    [AttributeError] and fails its assertion about block fields. *)
Theorem unhandled_nodes_stop_the_fixer (fuel : nat) (idx : tmp_var_index)
    (body : list pyobj) :
  existsb stmt_breaks body = true ->
  (height (PyList body) < fuel)%nat ->
  (exists e, apply_body_updates fuel idx body = Raise e)
  /\ (forall x, is_ast x = false ->
        make_single_field_update fuel idx x = Raise (AttributeError "_fields"))
  /\ (forall type name handler_body,
        make_single_field_update fuel idx (ast.ExceptHandler type name handler_body)
        = Raise (AssertionError "Unexpected block field")).
Proof.
  intros Hb Hfuel. split_and!.
  - pose proof (apply_body_updates_fails fuel idx body Hb) as Hf.
    pose proof (apply_body_updates_returns fuel idx body Hfuel) as Hr.
    destruct (apply_body_updates fuel idx body) as [a|e|]; [by destruct (Hf a)|by eauto|done].
  - intros x Hx. destruct fuel as [|fuel]; [lia|]. by destruct x.
  - intros type name handler_body. destruct fuel as [|fuel]; [lia|]. reflexivity.
Qed.

Lemma unhandled_nodes_stop_the_fixer_witness :
  exists e, apply_body_updates 9 0 [ast.If (name_ "c") [try_except] []] = Raise e.
Proof.
  refine (proj1 (unhandled_nodes_stop_the_fixer 9 0 [ast.If (name_ "c") [try_except] []] _ _)).
  - reflexivity.
  - vm_compute. lia.
Defined.

(** [global x], [d = {**m}] and a definition with a keyword-only parameter [x] without default *)
Example statements_that_stop_the_fixer :
  apply_body_updates 9 0 [global_x] = Raise (AttributeError "_fields")
  /\ apply_body_updates 9 0 [dict_of_mapping] = Raise (AttributeError "_fields")
  /\ apply_body_updates 9 0 [def_with_kwonly] = Raise (AttributeError "_fields")
  /\ forallb stmt_breaks [global_x; dict_of_mapping; def_with_kwonly] = true.
Proof. split_and!; reflexivity. Qed.

(** X8: the fixer terminates on every tree. With fuel not below the
    height of the tree the call comes back, with a tree or with an
    exception, and more fuel gives the same outcome. *)
Theorem unpacking_fixer_terminates (fuel : nat) (idx : tmp_var_index) (tree : pyobj) :
  (height tree <= fuel)%nat ->
  returns (UnpackingGeneralizationsFixer_call fuel idx tree)
  /\ forall fuel', (fuel <= fuel')%nat ->
       UnpackingGeneralizationsFixer_call fuel' idx tree
       = UnpackingGeneralizationsFixer_call fuel idx tree.
Proof.
  intros Hfuel. pose proof (fixer_call_returns fuel idx tree Hfuel) as Hr.
  split; [done|]. intros fuel' Hle.
  by apply extends_returns; [apply fixer_call_extends|].
Qed.

Lemma unpacking_fixer_terminates_witness :
  returns (UnpackingGeneralizationsFixer_call 30 0 example_module).
Proof.
  refine (proj1 (unpacking_fixer_terminates 30 0 example_module _)).
  vm_compute. lia.
Defined.

(** ** Transformers *)

(** Induction on the structure of a Python value. *)
Lemma pyobj_induction (P : pyobj -> Prop) :
  P PyNone -> (forall b, P (PyBool b)) -> (forall n, P (PyNum n)) ->
  (forall s, P (PyStr s)) ->
  (forall l, Forall P l -> P (PyList l)) ->
  (forall c fs, Forall (fun f => P (snd f)) fs -> P (Node c fs)) ->
  forall v, P v.
Proof.
  intros Hnone Hbool Hnum Hstr Hlist Hnode.
  fix IH 1. intros [| b | n | s | l | c fs].
  - exact Hnone.
  - apply Hbool.
  - apply Hnum.
  - apply Hstr.
  - apply Hlist. induction l as [|x l IHl]; constructor; [apply IH|exact IHl].
  - apply Hnode. induction fs as [|f fs IHfs]; constructor; [apply IH|exact IHfs].
Qed.

(** Induction on the nodes of a tree: the fields of a node, and the
    items of its list fields. *)
Lemma node_induction (P : pyobj -> Prop) :
  (forall v, is_ast v = false -> P v) ->
  (forall c fs,
     Forall (fun f => match snd f with
                      | PyList l => Forall P l
                      | x => P x
                      end) fs ->
     P (Node c fs)) ->
  forall v, P v.
Proof.
  intros Hother Hnode v.
  enough (P v /\ forall l, v = PyList l -> Forall P l) as [? _]; [done|].
  induction v as [| | | |l IH|c fs IH] using pyobj_induction;
    try (split; [by apply Hother|done]).
  - split; [by apply Hother|]. intros l' [= <-].
    eapply Forall_impl; [exact IH|]. by intros x [? _].
  - split; [|done]. apply Hnode.
    eapply Forall_impl; [exact IH|]. intros [n x] [Hx Hl]. cbn [snd] in *.
    destruct x; try done. by apply Hl.
Qed.

Lemma visit_node (visitor : string -> option visitor_method) (self : FixerBase)
    (c : string) (fs : list (string * pyobj)) :
  visit visitor self (Node c fs)
  = match visitor c with
    | Some visit_c => visit_c self (Node c fs)
    | None => '(self, fs) ← visit_fields (visit visitor) self fs; Ok (self, Node c fs)
    end.
Proof. reflexivity. Qed.

Section visit_induction.

Variable visitor : string -> option visitor_method.
Hypothesis visitor_nodes : methods_return_nodes visitor.
Variable P : FixerBase -> pyobj -> FixerBase -> pyobj -> Prop.
Hypothesis P_method :
  forall c fs visit_c self self' node',
    visitor c = Some visit_c -> visit_c self (Node c fs) = Ok (self', node') ->
    P self (Node c fs) self' node'.
Hypothesis P_generic :
  forall c fs self self' fs',
    visitor c = None -> visited_fields P self fs self' fs' ->
    P self (Node c fs) self' (Node c fs').

(** What a visit that returns has done: [P] holds when it holds of
    the methods of the transformer and is kept by [generic_visit]. *)
Lemma visit_induction (v : pyobj) :
  forall self self' v',
    visit visitor self v = Ok (self', v') -> is_ast v' = true /\ P self v self' v'.
Proof.
  induction v as [v Hv|c fs IH] using node_induction.
  { by destruct v. }
  intros self self' v'. rewrite visit_node.
  destruct (visitor c) as [visit_c|] eqn:Hc.
  { intros H. split; [by eapply visitor_nodes|by eapply P_method]. }
  intros H. bind_inv H as [self1 fs'] Hfs. injection H as <- <-.
  split; [done|]. apply P_generic; [done|].
  clear Hc. revert self self1 fs' Hfs.
  induction IH as [|[n x] fs Hx _ IHfs]; intros self self1 fs' H; cbn in H.
  { injection H as <- <-. constructor. }
  bind_inv H as [s1 new] Hfield. bind_inv H as [s2 rest] Hrest.
  injection H as <- <-. apply IHfs in Hrest. cbn [snd] in Hx.
  unfold visit_field in Hfield. destruct x as [| | | |l|cx fsx].
  1-4: injection Hfield as <- <-; by econstructor.
  - bind_inv Hfield as [s3 l'] Hitems. injection Hfield as <- <-.
    econstructor; [|done]. exists l'. split; [|done].
    clear Hrest IHfs. revert self s3 l' Hitems.
    induction Hx as [|y l Hy _ IHl]; intros self s3 l' H; cbn in H.
    { injection H as <- <-. constructor. }
    destruct y as [| | | |ly|cy fsy].
    1-5: bind_inv H as [s4 rest'] Hr; injection H as <- <-;
      apply IHl in Hr; by constructor.
    bind_inv H as [s4 y'] Hvy. bind_inv H as new Hnew.
    bind_inv H as [s5 rest'] Hr. injection H as <- <-.
    apply Hy in Hvy as [Hast Hp]. apply IHl in Hr.
    destruct y'; try done. injection Hnew as <-. cbn [app].
    by apply (visited_items_node _ _ _ s4).
  - bind_inv Hfield as [s3 x'] Hv. apply Hx in Hv as [Hast Hp].
    destruct x'; try done. injection Hfield as <- <-. by econstructor.
Qed.

End visit_induction.

Lemma lookup_field_set_field (n : string) (x y : pyobj) (fs : list (string * pyobj)) :
  lookup_field n fs = Some y -> lookup_field n (set_field n x fs) = Some x.
Proof.
  induction fs as [|[m v] fs IH]; [done|]. cbn.
  destruct (String.eqb m n) eqn:E; cbn; rewrite E; [done|exact IH].
Qed.
(** What [generic_visit] has visited it revisits to the same result,
    when the visits of the nodes do. *)
Lemma visited_fields_fixed (visitor : string -> option visitor_method)
    (self self' : FixerBase) (fs fs' : list (string * pyobj)) :
  visited_fields (revisit_fixed visitor) self fs self' fs' ->
  self' = self
  /\ forall self2, visit_fields (visit visitor) self2 fs' = Ok (self2, fs').
Proof.
  induction 1 as [self|self n x self1 x' rest self2 rest' Hx _ [-> IH]].
  { done. }
  assert (self1 = self
          /\ forall s, visit_field (visit visitor) s n x' = Ok (s, Some (n, x')))
    as [-> Hx'].
  { unfold visited_field in Hx. destruct x as [| | | |l|c fs0].
    1-4: destruct Hx as [-> ->]; done.
    - destruct Hx as (l' & Hl & ->).
      enough (self1 = self
              /\ forall s, visit_items (visit visitor) s l' = Ok (s, l')) as [-> Hl'].
      { split; [done|]. intros s. cbn. by rewrite Hl'. }
      clear IH. induction Hl as [s|s y s1 y' r s2 r' Hy Hy' [-> Hv] _ [-> IH]
                                 |s y r s2 r' Hy _ [-> IH]]; [done| |].
      + split; [done|]. intros s0. destruct y'; try done. cbn [visit_items].
        rewrite Hv. cbn. by rewrite IH.
      + split; [done|]. intros s0. destruct y; try done; cbn; by rewrite IH.
    - destruct Hx as (Hast & -> & Hv). split; [done|]. intros s.
      destruct x'; try done. cbn [visit_field]. by rewrite Hv. }
  split; [done|]. intros s. cbn [visit_fields]. rewrite Hx'. cbn. by rewrite IH.
Qed.

(** *** NewStyleClassesFixer *)

Lemma NewStyleClassesFixer_visit_ClassDef_again (self self' : FixerBase)
    (node node' : pyobj) :
  NewStyleClassesFixer.visit_ClassDef self node = Ok (self', node') ->
  self' = self
  /\ (exists c fs fs', node = Node c fs /\ node' = Node c fs')
  /\ forall self2, NewStyleClassesFixer.visit_ClassDef self2 node' = Ok (self2, node').
Proof.
  unfold NewStyleClassesFixer.visit_ClassDef. intros H.
  bind_inv H as bases Hb. bind_inv H as n Hn.
  destruct node as [| | | |?|c fs]; try done. cbn in Hb.
  destruct (lookup_field "bases" fs) as [b|] eqn:Hl; [|done]. injection Hb as ->.
  destruct (Nat.eqb_spec n 0) as [->|Hne].
  - destruct bases as [| | | |l|]; try done. injection H as <- <-.
    split; [done|]. split; [by eauto|]. intros self2. cbn.
    rewrite (lookup_field_set_field _ _ _ _ Hl). cbn.
    rewrite length_app. cbn. by rewrite Nat.add_1_r.
  - injection H as <- <-. split; [done|]. split; [by eauto|]. intros self2. cbn.
    rewrite Hl. cbn. rewrite Hn. cbn. apply Nat.eqb_neq in Hne. by rewrite Hne.
Qed.

Lemma NewStyleClassesFixer_nodes :
  methods_return_nodes NewStyleClassesFixer.visitor.
Proof.
  intros c visit_c self node self' node' Hc H. unfold NewStyleClassesFixer.visitor in Hc.
  destruct (String.eqb c "ClassDef"); [|done]. injection Hc as <-.
  by apply NewStyleClassesFixer_visit_ClassDef_again in H as (_ & (? & ? & ? & _ & ->) & _).
Qed.

(** X10: [NewStyleClassesFixer] is idempotent and changes nothing
    but bases: a run that returns leaves the fixer instance as it
    was, and a second run on its result returns that result. A
    class without bases gets the one base [object], also when it has
    keywords such as a metaclass; its body is returned as it is, so
    a class nested directly in a class is not visited and keeps no
    bases. *)
Theorem NewStyleClassesFixer_idempotent (self self' : FixerBase) (cfg : BuildConfig)
    (tree tree' : pyobj) :
  NewStyleClassesFixer.call self cfg tree = Ok (self', tree') ->
  self' = self
  /\ NewStyleClassesFixer.call self cfg tree' = Ok (self, tree')
  /\ forall name keywords body decorator_list,
       NewStyleClassesFixer.call self cfg
         (ast.ClassDef name [] keywords body decorator_list)
       = Ok (self, ast.ClassDef name [ast.Name "object" ast.Load] keywords body
                                decorator_list).
Proof.
  intros H. unfold NewStyleClassesFixer.call, TransformerFixerBase_call in *.
  apply (visit_induction _ NewStyleClassesFixer_nodes
           (revisit_fixed NewStyleClassesFixer.visitor)) in H as (_ & -> & Hagain).
  - done.
  - intros c fs visit_c s s' node' Hc Hm. unfold NewStyleClassesFixer.visitor in Hc.
    destruct (String.eqb c "ClassDef") eqn:Ec; [|done]. injection Hc as <-.
    apply NewStyleClassesFixer_visit_ClassDef_again in Hm
      as (-> & (c1 & fs1 & fs' & [= <- <-] & ->) & Hagain).
    split; [done|]. intros self2. rewrite visit_node.
    unfold NewStyleClassesFixer.visitor. rewrite Ec. apply Hagain.
  - intros c fs s s' fs' Hc (-> & Hagain)%visited_fields_fixed.
    split; [done|]. intros self2. rewrite visit_node, Hc, Hagain. done.
Qed.

Lemma NewStyleClassesFixer_idempotent_witness :
  exists tree',
    NewStyleClassesFixer.call NewStyleClassesFixer.init default_cfg nested_classes_module
    = Ok (NewStyleClassesFixer.init, tree')
    /\ tree'
       = ast.Module_ [ast.ClassDef "A" [ast.Name "object" ast.Load] []
                        [ast.ClassDef "B" [] [] [ast.Pass] []] []]
    /\ NewStyleClassesFixer.call NewStyleClassesFixer.init default_cfg tree'
       = Ok (NewStyleClassesFixer.init, tree').
Proof.
  eexists. split; [reflexivity|]. split; [reflexivity|].
  refine (proj1 (proj2 (NewStyleClassesFixer_idempotent NewStyleClassesFixer.init _
                          default_cfg nested_classes_module _ _))).
  reflexivity.
Defined.
(** *** ItertoolsBuiltinsFixer *)

Lemma all_walked_node (P : pyobj -> bool) (c : string) (fs : list (string * pyobj)) :
  all_walked P (Node c fs) = P (Node c fs) && children_walked P (Node c fs).
Proof. reflexivity. Qed.

Lemma value_walked_node (P : pyobj -> bool) (x : pyobj) :
  is_ast x = true -> value_walked P x = all_walked P x.
Proof. by destruct x. Qed.

Lemma itertools_import_union (imports : gset ImportDecl) (a b : bool) :
  imports ∪ (if a then ∅ else {[ ("itertools", None) ]})
          ∪ (if b then ∅ else {[ ("itertools", None) ]})
  = imports ∪ (if a && b then ∅ else {[ ("itertools", None) ]}).
Proof.
  destruct a, b; cbn [andb]; rewrite <- ?(assoc_L (∪)), ?(right_id_L ∅ (∪)),
    ?(idemp_L (∪)); reflexivity.
Qed.

Lemma ItertoolsBuiltinsFixer_visit_Name_spec (self self' : FixerBase)
    (fs : list (string * pyobj)) (node' : pyobj) :
  ItertoolsBuiltinsFixer.visit_Name self (Node "Name" fs) = Ok (self', node') ->
  is_ast node' = true /\ itertools_visited self (Node "Name" fs) self' node'.
Proof.
  unfold ItertoolsBuiltinsFixer.visit_Name. intros H. bind_inv H as id Hid.
  assert (is_builtin_name (Node "Name" fs)
          = match id with
            | PyStr s => str_mem s ItertoolsBuiltinsFixer.BUILTIN_NAMES
            | _ => false
            end) as Hb.
  { unfold is_builtin_name. by rewrite Hid. }
  assert (forall b, is_builtin_name (Node "Name" fs) = b ->
            all_walked name_is_leaf (Node "Name" fs) = true ->
            all_walked no_builtin_name (Node "Name" fs) = negb b) as Hleaf.
  { intros b Hbn. rewrite !all_walked_node. unfold name_is_leaf at 1. cbn [isinstance].
    change (str_mem "Name" ["Name"]) with true. cbn [negb orb].
    intros [-> _]%andb_true_iff. unfold no_builtin_name at 1. by rewrite Hbn, andb_true_r. }
  destruct id as [| | |s| |];
    try (injection H as <- <-; split; [done|]; intros Hl;
         rewrite (Hleaf false Hb Hl); cbn [negb];
         rewrite (right_id_L ∅ (∪)); split_and!; done).
  destruct (str_mem s ItertoolsBuiltinsFixer.BUILTIN_NAMES) eqn:Hs; cbn [negb] in H.
  - injection H as <- <-. split; [done|]. intros Hl.
    rewrite (Hleaf true Hb Hl). cbn [negb]. split_and!; done.
  - injection H as <- <-. split; [done|]. intros Hl.
    rewrite (Hleaf false Hb Hl). cbn [negb].
    rewrite (right_id_L ∅ (∪)). split_and!; done.
Qed.

Lemma ItertoolsBuiltinsFixer_nodes :
  methods_return_nodes ItertoolsBuiltinsFixer.visitor.
Proof.
  intros c visit_c self node self' node' Hc H. unfold ItertoolsBuiltinsFixer.visitor in Hc.
  destruct (String.eqb c "Name"); [|done]. injection Hc as <-.
  unfold ItertoolsBuiltinsFixer.visit_Name in H. bind_inv H as id Hid.
  destruct node as [| | | |?|c' fs]; try done.
  destruct id as [| | |s| |]; try (by injection H as <- <-).
  destruct (negb _); by injection H as <- <-.
Qed.

Lemma itertools_visited_items (self self' : FixerBase) (l l' : list pyobj) :
  visited_items itertools_visited self l self' l' ->
  value_walked name_is_leaf (PyList l) = true ->
  value_walked no_builtin_name (PyList l') = true
  /\ version_info self' = version_info self
  /\ required_imports self'
     = required_imports self
       ∪ (if value_walked no_builtin_name (PyList l) then ∅
          else {[ ("itertools", None) ]})
  /\ (value_walked no_builtin_name (PyList l) = true -> l' = l).
Proof.
  induction 1 as [s|s y s1 y' r s2 r' Hy Hy' Hv _ IH|s y r s2 r' Hy _ IH]; intros Hl.
  - cbn [value_walked forallb]. rewrite (right_id_L ∅ (∪)). done.
  - cbn [value_walked forallb] in Hl |- *. destruct y; try done. destruct y'; try done.
    apply andb_true_iff in Hl as [Hly Hlr].
    destruct (Hv Hly) as (Hc & Hvi & Him & Hsame).
    destruct (IH Hlr) as (Hc' & Hvi' & Him' & Hsame').
    cbn [value_walked] in Hc', Him', Hsame'.
    rewrite Hc, Hc', Him', Him, itertools_import_union. split_and!; try done.
    + congruence.
    + intros [Ha Hb]%andb_true_iff. by rewrite (Hsame Ha), (Hsame' Hb).
  - cbn [value_walked forallb] in Hl |- *. destruct y; try done.
    all: cbn [andb] in *; destruct (IH Hl) as (Hc' & Hvi' & Him' & Hsame');
      cbn [value_walked] in Hc', Him', Hsame'; split_and!; try done;
      intros Hb; by rewrite (Hsame' Hb).
Qed.

Lemma itertools_visited_fields (self self' : FixerBase) (fs fs' : list (string * pyobj)) :
  visited_fields itertools_visited self fs self' fs' ->
  forallb (fun f => value_walked name_is_leaf (snd f)) fs = true ->
  forallb (fun f => value_walked no_builtin_name (snd f)) fs' = true
  /\ version_info self' = version_info self
  /\ required_imports self'
     = required_imports self
       ∪ (if forallb (fun f => value_walked no_builtin_name (snd f)) fs then ∅
          else {[ ("itertools", None) ]})
  /\ (forallb (fun f => value_walked no_builtin_name (snd f)) fs = true -> fs' = fs).
Proof.
  induction 1 as [s|s n x s1 x' rest s2 rest' Hx _ IH]; intros Hl.
  { cbn [forallb]. rewrite (right_id_L ∅ (∪)). done. }
  cbn [forallb snd] in Hl |- *. apply andb_true_iff in Hl as [Hlx Hlr].
  destruct (IH Hlr) as (Hc' & Hvi' & Him' & Hsame').
  assert (value_walked no_builtin_name x' = true
          /\ version_info s1 = version_info s
          /\ required_imports s1
             = required_imports s
               ∪ (if value_walked no_builtin_name x then ∅
                  else {[ ("itertools", None) ]})
          /\ (value_walked no_builtin_name x = true -> x' = x))
    as (Hc & Hvi & Him & Hsame).
  { unfold visited_field in Hx. destruct x as [| | | |l|c fs0].
    1-4: destruct Hx as [-> ->]; cbn; rewrite (right_id_L ∅ (∪)); done.
    - destruct Hx as (l' & Hitems & ->).
      destruct (itertools_visited_items _ _ _ _ Hitems Hlx) as (? & ? & ? & Hs).
      split_and!; try done. intros Hb. by rewrite (Hs Hb).
    - destruct Hx as [Hast Hv]. rewrite (value_walked_node _ _ Hast).
      cbn [value_walked] in Hlx |- *. exact (Hv Hlx). }
  rewrite Hc, Hc', Him', Him, itertools_import_union. split_and!; try done.
  - congruence.
  - intros [Ha Hb]%andb_true_iff. by rewrite (Hsame Ha), (Hsame' Hb).
Qed.

(** X11: [ItertoolsBuiltinsFixer] replaces every name [map], [zip]
    and [filter] of the tree, whatever its context (an assignment
    to [map] becomes an assignment to [itertools.imap]), so that no
    such name is left; it adds the import of [itertools] to the
    imports of the fixer exactly when the tree has such a name, and
    otherwise returns the tree as it is. *)
Theorem ItertoolsBuiltinsFixer_replaces_names (self self' : FixerBase)
    (cfg : BuildConfig) (tree tree' : pyobj) :
  all_walked name_is_leaf tree = true ->
  ItertoolsBuiltinsFixer.call self cfg tree = Ok (self', tree') ->
  all_walked no_builtin_name tree' = true
  /\ version_info self' = version_info self
  /\ required_imports self'
     = required_imports self
       ∪ (if all_walked no_builtin_name tree then ∅ else {[ ("itertools", None) ]})
  /\ (all_walked no_builtin_name tree = true -> tree' = tree).
Proof.
  intros Hleaf H. unfold ItertoolsBuiltinsFixer.call in H.
  apply (visit_induction _ ItertoolsBuiltinsFixer_nodes itertools_visited)
    in H as [_ Hv]; [by apply Hv| |].
  - intros c fs visit_c s s' node' Hc Hm. unfold ItertoolsBuiltinsFixer.visitor in Hc.
    destruct (String.eqb_spec c "Name") as [->|]; [|done]. injection Hc as <-.
    by apply ItertoolsBuiltinsFixer_visit_Name_spec in Hm as [_ ?].
  - intros c fs s s' fs' Hc Hfs Hl. unfold ItertoolsBuiltinsFixer.visitor in Hc.
    destruct (String.eqb_spec c "Name") as [|Hne]; [done|].
    rewrite all_walked_node in Hl. apply andb_true_iff in Hl as [_ Hl].
    rewrite (all_walked_node no_builtin_name c fs),
      (all_walked_node no_builtin_name c fs').
    destruct (itertools_visited_fields _ _ _ _ Hfs Hl) as (Hc' & Hvi & Him & Hsame).
    assert (forall fs0, no_builtin_name (Node c fs0) = true) as Hnb.
    { intros fs0. unfold no_builtin_name, is_builtin_name. cbn [isinstance str_mem existsb].
      apply String.eqb_neq in Hne. by rewrite Hne. }
    rewrite !Hnb. cbn [andb children_walked]. split_and!; try done.
    intros Hb. by rewrite (Hsame Hb).
Qed.

Lemma ItertoolsBuiltinsFixer_replaces_names_witness :
  exists self' tree',
    ItertoolsBuiltinsFixer.call ItertoolsBuiltinsFixer.init default_cfg assign_map_zip
    = Ok (self', tree')
    /\ tree'
       = ast.Module_
           [ast.Assign [ast.Attribute (ast.Name "itertools" ast.Load) "imap" ast.Load]
                       (ast.Attribute (ast.Name "itertools" ast.Load) "izip" ast.Load)]
    /\ required_imports self' = ∅ ∪ {[ ("itertools", None) ]}.
Proof.
  eexists _, _. split; [reflexivity|]. split; [reflexivity|].
  refine (proj1 (proj2 (proj2 (ItertoolsBuiltinsFixer_replaces_names
            ItertoolsBuiltinsFixer.init _ default_cfg assign_map_zip _ _ _)))).
  - reflexivity.
  - reflexivity.
Defined.
(** *** RemoveAnnAssignFixer *)

Lemma children_walked_lookup (P : pyobj -> bool) (c : string)
    (fs : list (string * pyobj)) (n : string) (x : pyobj) :
  children_walked P (Node c fs) = true -> lookup_field n fs = Some x ->
  value_walked P x = true.
Proof.
  cbn [children_walked]. intros Hfs Hl. apply lookup_field_elem in Hl.
  rewrite forallb_forall in Hfs. apply (Hfs (n, x)). by apply list_elem_of_In.
Qed.

Lemma RemoveAnnAssignFixer_visit_AnnAssign_spec (self self' : FixerBase)
    (fs : list (string * pyobj)) (node' : pyobj) :
  RemoveAnnAssignFixer.visit_AnnAssign self (Node "AnnAssign" fs) = Ok (self', node') ->
  is_ast node' = true /\ annassign_visited self (Node "AnnAssign" fs) self' node'.
Proof.
  unfold RemoveAnnAssignFixer.visit_AnnAssign. intros H. bind_inv H as target Ht.
  destruct (isinstance target ["Name"]) eqn:Hname; [|done]. cbn [negb] in H.
  bind_inv H as value Hv. injection H as <- <-. split; [done|]. split; [done|].
  rewrite all_walked_node. unfold plain_annassign at 1, not_annassign at 1.
  cbn [isinstance]. change (str_mem "AnnAssign" ["AnnAssign"]) with true.
  cbn [negb orb]. intros [Hch _]%andb_true_iff.
  cbn in Ht, Hv.
  destruct (lookup_field "target" fs) as [t|] eqn:Et; [|done]. injection Ht as ->.
  destruct (lookup_field "value" fs) as [v|] eqn:Ev; [|done]. injection Hv as ->.
  pose proof (children_walked_lookup _ _ _ _ _ Hch Et) as Htw.
  pose proof (children_walked_lookup _ _ _ _ _ Hch Ev) as Hvw.
  destruct target as [| | | |?|ct fst]; try done. cbn [value_walked] in Htw.
  unfold ast.Assign. rewrite all_walked_node.
  cbn [children_walked forallb snd value_walked]. rewrite Htw.
  assert (value_walked not_annassign
            (if is_none value then ast.NameConstant PyNone else value) = true) as ->.
  { by destruct value. }
  reflexivity.
Qed.

Lemma RemoveAnnAssignFixer_nodes :
  methods_return_nodes RemoveAnnAssignFixer.visitor.
Proof.
  intros c visit_c self node self' node' Hc H. unfold RemoveAnnAssignFixer.visitor in Hc.
  destruct (String.eqb c "AnnAssign"); [|done]. injection Hc as <-.
  unfold RemoveAnnAssignFixer.visit_AnnAssign in H. bind_inv H as target Ht.
  destruct (negb _); [done|]. bind_inv H as value Hv. by injection H as <- <-.
Qed.

Lemma annassign_visited_items (self self' : FixerBase) (l l' : list pyobj) :
  visited_items annassign_visited self l self' l' ->
  self' = self
  /\ (value_walked plain_annassign (PyList l) = true ->
      value_walked not_annassign (PyList l') = true).
Proof.
  induction 1 as [s|s y s1 y' r s2 r' Hy Hy' [-> Hv] _ [-> IH]|s y r s2 r' Hy _ [-> IH]].
  - done.
  - split; [done|]. cbn [value_walked forallb]. destruct y; try done.
    destruct y'; try done. intros [Ha Hb]%andb_true_iff.
    rewrite (Hv Ha). by apply IH.
  - split; [done|]. cbn [value_walked forallb]. destruct y; try done; by apply IH.
Qed.

Lemma annassign_visited_fields (self self' : FixerBase) (fs fs' : list (string * pyobj)) :
  visited_fields annassign_visited self fs self' fs' ->
  self' = self
  /\ (forallb (fun f => value_walked plain_annassign (snd f)) fs = true ->
      forallb (fun f => value_walked not_annassign (snd f)) fs' = true).
Proof.
  induction 1 as [s|s n x s1 x' rest s2 rest' Hx _ [-> IH]]; [done|].
  assert (s1 = s /\ (value_walked plain_annassign x = true ->
                     value_walked not_annassign x' = true)) as [-> Hx'].
  { unfold visited_field in Hx. destruct x as [| | | |l|c fs0].
    1-4: by destruct Hx as [-> ->].
    - destruct Hx as (l' & Hitems & ->). by apply annassign_visited_items.
    - destruct Hx as [Hast [-> Hv]]. by rewrite (value_walked_node _ _ Hast). }
  split; [done|]. cbn [forallb snd]. intros [Ha Hb]%andb_true_iff.
  by rewrite (Hx' Ha), (IH Hb).
Qed.

(** X12: [RemoveAnnAssignFixer] leaves no annotated assignment. A
    run that returns, on a tree whose annotated assignments hold
    none in their fields, gives a tree without [AnnAssign] nodes
    and leaves the fixer instance as it was; an annotated name
    becomes the assignment of its value to the name, and of [None]
    when it has no value, so that [x: int] becomes [x = None]. *)
Theorem RemoveAnnAssignFixer_removes_annotations (self self' : FixerBase)
    (cfg : BuildConfig) (tree tree' : pyobj) :
  all_walked plain_annassign tree = true ->
  RemoveAnnAssignFixer.call self cfg tree = Ok (self', tree') ->
  self' = self
  /\ all_walked not_annassign tree' = true
  /\ forall id ctx annotation value simple,
       RemoveAnnAssignFixer.call self cfg
         (ast.AnnAssign (ast.Name id ctx) annotation value simple)
       = Ok (self, ast.Assign [ast.Name id ctx]
                     (if is_none value then ast.NameConstant PyNone else value)).
Proof.
  intros Hplain H. unfold RemoveAnnAssignFixer.call, TransformerFixerBase_call in H.
  apply (visit_induction _ RemoveAnnAssignFixer_nodes annassign_visited)
    in H as [_ [-> Hv]]; [by split_and!; [|apply Hv|]| |].
  - intros c fs visit_c s s' node' Hc Hm. unfold RemoveAnnAssignFixer.visitor in Hc.
    destruct (String.eqb_spec c "AnnAssign") as [->|]; [|done]. injection Hc as <-.
    by apply RemoveAnnAssignFixer_visit_AnnAssign_spec in Hm as [_ ?].
  - intros c fs s s' fs' Hc Hfs. unfold RemoveAnnAssignFixer.visitor in Hc.
    destruct (String.eqb_spec c "AnnAssign") as [|Hne]; [done|].
    apply annassign_visited_fields in Hfs as [-> Hfs]. split; [done|].
    rewrite (all_walked_node plain_annassign c fs), (all_walked_node not_annassign c fs').
    intros [_ Hch]%andb_true_iff. cbn [children_walked] in *. rewrite (Hfs Hch).
    unfold not_annassign. cbn [isinstance str_mem existsb].
    apply String.eqb_neq in Hne. by rewrite Hne.
Qed.

Lemma RemoveAnnAssignFixer_removes_annotations_witness :
  RemoveAnnAssignFixer.call RemoveAnnAssignFixer.init default_cfg annotated_names_module
  = Ok (RemoveAnnAssignFixer.init,
        ast.Module_
          [parsed_FunctionDef "f"
             (ast.arguments (PyList []) PyNone (PyList []) (PyList []) PyNone (PyList []))
             [ast.Assign [ast.Name "x" ast.Store] (ast.NameConstant PyNone);
              ast.Assign [ast.Name "y" ast.Store] (ast.Num 1)]
             [] PyNone])
  /\ all_walked not_annassign
       (ast.Module_
          [parsed_FunctionDef "f"
             (ast.arguments (PyList []) PyNone (PyList []) (PyList []) PyNone (PyList []))
             [ast.Assign [ast.Name "x" ast.Store] (ast.NameConstant PyNone);
              ast.Assign [ast.Name "y" ast.Store] (ast.Num 1)]
             [] PyNone]) = true.
Proof.
  split; [reflexivity|].
  refine (proj1 (proj2 (RemoveAnnAssignFixer_removes_annotations
            RemoveAnnAssignFixer.init _ default_cfg annotated_names_module _ _ _))).
  - reflexivity.
  - reflexivity.
Defined.

(** A visit fails when the visit of one of the fields does. *)
Lemma visit_fields_fails (visit_node : FixerBase -> pyobj -> result (FixerBase * pyobj))
    (fs : list (string * pyobj)) :
  Exists (fun f => forall self, fails (visit_field visit_node self (fst f) (snd f))) fs ->
  forall self, fails (visit_fields visit_node self fs).
Proof.
  induction 1 as [[n x] fs Hx|[n x] fs _ IH]; intros self; cbn [visit_fields].
  - by apply fails_bind_l, Hx.
  - apply fails_bind_r. intros [s1 new] _. apply fails_bind_l, IH.
Qed.

Lemma visit_items_fails (visit_node : FixerBase -> pyobj -> result (FixerBase * pyobj))
    (l : list pyobj) :
  Exists (fun x => is_ast x = true /\ forall self, fails (visit_node self x)) l ->
  forall self, fails (visit_items visit_node self l).
Proof.
  induction 1 as [x l [Hx Hf]|x l _ IH]; intros self; cbn [visit_items].
  - destruct x; try done. by apply fails_bind_l, Hf.
  - destruct x; try (apply fails_bind_l, IH).
    apply fails_bind_r. intros [s1 v] _. apply fails_bind_r. intros new _.
    apply fails_bind_l, IH.
Qed.

(** X13: [RemoveAnnAssignFixer] rejects an annotated assignment whose
    target is no name. On such a node [visit_AnnAssign] raises its
    exception, and a run on a tree that holds one, outside the
    annotated assignments, never returns a tree: annotated
    attributes as [self.x: int = 0] stop the fixer. *)
Theorem RemoveAnnAssignFixer_rejects_targets (self : FixerBase) (cfg : BuildConfig)
    (tree : pyobj) :
  some_visited ["AnnAssign"] annotated_target tree = true ->
  fails (RemoveAnnAssignFixer.call self cfg tree)
  /\ forall target annotation value simple,
       isinstance target ["Name"] = false ->
       RemoveAnnAssignFixer.call self cfg (ast.AnnAssign target annotation value simple)
       = Raise RemoveAnnAssignFixer.UNEXPECTED_NODE_TYPE.
Proof.
  intros Hsome. split.
  - unfold RemoveAnnAssignFixer.call, TransformerFixerBase_call.
    revert self Hsome.
    induction tree as [v Hv|c fs IH] using node_induction; intros self Hsome.
    { by destruct v. }
    rewrite visit_node. unfold RemoveAnnAssignFixer.visitor.
    cbn [some_visited str_mem existsb] in Hsome. rewrite orb_false_r in Hsome.
    destruct (String.eqb_spec c "AnnAssign") as [->|Hne].
    + unfold annotated_target in Hsome. apply andb_true_iff in Hsome as [_ Ht].
      unfold RemoveAnnAssignFixer.visit_AnnAssign.
      destruct (getattr (Node "AnnAssign" fs) "target") as [t| |]; [|done..].
      cbn [mbind result_bind]. by rewrite Ht.
    + apply fails_bind_l, visit_fields_fails.
      apply existsb_exists in Hsome as ([n x] & Hin & Hx). cbn [snd] in Hx.
      apply list_elem_of_In in Hin.
      rewrite Forall_forall in IH. specialize (IH _ Hin). cbn [snd] in IH.
      apply Exists_exists. exists (n, x). split; [done|]. cbn [fst snd]. intros s.
      unfold visit_field. destruct x as [| | | |l|cx fsx]; try done.
      * apply fails_bind_l, visit_items_fails.
        apply existsb_exists in Hx as (y & Hy & Hsy). apply list_elem_of_In in Hy.
        rewrite Forall_forall in IH. specialize (IH _ Hy).
        apply Exists_exists. exists y. split; [done|].
        destruct y; try done. split; [done|]. intros s'. by apply IH.
      * apply fails_bind_l. by apply IH.
  - intros target annotation value simple Ht.
    unfold RemoveAnnAssignFixer.call, TransformerFixerBase_call.
    cbn. by rewrite Ht.
Qed.

Lemma RemoveAnnAssignFixer_rejects_targets_witness :
  RemoveAnnAssignFixer.call RemoveAnnAssignFixer.init default_cfg
    annotated_attribute_module
  = Raise RemoveAnnAssignFixer.UNEXPECTED_NODE_TYPE
  /\ fails (RemoveAnnAssignFixer.call RemoveAnnAssignFixer.init default_cfg
              annotated_attribute_module).
Proof.
  split; [reflexivity|].
  refine (proj1 (RemoveAnnAssignFixer_rejects_targets RemoveAnnAssignFixer.init
                   default_cfg annotated_attribute_module _)).
  reflexivity.
Defined.

(** ** f-strings *)

Lemma string_app_assoc (s1 s2 s3 : string) :
  (s1 +:+ s2) +:+ s3 = s1 +:+ (s2 +:+ s3).
Proof.
  induction s1 as [|c s1 IH]; [done|].
  change (String c ((s1 +:+ s2) +:+ s3) = String c (s1 +:+ (s2 +:+ s3))).
  by rewrite IH.
Qed.

Lemma string_app_nil_r (s : string) : s +:+ "" = s.
Proof.
  induction s as [|c s IH]; [done|]. change (String c (s +:+ "") = String c s).
  by rewrite IH.
Qed.

Lemma parts_depth_cons (p : fstring_part) (parts : list fstring_part) (n : nat) :
  parts_depth (p :: parts) <= n -> part_depth p <= n /\ parts_depth parts <= n.
Proof.
  unfold parts_depth. cbn [map].
  change (list_max (?x :: ?l)) with (Nat.max x (list_max l)). lia.
Qed.

Section values_loop.

Import FStringToStrFormatFixer.

Variable joined : pyobj -> list pyobj -> result (string * list pyobj).
Variable n : nat.
Hypothesis joined_parts :
  forall parts arg_nodes,
    parts_depth parts < n ->
    joined (fstring parts) arg_nodes
    = Ok (numbered part_str (length arg_nodes) parts,
          arg_nodes ++ flat_map part_values parts).

Lemma formatted_value_str_field (value : pyobj) (conversion : Z)
    (format_spec : option (list fstring_part)) (arg_nodes : list pyobj) :
  part_depth (Field value conversion format_spec) <= n ->
  formatted_value_str joined (part_node (Field value conversion format_spec)) arg_nodes
  = Ok (part_str (length arg_nodes) (Field value conversion format_spec),
        arg_nodes ++ part_values (Field value conversion format_spec)).
Proof.
  intros Hd. unfold formatted_value_str. destruct format_spec as [parts|].
  - cbn [part_node part_depth] in *.
    change (getattr (ast.FormattedValue ?v ?c ?s) "value") with (Ok v).
    change (getattr (ast.FormattedValue ?v ?c ?s) "format_spec") with (Ok s).
    cbn [mbind result_bind]. change (ast.JoinedStr (map part_node parts)) with (fstring parts).
    change (is_none (fstring parts)) with false.
    change (isinstance (fstring parts) ["JoinedStr"]) with true. cbn [negb].
    rewrite joined_parts by (unfold parts_depth; lia).
    cbn [mbind result_bind part_str part_values].
    rewrite length_app, Nat.add_1_r, <- app_assoc. reflexivity.
  - cbn [part_node part_depth part_str part_values] in *.
    change (getattr (ast.FormattedValue ?v ?c ?s) "value") with (Ok v).
    change (getattr (ast.FormattedValue ?v ?c ?s) "format_spec") with (Ok s).
    reflexivity.
Qed.

Lemma values_loop_parts_app (parts : list fstring_part) (rest : list pyobj)
    (fmt_str : string) (arg_nodes : list pyobj) :
  parts_depth parts <= n ->
  values_loop joined (map part_node parts ++ rest) fmt_str arg_nodes
  = values_loop joined rest (fmt_str +:+ numbered part_str (length arg_nodes) parts)
      (arg_nodes ++ flat_map part_values parts).
Proof.
  revert fmt_str arg_nodes.
  induction parts as [|p parts IH]; intros fmt_str arg_nodes Hd.
  { cbn. by rewrite string_app_nil_r, app_nil_r. }
  apply parts_depth_cons in Hd as [Hp Hd]. cbn [map app values_loop].
  destruct p as [s|value conversion format_spec].
  - cbn [part_node]. change (isinstance (ast.Str s) ["Str"]) with true.
    change (getattr (ast.Str s) "s") with (Ok (PyStr s)). cbn [mbind result_bind].
    rewrite IH by done. cbn [numbered part_str part_values flat_map length app].
    by rewrite Nat.add_0_r, string_app_assoc.
  - change (isinstance (part_node (Field value conversion format_spec)) ["Str"])
      with false.
    change (isinstance (part_node (Field value conversion format_spec))
              ["FormattedValue"]) with true.
    rewrite formatted_value_str_field by done. cbn [mbind result_bind].
    rewrite IH by done. cbn [numbered flat_map].
    by rewrite length_app, string_app_assoc, <- app_assoc.
Qed.

Lemma values_loop_parts (parts : list fstring_part) (fmt_str : string)
    (arg_nodes : list pyobj) :
  parts_depth parts <= n ->
  values_loop joined (map part_node parts) fmt_str arg_nodes
  = Ok (fmt_str +:+ numbered part_str (length arg_nodes) parts,
        arg_nodes ++ flat_map part_values parts).
Proof.
  intros Hd. rewrite <- (app_nil_r (map part_node parts)).
  by rewrite values_loop_parts_app.
Qed.

End values_loop.

Lemma joined_str_str_parts (fuel : nat) (parts : list fstring_part)
    (arg_nodes : list pyobj) :
  parts_depth parts < fuel ->
  FStringToStrFormatFixer.joined_str_str fuel (fstring parts) arg_nodes
  = Ok (numbered part_str (length arg_nodes) parts,
        arg_nodes ++ flat_map part_values parts).
Proof.
  revert parts arg_nodes. induction fuel as [|fuel IH]; intros parts arg_nodes Hd; [lia|].
  cbn [FStringToStrFormatFixer.joined_str_str].
  change (getattr (fstring parts) "values") with (Ok (PyList (map part_node parts))).
  cbn [mbind result_bind FStringToStrFormatFixer.iter_values].
  rewrite (values_loop_parts _ fuel) by (done || lia). reflexivity.
Qed.

(** X14: [visit_JoinedStr] turns an f-string into a call of
    [str.format]. On an f-string as the parser builds it, with fuel
    above the nesting of its format specifications, the call
    returns ["<format string>".format(<expressions>)] without
    keywords and leaves the fixer instance as it is: the arguments
    are the expressions of the f-string in the order of its text,
    those of a format specification after the expression it
    belongs to, each one as it was; the format string has the
    texts as they are and, for the expression of number [i], [{i}]
    or [{i:<specification>}]. The conversion of an expression does
    not reach the result. *)
Theorem visit_JoinedStr_format_call (fuel : nat) (self : FixerBase)
    (parts : list fstring_part) :
  parts_depth parts < fuel ->
  FStringToStrFormatFixer.visit_JoinedStr fuel self (fstring parts)
  = Ok (self,
        ast.Call (ast.Attribute (ast.Str (format_string parts)) "format" ast.Load)
                 (PyList (flat_map part_values parts)) (PyList [])).
Proof.
  intros Hd. unfold FStringToStrFormatFixer.visit_JoinedStr.
  by rewrite joined_str_str_parts.
Qed.

Lemma visit_JoinedStr_format_call_witness :
  FStringToStrFormatFixer.visit_JoinedStr 2 FStringToStrFormatFixer.init
    (fstring fstring_x_y_w)
  = Ok (FStringToStrFormatFixer.init,
        ast.Call (ast.Attribute (ast.Str "a{0}b{1:>{2}}") "format" ast.Load)
                 (PyList [name_ "x"; name_ "y"; name_ "w"]) (PyList [])).
Proof.
  refine (visit_JoinedStr_format_call 2 FStringToStrFormatFixer.init fstring_x_y_w _).
  vm_compute. lia.
Defined.

Lemma isinstance_neither (v : pyobj) :
  isinstance v ["Str"; "FormattedValue"] = false ->
  isinstance v ["Str"] = false /\ isinstance v ["FormattedValue"] = false.
Proof.
  destruct v as [| | | | |c fs]; try done. unfold isinstance, str_mem. cbn [existsb].
  rewrite !orb_false_r. by intros [? ?]%orb_false_iff.
Qed.

(** X15: [visit_JoinedStr] raises its exception on what is no part
    of an f-string. When the values of the node start with parts as
    the parser builds them, which the fuel suffices for, and go on
    with a value that is neither a [Str] nor a [FormattedValue], or
    with a [FormattedValue] whose format specification is neither
    [None] nor a [JoinedStr], the call raises the exception,
    whatever follows that value. *)
Theorem visit_JoinedStr_unexpected (fuel : nat) (self : FixerBase)
    (parts : list fstring_part) (val : pyobj) (rest : list pyobj) :
  parts_depth parts < fuel ->
  isinstance val ["Str"; "FormattedValue"] = false
  \/ (exists value conversion format_spec,
        val = ast.FormattedValue value conversion format_spec
        /\ is_none format_spec = false
        /\ isinstance format_spec ["JoinedStr"] = false) ->
  FStringToStrFormatFixer.visit_JoinedStr fuel self
    (ast.JoinedStr (map part_node parts ++ val :: rest))
  = Raise FStringToStrFormatFixer.UNEXPECTED_NODE_TYPE.
Proof.
  intros Hd Hval. unfold FStringToStrFormatFixer.visit_JoinedStr.
  destruct fuel as [|fuel]; [lia|]. cbn [FStringToStrFormatFixer.joined_str_str].
  change (getattr (ast.JoinedStr ?l) "values") with (Ok (PyList l)).
  cbn [mbind result_bind FStringToStrFormatFixer.iter_values].
  rewrite (values_loop_parts_app _ fuel) by (intros; by apply joined_str_str_parts || lia).
  cbn [FStringToStrFormatFixer.values_loop].
  destruct Hval as [Hval|(value & conversion & format_spec & -> & Hnone & Hspec)].
  - apply isinstance_neither in Hval as [-> ->]. reflexivity.
  - change (isinstance (ast.FormattedValue ?v ?c ?s) ["Str"]) with false.
    change (isinstance (ast.FormattedValue ?v ?c ?s) ["FormattedValue"]) with true.
    unfold FStringToStrFormatFixer.formatted_value_str.
    change (getattr (ast.FormattedValue ?v ?c ?s) "value") with (Ok v).
    change (getattr (ast.FormattedValue ?v ?c ?s) "format_spec") with (Ok s).
    cbn [mbind result_bind]. by rewrite Hnone, Hspec.
Qed.

Lemma visit_JoinedStr_unexpected_witness :
  FStringToStrFormatFixer.visit_JoinedStr 1 FStringToStrFormatFixer.init
    (ast.JoinedStr [ast.Str "a"; ast.FormattedValue (name_ "x") (-1) (ast.Str ">")])
  = Raise FStringToStrFormatFixer.UNEXPECTED_NODE_TYPE.
Proof.
  refine (visit_JoinedStr_unexpected 1 FStringToStrFormatFixer.init [Text "a"]
            (ast.FormattedValue (name_ "x") (-1) (ast.Str ">")) [] _ _).
  - vm_compute. lia.
  - right. by exists (name_ "x"), (-1)%Z, (ast.Str ">").
Defined.

(** ** Files left out of a build *)

Lemma string_length_app (s t : string) :
  String.length (s +:+ t) = String.length s + String.length t.
Proof.
  induction s as [|c s IH]; [done|].
  change (S (String.length (s +:+ t)) = S (String.length s + String.length t)).
  by rewrite IH.
Qed.

Lemma substring_all (s : string) : substring 0 (String.length s) s = s.
Proof. induction s as [|c s IH]; [done|]. cbn. by rewrite IH. Qed.

Lemma endswith_app (prefix suffix : string) : endswith (prefix +:+ suffix) suffix = true.
Proof.
  unfold endswith. rewrite string_length_app.
  apply andb_true_iff. split; [apply Nat.leb_le; lia|].
  replace (String.length prefix + String.length suffix - String.length suffix)
    with (String.length prefix) by lia.
  apply String.eqb_eq. induction prefix as [|c prefix IH]; [apply substring_all|].
  exact IH.
Qed.

Lemma endswith_split (s suffix : string) :
  endswith s suffix = true -> exists prefix, s = prefix +:+ suffix.
Proof.
  unfold endswith. intros [Hle Heq]%andb_true_iff. apply Nat.leb_le in Hle.
  apply String.eqb_eq in Heq. revert Hle Heq.
  generalize (String.length suffix) as m. intros m.
  induction s as [|c s IH]; intros Hle Heq.
  - exists "". cbn in *. by destruct m.
  - destruct (decide (m = String.length (String c s))) as [->|Hne].
    + exists "". rewrite Nat.sub_diag, substring_all in Heq. done.
    + cbn [String.length] in *. replace (S (String.length s) - m)
        with (S (String.length s - m)) in Heq by lia.
      cbn [substring] in Heq. destruct IH as [prefix ->]; [lia|done|].
      by exists (String c prefix).
Qed.

(** X16: [_ingore_tmp_files] answers with names of the directory, in
    their order, as [shutil.copytree] asks of it. In a directory
    whose path ends in [build], [dist] or [__pycache__], whatever
    stands before, every name is left out; in every other
    directory the names left out are those that end in [.pyc]. A
    name that ends in [.pyc] is left out of every directory, and
    so is every name of a directory like [rebuild]. *)
Theorem ingore_tmp_files_names (src : string) (names : list string) :
  let tmp_dir :=
    existsb (endswith src) ["build"; "dist"; "__pycache__"] in
  sublist (_ingore_tmp_files src names) names
  /\ (forall name,
        name ∈ _ingore_tmp_files src names
        <-> name ∈ names /\ (tmp_dir = true \/ endswith name ".pyc" = true))
  /\ (tmp_dir = true
      <-> exists prefix dir,
            dir ∈ ["build"; "dist"; "__pycache__"] /\ src = prefix +:+ dir)
  /\ (tmp_dir = true -> _ingore_tmp_files src names = names).
Proof.
  intros tmp_dir. unfold _ingore_tmp_files. subst tmp_dir. cbn [existsb].
  rewrite orb_false_r. split_and!.
  - destruct (endswith src "build"), (endswith src "dist"),
      (endswith src "__pycache__"); try done.
    induction names as [|n names IH]; [done|]. cbn [List.filter].
    destruct (endswith n ".pyc"); by constructor.
  - intros name.
    destruct (endswith src "build"), (endswith src "dist"),
      (endswith src "__pycache__"); cbn [orb]; try (split; [by auto|by intros [? _]]).
    rewrite list_elem_of_In, filter_In, <- list_elem_of_In.
    split; [intros [? ?]; by auto|]. by intros [? [?|?]].
  - split.
    + intros H.
      destruct (endswith src "build") eqn:H1;
        [apply endswith_split in H1 as [prefix ->]; exists prefix, "build";
         split; [set_solver|done]|].
      destruct (endswith src "dist") eqn:H2;
        [apply endswith_split in H2 as [prefix ->]; exists prefix, "dist";
         split; [set_solver|done]|].
      destruct (endswith src "__pycache__") eqn:H3; [|done].
      apply endswith_split in H3 as [prefix ->]. exists prefix, "__pycache__".
      split; [set_solver|done].
    + intros (prefix & dir & Hdir & ->).
      apply list_elem_of_In in Hdir. cbn [In] in Hdir.
      destruct Hdir as [<-|[<-|[<-|[]]]]; rewrite endswith_app;
        by rewrite ?orb_true_r.
  - by destruct (endswith src "build"), (endswith src "dist"),
      (endswith src "__pycache__").
Qed.

(** *** InlineKWOnlyArgsFixer *)

Lemma lookup_field_set_field_ne (n m : string) (x : pyobj) (fs : list (string * pyobj)) :
  n <> m -> lookup_field n (set_field m x fs) = lookup_field n fs.
Proof.
  intros Hne. induction fs as [|[k v] fs IH]; [done|]. cbn.
  destruct (String.eqb_spec k m) as [->|Hkm]; cbn.
  - apply String.eqb_neq in Hne. rewrite String.eqb_sym in Hne. by rewrite Hne.
  - by rewrite IH.
Qed.

Lemma getattr_setattr (node : pyobj) (n : string) (x y : pyobj) :
  getattr node n = Ok y -> getattr (setattr node n x) n = Ok x.
Proof.
  destruct node as [| | | | |c fs]; try done. cbn.
  destruct (lookup_field n fs) eqn:Hl; [|done]. intros _.
  by rewrite (lookup_field_set_field _ _ _ _ Hl).
Qed.

Lemma getattr_setattr_ne (node : pyobj) (n m : string) (x : pyobj) :
  n <> m -> getattr (setattr node m x) n = getattr node n.
Proof.
  intros Hne. destruct node as [| | | | |c fs]; try done. cbn.
  by rewrite lookup_field_set_field_ne.
Qed.

Lemma kwonly_loop_args (kw_name : pyobj) (items : list (pyobj * pyobj))
    (node node' : pyobj) :
  kwonly_loop kw_name items node = Ok node' ->
  getattr node' "args" = getattr node "args"
  /\ (is_ast node = true -> is_ast node' = true).
Proof.
  revert node. induction items as [|[arg default] items IH]; intros node H;
    cbn [kwonly_loop] in H.
  { by injection H as <-. }
  bind_inv H as new_node Hnew. bind_inv H as body Hbody. bind_inv H as l Hl.
  apply IH in H as [-> Hast]. split; [by rewrite getattr_setattr_ne|].
  intros Hn. apply Hast. by destruct node.
Qed.

Lemma visit_FunctionDef_again (node node' : pyobj) :
  visit_FunctionDef node = Ok node' ->
  is_ast node' = true
  /\ visit_FunctionDef node' = Ok node'.
Proof.
  unfold visit_FunctionDef at 1. intros H.
  bind_inv H as args Hargs. bind_inv H as kwonlyargs Hkw.
  assert (is_ast node = true) as Hnode by by destruct node.
  destruct (negb (truthy kwonlyargs)) eqn:Htruthy.
  { injection H as <-. split; [done|]. unfold visit_FunctionDef.
    rewrite Hargs. cbn [mbind result_bind]. rewrite Hkw. cbn [mbind result_bind].
    by rewrite Htruthy. }
  bind_inv H as kwarg Hkwarg. bind_inv H as [kw_name args1] Hname.
  cbn beta zeta in H. bind_inv H as kwonly Hkwonly. bind_inv H as dflt Hd.
  bind_inv H as defaults Hdefaults. bind_inv H as node2 Hloop.
  bind_inv H as args2 Hargs2. injection H as <-.
  apply kwonly_loop_args in Hloop as [Hsame Hast].
  rewrite Hsame, (getattr_setattr _ _ _ _ Hargs) in Hargs2. injection Hargs2 as <-.
  assert (getattr args1 "kwonlyargs" = Ok kwonlyargs) as Hkw1.
  { destruct (truthy kwarg).
    - bind_inv Hname as k Hk. by injection Hname as _ <-.
    - injection Hname as _ <-. by rewrite getattr_setattr_ne. }
  assert (is_ast node2 = true) as Hnode2.
  { apply Hast. by destruct node. }
  split; [by destruct node2|]. unfold visit_FunctionDef.
  assert (getattr node2 "args" = Ok args1) as Hargs2.
  { by rewrite Hsame, (getattr_setattr _ _ _ _ Hargs). }
  rewrite (getattr_setattr _ _ _ _ Hargs2). cbn [mbind result_bind].
  rewrite (getattr_setattr _ _ _ _ Hkw1). reflexivity.
Qed.

Lemma InlineKWOnlyArgsFixer_nodes :
  methods_return_nodes InlineKWOnlyArgsFixer.visitor.
Proof.
  intros c visit_c self node self' node' Hc H. unfold InlineKWOnlyArgsFixer.visitor in Hc.
  destruct (String.eqb c "FunctionDef"); [|done]. injection Hc as <-.
  unfold InlineKWOnlyArgsFixer.visit_FunctionDef_method in H.
  bind_inv H as n Hn. injection H as <- <-.
  by apply visit_FunctionDef_again in Hn as [? _].
Qed.

(** X17: [InlineKWOnlyArgsFixer] is idempotent and stays out of the
    functions it visits. A run that returns leaves the fixer instance
    as it was, and a second run on its result returns that result: a
    definition visited once has no keyword-only parameter left. A
    definition without keyword-only parameters is returned as it
    is, with its body, so that the definitions nested in it keep
    theirs. *)
Theorem InlineKWOnlyArgsFixer_idempotent (self self' : FixerBase) (cfg : BuildConfig)
    (tree tree' : pyobj) :
  InlineKWOnlyArgsFixer.call self cfg tree = Ok (self', tree') ->
  self' = self
  /\ InlineKWOnlyArgsFixer.call self cfg tree' = Ok (self, tree')
  /\ forall name args vararg kw_defaults kwarg defaults body decorator_list returns,
       let def :=
         parsed_FunctionDef name
           (ast.arguments args vararg (PyList []) kw_defaults kwarg defaults)
           body decorator_list returns in
       InlineKWOnlyArgsFixer.call self cfg def = Ok (self, def).
Proof.
  intros H. unfold InlineKWOnlyArgsFixer.call, TransformerFixerBase_call in *.
  apply (visit_induction _ InlineKWOnlyArgsFixer_nodes
           (revisit_fixed InlineKWOnlyArgsFixer.visitor))
    in H as (_ & -> & Hagain).
  - done.
  - intros c fs visit_c s s' node' Hc Hm. unfold InlineKWOnlyArgsFixer.visitor in Hc.
    destruct (String.eqb c "FunctionDef") eqn:Ec; [|done]. injection Hc as <-.
    unfold InlineKWOnlyArgsFixer.visit_FunctionDef_method in Hm.
    bind_inv Hm as n Hn. injection Hm as <- <-.
    pose proof Hn as Hshape. unfold visit_FunctionDef in Hshape.
    apply visit_FunctionDef_again in Hn as [Hast Hn].
    split; [done|]. intros self2.
    assert (exists fs', n = Node c fs') as [fs' ->].
    { bind_inv Hshape as args Hargs. bind_inv Hshape as kwonlyargs Hkw.
      destruct (negb (truthy kwonlyargs)); [injection Hshape as <-; by eauto|].
      bind_inv Hshape as kwarg Hkwarg. bind_inv Hshape as [kw_name args1] Hname.
      cbn beta zeta in Hshape. bind_inv Hshape as kwonly Hkwonly.
      bind_inv Hshape as dflt Hd. bind_inv Hshape as defaults Hdefaults.
      bind_inv Hshape as node2 Hloop. bind_inv Hshape as args2 Hargs2.
      injection Hshape as <-.
      enough (exists fs2, node2 = Node c fs2) as [fs2 ->] by (cbn; by eauto).
      clear -Hloop. cbn [setattr] in Hloop. revert Hloop.
      generalize (set_field "args" args1 fs) as fs0.
      generalize (zip (rev kwonly) (rev defaults)) as items.
      induction items as [|[a d] items IH]; intros fs0 H; cbn [kwonly_loop] in H.
      { injection H as <-. by eauto. }
      bind_inv H as new_node Hnew. bind_inv H as body Hbody. bind_inv H as l Hl.
      cbn [setattr] in H. by apply IH in H. }
    rewrite visit_node. unfold InlineKWOnlyArgsFixer.visitor. rewrite Ec.
    unfold InlineKWOnlyArgsFixer.visit_FunctionDef_method. by rewrite Hn.
  - intros c fs s s' fs' Hc (-> & Hagain)%visited_fields_fixed.
    split; [done|]. intros self2. rewrite visit_node, Hc, Hagain. done.
Qed.

Lemma InlineKWOnlyArgsFixer_idempotent_witness :
  exists tree',
    InlineKWOnlyArgsFixer.call InlineKWOnlyArgsFixer.init default_cfg
      nested_kwonly_module
    = Ok (InlineKWOnlyArgsFixer.init, tree')
    /\ tree'
       = ast.Module_
           [parsed_FunctionDef "f"
              (ast.arguments (PyList [ast.arg "a" PyNone]) PyNone (PyList [])
                             (PyList [PyNone]) (ast.arg "kwargs" PyNone) (PyList []))
              [ast.Assign [ast.Name "x" ast.Store]
                 (ast.Subscript (name_ "kwargs") (ast.Index (ast.Str "x")) ast.Load);
               parsed_FunctionDef "g"
                 (ast.arguments (PyList []) PyNone (PyList [ast.arg "z" PyNone])
                                (PyList [PyNone]) PyNone (PyList []))
                 [ast.Pass] [] PyNone]
              [] PyNone]
    /\ InlineKWOnlyArgsFixer.call InlineKWOnlyArgsFixer.init default_cfg tree'
       = Ok (InlineKWOnlyArgsFixer.init, tree').
Proof.
  eexists. split; [reflexivity|]. split; [reflexivity|].
  refine (proj1 (proj2 (InlineKWOnlyArgsFixer_idempotent InlineKWOnlyArgsFixer.init _
                          default_cfg nested_kwonly_module _ _))).
  reflexivity.
Defined.

(** ** Loops over [ast.walk] *)

(** *** Steps to the children of a node *)

Lemma child_is_ast (v : pyobj) (s : step) (c : pyobj) :
  child v s = Some c -> is_ast c = true.
Proof.
  destruct v as [| | | | |cls fs]; try done. cbn.
  destruct (fs !! s.1) as [[n field]|]; [|done].
  destruct s as [i [j|]]; cbn; destruct field as [| | | |l|]; try done.
  - destruct (l !! j) as [x|]; [|done]. destruct (is_ast x) eqn:E; [|done].
    by intros [= <-].
  - by intros [= <-].
Qed.

Lemma child_of_node (v : pyobj) (s : step) (c : pyobj) :
  child v s = Some c -> is_ast v = true.
Proof. by destruct v. Qed.

Lemma set_child_is_ast (v : pyobj) (s : step) (x : pyobj) :
  is_ast (set_child v s x) = is_ast v.
Proof.
  destruct v as [| | | | |cls fs]; try done. cbn.
  by destruct (fs !! s.1) as [[n field]|].
Qed.

Lemma child_set_child (v : pyobj) (s : step) (c x : pyobj) :
  child v s = Some c -> is_ast x = true -> child (set_child v s x) s = Some x.
Proof.
  destruct v as [| | | | |cls fs]; try done. cbn.
  destruct (fs !! s.1) as [[n field]|] eqn:Hf; [|done]. intros Hc Hx. cbn.
  rewrite list_lookup_insert_eq by by eapply lookup_lt_Some.
  destruct s as [i [j|]]; cbn in *; destruct field as [| | | |l|]; try done.
  - destruct (l !! j) as [y|] eqn:Hj; [|done].
    rewrite list_lookup_insert_eq by by eapply lookup_lt_Some. by rewrite Hx.
  - by destruct x.
Qed.

Lemma child_set_child_ne (v : pyobj) (s s' : step) (c x : pyobj) :
  child v s = Some c -> is_ast x = true -> s <> s' ->
  child (set_child v s x) s' = child v s'.
Proof.
  destruct v as [| | | | |cls fs]; try done. cbn.
  destruct (fs !! s.1) as [[n field]|] eqn:Hf; [|done]. intros Hc Hx Hne. cbn.
  destruct (decide (s.1 = s'.1)) as [Heq|Hi].
  - rewrite <- Heq, Hf. rewrite list_lookup_insert_eq by by eapply lookup_lt_Some.
    destruct s as [i [j|]], s' as [i' [j'|]]; cbn in *; subst i';
      destruct field as [| | | |l|]; try done.
    + destruct (l !! j) as [y|] eqn:Hj; [|done].
      rewrite list_lookup_insert_ne by congruence. done.
    + by destruct x.
  - by rewrite list_lookup_insert_ne.
Qed.

Lemma set_child_set_child (v : pyobj) (s : step) (c x y : pyobj) :
  child v s = Some c -> set_child (set_child v s x) s y = set_child v s y.
Proof.
  destruct v as [| | | | |cls fs]; try done. cbn.
  destruct (fs !! s.1) as [[n field]|] eqn:Hf; [|done]. intros Hc. cbn.
  rewrite list_lookup_insert_eq by by eapply lookup_lt_Some.
  rewrite list_insert_insert_eq. do 3 f_equal.
  destruct s as [i [j|]]; cbn in *; destruct field as [| | | |l|]; try done.
  by rewrite list_insert_insert_eq.
Qed.

Lemma set_child_comm (v : pyobj) (s s' : step) (c c' x y : pyobj) :
  child v s = Some c -> child v s' = Some c' -> s <> s' ->
  set_child (set_child v s x) s' y = set_child (set_child v s' y) s x.
Proof.
  destruct v as [| | | | |cls fs]; try done. cbn.
  destruct (fs !! s.1) as [[n field]|] eqn:Hf; [|done].
  destruct (fs !! s'.1) as [[n' field']|] eqn:Hf'; [|done]. intros Hc Hc' Hne. cbn.
  destruct (decide (s.1 = s'.1)) as [Heq|Hi].
  - rewrite <- Heq in *. rewrite Hf in Hf'. injection Hf' as <- <-.
    rewrite !list_lookup_insert_eq by by eapply lookup_lt_Some.
    rewrite !list_insert_insert_eq. do 3 f_equal.
    destruct s as [i [j|]], s' as [i' [j'|]]; cbn in *; subst i';
      destruct field as [| | | |l|]; try done.
    rewrite list_insert_insert_ne by congruence. done.
  - rewrite !list_lookup_insert_ne by done. rewrite Hf, Hf'.
    by rewrite list_insert_insert_ne.
Qed.

Lemma set_child_id (v : pyobj) (s : step) (c : pyobj) :
  child v s = Some c -> set_child v s c = v.
Proof.
  destruct v as [| | | | |cls fs]; try done. cbn.
  destruct (fs !! s.1) as [[n field]|] eqn:Hf; [|done]. intros Hc. f_equal.
  apply list_insert_id. rewrite Hf. do 2 f_equal.
  destruct s as [i [j|]]; cbn in *; destruct field as [| | | |l|]; try done.
  - destruct (l !! j) as [y|] eqn:Hj; [|done]. destruct (is_ast y); [|done].
    injection Hc as <-. by rewrite list_insert_id.
  - by injection Hc as <-.
Qed.

(** *** Paths *)

Lemma update_at_is_ast (p : path) (g : pyobj -> pyobj) (v : pyobj) :
  keeps_nodes g -> is_ast v = true -> is_ast (update_at p g v) = true.
Proof.
  intros Hg Hv. destruct p as [|s p]; cbn; [by apply Hg|].
  destruct (child v s); [|done]. by rewrite set_child_is_ast.
Qed.

Lemma get_at_app (p q : path) (t : pyobj) :
  get_at (p ++ q) t = match get_at p t with Some v => get_at q v | None => None end.
Proof.
  revert t. induction p as [|s p IH]; intros t; [done|]. cbn.
  destruct (child t s); [apply IH|done].
Qed.

Lemma get_at_is_ast (p : path) (t v : pyobj) :
  get_at p t = Some v -> is_ast t = true -> is_ast v = true.
Proof.
  revert t. induction p as [|s p IH]; intros t; cbn; [by intros [= <-]|].
  destruct (child t s) as [c|] eqn:Hc; [|done]. intros H _.
  apply (IH c H). by eapply child_is_ast.
Qed.

Lemma update_at_app (p q : path) (g : pyobj -> pyobj) (t : pyobj) :
  update_at (p ++ q) g t = update_at p (update_at q g) t.
Proof.
  revert t. induction p as [|s p IH]; intros t; [done|]. cbn.
  destruct (child t s); [by rewrite IH|done].
Qed.

Lemma update_at_ext (p : path) (g h : pyobj -> pyobj) (t : pyobj) :
  (forall v, get_at p t = Some v -> g v = h v) -> update_at p g t = update_at p h t.
Proof.
  revert t. induction p as [|s p IH]; intros t H; cbn in *; [by apply H|].
  destruct (child t s) as [c|]; [|done]. by rewrite (IH c).
Qed.

Lemma get_at_update_at (p : path) (g : pyobj -> pyobj) (t v : pyobj) :
  keeps_nodes g -> is_ast t = true -> get_at p t = Some v ->
  get_at p (update_at p g t) = Some (g v).
Proof.
  intros Hg. revert t. induction p as [|s p IH]; intros t Ht; cbn; [by intros [= <-]|].
  destruct (child t s) as [c|] eqn:Hc; [|done]. intros H.
  assert (is_ast c = true) as Hcast by by eapply child_is_ast.
  rewrite (child_set_child _ _ _ _ Hc) by by apply update_at_is_ast.
  by apply IH.
Qed.

Lemma update_at_compose (p : path) (g h : pyobj -> pyobj) (t : pyobj) :
  keeps_nodes h -> is_ast t = true ->
  update_at p g (update_at p h t) = update_at p (fun v => g (h v)) t.
Proof.
  intros Hh. revert t. induction p as [|s p IH]; intros t Ht; cbn; [done|].
  destruct (child t s) as [c|] eqn:Hc; [|by rewrite Hc].
  assert (is_ast c = true) as Hcast by by eapply child_is_ast.
  rewrite (child_set_child _ _ _ _ Hc) by by apply update_at_is_ast.
  rewrite (set_child_set_child _ _ _ _ _ Hc). by rewrite IH.
Qed.


Lemma indep_sym (p q : path) : indep p q = indep q p.
Proof.
  revert q. induction p as [|s p IH]; intros [|s' q]; cbn; try done.
  destruct (decide (s = s')) as [->|Hne].
  - by rewrite decide_True.
  - by rewrite decide_False by congruence.
Qed.

Lemma indep_app_r (p q : path) (s : step) :
  indep q p = true -> indep q (p ++ [s]) = true.
Proof.
  revert q. induction p as [|s' p IH]; intros [|s'' q]; cbn; try done.
  destruct (decide (s'' = s')); [apply IH|done].
Qed.

Lemma indep_children (p : path) (s s' : step) :
  s <> s' -> indep (p ++ [s]) (p ++ [s']) = true.
Proof.
  intros Hne. induction p as [|s'' p IH]; cbn.
  - by rewrite decide_False.
  - by rewrite decide_True.
Qed.

Lemma get_at_update_at_indep (p q : path) (g : pyobj -> pyobj) (t : pyobj) :
  keeps_nodes g -> is_ast t = true -> indep p q = true ->
  get_at q (update_at p g t) = get_at q t.
Proof.
  intros Hg. revert q t. induction p as [|s p IH]; intros [|s' q] t Ht; cbn; try done.
  destruct (decide (s = s')) as [<-|Hne]; intros Hi.
  - destruct (child t s) as [c|] eqn:Hc; [|by rewrite Hc].
    assert (is_ast c = true) as Hcast by by eapply child_is_ast.
    rewrite (child_set_child _ _ _ _ Hc) by by apply update_at_is_ast.
    by apply IH.
  - destruct (child t s) as [c|] eqn:Hc; [|done].
    assert (is_ast c = true) as Hcast by by eapply child_is_ast.
    by rewrite (child_set_child_ne _ _ _ _ _ Hc) by (done || by apply update_at_is_ast).
Qed.

Lemma update_at_comm (p q : path) (g h : pyobj -> pyobj) (t : pyobj) :
  keeps_nodes g -> keeps_nodes h -> is_ast t = true -> indep p q = true ->
  update_at p g (update_at q h t) = update_at q h (update_at p g t).
Proof.
  intros Hg Hh. revert q t. induction p as [|s p IH]; intros [|s' q] t Ht; cbn; try done.
  destruct (decide (s = s')) as [<-|Hne]; intros Hi.
  - destruct (child t s) as [c|] eqn:Hc; [|by rewrite Hc].
    assert (is_ast c = true) as Hcast by by eapply child_is_ast.
    rewrite !(child_set_child _ _ _ _ Hc) by by apply update_at_is_ast.
    rewrite !(set_child_set_child _ _ _ _ _ Hc). by rewrite IH.
  - destruct (child t s) as [c|] eqn:Hc, (child t s') as [c'|] eqn:Hc'.
    + assert (is_ast c = true) as Hcast by by eapply child_is_ast.
      assert (is_ast c' = true) as Hcast' by by eapply child_is_ast.
      rewrite (child_set_child_ne _ _ _ _ _ Hc') by (by apply update_at_is_ast || done).
      rewrite (child_set_child_ne _ _ _ _ _ Hc) by (by apply update_at_is_ast || done).
      rewrite Hc, Hc'. by apply (set_child_comm _ _ _ c' c).
    + assert (is_ast c = true) as Hcast by by eapply child_is_ast.
      rewrite Hc.
      by rewrite (child_set_child_ne _ _ _ _ _ Hc), Hc'
        by (by apply update_at_is_ast || done).
    + assert (is_ast c' = true) as Hcast' by by eapply child_is_ast.
      rewrite (child_set_child_ne _ _ _ _ _ Hc') by (by apply update_at_is_ast || done).
      by rewrite Hc.
    + by rewrite ?Hc, ?Hc'.
Qed.

Lemma apply_all_cons (g : pyobj -> pyobj) (p : path) (ps : list path) (t : pyobj) :
  apply_all g (p :: ps) t = apply_all g ps (update_at p g t).
Proof. reflexivity. Qed.

Lemma apply_all_is_ast (g : pyobj -> pyobj) (ps : list path) (t : pyobj) :
  keeps_nodes g -> is_ast t = true -> is_ast (apply_all g ps t) = true.
Proof.
  intros Hg. revert t. induction ps as [|p ps IH]; intros t Ht; [done|].
  rewrite apply_all_cons. apply IH. by apply update_at_is_ast.
Qed.

Lemma apply_all_app (g : pyobj -> pyobj) (ps qs : list path) (t : pyobj) :
  apply_all g (ps ++ qs) t = apply_all g qs (apply_all g ps t).
Proof. unfold apply_all. by rewrite foldl_app. Qed.

Lemma apply_all_update_comm (g h : pyobj -> pyobj) (p : path) (qs : list path)
    (t : pyobj) :
  keeps_nodes g -> keeps_nodes h -> is_ast t = true ->
  Forall (fun q => indep p q = true) qs ->
  update_at p h (apply_all g qs t) = apply_all g qs (update_at p h t).
Proof.
  intros Hg Hh Ht Hi. revert t Ht. induction Hi as [|q qs Hq _ IH]; intros t Ht; [done|].
  rewrite !apply_all_cons. rewrite IH by by apply update_at_is_ast.
  by rewrite (update_at_comm p q).
Qed.

Lemma apply_all_comm (g : pyobj -> pyobj) (ps qs : list path) (t : pyobj) :
  keeps_nodes g -> is_ast t = true ->
  Forall (fun p => Forall (fun q => indep p q = true) qs) ps ->
  apply_all g ps (apply_all g qs t) = apply_all g qs (apply_all g ps t).
Proof.
  intros Hg Ht Hi. revert t Ht. induction Hi as [|p ps Hp _ IH]; intros t Ht; [done|].
  rewrite !apply_all_cons. rewrite <- IH by by apply update_at_is_ast.
  by rewrite (apply_all_update_comm g g).
Qed.

Lemma apply_all_children (g : pyobj -> pyobj) (p : path) (ss : list step) (t : pyobj) :
  keeps_nodes g -> is_ast t = true ->
  apply_all g (map (fun s => p ++ [s]) ss) t
  = update_at p (fun v => foldl (fun t s => update_at [s] g t) v ss) t.
Proof.
  intros Hg. revert t. induction ss as [|s ss IH]; intros t Ht.
  - cbn. symmetry. clear. revert t. induction p as [|s p IH]; intros t; [done|]. cbn.
    destruct (child t s) as [c|] eqn:Hc; [|done]. rewrite IH. by apply set_child_id.
  - cbn [map]. rewrite apply_all_cons. rewrite IH by by apply update_at_is_ast.
    rewrite update_at_app, update_at_compose; [done| |done].
    intros v Hv. by apply (update_at_is_ast [s]).
Qed.

(** *** The children of a node *)

Lemma list_insert_middle {A} (l1 l2 : list A) (x y : A) :
  <[length l1 := y]> (l1 ++ x :: l2) = l1 ++ y :: l2.
Proof.
  rewrite insert_app_r_alt by done. by rewrite Nat.sub_diag.
Qed.

Lemma item_steps_children (pre post : list pyobj) :
  map (field_child (PyList (pre ++ post))) (item_steps (length pre) post)
  = map Some (List.filter is_ast post).
Proof.
  revert pre. induction post as [|x post IH]; intros pre; [done|].
  cbn [item_steps List.filter]. rewrite map_app.
  specialize (IH (pre ++ [x])). rewrite <- app_assoc, length_app, Nat.add_1_r in IH.
  cbn [app] in IH. rewrite IH. destruct (is_ast x) eqn:Hx; [|done].
  cbn. by rewrite list_lookup_middle, Hx.
Qed.

Lemma field_steps_children (field : pyobj) :
  map (field_child field) (field_steps field) = map Some (field_kids field).
Proof.
  destruct field as [| | | |l|c fs]; try done.
  apply (item_steps_children [] l).
Qed.

Lemma fields_steps_children (c : string) (pre post : list (string * pyobj)) :
  map (child (Node c (pre ++ post))) (fields_steps (length pre) post)
  = map Some (flat_map (fun f => field_kids (snd f)) post).
Proof.
  revert pre. induction post as [|[n field] post IH]; intros pre; [done|].
  cbn [fields_steps flat_map snd]. rewrite !map_app.
  specialize (IH (pre ++ [(n, field)])).
  rewrite <- app_assoc, length_app, Nat.add_1_r in IH. cbn [app] in IH.
  f_equal; [|exact IH]. rewrite <- field_steps_children, map_map. apply map_ext.
  intros j. cbn. by rewrite list_lookup_middle.
Qed.

Lemma steps_kids (v : pyobj) : map (child v) (steps v) = map Some (kids v).
Proof.
  destruct v as [| | | | |c fs]; try done. apply (fields_steps_children c [] fs).
Qed.

Lemma steps_child (v : pyobj) (s : step) :
  s ∈ steps v -> exists c, child v s = Some c /\ c ∈ kids v.
Proof.
  intros Hs. pose proof (steps_kids v) as H.
  apply list_elem_of_lookup in Hs as [k Hk].
  assert (map (child v) (steps v) !! k = Some (child v s)) as Hm.
  { by rewrite list_lookup_fmap, Hk. }
  rewrite H, list_lookup_fmap in Hm. destruct (kids v !! k) as [c|] eqn:Hc; [|done].
  injection Hm as Hm. exists c. split; [done|]. by eapply list_elem_of_lookup_2.
Qed.

Lemma item_steps_ge (j : nat) (l : list pyobj) (o : option nat) :
  o ∈ item_steps j l -> exists k, o = Some k /\ j <= k.
Proof.
  revert j. induction l as [|x l IH]; intros j; cbn; [by intros ?%elem_of_nil|].
  rewrite elem_of_app. intros [H|H].
  - destruct (is_ast x); [|by apply elem_of_nil in H].
    apply list_elem_of_singleton in H as ->. by exists j.
  - apply IH in H as (k & -> & Hk). exists k. split; [done|lia].
Qed.

Lemma item_steps_NoDup (j : nat) (l : list pyobj) : NoDup (item_steps j l).
Proof.
  revert j. induction l as [|x l IH]; intros j; cbn; [constructor|].
  destruct (is_ast x); [|apply IH]. cbn. constructor; [|apply IH].
  intros (k & [= <-] & Hk)%item_steps_ge. lia.
Qed.

Lemma fields_steps_ge (i : nat) (fs : list (string * pyobj)) (s : step) :
  s ∈ fields_steps i fs -> i <= fst s.
Proof.
  revert i. induction fs as [|f fs IH]; intros i; cbn; [by intros ?%elem_of_nil|].
  rewrite elem_of_app. intros [H|H].
  - apply list_elem_of_fmap in H as (j & -> & _). done.
  - apply IH in H. lia.
Qed.

Lemma fields_steps_NoDup (i : nat) (fs : list (string * pyobj)) :
  NoDup (fields_steps i fs).
Proof.
  revert i. induction fs as [|[n field] fs IH]; intros i; cbn; [constructor|].
  apply NoDup_app. split_and!; [|by intros s (j & -> & _)%list_elem_of_fmap
                                              ?%fields_steps_ge; cbn in *; lia|apply IH].
  apply (NoDup_fmap_2 _). destruct field; try constructor; try by apply NoDup_nil.
  - apply item_steps_NoDup.
  - by apply not_elem_of_nil.
Qed.

Lemma steps_NoDup (v : pyobj) : NoDup (steps v).
Proof. destruct v; try constructor. apply fields_steps_NoDup. Qed.

Lemma iter_child_nodes_steps (v : pyobj) :
  is_ast v = true -> iter_child_nodes v = Ok (steps v).
Proof. by destruct v. Qed.

Lemma walk_size_kids (v : pyobj) :
  is_ast v = true -> walk_size v = S (list_sum (map walk_size (kids v))).
Proof.
  destruct v as [| | | | |c fs]; try done. intros _. cbn [walk_size kids]. f_equal.
  induction fs as [|[n field] fs IH]; [done|].
  cbn [map flat_map snd]. rewrite map_app, list_sum_app.
  change (list_sum (?x :: ?l)) with (x + list_sum l).
  f_equal; [|exact IH]. clear IH.
  destruct field as [| | | |l|]; try done.
  cbn [field_kids]. induction l as [|x l IHl]; [done|]. cbn [map List.filter].
  change (list_sum (?x :: ?l)) with (x + list_sum l).
  destruct x; cbn [is_ast map]; rewrite IHl; try done.
Qed.

Lemma all_walked_kids (P : pyobj -> bool) (v : pyobj) :
  is_ast v = true -> all_walked P v = P v && forallb (all_walked P) (kids v).
Proof.
  destruct v as [| | | | |c fs]; try done. intros _. cbn [all_walked kids]. f_equal.
  induction fs as [|[n field] fs IH]; [done|].
  cbn [forallb flat_map snd]. rewrite forallb_app.
  f_equal; [|exact IH]. clear IH.
  destruct field as [| | | |l|]; try done; cbn [field_kids forallb];
    [|by rewrite andb_true_r].
  induction l as [|x l IHl]; [done|]. cbn [forallb List.filter].
  destruct x; cbn [is_ast forallb]; by f_equal.
Qed.

(** *** A function on the children as updates along the steps *)

Section map_children.

Variable g : pyobj -> pyobj.

Let map_item (y : pyobj) : pyobj :=
  match y with
  | Node _ _ => g y
  | _ => y
  end.

Let map_field (nx : string * pyobj) : string * pyobj :=
  (fst nx,
   match snd nx with
   | Node _ _ => g (snd nx)
   | PyList l => PyList (map map_item l)
   | x => x
   end).

Lemma map_children_items (c : string) (fpre fpost : list (string * pyobj)) (n : string)
    (pre post : list pyobj) :
  foldl (fun t s => update_at [s] g t)
        (Node c (fpre ++ (n, PyList (pre ++ post)) :: fpost))
        (map (pair (length fpre)) (item_steps (length pre) post))
  = Node c (fpre ++ (n, PyList (pre ++ map map_item post)) :: fpost).
Proof.
  revert pre. induction post as [|x post IH]; intros pre; [done|].
  cbn [item_steps map]. rewrite map_app, foldl_app.
  assert (forall y, pre ++ y :: post = (pre ++ [y]) ++ post) as Hassoc.
  { intros y. by rewrite <- app_assoc. }
  assert (S (length pre) = length (pre ++ [x])) as Hlen.
  { by rewrite length_app, Nat.add_1_r. }
  destruct (is_ast x) eqn:Hx.
  - cbn [map foldl update_at child fst snd].
    rewrite list_lookup_middle by done. cbn [field_child].
    rewrite list_lookup_middle, Hx by done. cbn [set_child fst snd].
    rewrite list_lookup_middle by done. cbn [set_field_child].
    rewrite !list_insert_middle.
    assert (S (length pre) = length (pre ++ [g x])) as ->.
    { by rewrite length_app, Nat.add_1_r. }
    rewrite (Hassoc (g x)), IH, <- app_assoc. by destruct x.
  - cbn [map foldl]. rewrite Hlen, (Hassoc x), IH, <- app_assoc. by destruct x.
Qed.

Lemma map_children_fields (c : string) (pre post : list (string * pyobj)) :
  foldl (fun t s => update_at [s] g t) (Node c (pre ++ post))
        (fields_steps (length pre) post)
  = Node c (pre ++ map map_field post).
Proof.
  revert pre. induction post as [|[n field] post IH]; intros pre; [done|].
  cbn [fields_steps map snd]. rewrite foldl_app.
  assert (foldl (fun t s => update_at [s] g t) (Node c (pre ++ (n, field) :: post))
                (map (pair (length pre)) (field_steps field))
          = Node c (pre ++ map_field (n, field) :: post)) as ->.
  { destruct field as [| | | |l|cx fsx]; try done.
    - apply (map_children_items c pre post n [] l).
    - cbn [field_steps map foldl update_at child fst snd].
      rewrite list_lookup_middle by done. cbn [field_child set_child fst snd].
      rewrite list_lookup_middle by done. cbn [set_field_child].
      by rewrite list_insert_middle. }
  specialize (IH (pre ++ [map_field (n, field)])).
  rewrite length_app, Nat.add_1_r, <- !app_assoc in IH. exact IH.
Qed.

Lemma map_children_steps (v : pyobj) :
  foldl (fun t s => update_at [s] g t) v (steps v) = map_children g v.
Proof.
  destruct v as [| | | | |c fs]; try done. apply (map_children_fields c [] fs).
Qed.

End map_children.

Lemma map_walked_node (f : pyobj -> pyobj) (v : pyobj) :
  is_ast v = true -> map_walked f v = f (map_children (map_walked f) v).
Proof. by destruct v. Qed.


(** *** The queue of [ast.walk] *)

Lemma update_at_invalid (p : path) (g : pyobj -> pyobj) (t : pyobj) :
  get_at p t = None -> update_at p g t = t.
Proof.
  revert t. induction p as [|s p IH]; intros t; cbn; [done|].
  destruct (child t s) as [c|] eqn:Hc; [|done]. intros H.
  rewrite (IH c H). by apply set_child_id.
Qed.

Lemma foldl_update_skip (g : pyobj -> pyobj) (P : step -> bool) (ss : list step)
    (v : pyobj) :
  keeps_nodes g -> NoDup ss ->
  (forall s, s ∈ ss -> P s = false -> child v s = None) ->
  foldl (fun t s => update_at [s] g t) v (List.filter P ss)
  = foldl (fun t s => update_at [s] g t) v ss.
Proof.
  intros Hg Hnd. revert v. induction Hnd as [|s ss Hs _ IH]; intros v Hv; [done|].
  cbn [List.filter foldl].
  assert (forall s', s' ∈ ss -> P s' = false -> child (update_at [s] g v) s' = None)
    as Hv'.
  { intros s' Hs' HP. cbn. destruct (child v s) as [c|] eqn:Hc.
    - rewrite (child_set_child_ne _ _ _ _ _ Hc).
      + apply Hv; [by right|done].
      + apply Hg. by eapply child_is_ast.
      + by intros ->.
    - apply Hv; [by right|done]. }
  destruct (P s) eqn:HP.
  - cbn [foldl]. by apply IH.
  - rewrite IH by (intros; apply Hv; [by right|done]).
    f_equal. cbn. by rewrite (Hv s) by (by left || done).
Qed.

Lemma all_indep_refs_app (xs ys : list ref) :
  all_indep_refs xs -> all_indep_refs ys ->
  Forall (fun a => Forall (fun b => ref_indep a b = true) ys) xs ->
  all_indep_refs (xs ++ ys).
Proof.
  induction xs as [|a xs IH]; intros Hxs Hys Hxy; [done|].
  destruct Hxs as [Ha Hxs]. apply Forall_cons in Hxy as [Hay Hxy]. cbn. split.
  - apply Forall_app. by split.
  - by apply IH.
Qed.

Lemma paths_in_app (r : nat) (xs ys : list ref) :
  paths_in r (xs ++ ys) = paths_in r xs ++ paths_in r ys.
Proof. unfold paths_in. by rewrite List.filter_app, map_app. Qed.

Lemma node_at_app (trees extra : list pyobj) (a : ref) :
  fst a < length trees -> node_at (trees ++ extra) a = node_at trees a.
Proof. intros Ha. unfold node_at. by rewrite lookup_app_l. Qed.

Section enqueue.

Variable r : nat.
Variable p : path.
Variables node node' : pyobj.

Let kept (s : step) : bool :=
  match child node' s, child node s with
  | None, Some _ => false
  | _, _ => true
  end.

Lemma enqueue_spec (ss : list step) (trees : list pyobj) (refs : list ref)
    (trees' : list pyobj) :
  enqueue r p node node' ss trees = (refs, trees') ->
  node_at trees (r, p) = Some node' -> NoDup ss ->
  (exists extra, trees' = trees ++ extra /\ Forall (fun c => is_ast c = true) extra)
  /\ Forall2 (fun a s => node_at trees' a = queued_child node node' s) refs ss
  /\ Forall (fun a => (fst a = r /\ exists s, s ∈ ss /\ snd a = p ++ [s])
                      \/ (length trees <= fst a /\ snd a = [])) refs
  /\ all_indep_refs refs
  /\ paths_in r refs = map (fun s => p ++ [s]) (List.filter kept ss).
Proof.
  intros H Hp Hnd. revert trees refs trees' H Hp.
  induction Hnd as [|s ss Hs _ IH]; intros trees refs trees' H Hp; cbn in H.
  { injection H as <- <-. split_and!; try done. exists []. by rewrite app_nil_r. }
  assert (r < length trees) as Hr.
  { unfold node_at in Hp. cbn in Hp. destruct (trees !! r) eqn:E; [|done].
    by eapply lookup_lt_Some. }
  destruct (child node' s) as [c'|] eqn:Hc'; [|destruct (child node s) as [c|] eqn:Hc].
  - destruct (enqueue r p node node' ss trees) as [refs0 trees0] eqn:E.
    injection H as <- <-.
    destruct (IH _ _ _ E Hp) as ((extra & -> & Hextra) & Hnodes & Hshape & Hind & Hpaths).
    split_and!.
    + by exists extra.
    + constructor; [|done]. rewrite node_at_app by done. unfold node_at in *.
      cbn in *. destruct (trees !! r) as [tree|]; [|done].
      rewrite get_at_app, Hp. cbn. unfold queued_child. by rewrite Hc'.
    + constructor.
      * left. cbn. split; [done|]. exists s. split; [by left|done].
      * eapply Forall_impl; [exact Hshape|]. intros a [[Ha (s' & Hs' & Hpath)]|Ha];
          [left|by right]. split; [done|]. exists s'. split; [by right|done].
    + cbn. split; [|done]. apply Forall_forall. intros [k q] Ha.
      rewrite Forall_forall in Hshape. unfold ref_indep. cbn.
      destruct (Hshape _ Ha) as [[Hk (s' & Hs' & Hpath)]|[Hk _]]; cbn in *.
      * subst k q. rewrite decide_True by done. apply indep_children. by intros ->.
      * by rewrite decide_False by lia.
    + unfold paths_in in *. cbn [List.filter fst]. rewrite Nat.eqb_refl. cbn [map snd].
      rewrite Hpaths. unfold kept at 2. by rewrite Hc'.
  - destruct (enqueue r p node node' ss (trees ++ [c])) as [refs0 trees0] eqn:E.
    injection H as <- <-.
    assert (node_at (trees ++ [c]) (r, p) = Some node') as Hp'.
    { by rewrite node_at_app. }
    destruct (IH _ _ _ E Hp') as ((extra & -> & Hextra) & Hnodes & Hshape & Hind & Hpaths).
    split_and!.
    + exists (c :: extra). rewrite <- app_assoc. split; [done|].
      constructor; [by eapply child_is_ast|done].
    + constructor; [|done]. unfold node_at. cbn.
      rewrite <- app_assoc. cbn. rewrite list_lookup_middle by done. cbn.
      unfold queued_child. by rewrite Hc'.
    + constructor; [right; by cbn|].
      eapply Forall_impl; [exact Hshape|]. intros a [[Ha (s' & Hs' & Hpath)]|[Ha Ha']].
      * left. split; [done|]. exists s'. split; [by right|done].
      * right. rewrite length_app in Ha. split; [lia|done].
    + cbn. split; [|done]. apply Forall_forall. intros [k q] Ha.
      rewrite Forall_forall in Hshape. unfold ref_indep. cbn.
      destruct (Hshape _ Ha) as [[Hk _]|[Hk _]]; cbn in *.
      * by rewrite decide_False by lia.
      * rewrite length_app in Hk. cbn in Hk. by rewrite decide_False by lia.
    + unfold paths_in in *. cbn [List.filter fst].
      destruct (Nat.eqb_spec (length trees) r) as [Heq|_]; [lia|].
      rewrite Hpaths. unfold kept at 2. by rewrite Hc', Hc.
  - destruct (enqueue r p node node' ss trees) as [refs0 trees0] eqn:E.
    injection H as <- <-.
    destruct (IH _ _ _ E Hp) as ((extra & -> & Hextra) & Hnodes & Hshape & Hind & Hpaths).
    split_and!.
    + by exists extra.
    + constructor; [|done]. rewrite node_at_app by done. unfold node_at in *.
      cbn in *. destruct (trees !! r) as [tree|]; [|done].
      rewrite get_at_app, Hp. cbn. unfold queued_child. by rewrite Hc', Hc.
    + constructor.
      * left. cbn. split; [done|]. exists s. split; [by left|done].
      * eapply Forall_impl; [exact Hshape|]. intros a [[Ha (s' & Hs' & Hpath)]|Ha];
          [left|by right]. split; [done|]. exists s'. split; [by right|done].
    + cbn. split; [|done]. apply Forall_forall. intros [k q] Ha.
      rewrite Forall_forall in Hshape. unfold ref_indep. cbn.
      destruct (Hshape _ Ha) as [[Hk (s' & Hs' & Hpath)]|[Hk _]]; cbn in *.
      * subst k q. rewrite decide_True by done. apply indep_children. by intros ->.
      * by rewrite decide_False by lia.
    + unfold paths_in in *. cbn [List.filter fst]. rewrite Nat.eqb_refl. cbn [map snd].
      rewrite Hpaths. unfold kept at 2. by rewrite Hc', Hc.
Qed.

End enqueue.

(** *** What a loop over [ast.walk] makes of a tree *)

Lemma keeps_class_nodes (g : pyobj -> pyobj) : keeps_class g -> keeps_nodes g.
Proof. intros Hg [| | | | |c fs]; try done. intros _. by destruct (Hg c fs) as [fs' ->]. Qed.

Lemma map_walked_keeps_class (f : pyobj -> pyobj) :
  keeps_class f -> keeps_class (map_walked f).
Proof. intros Hf c fs. cbn [map_walked]. apply Hf. Qed.

Section walk_spec.

Variable body : pyobj -> result pyobj.
(** What the body makes of a node of [D], and what the loop makes of
    the tree below such a node. *)
Variable f M : pyobj -> pyobj.
Variable D : pyobj -> Prop.
Variable size : pyobj -> nat.

Hypothesis D_ast : forall v, D v -> is_ast v = true.
Hypothesis D_body : forall v, D v -> body v = Ok (f v).
Hypothesis D_children :
  forall v s c, D v -> s ∈ steps v -> queued_child v (f v) s = Some c -> D c.
Hypothesis D_size :
  forall v, D v ->
    S (list_sum (map (fun s => match queued_child v (f v) s with
                               | Some c => size c
                               | None => 0
                               end) (steps v))) <= size v.
Hypothesis f_class : keeps_class f.
Hypothesis M_nodes : keeps_nodes M.
Hypothesis M_spec :
  forall v, D v -> foldl (fun t s => update_at [s] M t) (f v) (steps v) = M v.

Let size_of (trees : list pyobj) (a : ref) : nat :=
  match node_at trees a with
  | Some v => size v
  | None => 0
  end.

Lemma walk_loop_spec (fuel : nat) (todo : list ref) (trees : list pyobj) (t0 : pyobj) :
  trees !! 0 = Some t0 ->
  Forall (fun t => is_ast t = true) trees ->
  Forall (fun a => exists v, node_at trees a = Some v /\ D v) todo ->
  all_indep_refs todo ->
  list_sum (map (size_of trees) todo) <= fuel ->
  exists trees',
    walk_loop body fuel todo trees = Ok trees'
    /\ trees' !! 0 = Some (apply_all M (paths_in 0 todo) t0).
Proof.
  revert todo trees t0.
  induction fuel as [|fuel IH]; intros [|[r p] rest] trees t0 Ht0 Hast Hvalid Hind Hfuel.
  - by exists trees.
  - apply Forall_cons in Hvalid as [(node & Hp & HD) _].
    cbn [map] in Hfuel. change (list_sum (?x :: ?l)) with (x + list_sum l) in Hfuel.
    unfold size_of at 1 in Hfuel. rewrite Hp in Hfuel.
    pose proof (D_size node HD). lia.
  - by exists trees.
  - apply Forall_cons in Hvalid as [(node & Hp & HD) Hrest].
    destruct Hind as [Hprest Hind].
    assert (is_ast node = true) as Hn by by apply D_ast.
    assert (keeps_nodes (fun _ => f node)) as Hconst.
    { intros _ _. by apply keeps_class_nodes. }
    pose proof Hp as Hp0. unfold node_at in Hp. cbn [fst snd] in Hp.
    destruct (trees !! r) as [tree|] eqn:Hr; [|done].
    assert (is_ast tree = true) as Htree.
    { rewrite Forall_forall in Hast. by apply Hast, (list_elem_of_lookup_2 _ r). }
    assert (r < length trees) as Hlt by by eapply lookup_lt_Some.
    cbn [walk_loop]. rewrite Hr, Hp, (iter_child_nodes_steps node Hn).
    cbn [mbind result_bind]. rewrite (D_body node HD). cbn [mbind result_bind].
    set (tree1 := set_at p (f node) tree).
    set (trees1 := <[r := tree1]> trees).
    destruct (enqueue r p node (f node) (steps node) trees1) as [refs trees2] eqn:E.
    assert (node_at trees1 (r, p) = Some (f node)) as Hp1.
    { unfold node_at, trees1. cbn. rewrite list_lookup_insert_eq by done.
      by apply (get_at_update_at p (fun _ => f node) tree node). }
    destruct (enqueue_spec r p node (f node) _ _ _ _ E Hp1 (steps_NoDup node))
      as ((extra & -> & Hextra) & Hnodes & Hshape & Hrefs & Hpaths).
    assert (length trees1 = length trees) as Hlen.
    { unfold trees1. by rewrite length_insert. }
    assert (forall b, b ∈ rest -> node_at (trees1 ++ extra) b = node_at trees b) as Hsame.
    { intros [k q] Hb. rewrite Forall_forall in Hrest, Hprest.
      destruct (Hrest _ Hb) as (v & Hv & _). specialize (Hprest _ Hb).
      unfold node_at in Hv |- *. cbn [fst snd] in *.
      destruct (trees !! k) as [tk|] eqn:Hk; [|done].
      rewrite lookup_app_l by (rewrite Hlen; by eapply lookup_lt_Some).
      unfold trees1. unfold ref_indep in Hprest. cbn in Hprest.
      destruct (decide (r = k)) as [<-|Hne].
      - rewrite list_lookup_insert_eq by done. rewrite Hr in Hk. injection Hk as <-.
        by apply get_at_update_at_indep.
      - by rewrite list_lookup_insert_ne, Hk. }
    assert (Forall (fun a => exists s c, s ∈ steps node
                                         /\ queued_child node (f node) s = Some c
                                         /\ node_at (trees1 ++ extra) a = Some c) refs)
      as Hqueued.
    { apply Forall_forall. intros a Ha. apply list_elem_of_lookup in Ha as [i Hi].
      destruct (Forall2_lookup_l _ _ _ _ _ Hnodes Hi) as (s & Hs & Hnode).
      apply list_elem_of_lookup_2 in Hs. exists s.
      destruct (steps_child node s Hs) as (c & Hc & _).
      unfold queued_child in *. destruct (child (f node) s) as [c'|] eqn:Hc'.
      - by exists c'.
      - exists c. by rewrite Hnode. }
    assert (list_sum (map (size_of (trees1 ++ extra)) refs)
            = list_sum (map (fun s => match queued_child node (f node) s with
                                      | Some c => size c
                                      | None => 0
                                      end) (steps node))) as Hsizes.
    { clear -Hnodes. induction Hnodes as [|a s refs ss Ha _ IHn]; [done|].
      cbn [map]. change (list_sum (?x :: ?l)) with (x + list_sum l).
      rewrite IHn. unfold size_of at 1. by rewrite Ha. }
    set (t1 := if decide (r = 0) then tree1 else t0).
    destruct (IH (rest ++ refs) (trees1 ++ extra) t1) as (trees' & Hrun & Hres).
    + rewrite lookup_app_l by (rewrite Hlen; by eapply lookup_lt_Some).
      unfold trees1, t1. destruct (decide (r = 0)) as [->|Hne].
      * by rewrite list_lookup_insert_eq.
      * by rewrite list_lookup_insert_ne.
    + apply Forall_app. split; [|done]. unfold trees1. apply Forall_insert; [done|].
      by apply update_at_is_ast.
    + apply Forall_app. split.
      * apply Forall_forall. intros b Hb. rewrite (Hsame b Hb).
        rewrite Forall_forall in Hrest. by apply Hrest.
      * eapply Forall_impl; [exact Hqueued|]. intros a (s & c & Hs & Hq & Ha).
        exists c. split; [done|]. by apply (D_children node s).
    + apply all_indep_refs_app; [done..|].
      apply Forall_forall. intros [k q] Hb. apply Forall_forall. intros [k' q'] Ha.
      rewrite Forall_forall in Hprest, Hshape, Hrest. specialize (Hprest _ Hb).
      destruct (Hrest _ Hb) as (v & Hv & _). unfold node_at in Hv. cbn in Hv.
      destruct (trees !! k) as [tk|] eqn:Hk; [|done].
      apply lookup_lt_Some in Hk.
      unfold ref_indep in *. cbn in *.
      destruct (Hshape _ Ha) as [[Hk' (s & Hs & Hpath)]|[Hk' _]]; cbn in *.
      * subst k' q'. destruct (decide (k = r)) as [->|Hne]; [|done].
        rewrite decide_True in Hprest by done.
        apply indep_app_r. by rewrite indep_sym.
      * rewrite decide_False by lia. done.
    + rewrite map_app, list_sum_app, Hsizes.
      assert (map (size_of (trees1 ++ extra)) rest = map (size_of trees) rest) as ->.
      { apply map_ext_in. intros b Hb%list_elem_of_In. unfold size_of.
        by rewrite Hsame. }
      cbn [map] in Hfuel. change (list_sum (?x :: ?l)) with (x + list_sum l) in Hfuel.
      unfold size_of at 1 in Hfuel. rewrite Hp0 in Hfuel.
      pose proof (D_size node HD). lia.
    + exists trees'. split; [exact Hrun|]. rewrite Hres. f_equal.
      rewrite paths_in_app. unfold paths_in at 3. cbn [List.filter fst snd].
      unfold t1. destruct (Nat.eqb_spec r 0) as [->|Hne].
      * rewrite Hpaths, decide_True by done. cbn [map snd]. rewrite apply_all_cons.
        rewrite Ht0 in Hr. injection Hr as <-.
        assert (Forall (fun q => indep p q = true) (paths_in 0 rest)) as Hprest0.
        { apply Forall_forall. intros q Hq. unfold paths_in in Hq.
          apply list_elem_of_fmap in Hq as ([k q'] & -> & Hq).
          apply list_elem_of_In, filter_In in Hq as [Hq Hk]. cbn in Hk.
          apply Nat.eqb_eq in Hk as ->. rewrite Forall_forall in Hprest.
          apply list_elem_of_In in Hq. specialize (Hprest _ Hq).
          unfold ref_indep in Hprest. cbn in Hprest.
          by rewrite decide_True in Hprest. }
        rewrite apply_all_app. rewrite (apply_all_comm M _ (paths_in 0 rest));
          [|done|by apply update_at_is_ast|].
        2:{ apply Forall_forall. intros q (s & -> & Hs)%list_elem_of_fmap.
            eapply Forall_impl; [exact Hprest0|]. intros q' Hq'. cbn beta in *.
            rewrite indep_sym. apply indep_app_r. by rewrite indep_sym. }
        f_equal. rewrite apply_all_children by (done || by apply update_at_is_ast).
        unfold tree1, set_at. rewrite update_at_compose by done.
        apply update_at_ext. intros v. rewrite Hp. intros [= <-].
        rewrite foldl_update_skip; [by apply M_spec|done|apply steps_NoDup|].
        intros s Hs. destruct (child (f node) s); [|done].
        by destruct (child node s).
      * rewrite decide_False by done.
        assert (paths_in 0 refs = []) as ->; [|by rewrite app_nil_r].
        unfold paths_in. clear -Hshape Hne Hlen Hlt.
        induction Hshape as [|[k q] refs Ha _ IHs]; [done|]. cbn [List.filter fst].
        destruct (Nat.eqb_spec k 0) as [->|_]; [|exact IHs].
        cbn in Ha. destruct Ha as [[? _]|[? _]]; [done|lia].
Qed.

Lemma walk_spec (fuel : nat) (tree : pyobj) :
  D tree -> size tree <= fuel -> walk body fuel tree = Ok (M tree).
Proof.
  intros HD Hfuel. unfold walk.
  destruct (walk_loop_spec fuel [(0, [])] [tree] tree) as (trees' & -> & Hres).
  - done.
  - constructor; [by apply D_ast|constructor].
  - constructor; [|constructor]. by exists tree.
  - by cbn.
  - unfold size_of. cbn. lia.
  - cbn [mbind result_bind]. destruct trees' as [|t ts]; [done|].
    cbn in Hres. by injection Hres as ->.
Qed.

End walk_spec.

(** A loop whose body changes the node it is given, and neither the
    nodes below it nor which nodes those are. *)
Section local_walk.

Variable body : pyobj -> result pyobj.
Variable f : pyobj -> pyobj.
Variable ok : pyobj -> bool.

Hypothesis body_ok :
  forall v, is_ast v = true -> ok v = true -> body v = Ok (f v).
Hypothesis f_class : keeps_class f.
Hypothesis f_steps : forall v, is_ast v = true -> steps (f v) = steps v.
Hypothesis f_child : forall v s, is_ast v = true -> child (f v) s = child v s.
Hypothesis f_children :
  forall v, is_ast v = true ->
    f (map_children (map_walked f) v) = map_children (map_walked f) (f v).

Lemma walk_local (fuel : nat) (tree : pyobj) :
  is_ast tree = true -> all_walked ok tree = true -> walk_size tree <= fuel ->
  walk body fuel tree = Ok (map_walked f tree).
Proof.
  intros Ht Hok Hfuel.
  apply (walk_spec body f (map_walked f)
           (fun v => is_ast v = true /\ all_walked ok v = true) walk_size);
    try done.
  - by intros v [? _].
  - intros v [Hv Hv']. rewrite (all_walked_kids ok v Hv) in Hv'.
    apply andb_true_iff in Hv' as [? _]. by apply body_ok.
  - intros v s c [Hv Hv'] Hs. unfold queued_child. rewrite f_child by done.
    destruct (steps_child v s Hs) as (c' & Hc & Hin). rewrite Hc. intros [= <-].
    split; [by eapply child_is_ast|].
    rewrite (all_walked_kids ok v Hv) in Hv'. apply andb_true_iff in Hv' as [_ Hk].
    rewrite forallb_forall in Hk. by apply Hk, list_elem_of_In.
  - intros v [Hv _]. rewrite (walk_size_kids v Hv). apply le_n_S.
    assert (map (fun s => match queued_child v (f v) s with
                          | Some c => walk_size c
                          | None => 0
                          end) (steps v) = map walk_size (kids v)) as ->; [|done].
    transitivity (map (fun o => match o with Some c => walk_size c | None => 0 end)
                      (map (child v) (steps v))).
    { rewrite map_map. apply map_ext. intros s. unfold queued_child.
      rewrite f_child by done. by destruct (child v s). }
    by rewrite steps_kids, map_map.
  - by apply keeps_class_nodes, map_walked_keeps_class.
  - intros v [Hv _]. rewrite <- (f_steps v Hv), map_children_steps.
    by rewrite <- f_children, <- map_walked_node.
Qed.

End local_walk.

Lemma kids_map_children (g : pyobj -> pyobj) (v : pyobj) :
  keeps_nodes g -> kids (map_children g v) = map g (kids v).
Proof.
  intros Hg. destruct v as [| | | | |c fs]; try done. cbn [map_children kids].
  induction fs as [|[n field] fs IH]; [done|].
  cbn [map flat_map fst snd]. rewrite map_app. f_equal; [|exact IH]. clear IH.
  destruct field as [| | | |l|cx fsx]; try done.
  - cbn [field_kids]. induction l as [|x l IHl]; [done|]. cbn [map List.filter].
    destruct x as [| | | | |cy fsy]; cbn [is_ast]; try exact IHl.
    rewrite (Hg (Node cy fsy)) by done. cbn [map]. by f_equal.
  - cbn [field_kids map]. specialize (Hg (Node cx fsx) eq_refl).
    by destruct (g (Node cx fsx)).
Qed.

Lemma kids_steps_child (v w : pyobj) :
  steps w = steps v -> (forall s, child w s = child v s) -> kids w = kids v.
Proof.
  intros Hs Hc. apply (inj (map Some)). rewrite <- !steps_kids, Hs.
  apply map_ext. intros s. apply Hc.
Qed.

Lemma walk_size_kid (v c : pyobj) : c ∈ kids v -> walk_size c < walk_size v.
Proof.
  intros Hc. assert (is_ast v = true) as Hv.
  { destruct v; try by apply elem_of_nil in Hc. done. }
  rewrite (walk_size_kids v Hv). apply Nat.lt_succ_r.
  induction (kids v) as [|x l IH]; [by apply elem_of_nil in Hc|].
  cbn [map]. change (list_sum (?x :: ?l)) with (x + list_sum l).
  apply elem_of_cons in Hc as [->|Hc]; [lia|]. specialize (IH Hc). lia.
Qed.

(** What holds of every result of [f] holds of every node once [f]
    has been at every node. *)
Lemma all_walked_map_walked (f : pyobj -> pyobj) (P : pyobj -> bool) (v : pyobj) :
  keeps_class f ->
  (forall v, is_ast v = true -> steps (f v) = steps v) ->
  (forall v s, is_ast v = true -> child (f v) s = child v s) ->
  (forall v, is_ast v = true -> P (f v) = true) ->
  all_walked P (map_walked f v) = true.
Proof.
  intros Hclass Hsteps Hchild HP.
  assert (keeps_nodes (map_walked f)) as HM.
  { by apply keeps_class_nodes, map_walked_keeps_class. }
  remember (walk_size v) as n eqn:Hn. revert v Hn.
  induction n as [n IH] using lt_wf_ind. intros v ->.
  destruct (is_ast v) eqn:Hv; [|by destruct v].
  assert (is_ast (map_children (map_walked f) v) = true) as Hmc by by destruct v.
  rewrite (map_walked_node f v Hv), all_walked_kids by by apply keeps_class_nodes.
  rewrite HP by done. cbn [andb].
  rewrite (kids_steps_child (map_children (map_walked f) v))
    by (by apply Hsteps || (intros; by apply Hchild)).
  rewrite kids_map_children by done. rewrite forallb_forall.
  intros x (c & <- & Hc)%in_map_iff. apply list_elem_of_In in Hc.
  by apply (IH (walk_size c) (walk_size_kid v c Hc)).
Qed.

(** *** RangeToXrangeFixer *)

Lemma is_range_load_fields (c : string) (fs : list (string * pyobj)) :
  is_range_load (Node c fs) = true ->
  c = "Name" /\ lookup_field "id" fs = Some (PyStr "range")
  /\ exists ctx, lookup_field "ctx" fs = Some ctx /\ isinstance ctx ["Load"] = true.
Proof.
  unfold is_range_load. cbn [isinstance getattr].
  intros [Hc H]%andb_true_iff. unfold str_mem in Hc. cbn in Hc.
  rewrite orb_false_r in Hc. apply String.eqb_eq in Hc.
  destruct (lookup_field "id" fs) as [id|]; [|done].
  destruct (lookup_field "ctx" fs) as [ctx|]; [|done].
  apply andb_true_iff in H as [Hid Hctx]. destruct id as [| | |s| |]; try done.
  apply String.eqb_eq in Hid as ->. by eauto.
Qed.

Lemma range_loop_body_ok (v : pyobj) :
  is_ast v = true -> name_fields v = true ->
  RangeToXrangeFixer.loop_body v = Ok (range_to_xrange v).
Proof.
  intros _. unfold name_fields, RangeToXrangeFixer.loop_body, range_to_xrange,
    is_range_load.
  destruct (isinstance v ["Name"]); [|done]. cbn [negb orb andb].
  destruct (getattr v "id") as [id| |]; [|done..].
  destruct (getattr v "ctx") as [ctx| |]; [|done..]. intros _.
  cbn [mbind result_bind]. destruct (RangeToXrangeFixer.is_range id); [|done].
  cbn [mbind result_bind andb]. by destruct (isinstance ctx ["Load"]).
Qed.

Lemma range_to_xrange_class : keeps_class range_to_xrange.
Proof.
  intros c fs. unfold range_to_xrange.
  destruct (is_range_load (Node c fs)); cbn; by eauto.
Qed.

Lemma set_field_str_steps (n : string) (a b : string) (fs : list (string * pyobj))
    (i : nat) :
  lookup_field n fs = Some (PyStr a) ->
  fields_steps i (set_field n (PyStr b) fs) = fields_steps i fs.
Proof.
  revert i. induction fs as [|[m x] fs IH]; intros i; [done|]. cbn.
  destruct (String.eqb m n); [by intros [= ->]|]. intros H. cbn. by rewrite IH.
Qed.

Lemma set_field_str_child (n : string) (a b : string) (fs : list (string * pyobj))
    (c : string) (s : step) :
  lookup_field n fs = Some (PyStr a) ->
  child (Node c (set_field n (PyStr b) fs)) s = child (Node c fs) s.
Proof.
  destruct s as [i j]. cbn [child fst snd]. revert i.
  induction fs as [|[m x] fs IH]; intros i; [done|]. cbn.
  destruct (String.eqb m n).
  - intros [= ->]. destruct i; [|done]. cbn. by destruct j.
  - intros H. destruct i; [done|]. cbn. by apply IH.
Qed.

Lemma range_to_xrange_steps (v : pyobj) :
  is_ast v = true -> steps (range_to_xrange v) = steps v.
Proof.
  destruct v as [| | | | |c fs]; try done. intros _. unfold range_to_xrange.
  destruct (is_range_load (Node c fs)) eqn:H; [|done].
  apply is_range_load_fields in H as (_ & Hid & _). cbn.
  by apply (set_field_str_steps _ "range").
Qed.

Lemma range_to_xrange_child (v : pyobj) (s : step) :
  is_ast v = true -> child (range_to_xrange v) s = child v s.
Proof.
  destruct v as [| | | | |c fs]; try done. intros _. unfold range_to_xrange.
  destruct (is_range_load (Node c fs)) eqn:H; [|done].
  apply is_range_load_fields in H as (_ & Hid & _). cbn [setattr].
  by apply (set_field_str_child _ "range").
Qed.

Section fields_map.

Variable h : pyobj -> pyobj.

Lemma lookup_field_map (n : string) (fs : list (string * pyobj)) :
  lookup_field n (map (fun nx => (fst nx, h (snd nx))) fs) = h <$> lookup_field n fs.
Proof.
  induction fs as [|[m x] fs IH]; [done|]. cbn. by destruct (String.eqb m n).
Qed.

Lemma set_field_map (n : string) (y : pyobj) (fs : list (string * pyobj)) :
  h y = y ->
  set_field n y (map (fun nx => (fst nx, h (snd nx))) fs)
  = map (fun nx => (fst nx, h (snd nx))) (set_field n y fs).
Proof.
  intros Hy. induction fs as [|[m x] fs IH]; [done|]. cbn.
  destruct (String.eqb m n); cbn; [by rewrite Hy|by rewrite IH].
Qed.

End fields_map.

Lemma range_to_xrange_children (g : pyobj -> pyobj) (v : pyobj) :
  keeps_class g -> is_ast v = true ->
  range_to_xrange (map_children g v) = map_children g (range_to_xrange v).
Proof.
  intros Hg. destruct v as [| | | | |c fs]; try done. intros _.
  set (h := fun x => match x with
                     | Node _ _ => g x
                     | PyList l => PyList (map (fun y => match y with
                                                         | Node _ _ => g y
                                                         | _ => y
                                                         end) l)
                     | x => x
                     end).
  assert (forall c fs, map_children g (Node c fs)
                       = Node c (map (fun nx => (fst nx, h (snd nx))) fs)) as Hmc.
  { intros c' fs'. cbn [map_children]. f_equal. apply map_ext. intros [n x].
    cbn. by destruct x. }
  assert (forall x, RangeToXrangeFixer.is_range (h x) = RangeToXrangeFixer.is_range x)
    as Hrange.
  { intros [| | | | |cx fsx]; try done. cbn. by destruct (Hg cx fsx) as [fs' ->]. }
  assert (forall x cls, isinstance (h x) cls = isinstance x cls) as Hinst.
  { intros [| | | | |cx fsx] cls; try done. cbn. by destruct (Hg cx fsx) as [fs' ->]. }
  assert (is_range_load (map_children g (Node c fs)) = is_range_load (Node c fs)) as Hl.
  { rewrite Hmc. unfold is_range_load. cbn [isinstance getattr]. f_equal.
    rewrite !lookup_field_map.
    destruct (lookup_field "id" fs) as [id|]; [|done].
    destruct (lookup_field "ctx" fs) as [ctx|]; [|done]. cbn.
    by rewrite Hrange, Hinst. }
  unfold range_to_xrange. rewrite Hl.
  destruct (is_range_load (Node c fs)); [|done].
  rewrite Hmc. cbn [setattr]. rewrite Hmc. f_equal. by apply set_field_map.
Qed.

Lemma range_to_xrange_done (v : pyobj) :
  is_ast v = true -> negb (is_range_load (range_to_xrange v)) = true.
Proof.
  destruct v as [| | | | |c fs]; try done. intros _. unfold range_to_xrange.
  destruct (is_range_load (Node c fs)) eqn:H; [|by rewrite H].
  apply is_range_load_fields in H as (-> & Hid & _).
  unfold is_range_load. cbn [setattr isinstance getattr].
  rewrite (lookup_field_set_field _ _ _ _ Hid). cbn.
  by destruct (lookup_field "ctx" (set_field "id" (PyStr "xrange") fs)).
Qed.

(** X18: [RangeToXrangeFixer] renames every [range] that is read. On
    a tree whose names have their [id] and [ctx], with fuel for every
    node, the call returns the tree in which every [Name] node with
    the [id] [range] and a [Load] context has got the [id]
    [xrange], and nothing else has changed: the names that are
    stored to, as in [range = 1], keep their [id], and the fixer
    instance stays as it is. No name [range] that is read is left
    in the result. *)
Theorem RangeToXrangeFixer_renames (fuel : nat) (self : FixerBase) (cfg : BuildConfig)
    (tree : pyobj) :
  is_ast tree = true -> all_walked name_fields tree = true ->
  walk_size tree <= fuel ->
  RangeToXrangeFixer.call fuel self cfg tree
  = Ok (self, map_walked range_to_xrange tree)
  /\ all_walked (fun v => negb (is_range_load v)) (map_walked range_to_xrange tree)
     = true.
Proof.
  intros Ht Hnames Hfuel. split.
  - unfold RangeToXrangeFixer.call.
    rewrite (walk_local _ range_to_xrange name_fields range_loop_body_ok
               range_to_xrange_class range_to_xrange_steps
               (fun v s => range_to_xrange_child v s)); try done.
    intros v Hv. apply range_to_xrange_children; [|done].
    apply map_walked_keeps_class, range_to_xrange_class.
  - apply all_walked_map_walked.
    + apply range_to_xrange_class.
    + apply range_to_xrange_steps.
    + intros v s. apply range_to_xrange_child.
    + apply range_to_xrange_done.
Qed.

Lemma RangeToXrangeFixer_renames_witness :
  RangeToXrangeFixer.call 20 RangeToXrangeFixer.init default_cfg range_module
  = Ok (RangeToXrangeFixer.init,
        ast.Module_
          [Node "For" [("target", ast.Name "i" ast.Store);
                       ("iter", ast.Call (name_ "xrange") (PyList [name_ "n"])
                                         (PyList []));
                       ("body", PyList [ast.Assign [ast.Name "range" ast.Store]
                                          (ast.Call (name_ "xrange")
                                                    (PyList [name_ "i"]) (PyList []))]);
                       ("orelse", PyList [])]]).
Proof.
  refine (proj1 (RangeToXrangeFixer_renames 20 RangeToXrangeFixer.init default_cfg
                   range_module _ _ _)).
  - reflexivity.
  - reflexivity.
  - vm_compute. lia.
Defined.

(** *** Fields by position *)

Lemma index_of_lookup (n : string) (fs : list (string * pyobj)) :
  lookup_field n fs
  = match index_of n fs with
    | Some k => snd <$> fs !! k
    | None => None
    end.
Proof.
  induction fs as [|[m x] fs IH]; [done|]. cbn.
  destruct (String.eqb m n); [done|]. rewrite IH.
  by destruct (index_of n fs).
Qed.

Lemma index_of_name (n : string) (fs : list (string * pyobj)) (k : nat) :
  index_of n fs = Some k -> exists x, fs !! k = Some (n, x).
Proof.
  revert k. induction fs as [|[m x] fs IH]; intros k; [done|]. cbn.
  destruct (String.eqb_spec m n) as [->|Hne].
  - intros [= <-]. by exists x.
  - destruct (index_of n fs) as [k'|]; [|done]. intros [= <-]. by apply IH.
Qed.

Lemma index_of_set_field (n : string) (y : pyobj) (fs : list (string * pyobj)) :
  set_field n y fs
  = match index_of n fs with
    | Some k => <[k := (n, y)]> fs
    | None => fs
    end.
Proof.
  induction fs as [|[m x] fs IH]; [done|]. cbn.
  destruct (String.eqb_spec m n) as [->|Hne]; [done|]. rewrite IH.
  by destruct (index_of n fs).
Qed.

Lemma index_of_map (h : pyobj -> pyobj) (n : string) (fs : list (string * pyobj)) :
  index_of n (map (fun nx => (fst nx, h (snd nx))) fs) = index_of n fs.
Proof.
  induction fs as [|[m x] fs IH]; [done|]. cbn.
  destruct (String.eqb m n); [done|]. by rewrite IH.
Qed.

Lemma index_of_insert (n m : string) (x y : pyobj) (fs : list (string * pyobj))
    (k : nat) :
  fs !! k = Some (m, x) -> index_of n (<[k := (m, y)]> fs) = index_of n fs.
Proof.
  revert k. induction fs as [|[m' x'] fs IH]; intros k; [done|].
  destruct k as [|k].
  - cbn. by intros [= -> ->].
  - change (<[S k := ?y]> (?a :: ?l)) with (a :: <[k := y]> l). cbn.
    intros H. destruct (String.eqb m' n); [done|]. by rewrite (IH k).
Qed.

Lemma index_of_lt (n : string) (fs : list (string * pyobj)) (k : nat) :
  index_of n fs = Some k -> k < length fs.
Proof.
  intros (x & Hx)%index_of_name. by eapply lookup_lt_Some.
Qed.

Lemma index_of_has_field (n : string) (fs : list (string * pyobj)) :
  has_field n fs = true -> exists k x, index_of n fs = Some k /\ fs !! k = Some (n, x).
Proof.
  unfold has_field. rewrite index_of_lookup.
  destruct (index_of n fs) as [k|] eqn:Hk; [|done]. intros _.
  destruct (index_of_name _ _ _ Hk) as (x & Hx). by exists k, x.
Qed.

Lemma index_of_lookup_field (n : string) (fs : list (string * pyobj)) (x : pyobj) :
  lookup_field n fs = Some x -> exists k, index_of n fs = Some k /\ fs !! k = Some (n, x).
Proof.
  rewrite index_of_lookup. destruct (index_of n fs) as [k|] eqn:Hk; [|done].
  destruct (index_of_name _ _ _ Hk) as (x' & Hx). rewrite Hx. cbn.
  intros [= <-]. by exists k.
Qed.

Lemma map_fields_set_field (h : pyobj -> pyobj) (n : string) (y : pyobj)
    (fs : list (string * pyobj)) :
  map (fun nx => (fst nx, h (snd nx))) (set_field n y fs)
  = set_field n (h y) (map (fun nx => (fst nx, h (snd nx))) fs).
Proof.
  induction fs as [|[m x] fs IH]; [done|]. cbn.
  destruct (String.eqb m n); cbn; [done|by rewrite IH].
Qed.

(** *** The steps of a node one field of which is replaced *)

Lemma fields_steps_insert_node (i k : nat) (n n' : string) (old new : pyobj)
    (fs : list (string * pyobj)) :
  fs !! k = Some (n, old) -> is_ast old = true -> is_ast new = true ->
  fields_steps i (<[k := (n', new)]> fs) = fields_steps i fs.
Proof.
  intros Hk Hold Hnew. revert i k Hk.
  induction fs as [|f fs IH]; intros i [|k] Hk; try done.
  - cbn in *. injection Hk as ->. cbn. by destruct old, new.
  - change (<[S k := ?y]> (?a :: ?l)) with (a :: <[k := y]> l). cbn in *.
    by rewrite (IH _ k).
Qed.

Lemma fields_steps_insert_none (i k : nat) (n' : string) (fs : list (string * pyobj)) :
  k < length fs ->
  fields_steps i (<[k := (n', PyNone)]> fs)
  = List.filter (fun s => negb (Nat.eqb (fst s) (i + k))) (fields_steps i fs).
Proof.
  revert i k. induction fs as [|f fs IH]; intros i [|k] Hk; cbn in Hk; try lia.
  - cbn. rewrite List.filter_app, Nat.add_0_r.
    assert (List.filter (fun s => negb (Nat.eqb (fst s) i))
                        (map (pair i) (field_steps (snd f))) = []) as ->.
    { induction (field_steps (snd f)) as [|j l IHl]; [done|]. cbn.
      by rewrite Nat.eqb_refl. }
    cbn. symmetry. apply forallb_filter_id. apply forallb_forall.
    intros s Hs%list_elem_of_In%fields_steps_ge.
    apply negb_true_iff, Nat.eqb_neq. lia.
  - change (<[S k := ?y]> (?a :: ?l)) with (a :: <[k := y]> l).
    cbn. rewrite List.filter_app, (IH (S i) k) by lia. f_equal.
    + symmetry. apply forallb_filter_id. apply forallb_forall.
      intros s (j & <- & _)%in_map_iff. cbn. apply negb_true_iff, Nat.eqb_neq. lia.
    + apply filter_ext. intros s. do 2 f_equal. lia.
Qed.

Lemma child_insert (c : string) (fs : list (string * pyobj)) (k : nat) (f : string * pyobj)
    (s : step) :
  k < length fs ->
  child (Node c (<[k := f]> fs)) s
  = if decide (fst s = k) then field_child (snd f) (snd s) else child (Node c fs) s.
Proof.
  intros Hk. cbn. destruct (decide (s.1 = k)) as [->|Hne].
  - rewrite list_lookup_insert_eq by done. by destruct f.
  - by rewrite list_lookup_insert_ne.
Qed.

(** *** RemoveFunctionDefAnnotationsFixer *)

Lemma clear_each_args (a : list pyobj) :
  forallb is_arg a = true ->
  RemoveFunctionDefAnnotationsFixer.clear_each a = Ok (map clear_arg a).
Proof.
  induction a as [|x a IH]; [done|]. cbn [forallb]. intros [Hx Ha]%andb_true_iff.
  cbn [RemoveFunctionDefAnnotationsFixer.clear_each]. destruct x; try done.
  cbn [assign mbind result_bind]. by rewrite IH.
Qed.

Lemma clear_optional_opt (x : pyobj) :
  opt_arg x = true ->
  RemoveFunctionDefAnnotationsFixer.clear_optional x = Ok (clear_opt x).
Proof.
  unfold RemoveFunctionDefAnnotationsFixer.clear_optional, clear_opt.
  by destruct x.
Qed.

Lemma isinstance_class (c : string) (fs : list (string * pyobj)) (cls : string) :
  isinstance (Node c fs) [cls] = String.eqb c cls.
Proof. cbn. unfold str_mem. cbn. by rewrite orb_false_r. Qed.

(** The fields of a definition as the parser builds it. *)
Lemma def_fields_args (c : string) (fs : list (string * pyobj)) :
  isinstance (Node c fs) ["FunctionDef"] = true -> def_fields (Node c fs) = true ->
  exists afs a k va kw,
    has_field "returns" fs = true
    /\ lookup_field "args" fs = Some (Node "arguments" afs)
    /\ lookup_field "args" afs = Some (PyList a)
    /\ lookup_field "kwonlyargs" afs = Some (PyList k)
    /\ lookup_field "vararg" afs = Some va
    /\ lookup_field "kwarg" afs = Some kw
    /\ forallb is_arg a = true /\ forallb is_arg k = true
    /\ opt_arg va = true /\ opt_arg kw = true.
Proof.
  intros Hc. unfold def_fields. rewrite Hc. cbn [negb orb].
  intros [Hr H]%andb_true_iff.
  destruct (lookup_field "args" fs) as [[| | | | |ca afs]|]; try done.
  apply andb_true_iff in H as [Hca H]. apply String.eqb_eq in Hca as ->.
  destruct (lookup_field "args" afs) as [[| | | |a|]|] eqn:E1; try done.
  destruct (lookup_field "kwonlyargs" afs) as [[| | | |k|]|] eqn:E2; try done.
  destruct (lookup_field "vararg" afs) as [va|] eqn:E3; try done.
  destruct (lookup_field "kwarg" afs) as [kw|] eqn:E4; try done.
  apply andb_true_iff in H as [H Hkw]. apply andb_true_iff in H as [H Hva].
  apply andb_true_iff in H as [Ha Hk]. exists afs, a, k, va, kw. by split_and!.
Qed.

Lemma loop_body_def (c : string) (fs : list (string * pyobj)) (args : pyobj) :
  isinstance (Node c fs) ["FunctionDef"] = true -> def_fields (Node c fs) = true ->
  lookup_field "args" fs = Some args ->
  RemoveFunctionDefAnnotationsFixer.loop_body (Node c fs)
  = Ok (Node c (set_field "args" (strip_arguments args)
                  (set_field "returns" PyNone fs))).
Proof.
  intros Hc Hd Hargs.
  destruct (def_fields_args c fs Hc Hd)
    as (afs & a & k & va & kw & Hr & Hargs' & Ha & Hk & Hva & Hkw & Hoka & Hokk
        & Hokva & Hokkw).
  rewrite Hargs in Hargs'. injection Hargs' as ->.
  unfold RemoveFunctionDefAnnotationsFixer.loop_body. rewrite Hc. cbn [negb assign].
  rewrite Hr. cbn [mbind result_bind getattr].
  rewrite lookup_field_set_field_ne, Hargs by done. cbn [mbind result_bind getattr].
  rewrite Ha. cbn [mbind result_bind RemoveFunctionDefAnnotationsFixer.clear_all].
  rewrite (clear_each_args a Hoka). cbn [mbind result_bind setattr getattr].
  rewrite lookup_field_set_field_ne, Hk by done.
  cbn [mbind result_bind RemoveFunctionDefAnnotationsFixer.clear_all].
  rewrite (clear_each_args k Hokk). cbn [mbind result_bind setattr getattr].
  rewrite !lookup_field_set_field_ne, Hva by done. cbn [mbind result_bind].
  rewrite (clear_optional_opt va Hokva). cbn [mbind result_bind setattr getattr].
  rewrite !lookup_field_set_field_ne, Hkw by done. cbn [mbind result_bind].
  rewrite (clear_optional_opt kw Hokkw). cbn [mbind result_bind setattr].
  unfold strip_arguments. by rewrite Ha, Hk, Hva, Hkw.
Qed.

Lemma strip_def_other (v : pyobj) :
  isinstance v ["FunctionDef"] = false -> strip_def v = v.
Proof.
  intros H. unfold strip_def, RemoveFunctionDefAnnotationsFixer.loop_body.
  by rewrite H.
Qed.

Lemma strip_def_class : keeps_class strip_def.
Proof.
  intros c fs. unfold strip_def.
  destruct (RemoveFunctionDefAnnotationsFixer.loop_body (Node c fs)) as [v'| |] eqn:H;
    [|by eauto..].
  unfold RemoveFunctionDefAnnotationsFixer.loop_body in H.
  destruct (negb (isinstance (Node c fs) ["FunctionDef"])); [injection H as <-; by eauto|].
  cbn [assign] in H. cbn [mbind result_bind] in H.
  bind_inv H as args Hargs. bind_inv H as a Ha. bind_inv H as a' Ha'.
  bind_inv H as k Hk. bind_inv H as k' Hk'. bind_inv H as va Hva.
  bind_inv H as va' Hva'. bind_inv H as kw Hkw. bind_inv H as kw' Hkw'.
  injection H as <-. cbn [setattr]. by eauto.
Qed.

Lemma map_children_fields_eq (g : pyobj -> pyobj) (c : string)
    (fs : list (string * pyobj)) :
  map_children g (Node c fs) = Node c (map (fun nx => (fst nx, map_value g (snd nx))) fs).
Proof.
  cbn [map_children]. f_equal. apply map_ext. intros [n x]. cbn. by destruct x.
Qed.

Lemma walk_size_fields (c : string) (fs : list (string * pyobj)) :
  walk_size (Node c fs) = S (list_sum (map (fun f => field_size (snd f)) fs)).
Proof.
  cbn [walk_size]. do 2 f_equal; try (apply map_ext; intros [n x]; cbn; by destruct x).
Qed.

Lemma all_walked_fields (P : pyobj -> bool) (c : string) (fs : list (string * pyobj)) :
  all_walked P (Node c fs)
  = P (Node c fs) && forallb (fun f => value_walked P (snd f)) fs.
Proof. reflexivity. Qed.

Lemma field_size_set_field (n : string) (old new : pyobj) (fs : list (string * pyobj)) :
  lookup_field n fs = Some old -> field_size new <= field_size old ->
  list_sum (map (fun f => field_size (snd f)) (set_field n new fs))
  <= list_sum (map (fun f => field_size (snd f)) fs).
Proof.
  intros Hold Hle. induction fs as [|[m x] fs IH]; [done|].
  cbn [lookup_field set_field] in Hold |- *. destruct (String.eqb m n).
  - injection Hold as ->. cbn [map snd].
    change (list_sum (?x :: ?l)) with (x + list_sum l). lia.
  - cbn [map snd]. change (list_sum (?x :: ?l)) with (x + list_sum l).
    specialize (IH Hold). lia.
Qed.

Section strip.

Let M := map_walked strip_def.
Let h := map_value M.

Lemma M_class : keeps_class M.
Proof. apply map_walked_keeps_class, strip_def_class. Qed.

Lemma M_other (v : pyobj) :
  is_ast v = true -> isinstance v ["FunctionDef"] = false -> M v = map_children M v.
Proof.
  intros Hv Hc. unfold M. rewrite (map_walked_node _ v Hv). apply strip_def_other.
  by destruct v.
Qed.

Lemma clear_arg_map_children (g : pyobj -> pyobj) (x : pyobj) :
  map_children g (clear_arg x) = clear_arg (map_children g x).
Proof.
  destruct x as [| | | | |c fs]; try done. cbn [clear_arg].
  rewrite !map_children_fields_eq. cbn [clear_arg]. f_equal.
  unfold has_field. rewrite lookup_field_map.
  destruct (lookup_field "annotation" fs); cbn.
  - by rewrite map_fields_set_field.
  - by rewrite map_app.
Qed.

Lemma clear_arg_class (x : pyobj) (cls : list string) :
  isinstance (clear_arg x) cls = isinstance x cls.
Proof. by destruct x. Qed.

Lemma M_clear_arg (x : pyobj) : is_arg x = true -> M (clear_arg x) = clear_arg (M x).
Proof.
  intros Hx. assert (is_ast x = true) as Hast by by destruct x.
  assert (isinstance x ["FunctionDef"] = false) as Hc.
  { destruct x as [| | | | |c fs]; try done. unfold is_arg in Hx.
    rewrite isinstance_class in *. apply String.eqb_eq in Hx as ->. done. }
  rewrite (M_other x Hast Hc), <- clear_arg_map_children. apply M_other.
  - by destruct x.
  - by rewrite clear_arg_class.
Qed.

Lemma M_is_arg (x : pyobj) : is_arg (M x) = is_arg x.
Proof.
  destruct x as [| | | | |c fs]; try done. by destruct (M_class c fs) as [fs' ->].
Qed.

Lemma h_clear_args (a : list pyobj) :
  forallb is_arg a = true ->
  h (PyList (map clear_arg a)) = PyList (map clear_arg (map (fun y => match y with
                                                                        | Node _ _ => M y
                                                                        | _ => y
                                                                        end) a)).
Proof.
  intros Ha. cbn. f_equal. rewrite !map_map. apply map_ext_in.
  intros x Hx. rewrite forallb_forall in Ha. specialize (Ha x Hx).
  destruct x as [| | | | |c fs]; try done.
  change (clear_arg (Node c fs)) with (Node c (if has_field "annotation" fs
          then set_field "annotation" PyNone fs else fs ++ [("annotation", PyNone)])).
  by apply (M_clear_arg (Node c fs)).
Qed.

Lemma h_clear_opt (x : pyobj) : opt_arg x = true -> h (clear_opt x) = clear_opt (h x).
Proof.
  destruct x as [| | | | |c fs]; try done. intros Hx.
  unfold clear_opt. cbn [truthy]. assert (is_arg (Node c fs) = true) as Ha by done.
  change (h (clear_arg (Node c fs))) with (M (clear_arg (Node c fs))).
  rewrite (M_clear_arg _ Ha). cbn [h map_value].
  by destruct (M_class c fs) as [fs' ->].
Qed.

Lemma forallb_is_arg_map (a : list pyobj) :
  forallb is_arg a = true ->
  forallb is_arg (map (fun y => match y with Node _ _ => M y | _ => y end) a) = true.
Proof.
  rewrite !forallb_forall. intros Ha x (y & <- & Hy)%in_map_iff.
  specialize (Ha y Hy). destruct y; try done. by rewrite M_is_arg.
Qed.

Lemma M_strip_arguments (afs : list (string * pyobj)) (a k : list pyobj) (va kw : pyobj) :
  lookup_field "args" afs = Some (PyList a) ->
  lookup_field "kwonlyargs" afs = Some (PyList k) ->
  lookup_field "vararg" afs = Some va -> lookup_field "kwarg" afs = Some kw ->
  forallb is_arg a = true -> forallb is_arg k = true ->
  opt_arg va = true -> opt_arg kw = true ->
  M (strip_arguments (Node "arguments" afs))
  = strip_arguments (M (Node "arguments" afs)).
Proof.
  intros Ha Hk Hva Hkw Hoka Hokk Hokva Hokkw.
  rewrite (M_other (Node "arguments" afs)) by done.
  rewrite M_other.
  2:{ unfold strip_arguments. by rewrite Ha, Hk, Hva, Hkw. }
  2:{ unfold strip_arguments. by rewrite Ha, Hk, Hva, Hkw. }
  unfold strip_arguments at 1. rewrite Ha, Hk, Hva, Hkw.
  rewrite !map_children_fields_eq. unfold strip_arguments.
  rewrite !lookup_field_map, Ha, Hk, Hva, Hkw. cbn [fmap option_fmap option_map map_value].
  f_equal. rewrite !map_fields_set_field.
  fold h. rewrite (h_clear_opt kw Hokkw), (h_clear_opt va Hokva).
  rewrite (h_clear_args a Hoka), (h_clear_args k Hokk). done.
Qed.

Lemma def_fields_map_children (c : string) (fs : list (string * pyobj)) :
  isinstance (Node c fs) ["FunctionDef"] = true -> def_fields (Node c fs) = true ->
  def_fields (map_children M (Node c fs)) = true.
Proof.
  intros Hc Hd.
  destruct (def_fields_args c fs Hc Hd)
    as (afs & a & k & va & kw & Hr & Hargs & Ha & Hk & Hva & Hkw & Hoka & Hokk
        & Hokva & Hokkw).
  rewrite map_children_fields_eq. unfold def_fields. rewrite isinstance_class in *.
  rewrite Hc. cbn [negb orb]. unfold has_field in *. rewrite !lookup_field_map, Hargs.
  destruct (lookup_field "returns" fs); [|done]. cbn [fmap option_fmap option_map andb].
  change (map_value M (Node "arguments" afs)) with (M (Node "arguments" afs)).
  rewrite (M_other (Node "arguments" afs)) by done.
  rewrite map_children_fields_eq. cbn [String.eqb Ascii.eqb Bool.eqb andb].
  rewrite !lookup_field_map, Ha, Hk, Hva, Hkw.
  cbn [fmap option_fmap option_map map_value].
  rewrite !forallb_is_arg_map by done. cbn [andb].
  assert (forall x, opt_arg x = true -> opt_arg (map_value M x) = true) as Hopt.
  { intros [| | | | |cx fsx]; try done. intros Hx. cbn [map_value].
    unfold opt_arg in *. cbn [is_none orb] in *. rewrite M_is_arg, Hx.
    apply orb_true_r. }
  by rewrite !Hopt.
Qed.

Lemma strip_def_map_children (v : pyobj) :
  is_ast v = true -> def_fields v = true ->
  strip_def (map_children M v) = map_children M (strip_def v).
Proof.
  intros Hv Hd. destruct v as [| | | | |c fs]; try done.
  destruct (isinstance (Node c fs) ["FunctionDef"]) eqn:Hc.
  2:{ by rewrite !strip_def_other. }
  destruct (def_fields_args c fs Hc Hd)
    as (afs & a & k & va & kw & Hr & Hargs & Ha & Hk & Hva & Hkw & Hoka & Hokk
        & Hokva & Hokkw).
  pose proof (def_fields_map_children c fs Hc Hd) as Hd'.
  unfold strip_def at 2. rewrite (loop_body_def c fs _ Hc Hd Hargs).
  rewrite map_children_fields_eq in Hd' |- *.
  unfold strip_def. erewrite loop_body_def; [|done|exact Hd'|].
  2:{ by rewrite lookup_field_map, Hargs. }
  rewrite map_children_fields_eq, !map_fields_set_field. cbn [map_value]. do 2 f_equal.
  rewrite <- (M_strip_arguments afs a k va kw) by done.
  unfold strip_arguments. by rewrite Ha, Hk, Hva, Hkw.
Qed.

End strip.

(** A definition after the body of the loop, by the positions of
    its fields [args] and [returns]. *)
Lemma strip_def_insert (c : string) (fs : list (string * pyobj)) :
  isinstance (Node c fs) ["FunctionDef"] = true -> def_fields (Node c fs) = true ->
  exists ka kr r afs,
    ka <> kr /\ ka < length fs /\ kr < length fs
    /\ fs !! ka = Some ("args", Node "arguments" afs)
    /\ fs !! kr = Some ("returns", r)
    /\ lookup_field "args" fs = Some (Node "arguments" afs)
    /\ is_ast (strip_arguments (Node "arguments" afs)) = true
    /\ strip_def (Node c fs)
       = Node c (<[ka := ("args", strip_arguments (Node "arguments" afs))]>
                   (<[kr := ("returns", PyNone)]> fs)).
Proof.
  intros Hc Hd.
  destruct (def_fields_args c fs Hc Hd)
    as (afs & a & k & va & kw & Hr & Hargs & Ha & Hk & Hva & Hkw & Hoka & Hokk
        & Hokva & Hokkw).
  destruct (index_of_has_field _ _ Hr) as (kr & r & Hkr & Hr').
  destruct (index_of_lookup_field _ _ _ Hargs) as (ka & Hka & Hargs').
  exists ka, kr, r, afs.
  assert (ka <> kr) as Hne.
  { intros ->. rewrite Hr' in Hargs'. by injection Hargs'. }
  split_and!; try done.
  - by eapply lookup_lt_Some.
  - by eapply lookup_lt_Some.
  - unfold strip_arguments. by rewrite Ha, Hk, Hva, Hkw.
  - unfold strip_def. rewrite (loop_body_def c fs _ Hc Hd Hargs).
    rewrite (index_of_set_field "returns"), Hkr.
    rewrite (index_of_set_field "args"), (index_of_insert _ _ r _ _ _ Hr'), Hka. done.
Qed.

Lemma strip_def_child (c : string) (fs : list (string * pyobj)) (s : step) (x : pyobj) :
  isinstance (Node c fs) ["FunctionDef"] = true -> def_fields (Node c fs) = true ->
  child (strip_def (Node c fs)) s = Some x ->
  child (Node c fs) s = Some x
  \/ exists args, child (Node c fs) s = Some args /\ is_ast args = true
                  /\ lookup_field "args" fs = Some args /\ x = strip_arguments args.
Proof.
  intros Hc Hd.
  destruct (strip_def_insert c fs Hc Hd)
    as (ka & kr & r & afs & Hne & Hka & Hkr & Hargs & Hr & Hl & Hast & ->).
  rewrite child_insert by by rewrite length_insert.
  destruct (decide (s.1 = ka)) as [Hs|Hs].
  - cbn [snd]. destruct s as [i [j|]]; cbn [fst snd] in *.
    { revert Hast. by destruct (strip_arguments (Node "arguments" afs)). }
    intros Hx. right. exists (Node "arguments" afs). subst i. cbn [child fst snd].
    rewrite Hargs. cbn [field_child]. split_and!; try done.
    revert Hast Hx. destruct (strip_arguments (Node "arguments" afs)); try done.
    by intros _ [= <-].
  - rewrite child_insert by done. destruct (decide (s.1 = kr)); [by destruct s.2|].
    by left.
Qed.

Lemma strip_walk_children (v : pyobj) :
  is_ast v = true -> def_fields v = true ->
  foldl (fun t s => update_at [s] (map_walked strip_def) t) (strip_def v) (steps v)
  = map_walked strip_def v.
Proof.
  intros Hv Hd. rewrite (map_walked_node strip_def v Hv).
  rewrite (strip_def_map_children v Hv Hd). set (M := map_walked strip_def).
  assert (keeps_nodes M) as HM.
  { by apply keeps_class_nodes, map_walked_keeps_class, strip_def_class. }
  destruct v as [| | | | |c fs]; try done.
  destruct (isinstance (Node c fs) ["FunctionDef"]) eqn:Hc.
  2:{ rewrite strip_def_other by done. apply map_children_steps. }
  destruct (strip_def_insert c fs Hc Hd)
    as (ka & kr & r & afs & Hne & Hka & Hkr & Hargs & Hr & Hl & Hast & Hf).
  rewrite <- map_children_steps.
  rewrite <- (foldl_update_skip M (fun s => negb (Nat.eqb (fst s) kr)) (steps (Node c fs)));
    [|done|apply steps_NoDup|].
  - f_equal. rewrite Hf. cbn [steps].
    rewrite (fields_steps_insert_node 0 ka "args" "args" (Node "arguments" afs));
      [|by rewrite list_lookup_insert_ne|done|done].
    by rewrite fields_steps_insert_none.
  - intros s _ Hs. apply negb_false_iff, Nat.eqb_eq in Hs. rewrite Hf.
    rewrite child_insert by by rewrite length_insert.
    rewrite decide_False by congruence. rewrite child_insert by done.
    rewrite decide_True by done. by destruct s.2.
Qed.

Section all_walked_strip.

Variable P : pyobj -> bool.
Hypothesis P_other :
  forall v, is_ast v = true -> isinstance v ["FunctionDef"] = false -> P v = true.

Lemma is_arg_other (x : pyobj) :
  is_arg x = true -> is_ast x = true /\ isinstance x ["FunctionDef"] = false.
Proof.
  destruct x as [| | | | |c fs]; try done. unfold is_arg.
  rewrite !isinstance_class. by intros ->%String.eqb_eq.
Qed.

Lemma all_walked_clear_arg (x : pyobj) :
  is_arg x = true -> all_walked P x = true -> all_walked P (clear_arg x) = true.
Proof.
  intros Hx. destruct (is_arg_other x Hx) as [Hast Hc].
  destruct x as [| | | | |c fs]; try done. cbn [clear_arg].
  rewrite !all_walked_fields. intros [_ Hfs]%andb_true_iff.
  rewrite P_other by done. cbn [andb].
  destruct (has_field "annotation" fs).
  - by apply set_field_forallb.
  - rewrite forallb_app, Hfs. done.
Qed.

Lemma value_walked_clear_args (a : list pyobj) :
  forallb is_arg a = true -> value_walked P (PyList a) = true ->
  value_walked P (PyList (map clear_arg a)) = true.
Proof.
  cbn [value_walked]. induction a as [|x a IH]; [done|]. cbn [forallb map].
  intros [Hx Ha]%andb_true_iff [Hwx Hwa]%andb_true_iff. rewrite (IH Ha Hwa), andb_true_r.
  destruct (is_arg_other x Hx) as [Hast _]. destruct x as [| | | | |c fs]; try done.
  by apply (all_walked_clear_arg (Node c fs)).
Qed.

Lemma value_walked_clear_opt (x : pyobj) :
  opt_arg x = true -> value_walked P x = true -> value_walked P (clear_opt x) = true.
Proof.
  destruct x as [| | | | |c fs]; try done. intros Hx Hw.
  by apply (all_walked_clear_arg (Node c fs)).
Qed.

Lemma all_walked_strip_arguments (afs : list (string * pyobj)) (a k : list pyobj)
    (va kw : pyobj) :
  lookup_field "args" afs = Some (PyList a) ->
  lookup_field "kwonlyargs" afs = Some (PyList k) ->
  lookup_field "vararg" afs = Some va -> lookup_field "kwarg" afs = Some kw ->
  forallb is_arg a = true -> forallb is_arg k = true ->
  opt_arg va = true -> opt_arg kw = true ->
  all_walked P (Node "arguments" afs) = true ->
  all_walked P (strip_arguments (Node "arguments" afs)) = true.
Proof.
  intros Ha Hk Hva Hkw Hoka Hokk Hokva Hokkw. unfold strip_arguments.
  rewrite Ha, Hk, Hva, Hkw, !all_walked_fields. intros [_ Hfs]%andb_true_iff.
  rewrite P_other by done. cbn [andb].
  pose proof (children_walked_lookup P "arguments" afs) as Hl.
  cbn [children_walked] in Hl.
  repeat apply set_field_forallb; try done; cbn [snd].
  - apply value_walked_clear_args; [done|]. by apply (Hl "args").
  - apply value_walked_clear_args; [done|]. by apply (Hl "kwonlyargs").
  - apply value_walked_clear_opt; [done|]. by apply (Hl "vararg").
  - apply value_walked_clear_opt; [done|]. by apply (Hl "kwarg").
Qed.

End all_walked_strip.

Lemma walk_size_clear_arg (x : pyobj) : walk_size (clear_arg x) <= walk_size x.
Proof.
  destruct x as [| | | | |c fs]; try done. cbn [clear_arg]. rewrite !walk_size_fields.
  apply le_n_S. unfold has_field.
  destruct (lookup_field "annotation" fs) as [old|] eqn:E.
  - apply (field_size_set_field _ old); [done|cbn; lia].
  - rewrite map_app, list_sum_app. cbn. lia.
Qed.

Lemma field_size_clear_args (a : list pyobj) :
  field_size (PyList (map clear_arg a)) <= field_size (PyList a).
Proof.
  cbn [field_size]. induction a as [|x a IH]; [done|]. cbn [map].
  change (list_sum (?x :: ?l)) with (x + list_sum l).
  pose proof (walk_size_clear_arg x). destruct x; cbn [clear_arg] in *; lia.
Qed.

Lemma field_size_clear_opt (x : pyobj) : field_size (clear_opt x) <= field_size x.
Proof.
  destruct x as [|b|n|s|l|c fs]; unfold clear_opt; cbn [truthy].
  1-5: try done; by match goal with
                    | |- context [if ?b then _ else _] => destruct b
                    end.
  apply (walk_size_clear_arg (Node c fs)).
Qed.

Lemma walk_size_strip_arguments (args : pyobj) :
  walk_size (strip_arguments args) <= walk_size args.
Proof.
  destruct args as [| | | | |c afs]; try done. unfold strip_arguments.
  destruct (lookup_field "args" afs) as [[| | | |a|]|] eqn:Ha; try done.
  destruct (lookup_field "kwonlyargs" afs) as [[| | | |k|]|] eqn:Hk; try done.
  destruct (lookup_field "vararg" afs) as [va|] eqn:Hva; try done.
  destruct (lookup_field "kwarg" afs) as [kw|] eqn:Hkw; try done.
  rewrite !walk_size_fields. apply le_n_S.
  etransitivity; [apply (field_size_set_field _ kw)|];
    [by rewrite !lookup_field_set_field_ne|apply field_size_clear_opt|].
  etransitivity; [apply (field_size_set_field _ va)|];
    [by rewrite !lookup_field_set_field_ne|apply field_size_clear_opt|].
  etransitivity; [apply (field_size_set_field _ (PyList k))|];
    [by rewrite !lookup_field_set_field_ne|apply field_size_clear_args|].
  apply (field_size_set_field _ (PyList a)); [done|apply field_size_clear_args].
Qed.

Lemma list_sum_le {A} (g g' : A -> nat) (l : list A) :
  (forall x, x ∈ l -> g x <= g' x) -> list_sum (map g l) <= list_sum (map g' l).
Proof.
  induction l as [|x l IH]; intros H; [done|]. cbn [map].
  change (list_sum (?x :: ?l)) with (x + list_sum l).
  specialize (H x (list_elem_of_here _ _)) as Hx.
  assert (list_sum (map g l) <= list_sum (map g' l)); [|lia].
  apply IH. intros y Hy. apply H. by right.
Qed.

Lemma walk_size_steps (v : pyobj) :
  is_ast v = true ->
  walk_size v = S (list_sum (map (fun s => match child v s with
                                            | Some c => walk_size c
                                            | None => 0
                                            end) (steps v))).
Proof.
  intros Hv. rewrite (walk_size_kids v Hv). do 2 f_equal.
  rewrite <- (map_map (child v) (fun o => match o with
                                          | Some c => walk_size c
                                          | None => 0
                                          end)).
  by rewrite steps_kids, map_map.
Qed.

Lemma all_walked_child (P : pyobj -> bool) (v : pyobj) (s : step) (c : pyobj) :
  all_walked P v = true -> child v s = Some c -> all_walked P c = true.
Proof.
  destruct v as [| | | | |cls fs]; try done. rewrite all_walked_fields.
  intros [_ Hfs]%andb_true_iff. cbn [child].
  destruct (fs !! s.1) as [[n field]|] eqn:Hf; [|done].
  rewrite forallb_forall in Hfs. apply list_elem_of_lookup_2, list_elem_of_In in Hf.
  specialize (Hfs _ Hf). cbn [snd] in Hfs.
  destruct s as [i [j|]]; cbn [snd field_child]; destruct field as [| | | |l|]; try done.
  - destruct (l !! j) as [y|] eqn:Hj; [|done]. destruct (is_ast y) eqn:Hy; [|done].
    intros [= <-]. cbn [value_walked] in Hfs. rewrite forallb_forall in Hfs.
    apply list_elem_of_lookup_2, list_elem_of_In in Hj. specialize (Hfs _ Hj).
    by destruct y.
  - by intros [= <-].
Qed.

Lemma strip_loop_body (v : pyobj) :
  is_ast v = true -> def_fields v = true ->
  RemoveFunctionDefAnnotationsFixer.loop_body v = Ok (strip_def v).
Proof.
  intros Hv Hd. destruct v as [| | | | |c fs]; try done.
  destruct (isinstance (Node c fs) ["FunctionDef"]) eqn:Hc.
  - destruct (def_fields_args c fs Hc Hd) as (afs & _ & _ & _ & _ & _ & Hargs & _).
    unfold strip_def. by rewrite (loop_body_def c fs _ Hc Hd Hargs).
  - rewrite strip_def_other by done.
    unfold RemoveFunctionDefAnnotationsFixer.loop_body. by rewrite Hc.
Qed.

Lemma def_fields_other (v : pyobj) :
  is_ast v = true -> isinstance v ["FunctionDef"] = false -> def_fields v = true.
Proof. intros _ H. unfold def_fields. by rewrite H. Qed.

Lemma unannotated_other (v : pyobj) :
  is_ast v = true -> isinstance v ["FunctionDef"] = false -> unannotated v = true.
Proof. intros _ H. unfold unannotated. by rewrite H. Qed.

(** The nodes that the queue holds after a definition. *)
Lemma strip_queued_child (P : pyobj -> bool) (v : pyobj) (s : step) (c : pyobj) :
  (forall v, is_ast v = true -> isinstance v ["FunctionDef"] = false -> P v = true) ->
  is_ast v = true -> def_fields v = true -> all_walked P v = true ->
  queued_child v (strip_def v) s = Some c ->
  is_ast c = true /\ all_walked P c = true
  /\ match child v s with
     | Some c' => walk_size c <= walk_size c'
     | None => False
     end.
Proof.
  intros HP Hv Hd Hw. unfold queued_child.
  destruct v as [| | | | |cls fs]; try done.
  destruct (isinstance (Node cls fs) ["FunctionDef"]) eqn:Hc.
  2:{ rewrite strip_def_other by done.
      destruct (child (Node cls fs) s) as [c'|] eqn:Hc'; [|done]. intros [= <-].
      split_and!; [by eapply child_is_ast|by eapply all_walked_child|done]. }
  destruct (child (strip_def (Node cls fs)) s) as [c'|] eqn:Hc'.
  - intros [= <-]. apply strip_def_child in Hc' as [Hc'|(args & Hs & Hast & Hl & ->)];
      try done.
    + rewrite Hc'. split_and!; [by eapply child_is_ast|by eapply all_walked_child|done].
    + rewrite Hs.
      destruct (def_fields_args cls fs Hc Hd)
        as (afs & a & k & va & kw & Hr & Hargs & Ha & Hk & Hva & Hkw & Hoka & Hokk
            & Hokva & Hokkw).
      rewrite Hl in Hargs. injection Hargs as ->. split_and!.
      * unfold strip_arguments. by rewrite Ha, Hk, Hva, Hkw.
      * apply (all_walked_strip_arguments P HP afs a k va kw); try done.
        by eapply all_walked_child.
      * apply walk_size_strip_arguments.
  - intros Hold. rewrite Hold.
    split_and!; [by eapply child_is_ast|by eapply all_walked_child|done].
Qed.

Lemma lookup_field_app_None (n : string) (fs gs : list (string * pyobj)) :
  lookup_field n fs = None -> lookup_field n (fs ++ gs) = lookup_field n gs.
Proof.
  induction fs as [|[m x] fs IH]; [done|]. cbn. by destruct (String.eqb m n).
Qed.

Lemma bare_arg_clear_arg (x : pyobj) : bare_arg (clear_arg x) = true.
Proof.
  destruct x as [| | | | |c fs]; try done. cbn [clear_arg bare_arg]. unfold has_field.
  destruct (lookup_field "annotation" fs) as [old|] eqn:E.
  - by rewrite (lookup_field_set_field _ _ _ _ E).
  - by rewrite lookup_field_app_None.
Qed.

Lemma bare_arg_clear_opt (x : pyobj) : bare_arg (clear_opt x) = true.
Proof.
  unfold clear_opt. destruct (truthy x) eqn:E; [apply bare_arg_clear_arg|].
  by destruct x.
Qed.

Lemma bare_arg_clear_args (a : list pyobj) : forallb bare_arg (map clear_arg a) = true.
Proof.
  induction a as [|x a IH]; [done|]. cbn [map forallb].
  by rewrite bare_arg_clear_arg, IH.
Qed.

Lemma strip_arguments_fields (afs : list (string * pyobj)) (a k : list pyobj)
    (va kw : pyobj) :
  lookup_field "args" afs = Some (PyList a) ->
  lookup_field "kwonlyargs" afs = Some (PyList k) ->
  lookup_field "vararg" afs = Some va -> lookup_field "kwarg" afs = Some kw ->
  exists fs',
    strip_arguments (Node "arguments" afs) = Node "arguments" fs'
    /\ lookup_field "args" fs' = Some (PyList (map clear_arg a))
    /\ lookup_field "kwonlyargs" fs' = Some (PyList (map clear_arg k))
    /\ lookup_field "vararg" fs' = Some (clear_opt va)
    /\ lookup_field "kwarg" fs' = Some (clear_opt kw).
Proof.
  intros Ha Hk Hva Hkw. eexists. unfold strip_arguments. rewrite Ha, Hk, Hva, Hkw.
  split; [reflexivity|]. split_and!.
  - rewrite (lookup_field_set_field_ne "args" "kwarg"),
      (lookup_field_set_field_ne "args" "vararg"),
      (lookup_field_set_field_ne "args" "kwonlyargs") by done.
    by rewrite (lookup_field_set_field _ _ _ _ Ha).
  - rewrite (lookup_field_set_field_ne "kwonlyargs" "kwarg"),
      (lookup_field_set_field_ne "kwonlyargs" "vararg") by done.
    apply (lookup_field_set_field _ _ (PyList k)).
    by rewrite (lookup_field_set_field_ne "kwonlyargs" "args").
  - rewrite (lookup_field_set_field_ne "vararg" "kwarg") by done.
    apply (lookup_field_set_field _ _ va).
    by rewrite (lookup_field_set_field_ne "vararg" "kwonlyargs"),
      (lookup_field_set_field_ne "vararg" "args").
  - apply (lookup_field_set_field _ _ kw).
    by rewrite (lookup_field_set_field_ne "kwarg" "vararg"),
      (lookup_field_set_field_ne "kwarg" "kwonlyargs"),
      (lookup_field_set_field_ne "kwarg" "args").
Qed.

Lemma unannotated_strip_def (c : string) (fs : list (string * pyobj)) :
  isinstance (Node c fs) ["FunctionDef"] = true -> def_fields (Node c fs) = true ->
  unannotated (strip_def (Node c fs)) = true.
Proof.
  intros Hc Hd.
  destruct (def_fields_args c fs Hc Hd)
    as (afs & a & k & va & kw & Hr & Hargs & Ha & Hk & Hva & Hkw & _).
  destruct (strip_arguments_fields afs a k va kw Ha Hk Hva Hkw)
    as (fs' & Hfs' & Ha' & Hk' & Hva' & Hkw').
  unfold strip_def. rewrite (loop_body_def c fs _ Hc Hd Hargs).
  unfold unannotated. rewrite isinstance_class in *. rewrite Hc. cbn [negb orb].
  unfold has_field in Hr. destruct (lookup_field "returns" fs) as [r|] eqn:Hr'; [|done].
  rewrite (lookup_field_set_field_ne "returns" "args") by done.
  rewrite (lookup_field_set_field _ _ _ _ Hr').
  rewrite (lookup_field_set_field "args" _ (Node "arguments" afs))
    by by rewrite (lookup_field_set_field_ne "args" "returns").
  rewrite Hfs', Ha', Hk', Hva', Hkw'.
  by rewrite !bare_arg_clear_args, !bare_arg_clear_opt.
Qed.

Lemma all_walked_unannotated (v : pyobj) :
  is_ast v = true -> all_walked def_fields v = true ->
  all_walked unannotated (map_walked strip_def v) = true.
Proof.
  induction v as [v Hv|c fs IH] using node_induction; [by destruct v|].
  intros _ Hw. set (M := map_walked strip_def).
  rewrite all_walked_fields in Hw. apply andb_true_iff in Hw as [Hd Hfs].
  assert (forallb (fun f => value_walked unannotated (snd f))
                  (map (fun nx => (fst nx, map_value M (snd nx))) fs) = true) as Hchildren.
  { clear Hd. induction IH as [|[n x] fs Hx _ IHfs]; [done|].
    cbn [forallb map snd] in *. apply andb_true_iff in Hfs as [Hwx Hfs].
    rewrite (IHfs Hfs), andb_true_r. clear IHfs Hfs.
    destruct x as [| | | |l|cx fsx]; try done.
    - cbn [map_value value_walked] in *.
      induction Hx as [|y l Hy _ IHl]; [done|]. cbn [forallb map] in *.
      apply andb_true_iff in Hwx as [Hwy Hwl]. rewrite (IHl Hwl), andb_true_r.
      destruct y as [| | | | |cy fsy]; try done.
      assert (is_ast (M (Node cy fsy)) = true) as Hast.
      { apply (keeps_class_nodes M); [|done].
        apply map_walked_keeps_class, strip_def_class. }
      specialize (Hy eq_refl Hwy). fold M in Hy. by destruct (M (Node cy fsy)).
    - cbn [map_value value_walked] in *.
      assert (is_ast (M (Node cx fsx)) = true) as Hast.
      { apply (keeps_class_nodes M); [|done].
        apply map_walked_keeps_class, strip_def_class. }
      specialize (Hx eq_refl Hwx). fold M in Hx. by destruct (M (Node cx fsx)). }
  unfold M. rewrite (map_walked_node strip_def (Node c fs)) by done. fold M.
  rewrite map_children_fields_eq.
  set (wfs := map (fun nx => (fst nx, map_value M (snd nx))) fs) in *.
  destruct (isinstance (Node c wfs) ["FunctionDef"]) eqn:Hc.
  2:{ rewrite strip_def_other, all_walked_fields, Hchildren by done.
      by rewrite unannotated_other. }
  assert (def_fields (Node c wfs) = true) as Hd'.
  { unfold wfs. rewrite <- map_children_fields_eq. by apply def_fields_map_children. }
  destruct (def_fields_args c wfs Hc Hd')
    as (afs & a & k & va & kw & Hr & Hargs & Ha & Hk & Hva & Hkw & Hoka & Hokk
        & Hokva & Hokkw).
  pose proof (unannotated_strip_def c wfs Hc Hd') as Hun. revert Hun.
  unfold strip_def. rewrite (loop_body_def c wfs _ Hc Hd' Hargs). intros Hun.
  rewrite all_walked_fields, Hun. cbn [andb].
  repeat apply set_field_forallb; try done. cbn [snd].
  assert (value_walked unannotated (Node "arguments" afs) = true) as Hwargs.
  { by apply (children_walked_lookup unannotated c wfs "args"). }
  pose proof (all_walked_strip_arguments unannotated unannotated_other afs a k va kw
                Ha Hk Hva Hkw Hoka Hokk Hokva Hokkw Hwargs) as H.
  revert H. unfold strip_arguments. by rewrite Ha, Hk, Hva, Hkw.
Qed.

(** X19: [RemoveFunctionDefAnnotationsFixer] removes the annotations
    of the function definitions and nothing else. On a tree whose
    definitions have the fields that the parser gives them, with
    fuel for every node, the call returns the tree in which every
    [FunctionDef] node has [returns] and the annotations of its
    parameters set to [None], whatever the depth of the
    definition, and leaves the fixer instance as it is: no
    annotation of a [FunctionDef] is left. Nodes of other classes
    are returned as they are, so that the annotations of an
    [async def] and of an annotated assignment stay. *)
Theorem RemoveFunctionDefAnnotationsFixer_strips (fuel : nat) (self : FixerBase)
    (cfg : BuildConfig) (tree : pyobj) :
  is_ast tree = true -> all_walked def_fields tree = true ->
  walk_size tree <= fuel ->
  RemoveFunctionDefAnnotationsFixer.call fuel self cfg tree
  = Ok (self, map_walked strip_def tree)
  /\ all_walked unannotated (map_walked strip_def tree) = true
  /\ forall v, isinstance v ["FunctionDef"] = false -> strip_def v = v.
Proof.
  intros Ht Hw Hfuel. split_and!.
  - unfold RemoveFunctionDefAnnotationsFixer.call.
    rewrite (walk_spec _ strip_def (map_walked strip_def)
               (fun v => is_ast v = true /\ all_walked def_fields v = true) walk_size);
      try done.
    + by intros v [? _].
    + intros v [Hv Hwv]. apply strip_loop_body; [done|].
      destruct v; try done. rewrite all_walked_fields in Hwv.
      by apply andb_true_iff in Hwv as [? _].
    + intros v s c [Hv Hwv] Hs Hq.
      assert (def_fields v = true) as Hd.
      { destruct v; try done. rewrite all_walked_fields in Hwv.
        by apply andb_true_iff in Hwv as [? _]. }
      by destruct (strip_queued_child def_fields v s c def_fields_other Hv Hd Hwv Hq)
        as (? & ? & _).
    + intros v [Hv Hwv].
      assert (def_fields v = true) as Hd.
      { destruct v; try done. rewrite all_walked_fields in Hwv.
        by apply andb_true_iff in Hwv as [? _]. }
      rewrite (walk_size_steps v Hv). apply le_n_S, list_sum_le. intros s Hs.
      destruct (queued_child v (strip_def v) s) as [c|] eqn:Hq; [|lia].
      destruct (strip_queued_child def_fields v s c def_fields_other Hv Hd Hwv Hq)
        as (_ & _ & Hle).
      by destruct (child v s).
    + apply strip_def_class.
    + by apply keeps_class_nodes, map_walked_keeps_class, strip_def_class.
    + intros v [Hv Hwv]. apply strip_walk_children; [done|].
      destruct v; try done. rewrite all_walked_fields in Hwv.
      by apply andb_true_iff in Hwv as [? _].
  - by apply all_walked_unannotated.
  - apply strip_def_other.
Qed.

Lemma RemoveFunctionDefAnnotationsFixer_strips_witness :
  RemoveFunctionDefAnnotationsFixer.call 40 RemoveFunctionDefAnnotationsFixer.init
    default_cfg annotated_def_module
  = Ok (RemoveFunctionDefAnnotationsFixer.init,
        ast.Module_
          [parsed_FunctionDef "f"
             (ast.arguments (PyList [ast.arg "a" PyNone]) (ast.arg "b" PyNone)
                            (PyList [ast.arg "c" PyNone]) (PyList [ast.Num 0])
                            (ast.arg "d" PyNone) (PyList []))
             [ast.Pass] [] PyNone;
           ast.AnnAssign (ast.Name "x" ast.Store) (name_ "int") (ast.Num 1) 1]).
Proof.
  refine (proj1 (RemoveFunctionDefAnnotationsFixer_strips 40
                   RemoveFunctionDefAnnotationsFixer.init default_cfg
                   annotated_def_module _ _ _)).
  - reflexivity.
  - reflexivity.
  - vm_compute. lia.
Defined.

(** ** ShortToLongFormSuperFixer *)

Lemma is_bare_super_fields (c : string) (fs : list (string * pyobj)) :
  is_bare_super (Node c fs) = true ->
  c = "Call" /\ lookup_field "args" fs = Some (PyList []).
Proof.
  unfold is_bare_super. rewrite isinstance_class. intros [Hc H]%andb_prop.
  apply String.eqb_eq in Hc. split; [done|]. cbn [getattr] in H.
  destruct (lookup_field "func" fs); [|done].
  destruct (lookup_field "args" fs) as [[| | | |[|]|]|]; done.
Qed.

Lemma fill_super_bare (name arg : pyobj) (c : string) (fs : list (string * pyobj)) :
  is_bare_super (Node c fs) = true ->
  exists ka,
    ka < length fs /\ fs !! ka = Some ("args", PyList [])
    /\ index_of "args" fs = Some ka
    /\ fill_super name arg (Node c fs)
       = Node c (<[ka := ("args", PyList [name_node name ast.Load;
                                           name_node arg ast.Load])]> fs).
Proof.
  intros Hb. unfold fill_super. rewrite Hb.
  apply is_bare_super_fields in Hb as [_ Hargs].
  apply index_of_lookup_field in Hargs as (ka & Hka & Hlook).
  exists ka. split_and!; [by eapply lookup_lt_Some|done|done|].
  cbn [setattr]. by rewrite index_of_set_field, Hka.
Qed.

Lemma fill_super_other (name arg v : pyobj) :
  is_bare_super v = false -> fill_super name arg v = v.
Proof. intros Hb. unfold fill_super. by rewrite Hb. Qed.

Lemma fill_super_class (name arg : pyobj) : keeps_class (fill_super name arg).
Proof.
  intros c fs. unfold fill_super. destruct (is_bare_super (Node c fs)); by eexists.
Qed.

(** The body of the inner loop gives a call [super()] its
    arguments. *)
Lemma call_body_fill (name arg node self_arg v : pyobj) :
  getattr node "name" = Ok name -> getattr self_arg "arg" = Ok arg ->
  is_ast v = true -> super_fields v = true ->
  ShortToLongFormSuperFixer.call_body node self_arg v = Ok (fill_super name arg v).
Proof.
  intros Hname Harg Hv Hok. destruct v as [| | | | |c fs]; try done.
  unfold ShortToLongFormSuperFixer.call_body, fill_super, is_bare_super.
  unfold super_fields in Hok. apply andb_prop in Hok as [_ Hok].
  destruct (isinstance (Node c fs) ["Call"]) eqn:Hc; [|done].
  cbn [negb orb andb] in *. cbn [getattr] in *.
  destruct (lookup_field "func" fs) as [func|]; [|done].
  destruct (lookup_field "args" fs) as [[| | | |l|]|]; try done.
  cbn [mbind result_bind].
  destruct (isinstance func ["Name"]) eqn:Hn.
  - cbn [negb orb] in Hok. destruct (getattr func "id") as [id| |]; [|done..].
    cbn [mbind result_bind].
    destruct (ShortToLongFormSuperFixer.is_super id).
    + cbn [negb py_len mbind result_bind]. destruct l as [|x l]; [|done].
      cbn [length Nat.ltb Nat.leb]. rewrite Hname, Harg. done.
    + cbn [negb]. by destruct l.
  - cbn [mbind result_bind negb andb]. by destruct l.
Qed.

Lemma fix_super_some (name arg : pyobj) (v : pyobj) :
  is_ast v = true ->
  fix_super name (Some arg) v
  = fill_super name arg (map_children (fix_super name (Some arg)) v).
Proof. by destruct v. Qed.

Lemma fix_super_param (name arg : pyobj) (v : pyobj) :
  first_param v = Some arg ->
  fix_super name None v = map_children (fix_super name (Some arg)) v.
Proof.
  intros Hp. destruct v as [| | | | |c fs]; try done.
  cbn [fix_super]. rewrite Hp. apply fill_super_other.
  unfold first_param in Hp. unfold is_bare_super.
  rewrite isinstance_class in *. cbn [map_children].
  destruct (String.eqb_spec c "FunctionDef") as [->|]; [done|done].
Qed.

Lemma fix_super_none (name : pyobj) (v : pyobj) :
  first_param v = None -> fix_super name None v = map_children (fix_super name None) v.
Proof.
  intros Hp. destruct v as [| | | | |c fs]; try done. cbn [fix_super]. by rewrite Hp.
Qed.

Lemma fix_super_class (name : pyobj) (outer : option pyobj) :
  keeps_class (fix_super name outer).
Proof.
  intros c fs. cbn [fix_super].
  destruct (match outer with Some _ => outer | None => first_param (Node c fs) end)
    as [arg|]; [|by eexists].
  apply fill_super_class.
Qed.

Lemma fix_super_name (name : pyobj) (outer : option pyobj) (fs : list (string * pyobj)) :
  fix_super name outer (Node "Name" fs)
  = map_children (fix_super name outer) (Node "Name" fs).
Proof. by destruct outer. Qed.

Lemma is_super_map_value (g : pyobj -> pyobj) (x : pyobj) :
  keeps_class g ->
  ShortToLongFormSuperFixer.is_super (map_value g x)
  = ShortToLongFormSuperFixer.is_super x.
Proof.
  intros Hg. destruct x as [| | | | |c fs]; try done. cbn.
  by destruct (Hg c fs) as [fs' ->].
Qed.

Lemma isinstance_map_value (g : pyobj -> pyobj) (x : pyobj) (cls : list string) :
  keeps_class g -> isinstance (map_value g x) cls = isinstance x cls.
Proof.
  intros Hg. destruct x as [| | | | |c fs]; try done. cbn.
  by destruct (Hg c fs) as [fs' ->].
Qed.

Lemma is_bare_super_map_children (name : pyobj) (outer : option pyobj) (v : pyobj) :
  is_bare_super (map_children (fix_super name outer) v) = is_bare_super v.
Proof.
  destruct v as [| | | | |c fs]; try done.
  rewrite map_children_fields_eq. unfold is_bare_super.
  rewrite !isinstance_class. f_equal. cbn [getattr].
  rewrite !lookup_field_map.
  destruct (lookup_field "func" fs) as [func|]; [|done]. cbn [fmap option_fmap option_map].
  destruct (lookup_field "args" fs) as [args|]; [|done]. cbn [fmap option_fmap option_map].
  assert (isinstance (map_value (fix_super name outer) func) ["Name"]
            && match getattr (map_value (fix_super name outer) func) "id" with
               | Ok id => ShortToLongFormSuperFixer.is_super id
               | _ => false
               end
          = isinstance func ["Name"]
            && match getattr func "id" with
               | Ok id => ShortToLongFormSuperFixer.is_super id
               | _ => false
               end) as Hfunc.
  { rewrite isinstance_map_value by apply fix_super_class.
    destruct func as [| | | | |cf ff]; try done.
    rewrite isinstance_class. destruct (String.eqb_spec cf "Name") as [->|]; [|done].
    cbn [map_value andb]. rewrite fix_super_name, map_children_fields_eq.
    cbn [getattr]. rewrite lookup_field_map.
    destruct (lookup_field "id" ff) as [id|]; [|done].
    cbn [fmap option_fmap option_map]. apply is_super_map_value, fix_super_class. }
  destruct args as [| | | |[|x l]|ca fa]; try done.
  cbn [map_value]. by destruct (fix_super_class name outer ca fa) as [fs' ->].
Qed.

Lemma update_step_insert (g : pyobj -> pyobj) (c : string) (fs : list (string * pyobj))
    (k : nat) (fld : string * pyobj) (s : step) :
  fst s <> k ->
  exists fs',
    update_at [s] g (Node c fs) = Node c fs' /\ length fs' = length fs
    /\ update_at [s] g (Node c (<[k := fld]> fs)) = Node c (<[k := fld]> fs').
Proof.
  intros Hne. cbn [update_at child set_child].
  rewrite (list_lookup_insert_ne fs k (fst s) fld) by done.
  destruct (fs !! fst s) as [[n field]|] eqn:Hs; [|by exists fs].
  destruct (field_child field (snd s)) as [x|]; [|by exists fs].
  eexists. split_and!; [done|by rewrite length_insert|].
  by rewrite list_insert_insert_ne.
Qed.

Lemma foldl_update_insert (g : pyobj -> pyobj) (c : string) (k : nat)
    (fld : string * pyobj) (ss : list step) (fs : list (string * pyobj)) :
  (forall s, s ∈ ss -> fst s <> k) ->
  exists fs',
    foldl (fun t s => update_at [s] g t) (Node c fs) ss = Node c fs'
    /\ length fs' = length fs
    /\ foldl (fun t s => update_at [s] g t) (Node c (<[k := fld]> fs)) ss
       = Node c (<[k := fld]> fs').
Proof.
  revert fs. induction ss as [|s ss IH]; intros fs Hss; [by exists fs|].
  cbn [foldl].
  destruct (update_step_insert g c fs k fld s) as (fs1 & -> & Hlen & ->).
  { apply Hss. left. }
  destruct (IH fs1) as (fs' & -> & Hlen' & ->).
  { intros s' Hs'. apply Hss. by right. }
  exists fs'. split_and!; [done|congruence|done].
Qed.

(** A call [super()] has no child among its arguments. *)
Lemma bare_super_steps (c : string) (fs : list (string * pyobj)) (ka : nat) (s : step) :
  fs !! ka = Some ("args", PyList []) -> s ∈ steps (Node c fs) -> fst s <> ka.
Proof.
  intros Hka Hs Heq. apply steps_child in Hs as (x & Hx & _).
  cbn [child] in Hx. rewrite Heq, Hka in Hx. by destruct (snd s).
Qed.

Lemma fill_super_child (name arg v : pyobj) (s : step) :
  s ∈ steps v -> child (fill_super name arg v) s = child v s.
Proof.
  intros Hs. destruct v as [| | | | |c fs]; try done.
  destruct (is_bare_super (Node c fs)) eqn:Hb; [|by rewrite fill_super_other].
  destruct (fill_super_bare name arg c fs Hb) as (ka & Hlt & Hka & _ & ->).
  rewrite child_insert by done.
  destruct (decide (fst s = ka)) as [Heq|]; [|done].
  by destruct (bare_super_steps c fs ka s Hka Hs).
Qed.

Lemma fill_super_queued (name arg v : pyobj) (s : step) :
  s ∈ steps v -> queued_child v (fill_super name arg v) s = child v s.
Proof.
  intros Hs. unfold queued_child. rewrite fill_super_child by done.
  by destruct (child v s).
Qed.

Lemma super_walk_children (name arg v : pyobj) :
  is_ast v = true ->
  foldl (fun t s => update_at [s] (fix_super name (Some arg)) t)
        (fill_super name arg v) (steps v)
  = fix_super name (Some arg) v.
Proof.
  intros Hv. rewrite fix_super_some by done. destruct v as [| | | | |c fs]; try done.
  destruct (is_bare_super (Node c fs)) eqn:Hb.
  - destruct (fill_super_bare name arg c fs Hb) as (ka & Hlt & Hka & Hidx & ->).
    destruct (foldl_update_insert (fix_super name (Some arg)) c ka
                ("args", PyList [name_node name ast.Load; name_node arg ast.Load])
                (steps (Node c fs)) fs) as (fs' & Hfs' & _ & ->).
    { intros s Hs. by eapply bare_super_steps. }
    rewrite map_children_steps, map_children_fields_eq in Hfs'.
    injection Hfs' as <-.
    rewrite map_children_fields_eq.
    pose proof (is_bare_super_map_children name (Some arg) (Node c fs)) as Hb'.
    rewrite map_children_fields_eq, Hb in Hb'.
    destruct (fill_super_bare name arg c _ Hb') as (ka' & _ & _ & Hidx' & ->).
    rewrite index_of_map in Hidx'. congruence.
  - rewrite fill_super_other by done. rewrite map_children_steps.
    symmetry. apply fill_super_other. by rewrite is_bare_super_map_children.
Qed.

Lemma all_walked_here (P : pyobj -> bool) (v : pyobj) :
  is_ast v = true -> all_walked P v = true -> P v = true.
Proof.
  intros Hv H. destruct v as [| | | | |c fs]; try done.
  rewrite all_walked_fields in H. by apply andb_prop in H as [? _].
Qed.

(** The inner loop gives every call [super()] of the method its
    arguments. *)
Lemma super_inner_walk (name arg node self_arg : pyobj) (fuel : nat) (v : pyobj) :
  getattr node "name" = Ok name -> getattr self_arg "arg" = Ok arg ->
  is_ast v = true -> all_walked super_fields v = true -> walk_size v <= fuel ->
  walk (ShortToLongFormSuperFixer.call_body node self_arg) fuel v
  = Ok (fix_super name (Some arg) v).
Proof.
  intros Hname Harg Hv Hok Hfuel.
  apply (walk_spec _ (fill_super name arg) (fix_super name (Some arg))
           (fun v => is_ast v = true /\ all_walked super_fields v = true) walk_size);
    [| | | | | | |done|done].
  - by intros x [? _].
  - intros x [Hx Hokx]. apply call_body_fill; [done..|]. by apply all_walked_here.
  - intros x s c [Hx Hokx] Hs Hq. rewrite fill_super_queued in Hq by done.
    split; [by eapply child_is_ast|by eapply all_walked_child].
  - intros x [Hx Hokx]. rewrite (walk_size_steps x Hx). apply le_n_S.
    apply list_sum_le. intros s Hs. by rewrite fill_super_queued.
  - apply fill_super_class.
  - apply keeps_class_nodes, fix_super_class.
  - intros x [Hx _]. by apply super_walk_children.
Qed.

Lemma map_children_id (g : pyobj -> pyobj) (v : pyobj) :
  (forall c, c ∈ kids v -> g c = c) -> map_children g v = v.
Proof.
  destruct v as [| | | | |c fs]; try done. cbn [map_children kids]. intros Hg. f_equal.
  induction fs as [|[n field] fs IH]; [done|]. cbn [map fst snd]. f_equal.
  - f_equal. destruct field as [| | | |l|cx fx]; try done.
    + f_equal. cbn [flat_map snd field_kids] in Hg.
      assert (forall c, c ∈ List.filter is_ast l -> g c = c) as Hl.
      { intros x Hx. apply Hg, elem_of_app. by left. }
      clear Hg IH. induction l as [|x l IHl]; [done|]. cbn [map]. f_equal.
      * destruct x as [| | | | |cy fy]; try done. apply Hl. cbn. left.
      * apply IHl. intros y Hy. apply Hl. cbn [List.filter].
        destruct (is_ast x); [by right|done].
    + apply Hg. cbn [flat_map snd field_kids]. apply elem_of_app. left. left.
  - apply IH. intros x Hx. apply Hg. cbn [flat_map]. apply elem_of_app. by right.
Qed.

Lemma field_child_map_value (g : pyobj -> pyobj) (field : pyobj) (o : option nat) :
  keeps_class g ->
  field_child (map_value g field) o = g <$> field_child field o.
Proof.
  intros Hg. destruct field as [| | | |l|cx fx]; try by destruct o.
  - destruct o as [j|]; [|done]. cbn [map_value field_child].
    revert j. induction l as [|x l IH]; intros [|j]; try done.
    + destruct x as [| | | | |cy fy]; try done.
      cbn [map]. destruct (Hg cy fy) as [fs' Hfs']. rewrite Hfs'. cbn. by rewrite Hfs'.
    + apply IH.
  - cbn [map_value]. destruct (Hg cx fx) as [fs' Hfs']. rewrite Hfs'.
    destruct o; [done|]. cbn. by rewrite Hfs'.
Qed.

Lemma child_map_children (g : pyobj -> pyobj) (v : pyobj) (s : step) :
  keeps_class g -> child (map_children g v) s = g <$> child v s.
Proof.
  intros Hg. destruct v as [| | | | |c fs]; try done.
  rewrite map_children_fields_eq. cbn [child].
  change (map ?f fs) with (f <$> fs). rewrite list_lookup_fmap.
  destruct (fs !! fst s) as [[n field]|]; [|done]. cbn [fmap option_fmap option_map fst snd].
  by apply field_child_map_value.
Qed.

Lemma field_steps_map_value (g : pyobj -> pyobj) (field : pyobj) :
  keeps_class g -> field_steps (map_value g field) = field_steps field.
Proof.
  intros Hg. destruct field as [| | | |l|cx fx]; try done.
  - cbn [map_value field_steps]. generalize 0.
    induction l as [|x l IH]; intros j; [done|]. cbn [map item_steps].
    rewrite IH. f_equal. destruct x as [| | | | |cy fy]; try done.
    by destruct (Hg cy fy) as [fs' ->].
  - cbn [map_value]. by destruct (Hg cx fx) as [fs' ->].
Qed.

Lemma steps_map_children (g : pyobj -> pyobj) (v : pyobj) :
  keeps_class g -> steps (map_children g v) = steps v.
Proof.
  intros Hg. destruct v as [| | | | |c fs]; try done.
  rewrite map_children_fields_eq. cbn [steps]. generalize 0.
  induction fs as [|[n field] fs IH]; intros i; [done|].
  cbn [map fields_steps fst snd]. by rewrite IH, field_steps_map_value.
Qed.

Lemma filled_size_kids (v : pyobj) :
  is_ast v = true ->
  filled_size v
  = S (list_sum (map filled_size (kids v))) + (if is_bare_super v then 4 else 0).
Proof.
  destruct v as [| | | | |c fs]; try done. intros _. cbn [filled_size kids].
  f_equal. f_equal.
  induction fs as [|[n field] fs IH]; [done|].
  cbn [map flat_map snd]. rewrite map_app, list_sum_app.
  change (list_sum (?x :: ?l)) with (x + list_sum l).
  f_equal; [|exact IH]. clear IH.
  destruct field as [| | | |l|]; try done.
  cbn [field_kids]. induction l as [|x l IHl]; [done|]. cbn [map List.filter].
  change (list_sum (?x :: ?l)) with (x + list_sum l).
  destruct x; cbn [is_ast map]; rewrite IHl; try done.
Qed.

Lemma list_sum_elem (g : pyobj -> nat) (l : list pyobj) (c : pyobj) :
  c ∈ l -> g c <= list_sum (map g l).
Proof.
  induction l as [|x l IH]; intros Hc; [by apply elem_of_nil in Hc|].
  cbn [map]. change (list_sum (?x :: ?l)) with (x + list_sum l).
  apply elem_of_cons in Hc as [->|Hc]; [lia|]. specialize (IH Hc). lia.
Qed.

Lemma filled_size_kid (v c : pyobj) : c ∈ kids v -> filled_size c < filled_size v.
Proof.
  intros Hc. assert (is_ast v = true) as Hv.
  { destruct v; try by apply elem_of_nil in Hc. done. }
  rewrite (filled_size_kids v Hv). pose proof (list_sum_elem filled_size _ _ Hc). lia.
Qed.

Lemma walk_size_filled (v : pyobj) : walk_size v <= filled_size v.
Proof.
  remember (walk_size v) as n eqn:Hn. revert v Hn.
  induction n as [n IH] using lt_wf_ind. intros v ->.
  destruct (is_ast v) eqn:Hv; [|by destruct v].
  rewrite (walk_size_kids v Hv), (filled_size_kids v Hv).
  assert (list_sum (map walk_size (kids v)) <= list_sum (map filled_size (kids v))).
  { apply list_sum_le. intros c Hc. by apply (IH (walk_size c) (walk_size_kid v c Hc)). }
  lia.
Qed.

Lemma kids_insert (c : string) (fs : list (string * pyobj)) (k : nat) (n n' : string)
    (old new : pyobj) :
  fs !! k = Some (n, old) ->
  exists l1 l2,
    kids (Node c fs) = l1 ++ field_kids old ++ l2
    /\ kids (Node c (<[k := (n', new)]> fs)) = l1 ++ field_kids new ++ l2.
Proof.
  intros Hk. exists (flat_map (fun f => field_kids (snd f)) (take k fs)),
    (flat_map (fun f => field_kids (snd f)) (drop (S k) fs)).
  cbn [kids]. rewrite insert_take_drop by by eapply lookup_lt_Some.
  rewrite <- (take_drop_middle fs k (n, old) Hk) at 1.
  by rewrite !flat_map_app.
Qed.

Lemma kid_is_ast (v c : pyobj) : c ∈ kids v -> is_ast c = true.
Proof.
  destruct v as [| | | | |cls fs]; try by intros ?%elem_of_nil.
  cbn [kids]. intros ([n field] & _ & Hc)%list_elem_of_In%in_flat_map.
  destruct field as [| | | |l|cx fx]; try done; cbn [snd field_kids] in Hc.
  - by apply filter_In in Hc as [_ ?].
  - by destruct Hc as [<-|[]].
Qed.

Lemma fill_super_not_bare (name arg v : pyobj) :
  is_bare_super (fill_super name arg v) = false.
Proof.
  destruct (is_bare_super v) eqn:Hb; [|by rewrite fill_super_other].
  unfold fill_super. rewrite Hb. destruct v as [| | | | |c fs]; try done.
  apply is_bare_super_fields in Hb as [_ Hargs].
  cbn [setattr]. unfold is_bare_super. cbn [getattr].
  rewrite (lookup_field_set_field "args" _ _ fs Hargs).
  destruct (lookup_field "func" _); [|by rewrite andb_false_r].
  by rewrite andb_false_r.
Qed.

Lemma kids_fill_super (name arg : pyobj) (c : string) (fs : list (string * pyobj)) :
  is_bare_super (Node c fs) = true ->
  exists l1 l2,
    kids (Node c fs) = l1 ++ l2
    /\ kids (fill_super name arg (Node c fs))
       = l1 ++ [name_node name ast.Load; name_node arg ast.Load] ++ l2.
Proof.
  intros Hb. destruct (fill_super_bare name arg c fs Hb) as (ka & _ & Hka & _ & ->).
  destruct (kids_insert c fs ka "args" "args" (PyList [])
              (PyList [name_node name ast.Load; name_node arg ast.Load]) Hka)
    as (l1 & l2 & H1 & H2).
  by exists l1, l2.
Qed.

Lemma kids_fill_super_elem (name arg v x : pyobj) :
  x ∈ kids (fill_super name arg v) ->
  x ∈ kids v \/ x = name_node name ast.Load \/ x = name_node arg ast.Load.
Proof.
  destruct (is_bare_super v) eqn:Hb; [|rewrite fill_super_other by done; by left].
  destruct v as [| | | | |c fs]; try done.
  destruct (kids_fill_super name arg c fs Hb) as (l1 & l2 & -> & ->).
  rewrite !elem_of_app. intros [Hx|[Hx|Hx]]; [by left; left| |by left; right].
  apply elem_of_cons in Hx as [->|Hx]; [by right; left|].
  apply list_elem_of_singleton in Hx as ->. by right; right.
Qed.

Lemma fill_super_is_ast (name arg v : pyobj) :
  is_ast (fill_super name arg v) = is_ast v.
Proof.
  destruct v as [| | | | |c fs]; by (unfold fill_super; destruct (is_bare_super _)).
Qed.

Lemma map_children_is_ast (g : pyobj -> pyobj) (v : pyobj) :
  is_ast (map_children g v) = is_ast v.
Proof. by destruct v. Qed.

Section filled.

Variables cn a : string.

Lemma filled_size_fill (v : pyobj) :
  is_ast v = true -> filled_size (fill_super (PyStr cn) (PyStr a) v) = filled_size v.
Proof.
  intros Hv. destruct (is_bare_super v) eqn:Hb; [|by rewrite fill_super_other].
  rewrite (filled_size_kids (fill_super (PyStr cn) (PyStr a) v))
    by by rewrite fill_super_is_ast.
  rewrite fill_super_not_bare, (filled_size_kids v Hv), Hb.
  destruct v as [| | | | |c fs]; try done.
  destruct (kids_fill_super (PyStr cn) (PyStr a) c fs Hb) as (l1 & l2 & -> & ->).
  rewrite !map_app, !list_sum_app. cbn. lia.
Qed.

(** What holds of every node of a tree, of the new arguments and of
    every call once it has its arguments holds of the tree with the
    arguments. *)
Lemma all_walked_fix_super (P Q : pyobj -> bool) (v : pyobj) :
  (forall s, all_walked P (name_node (PyStr s) ast.Load) = true) ->
  (forall v, is_ast v = true -> Q v = true ->
             P (fill_super (PyStr cn) (PyStr a)
                  (map_children (fix_super (PyStr cn) (Some (PyStr a))) v)) = true) ->
  is_ast v = true -> all_walked Q v = true ->
  all_walked P (fix_super (PyStr cn) (Some (PyStr a)) v) = true.
Proof.
  intros Hnew Hfill. remember (walk_size v) as n eqn:Hn. revert v Hn.
  induction n as [n IH] using lt_wf_ind. intros v -> Hv HQ.
  rewrite fix_super_some by done.
  rewrite all_walked_kids by by rewrite fill_super_is_ast, map_children_is_ast.
  rewrite Hfill by (done || by apply all_walked_here). cbn [andb].
  rewrite forallb_forall. intros x Hx%list_elem_of_In.
  apply kids_fill_super_elem in Hx as [Hx|[->| ->]]; [|apply Hnew..].
  rewrite kids_map_children in Hx by apply keeps_class_nodes, fix_super_class.
  apply list_elem_of_In, in_map_iff in Hx as (c & <- & Hc%list_elem_of_In).
  rewrite all_walked_kids in HQ by done. apply andb_prop in HQ as [_ HQ].
  rewrite forallb_forall in HQ.
  apply (IH (walk_size c) (walk_size_kid v c Hc)); [done| |].
  - by eapply kid_is_ast.
  - by apply HQ, list_elem_of_In.
Qed.

Lemma fix_super_not_bare (v : pyobj) :
  is_ast v = true -> all_walked not_bare_super (fix_super (PyStr cn) (Some (PyStr a)) v) = true.
Proof.
  intros Hv.
  assert (all_walked (fun _ => true) v = true) as Htrue.
  { remember (walk_size v) as n eqn:Hn. revert v Hv Hn.
    induction n as [n IH] using lt_wf_ind. intros v Hv ->.
    rewrite all_walked_kids by done. cbn [andb]. rewrite forallb_forall.
    intros c Hc%list_elem_of_In.
    apply (IH (walk_size c) (walk_size_kid v c Hc)); [|done].
    by eapply kid_is_ast. }
  apply (all_walked_fix_super not_bare_super (fun _ => true)); [done| |done..].
  intros x _ _. unfold not_bare_super. by rewrite fill_super_not_bare.
Qed.

Lemma filled_size_fix_super (v : pyobj) :
  filled_size (fix_super (PyStr cn) (Some (PyStr a)) v) <= filled_size v.
Proof.
  remember (walk_size v) as n eqn:Hn. revert v Hn.
  induction n as [n IH] using lt_wf_ind. intros v ->.
  destruct (is_ast v) eqn:Hv; [|by destruct v].
  rewrite fix_super_some by done.
  rewrite filled_size_fill by by rewrite map_children_is_ast.
  rewrite (filled_size_kids (map_children (fix_super (PyStr cn) (Some (PyStr a))) v))
    by by rewrite map_children_is_ast.
  rewrite (filled_size_kids v Hv), is_bare_super_map_children.
  rewrite kids_map_children by apply keeps_class_nodes, fix_super_class.
  rewrite map_map.
  assert (list_sum (map (fun c => filled_size (fix_super (PyStr cn) (Some (PyStr a)) c)) (kids v))
          <= list_sum (map filled_size (kids v))).
  { apply list_sum_le. intros c Hc. by apply (IH (walk_size c) (walk_size_kid v c Hc)). }
  lia.
Qed.

End filled.

Lemma fix_super_unfold (name : pyobj) (outer : option pyobj) (c : string)
    (fs : list (string * pyobj)) :
  fix_super name outer (Node c fs)
  = match match outer with Some _ => outer | None => first_param (Node c fs) end with
    | Some arg =>
        fill_super name arg
          (map_children
             (fix_super name
                (match outer with Some _ => outer | None => first_param (Node c fs) end))
             (Node c fs))
    | None => map_children (fix_super name None) (Node c fs)
    end.
Proof.
  cbn [fix_super map_children].
  by destruct (match outer with Some _ => outer | None => first_param (Node c fs) end).
Qed.

(** Where no call [super()] is left, nothing changes. *)
Lemma fix_super_done (name : pyobj) (outer : option pyobj) (v : pyobj) :
  all_walked not_bare_super v = true -> fix_super name outer v = v.
Proof.
  remember (walk_size v) as n eqn:Hn. revert v outer Hn.
  induction n as [n IH] using lt_wf_ind. intros v outer -> Hv.
  destruct v as [| | | | |c fs]; try done.
  rewrite all_walked_kids in Hv by done. apply andb_prop in Hv as [Hhere Hkids].
  rewrite forallb_forall in Hkids.
  assert (forall inner, map_children (fix_super name inner) (Node c fs) = Node c fs) as Hmap.
  { intros inner. apply map_children_id. intros x Hx.
    apply (IH (walk_size x) (walk_size_kid _ x Hx)); [done|].
    by apply Hkids, list_elem_of_In. }
  rewrite fix_super_unfold, !Hmap.
  destruct (match outer with Some _ => outer | None => first_param (Node c fs) end);
    [|done].
  apply fill_super_other. unfold not_bare_super in Hhere. by destruct (is_bare_super _).
Qed.

Lemma fix_super_plain (name arg : pyobj) (c : string) (fs : list (string * pyobj)) :
  String.eqb c "Call" = false ->
  fix_super name (Some arg) (Node c fs)
  = map_children (fix_super name (Some arg)) (Node c fs).
Proof.
  intros Hc. rewrite fix_super_some by done. apply fill_super_other.
  unfold is_bare_super. by rewrite map_children_fields_eq, isinstance_class, Hc.
Qed.

Lemma super_fields_map_children (name arg : pyobj) (v : pyobj) :
  super_fields v = true ->
  super_fields (map_children (fix_super name (Some arg)) v) = true.
Proof.
  destruct v as [| | | | |c fs]; try done.
  rewrite map_children_fields_eq. unfold super_fields.
  rewrite !isinstance_class. cbn [getattr]. rewrite !lookup_field_map.
  intros [H1 H2]%andb_prop. apply andb_true_intro. split.
  - clear H2. destruct (String.eqb c "FunctionDef"); [|done]. cbn [negb orb] in *.
    destruct (lookup_field "args" fs) as [margs|]; [|done].
    cbn [fmap option_fmap option_map].
    destruct margs as [| | | | |cm afs]; try done. cbn [getattr] in H1.
    destruct (lookup_field "args" afs) as [[| | | |l|]|] eqn:Hargs; try done.
    assert (cm = "arguments") as ->.
    { destruct l as [|sa l].
      - rewrite isinstance_class in H1. by apply String.eqb_eq in H1.
      - apply andb_prop in H1 as [[H1 _]%andb_prop _].
        rewrite isinstance_class in H1. by apply String.eqb_eq in H1. }
    cbn [map_value]. rewrite fix_super_plain, map_children_fields_eq by done.
    cbn [getattr]. rewrite lookup_field_map, Hargs.
    cbn [fmap option_fmap option_map map_value].
    destruct l as [|sa l]; [done|]. cbn [map].
    apply andb_prop in H1 as [[_ Hsa]%andb_prop Harg].
    destruct sa as [| | | | |cs fa]; try done.
    rewrite isinstance_class in Hsa. apply String.eqb_eq in Hsa as ->.
    rewrite fix_super_plain, map_children_fields_eq by done.
    cbn [getattr] in *. rewrite lookup_field_map.
    by destruct (lookup_field "arg" fa) as [[| | |s| |]|].
  - clear H1. destruct (String.eqb c "Call"); [|done]. cbn [negb orb] in *.
    destruct (lookup_field "func" fs) as [func|]; [|done].
    destruct (lookup_field "args" fs) as [[| | | |l|]|]; try done.
    cbn [fmap option_fmap option_map map_value].
    rewrite isinstance_map_value by apply fix_super_class.
    destruct func as [| | | | |cf ff]; try done.
    rewrite isinstance_class in *. destruct (String.eqb_spec cf "Name") as [->|]; [|done].
    cbn [negb orb map_value] in *. rewrite fix_super_plain, map_children_fields_eq by done.
    cbn [getattr] in *. rewrite lookup_field_map. by destruct (lookup_field "id" ff).
Qed.

Lemma super_fields_fill (name arg : pyobj) (v : pyobj) :
  super_fields v = true -> super_fields (fill_super name arg v) = true.
Proof.
  intros Hv. destruct (is_bare_super v) eqn:Hb; [|by rewrite fill_super_other].
  unfold fill_super. rewrite Hb. destruct v as [| | | | |c fs]; try done.
  apply is_bare_super_fields in Hb as [-> Hargs].
  unfold super_fields in *. cbn [setattr]. rewrite !isinstance_class in *.
  change ("Call" =? "FunctionDef")%string with false in *.
  change ("Call" =? "Call")%string with true in *.
  cbn [negb orb andb getattr] in *.
  rewrite (lookup_field_set_field "args" _ _ fs Hargs).
  rewrite lookup_field_set_field_ne by done. rewrite Hargs in Hv.
  by destruct (lookup_field "func" fs).
Qed.

Lemma fix_super_fields (cn a : string) (v : pyobj) :
  is_ast v = true -> all_walked super_fields v = true ->
  all_walked super_fields (fix_super (PyStr cn) (Some (PyStr a)) v) = true.
Proof.
  apply (all_walked_fix_super cn a super_fields super_fields); [done|].
  intros x _ Hx. by apply super_fields_fill, super_fields_map_children.
Qed.

Lemma first_param_fields (c : string) (fs : list (string * pyobj)) (arg : pyobj) :
  super_fields (Node c fs) = true -> first_param (Node c fs) = Some arg ->
  c = "FunctionDef" /\ exists a, arg = PyStr a.
Proof.
  unfold super_fields, first_param. rewrite !isinstance_class.
  intros [H _]%andb_prop.
  destruct (String.eqb_spec c "FunctionDef") as [->|]; [|done]. cbn [negb orb] in H.
  destruct (getattr _ "args") as [margs| |]; try done.
  destruct (getattr margs "args") as [[| | | |[|sa l]|]| |]; try done.
  apply andb_prop in H as [_ H].
  destruct (getattr sa "arg") as [[| | |s| |]| |]; try done.
  intros [= <-]. by eauto.
Qed.

(** The body of the outer loop runs the inner loop on the function
    definitions that have parameters. *)
Lemma method_body_fix (cn : string) (node : pyobj) (fuel : nat) (v : pyobj) :
  getattr node "name" = Ok (PyStr cn) ->
  is_ast v = true -> all_walked super_fields v = true -> walk_size v <= fuel ->
  ShortToLongFormSuperFixer.method_body fuel node v = Ok (fix_method (PyStr cn) v).
Proof.
  intros Hname Hv Hok Hfuel. pose proof (all_walked_here _ _ Hv Hok) as Hhere.
  unfold ShortToLongFormSuperFixer.method_body, fix_method, first_param.
  unfold super_fields in Hhere. apply andb_prop in Hhere as [Hhere _].
  destruct (isinstance v ["FunctionDef"]); [|done]. cbn [negb orb] in *.
  destruct (getattr v "args") as [margs| |]; try done. cbn [mbind result_bind].
  destruct (getattr margs "args") as [[| | | |[|sa l]|]| |]; try done.
  cbn [mbind result_bind py_len length Nat.eqb ShortToLongFormSuperFixer.first_item].
  apply andb_prop in Hhere as [_ Hsa].
  destruct (getattr sa "arg") as [[| | |s| |]| |] eqn:Harg; try done.
  by apply super_inner_walk.
Qed.

Lemma fix_method_class (name : pyobj) : keeps_class (fix_method name).
Proof.
  intros c fs. unfold fix_method.
  destruct (first_param (Node c fs)); [apply fix_super_class|by eexists].
Qed.

Lemma fix_method_param (name arg : pyobj) (v : pyobj) :
  super_fields v = true -> first_param v = Some arg ->
  fix_method name v = map_children (fix_super name (Some arg)) v.
Proof.
  intros Hok Hp. unfold fix_method. rewrite Hp.
  destruct v as [| | | | |c fs]; try done.
  destruct (first_param_fields c fs arg Hok Hp) as [-> _].
  by apply fix_super_plain.
Qed.

Lemma super_outer_children (cn : string) (v : pyobj) :
  is_ast v = true -> super_fields v = true ->
  foldl (fun t s => update_at [s] (fix_super (PyStr cn) None) t)
        (fix_method (PyStr cn) v) (steps v)
  = fix_super (PyStr cn) None v.
Proof.
  intros Hv Hok. destruct (first_param v) as [arg|] eqn:Hp.
  - rewrite (fix_method_param _ arg) by done.
    rewrite (fix_super_param _ arg) by done.
    rewrite <- (steps_map_children (fix_super (PyStr cn) (Some arg)) v)
      by apply fix_super_class.
    rewrite map_children_steps. apply map_children_id.
    intros x Hx. rewrite kids_map_children in Hx by apply keeps_class_nodes, fix_super_class.
    apply list_elem_of_In, in_map_iff in Hx as (c & <- & Hc%list_elem_of_In).
    destruct v as [| | | | |cls fs]; try done.
    destruct (first_param_fields cls fs arg Hok Hp) as [_ [a ->]].
    apply fix_super_done, fix_super_not_bare. by eapply kid_is_ast.
  - unfold fix_method. rewrite Hp, map_children_steps. symmetry. by apply fix_super_none.
Qed.

Lemma fix_method_queued (cn : string) (v : pyobj) (s : step) (c' : pyobj) :
  is_ast v = true -> all_walked super_fields v = true -> s ∈ steps v ->
  queued_child v (fix_method (PyStr cn) v) s = Some c' ->
  exists c,
    child v s = Some c /\ c ∈ kids v
    /\ is_ast c' = true /\ all_walked super_fields c' = true
    /\ filled_size c' <= filled_size c.
Proof.
  intros Hv Hok Hs Hq. destruct (steps_child v s Hs) as (c & Hc & Hkid).
  exists c. split; [done|]. split; [done|].
  pose proof (all_walked_here _ _ Hv Hok) as Hhere.
  assert (is_ast c = true) as Hcast by by eapply kid_is_ast.
  assert (all_walked super_fields c = true) as Hcok by by eapply all_walked_child.
  unfold queued_child in Hq.
  destruct (first_param v) as [arg|] eqn:Hp.
  - rewrite (fix_method_param _ arg) in Hq by done.
    rewrite child_map_children, Hc in Hq by apply fix_super_class.
    cbn in Hq. injection Hq as <-.
    destruct v as [| | | | |cls fs]; try done.
    destruct (first_param_fields cls fs arg Hhere Hp) as [_ [a ->]].
    split_and!.
    + by apply keeps_class_nodes; [apply fix_super_class|].
    + by apply fix_super_fields.
    + apply filled_size_fix_super.
  - unfold fix_method in Hq. rewrite Hp, Hc in Hq. injection Hq as <-. done.
Qed.

Lemma filled_size_steps (v : pyobj) :
  is_ast v = true ->
  S (list_sum (map (fun s => match child v s with
                             | Some c => filled_size c
                             | None => 0
                             end) (steps v))) <= filled_size v.
Proof.
  intros Hv. rewrite (filled_size_kids v Hv).
  assert (list_sum (map (fun s => match child v s with
                                  | Some c => filled_size c
                                  | None => 0
                                  end) (steps v))
          = list_sum (map filled_size (kids v))) as ->; [|lia].
  rewrite <- (map_map (child v) (fun o => match o with
                                          | Some c => filled_size c
                                          | None => 0
                                          end)).
  by rewrite steps_kids, map_map.
Qed.

(** The outer loop: every call [super()] in a function definition
    with parameters gets its arguments. *)
Lemma super_outer_walk (cn : string) (node : pyobj) (fuel : nat) (v : pyobj) :
  getattr node "name" = Ok (PyStr cn) ->
  is_ast v = true -> all_walked super_fields v = true -> filled_size v <= fuel ->
  walk (ShortToLongFormSuperFixer.method_body fuel node) fuel v
  = Ok (fix_super (PyStr cn) None v).
Proof.
  intros Hname Hv Hok Hfuel.
  apply (walk_spec _ (fix_method (PyStr cn)) (fix_super (PyStr cn) None)
           (fun v => is_ast v = true /\ all_walked super_fields v = true
                     /\ filled_size v <= fuel) filled_size);
    [| | | | | | |done|done].
  - by intros x [? _].
  - intros x (Hx & Hokx & Hsize). apply method_body_fix; [done..|].
    pose proof (walk_size_filled x). lia.
  - intros x s c (Hx & Hokx & Hsize) Hs Hq.
    destruct (fix_method_queued cn x s c Hx Hokx Hs Hq) as (c0 & _ & Hkid & ? & ? & Hle).
    split_and!; [done..|]. pose proof (filled_size_kid x c0 Hkid). lia.
  - intros x (Hx & Hokx & Hsize). etrans; [|by apply filled_size_steps].
    apply le_n_S, list_sum_le. intros s Hs.
    destruct (queued_child x (fix_method (PyStr cn) x) s) as [c|] eqn:Hq; [|lia].
    destruct (fix_method_queued cn x s c Hx Hokx Hs Hq) as (c0 & -> & _ & _ & _ & Hle).
    done.
  - apply fix_method_class.
  - apply keeps_class_nodes, fix_super_class.
  - intros x (Hx & Hokx & _). apply super_outer_children; [done|].
    by apply all_walked_here.
Qed.

(** X20. [ShortToLongFormSuperFixer.visit_ClassDef]: on a class
    definition with a name, whose function definitions and calls are
    as the parser builds them, and with fuel for its nodes and two
    arguments per call [super()], the fixer returns the class in
    which every call [super()] that is in a function definition with
    parameters has got two arguments: the name of the visited class,
    also in the methods of a class nested in it, and the first
    parameter of the outermost such definition around the call. The
    calls in no such definition stay, a tree without a call
    [super()] is not changed, and below a definition with parameters
    no call [super()] is left. *)
Theorem ShortToLongFormSuperFixer_fills (fuel : nat) (self : FixerBase)
    (cfg : BuildConfig) (cn : string) (node : pyobj) :
  isinstance node ["ClassDef"] = true -> getattr node "name" = Ok (PyStr cn) ->
  all_walked super_fields node = true -> filled_size node <= fuel ->
  ShortToLongFormSuperFixer.call fuel self cfg node
  = Ok (self, fix_super (PyStr cn) None node)
  /\ (forall outer v,
        all_walked not_bare_super v = true -> fix_super (PyStr cn) outer v = v)
  /\ (forall a v,
        is_ast v = true ->
        all_walked not_bare_super (fix_super (PyStr cn) (Some (PyStr a)) v) = true).
Proof.
  intros Hclass Hname Hok Hfuel. split_and!.
  - destruct node as [| | | | |c fs]; try done.
    rewrite isinstance_class in Hclass. apply String.eqb_eq in Hclass as ->.
    unfold ShortToLongFormSuperFixer.call, TransformerFixerBase_call.
    cbn [visit].
    change (ShortToLongFormSuperFixer.visitor fuel "ClassDef")
      with (Some (ShortToLongFormSuperFixer.visit_ClassDef fuel)).
    cbv iota. unfold ShortToLongFormSuperFixer.visit_ClassDef.
    by rewrite (super_outer_walk cn).
  - intros outer v. apply fix_super_done.
  - intros a v. apply fix_super_not_bare.
Qed.

Lemma ShortToLongFormSuperFixer_fills_witness :
  ShortToLongFormSuperFixer.call 100 ShortToLongFormSuperFixer.init default_cfg
    super_class
  = Ok (ShortToLongFormSuperFixer.init,
        ast.ClassDef "A" [name_ "Base"] []
          [method_def "__init__" [ast.arg "self" PyNone]
             [super_init_stmt [name_ "A"; name_ "self"];
              method_def "g" [ast.arg "x" PyNone]
                [super_init_stmt [name_ "A"; name_ "self"]]];
           method_def "s" [] [super_init_stmt []];
           ast.ClassDef "B" [] []
             [method_def "m" [ast.arg "this" PyNone]
                [super_init_stmt [name_ "A"; name_ "this"]]] []]
          []).
Proof.
  refine (proj1 (ShortToLongFormSuperFixer_fills 100 ShortToLongFormSuperFixer.init
                   default_cfg "A" super_class _ _ _ _)).
  - reflexivity.
  - reflexivity.
  - reflexivity.
  - vm_compute. lia.
Defined.
